(* ===== verification/_CoqProject ===== *)
-Q . S2P
Prelude.v
StdMap.v
CLib.v
NetSnmp.v
AlarmDefs.v
TrapSender.v
Options.v
RowTable.v
AlarmTables.v
ActiveTable.v
TableProps.v
TimerHeap.v
Scheduler.v
SchedulerSpec.v
SchedulerHeap.v
SchedulerRun.v
SchedulerProps.v
Oid.v
OidTree.v
TreeLock.v
StatHandlers.v
AstaireParser.v
NodeData.v
Zmq.v
ZmqListener.v
ClearwaterHandler.v
ThreadCreation.v
StatsThread.v
StatsWalk.v
PublishedSpec.v
AstaireSpec.v
LibraryThreads.v
ReqListener.v
ListenerStart.v
Agent.v
AgentThreads.v
AlarmDelivery.v
AgentSpec.v
UnitTests.v
SchedulerTests.v
