(* ===== verification/Prelude.v ===== *)
(** * Clearwater SNMP handlers: a verification development

    The repository holds two programs, and the development models both.

    - The _alarm agent_ ([src/src/alarms_agent.cpp]) receives triggers such as
      "1000.3" (alarm index and severity) from other processes, delays or drops
      them so that flickering alarms send nothing, sends the INFORMs of RFC 3877
      or of the enterprise MIB, and shows the alarms in three SNMP tables.
    - The _statistics libraries_, loaded by snmpd, subscribe to the statistics of
      a node over ZeroMQ, keep them in a tree of object identifiers, and answer
      GET and GETNEXT from it.

    The program is C++. Definitions are executable functions named after the
    functions they translate; state that C++ keeps in members, statics and singletons is a
    record passed along. [None] stands for what must not happen (a null or
    freed pointer, an index out of range, an overflow of [int], an uncaught
    exception) and for a loop out of fuel; theorems show it does not happen.
    Unsigned integers are [Z] with their wrap-around written out ([wrap], [u32],
    [u64]); signed overflow is [checked_int].

    ** Files

    Shared:
    - Prelude: integers, tactics, generic lemmas.
    - StdMap: [std::map] and [std::set] as sorted association lists ([smap]) over
      a comparison (class [Comparator], laws [StrictOrderLaws]), each operation
      refining one of [gmap].
    - CLib: [atoi], [sscanf("%u.%u")], printing of decimals, C strings, splitting.
    - NetSnmp: object identifiers with their orders, SNMP values, index encoding
      and row containers of Net-SNMP, as classes of operations and laws, with one
      instance ([Reference]) for concrete runs.

    The alarm agent:
    - AlarmDefs: [alarm_table_defs.cpp]. The table of alarm definitions, loading it
      from JSON files, lookup, [alarmModelState].
    - TrapSender: [alarm_trap_sender.cpp]. The two notifications and their variables, and
      readers of them with the identifiers of RFC 3877 and CLEARWATER-ENTERPRISE-MIB.
    - Options: the command line of [alarms_agent.cpp]. [getopt_long] over the source's table of
      options, which has no terminating entry, and the [switch] that stores their values.
    - RowTable: what the three table files repeat: registration, row insertion.
    - AlarmTables: [alarm_model_table.cpp], [itu_alarm_table.cpp].
    - ActiveTable: [alarm_active_table.cpp]. Row contexts are addresses into a store
      of live rows ([cb]'s container keeps pointers; a deleted row is freed),
      the index map is [alarm_indexes_to_rows], the counter wraps at 32 bits.
    - TableProps: the theorems on the three tables.
    - TimerHeap: the timer heap of cpp-common, a class [TimerHeap] with the laws
      [TimerHeapSpec] the scheduler relies on, and an instance ([ReferenceHeap]).
    - Scheduler: [alarm_scheduler.cpp] and the delivery callback. Every operation
      runs with [_lock] held, so each is one step on the whole state; the heap
      thread is [heap_sender_iteration], one pass up to its wait. Each signal of the
      condition variable is counted, for AgentThreads.
    - SchedulerSpec: the abstract specification. An alarm is the severity last
      sent and a timer that is idle, scheduled or cancelled; [event_spec] says what
      each event does to it. [view] abstracts the state, [sched_wf] is the
      invariant, and every operation is shown to implement its specification.
    - SchedulerHeap: the passes of the heap thread.
    - SchedulerRun: events in any order, reachable states, executions.
    - SchedulerProps: the theorems on the scheduler.
    - Zmq: ZeroMQ as the script of results its calls return, retries on EINTR, and the
      loop both listeners read a message with.
    - ReqListener: [alarm_req_listener.cpp]. Start and stop, the thread's actions on
      a script, what it does with a request, and the result of each reply, which it ignores.
    - ListenerStart: the hand-over of [AlarmReqListener::start] to its new thread over
      [_start_mutex] and [_start_cond], step by step.
    - Agent: [main] of [alarms_agent.cpp] from its arguments to the wait, which establishes
      what the theorems of SchedulerProps assume.
    - AgentThreads: the rest of [main], with the destructors, interleaved with the
      heap thread, the listener thread and Net-SNMP's thread. [agent_step] is one step of one
      thread, between two points where it can be held up.
    - AlarmDelivery: from a request to the notifications and the Alarm Active
      Table, over those interleavings; [step_event] projects them to the events
      of SchedulerRun.
    - AgentSpec: the abstract specification of the agent on the same actions, in
      which an alarm is what SchedulerSpec makes of it, a request or callback changes one
      or every alarm, and a pass of the heap thread sends what is due; a forward simulation
      from AgentThreads, and what a manager is told over a whole run.

    The statistics libraries:
    - Oid: [oid.cpp], [oid_inet_addr.cpp].
    - OidTree: [oidtree.cpp], a [smap] ordered by [OIDCompare].
    - TreeLock: the same operations as lists of instructions that take and release the
      recursive mutex, run by any number of threads.
    - StatHandlers: [zmq_message_handler.cpp] and the handlers of [astairedata.cpp]:
      from the frames of a message to changes of the tree.
    - AstaireParser: the connections a message lists, read by pattern matching
      ([connections_of]); the loops of the handler compute the same; the messages for which every
      handler succeeds.
    - NodeData: [nodedata.hpp] and the data of [cdivdata.cpp], [mementodata.cpp],
      [mementoasdata.cpp], [astairedata.cpp].
    - ZmqListener: [zmq_listener.cpp], the thread that writes the tree.
    - ClearwaterHandler: [custom_handler.cpp], the SNMP side, and the libraries'
      initialisers.
    - ThreadCreation: the double-checked start of the statistics thread in
      [clearwater_handler], step by step.
    - StatsThread: [start_stats] to its end with the destructor of [ZMQListener], and a
      published value on its way to a manager.
    - StatsWalk: a manager that walks a table by repeated GETNEXT, each request in a
      state of its own; the arcs in range that every library keeps.
    - PublishedSpec: the abstract specification of the libraries of single values and
      averages, a finite map from each statistic to the entries of its last message
      ([spec_message], [spec_event], [shows]). A simulation takes the thread, its handlers, the
      tree and the node data to it; [published_answer] and the walks are stated on it.
    - AstaireSpec: the same for Astaire, whose specification keeps five counters and a list of
      connections and shows them as the cells of CLEARWATER-MIB-COMMON ([astaire_cells]).
    - LibraryThreads: the statistics thread and requests to [clearwater_handler]
      interleaved: each call a handler makes of the tree, each store of [last_seen_time]
      and each look-up of a request is a step ([library_thread_step]); what a request is
      answered, from the turns the request itself takes, in terms of PublishedSpec.

    Tests:
    - UnitTests: the fixture and the table tests of [src/src/ut], run on the model,
      and the fake of Net-SNMP.
    - SchedulerTests: [alarm_scheduler_test.cpp] with its matchers and the alarm files,
      [alarm_table_defs_test.cpp] and [alarm_req_listener_test.cpp]. A test is the
      list of its steps, run with the heap thread woken after every step and only when
      the test waits.

    ** How the parts interact

    A request read by ReqListener becomes an event of the scheduler ([Issue],
    [Sync]); Net-SNMP's delivery reports are [Callback] events; the heap thread's
    passes are [HeapSender] events. A pass calls [send_trap] (TrapSender) and the trap
    handler of the Alarm Active Table (ActiveTable), both inside the scheduler's
    state. The definitions (AlarmDefs) are shared and never change after
    [initialize]. In a statistics library the listener thread is the only writer of
    the tree, each tree operation takes the tree's lock, and the SNMP side only
    reads; [library_step] interleaves the two message by message, and
    [library_thread_step] operation by operation.

    Threads come in two layers. The files named after components take what runs under a
    lock as one step: an event of the scheduler, an operation of the tree,
    [ensure_thread], [start_listener]. AgentThreads, TreeLock, ThreadCreation and
    ListenerStart run the locks, waits, signals and joins themselves in every
    interleaving, and show that those steps are what the threads add up to. Above
    both, AgentSpec and LibraryThreads compose them: the first takes the threads of the agent
    to a specification without heap, locks or waits, the second runs the atomic
    operations of TreeLock for the handlers and requests that call them. The statistics
    side has its specifications in PublishedSpec and AstaireSpec: [represents] and
    [astaire_represents] relate the state of a library to them after whole messages, and
    [tree_after_published] carries the first to the threads of LibraryThreads.

    ** What is proved

    - Safety: from start-up, any order of events keeps the invariant and the next
      event completes ([scheduler_safe], [agent_starts], [requests_served],
      [active_table_safe], [stats_tree_invariant], [listener_replies_once]).
    - Threads: in every interleaving the scheduler outlives its heap thread and nothing
      crashes before the termination signal, after which only the listener thread and
      Net-SNMP's, whose lock is destroyed, can ([agent_threads_safe]); the heap thread's wait is always the right
      one ([heap_thread_waits_right]); [main] ends ([agent_shuts_down]). Operations
      of the tree are atomic ([tree_operations_atomic]), the statistics thread is created
      once ([thread_created_once]), the listener's hand-over has no race until its wait
      wakes up spuriously, and the steps that then misuse it are named ([listener_start_safe]).
    - From end to end: a trigger becomes notifications and a row
      ([trigger_reaches_manager]), a published statistic the answer to a GET
      ([published_value_answered]); a walk returns what is published, all of it and
      nothing else ([published_walked], [astaire_walked]); a manager is
      not told the same thing twice ([notifications_never_repeat]).
    - Requests beside messages: a request is answered from the history of the library
      ([requests_read_history]) exactly when that is fresh at its own first turn, and, where a
      message is one change of the tree, from whole messages as the specification has it
      ([answered_as_published]);
      a walk sees every entry ([walk_subtree]) and, while messages come, no
      identifier twice ([walk_sound]).
    - Refinement: the agent with its threads of AgentSpec ([agent_refines_spec]), the
      scheduler of its abstract specification
      ([scheduler_refines_spec]), the Alarm Active Table of the history of traps
      ([active_table_history]), the tree of a finite map ([oid_tree_refines_map]), the
      libraries of what is published ([library_refines_published],
      [astaire_refines_published]), Astaire's loop over frames of a parser
      ([connections_parsed]).
    - What is sent and when: [heap_sender_sends_due], [scheduled_alarm_delivered],
      [issue_alarm_schedules], [flicker_suppressed], [sync_alarms_schedules],
      [failed_inform_retried]; what a reader of the notifications learns
      ([notifications_decoded]).
    - Loading: [initialize_correct], in whatever order the directory is listed
      ([initialize_order_independent]).
    - Agreement of the parts: [active_table_shows_last_sent], [row_pointers_agree],
      [model_table_rows], [itu_table_rows], [last_published_value].
    - Statistics messages: [handle_confined], [value_message_handled]; reading them back: [get_next_least],
      [walk_complete], [clearwater_handler_answers], [library_thread].
    - Types, bounds and errors: every cell has its column's type ([get_value_types]);
      arcs beyond [INT_MAX] ([append_string_arc_range]); bad triggers change nothing
      ([issue_alarm_rejects]); what a statistics thread that fails leaves
      ([stats_thread_error]); what every command line does ([agent_starts]).
    - Encodings: the row index of an address ([address_index_self_delimiting]), the octets of a
      time stamp ([time_issued_decoded]), round trips of identifiers and triggers.
    Lemmas that record a defect of the code rather than a promise of it say so in
    their comments: [cancelled_timer_keeps_pop_time], [active_model_pointer_row],
    [time_issued_decoded], [ip_count_message_handled], [append_string_arc_range],
    [bucket_count_overflow], [memento_http_unanswered], [spurious_wake_up_misuse],
    [failed_creation_final], [context_not_created], [astaire_globals_torn],
    [old_value_answered_as_fresh]. Three tests do not show what they say:
    [increase_to_major_waits], [enterprise_trap_differs], [SetBothAlarms].

    ** Bounds and fuel

    - [pop_due] takes fuel; every turn removes a timer from the heap, so the number of
      timers, at most the number of alarms, is enough ([heap_sender_loop_terminates]).
    - The row counter of the Alarm Active Table is 32 bits wide. Theorems on
      reachable states ask that passes times alarms stay below [UINT_MAX]; beyond,
      the counter comes round and a new row can get the index of a live one. On
      interleavings the passes are counted by [agent_reachable] and [passes].
    - The machines of threads have no fuel: a run follows a list of actions or a schedule,
      and progress is shown by measures ([remaining], [handshake_left]) or by a
      step that is always possible.
    - [receive_loop], [listener_loop] and [listen_loop] take fuel; each turn uses a
      result of the script, so they start with more than its length, and more changes nothing.
    - [bucket_loop] and [connection_loop] take the size of the message; each turn
      moves on by at least four frames.
    - [parse_connections] takes the number of frames; each turn takes five of them or more,
      and more fuel reads no more ([parse_connections_fuel]).
    - [good_message] limits a message to 2^28 frames and, in a list of Astaire's connections,
      the bucket counts to 2^28, so that the handlers' [int] arithmetic stays in range
      ([bucket_count_overflow] shows a count that does not); the published values are not
      limited. The statistic is one subscribed to; ZeroMQ matches by prefix, and a message of
      another statistic whose name extends a subscribed one would end the process.
    - [walk] takes the number of entries of the tree; [snmpwalk] takes the moments of
      the manager's requests, and a theorem says how many of them it uses.
    - Times are milliseconds below 2^64 where a theorem needs a pop time to be exact.

    ** Parameters

    Code outside the repository is a class, and what is assumed of it a class of laws that
    concrete instances satisfy: [AlarmDefLib] and [JsonAlarms] (cpp-common's
    alarm definitions and their parser; [JsonAlarmsSpec]: it accepts only severities of
    X.733), [TimerHeap], [AgentUtils] (string splitting), [NetSnmpOids],
    [NetSnmpIndex], [NetSnmpContainer], [InetPton]. [atoi] and ["%u"] follow glibc
    where the C standard leaves overflow open. Failures of allocation, registration
    and encoding, clock readings, and results of ZeroMQ calls are arguments.

    ** Not modelled

    The memory model: a step of a thread is atomic, and reads of the clock, of globals
    and of containers inside it are too. The locks are those the source names;
    the lock the scheduler shares with Net-SNMP's own thread is taken as held where
    that thread runs, and a critical section is one step, so that the lock is never destroyed
    while it is held. [getopt_long] is the C library's, without the messages it prints. Logging, and what [perror] prints; deletions that only free memory,
    but for those a thread can still see; the SNMP protocol itself, which is
    Net-SNMP's; of the tests, the macros and mocks of gmock beyond the
    order in which a call is offered to the expectations, the log captures and
    [test_main.cpp]; the MIB generator (Python), MIB texts, build files
    and packaging. *)

From Stdlib Require Export Ascii String ZArith Lia.
From stdpp Require Export base tactics list gmap strings fin_maps sorting.

#[global] Open Scope string_scope.
#[global] Open Scope list_scope.
#[global] Open Scope Z_scope.
#[export] Set Warnings "-clear-no-such-hyp".

(** ** Notations *)

Declare Scope snmp_scope.
Delimit Scope snmp_scope with snmp.

#[global] Open Scope snmp_scope.

(** ** Machine integers *)

Definition UINT_MAX : Z := 2 ^ 32 - 1.
Definition INT_MAX : Z := 2 ^ 31 - 1.
Definition INT_MIN : Z := - 2 ^ 31.
Definition LONG_MAX : Z := 2 ^ 63 - 1.
Definition LONG_MIN : Z := - 2 ^ 63.
Definition ULONG_MAX : Z := 2 ^ 64 - 1.
Definition UINT64_MAX : Z := 2 ^ 64 - 1.

(** Conversion to an unsigned type of [w] bits, and to a signed one. *)
Definition wrap (w x : Z) : Z := x mod 2 ^ w.
Definition swrap (w x : Z) : Z := (x + 2 ^ (w - 1)) mod 2 ^ w - 2 ^ (w - 1).

Definition u8 (x : Z) : Z := wrap 8 x.
Definition u16 (x : Z) : Z := wrap 16 x.
Definition u32 (x : Z) : Z := wrap 32 x.
Definition u64 (x : Z) : Z := wrap 64 x.
Definition s32 (x : Z) : Z := swrap 32 x.

Definition in_u32 (x : Z) : Prop := 0 <= x <= UINT_MAX.
Definition in_s32 (x : Z) : Prop := INT_MIN <= x <= INT_MAX.

(** Signed [int] arithmetic: [None] is the undefined behaviour of an overflow. *)
Definition checked_int (x : Z) : option Z :=
  if (INT_MIN <=? x) && (x <=? INT_MAX) then Some x else None.

(** ** Tactics *)

(** Split every boolean test of the goal or of a hypothesis. *)
Ltac split_bools :=
  repeat match goal with
  | H : (_ && _)%bool = true |- _ => apply andb_true_iff in H as [? ?]
  | H : (_ || _)%bool = false |- _ => apply orb_false_iff in H as [? ?]
  | H : negb _ = true |- _ => apply negb_true_iff in H
  | H : negb _ = false |- _ => apply negb_false_iff in H
  | H : (_ <? _) = true |- _ => apply Z.ltb_lt in H
  | H : (_ <? _) = false |- _ => apply Z.ltb_ge in H
  | H : (_ <=? _) = true |- _ => apply Z.leb_le in H
  | H : (_ <=? _) = false |- _ => apply Z.leb_gt in H
  | H : (_ =? _) = true |- _ => apply Z.eqb_eq in H
  | H : (_ =? _) = false |- _ => apply Z.eqb_neq in H
  | H : bool_decide _ = true |- _ => apply bool_decide_eq_true in H
  | H : bool_decide _ = false |- _ => apply bool_decide_eq_false in H
  end.

(** Case analysis on the tests a goal branches on, keeping the equations. *)
Ltac case_tests :=
  repeat (case_match; simplify_eq/=); split_bools.

Ltac unfold_ints :=
  unfold u8, u16, u32, u64, s32, swrap, wrap, in_u32, in_s32,
    UINT_MAX, INT_MAX, INT_MIN, LONG_MAX, LONG_MIN, ULONG_MAX, UINT64_MAX in *.

(** ** Generic lemmas *)

Create HintDb snmp.
Create Rewrite HintDb snmp_rw.

Lemma wrap_range w x : 0 <= w -> 0 <= wrap w x < 2 ^ w.
Proof. intros Hw. apply Z.mod_pos_bound. lia. Qed.

Lemma wrap_id w x : 0 <= x < 2 ^ w -> wrap w x = x.
Proof. apply Z.mod_small. Qed.

Lemma swrap_id w x : 0 < w -> - 2 ^ (w - 1) <= x < 2 ^ (w - 1) -> swrap w x = x.
Proof.
  intros Hw Hx. unfold swrap.
  assert (2 ^ w = 2 * 2 ^ (w - 1)) as Hp.
  { rewrite <- Z.pow_succ_r by lia. f_equal. lia. }
  rewrite Z.mod_small; lia.
Qed.

Lemma swrap_range w x : 0 < w -> - 2 ^ (w - 1) <= swrap w x < 2 ^ (w - 1).
Proof.
  intros Hw. unfold swrap.
  assert (2 ^ w = 2 * 2 ^ (w - 1)) as Hp.
  { rewrite <- Z.pow_succ_r by lia. f_equal. lia. }
  pose proof (Z.mod_pos_bound (x + 2 ^ (w - 1)) (2 ^ w)). lia.
Qed.

Lemma checked_int_Some x y : checked_int x = Some y <-> y = x /\ in_s32 x.
Proof.
  unfold checked_int, in_s32. case_tests; split; intros; destruct_and?; simplify_eq; try lia; auto.
Qed.

#[export] Hint Resolve wrap_range swrap_range : snmp.
#[export] Hint Rewrite wrap_id swrap_id using lia : snmp_rw.

Lemma StronglySorted_impl_in {A} (R R' : A -> A -> Prop) l :
  (forall x y, x ∈ l -> y ∈ l -> R x y -> R' x y) -> StronglySorted R l -> StronglySorted R' l.
Proof.
  intros HR Hl. induction Hl as [|x l Hl IH Hx]; [constructor|]. constructor.
  - apply IH. intros y z Hy Hz. apply HR; by right.
  - rewrite Forall_forall in *. intros y Hy. apply HR; [by left|by right|auto].
Qed.

Lemma bind_ext_in {A B} (f g : A -> list B) (l : list A) :
  (forall x, x ∈ l -> f x = g x) -> l ≫= f = l ≫= g.
Proof.
  intros Hfg. induction l as [|x l IH]; [done|]. cbn. rewrite Hfg by by left. f_equal.
  apply IH. intros y Hy. apply Hfg. by right.
Qed.
