(* ===== verification/StdMap.v ===== *)
(** [std::map] of the C++ standard library, as the program uses it: an ordered
    association list over a key type with a comparator, with the operations the
    source calls ([find], [operator[]], [emplace]/[insert], [erase],
    [upper_bound], iteration in key order), the sortedness invariant every
    operation preserves, lookup laws for every operation, extensionality, and
    the refinement of the ordered list to stdpp's [gmap].

    The comparators themselves ([AlarmTableDefKey::operator<], [OIDCompare],
    the built-in [<] on unsigned integers) are instances of [Comparator] given
    by the components that declare them; their order laws are [StrictOrderLaws]. *)

From S2P Require Export Prelude.

(** ** Comparators *)

Class Comparator (K : Type) := cmp_lt : K -> K -> bool.

Notation "a ≺ b" := (cmp_lt a b = true) (at level 70, no associativity) : snmp_scope.
Notation "a ⊀ b" := (cmp_lt a b = false) (at level 70, no associativity) : snmp_scope.

Class StrictOrderLaws (K : Type) `{Comparator K} := {
  cmp_irrefl : forall a : K, a ⊀ a;
  cmp_trans : forall a b c : K, a ≺ b -> b ≺ c -> a ≺ c;
  cmp_total : forall a b : K, a ⊀ b -> b ⊀ a -> a = b;
}.

(** The built-in order of integer keys. *)
#[export] Instance Z_comparator : Comparator Z := Z.ltb.

(** ** Operations *)

Abbreviation smap K V := (list (K * V)).

Section operations.
Context {K V : Type} `{Comparator K}.

(** [m.find(k)]: the first entry whose key is not below [k], if equivalent. *)
Fixpoint find_key (k : K) (m : smap K V) : option V :=
  match m with
  | [] => None
  | (k', v) :: m' =>
    if cmp_lt k' k then find_key k m' else if cmp_lt k k' then None else Some v
  end.

(** [m[k] = v] *)
Fixpoint assign (k : K) (v : V) (m : smap K V) : smap K V :=
  match m with
  | [] => [(k, v)]
  | (k', v') :: m' =>
    if cmp_lt k' k then (k', v') :: assign k v m'
    else if cmp_lt k k' then (k, v) :: (k', v') :: m'
    else (k', v) :: m'
  end.

(** [m.emplace(k, v)], [m.insert({k, v})]: an equivalent key is kept. *)
Fixpoint emplace (k : K) (v : V) (m : smap K V) : smap K V :=
  match m with
  | [] => [(k, v)]
  | (k', v') :: m' =>
    if cmp_lt k' k then (k', v') :: emplace k v m'
    else if cmp_lt k k' then (k, v) :: (k', v') :: m'
    else (k', v') :: m'
  end.

(** [m.erase(k)] *)
Fixpoint erase (k : K) (m : smap K V) : smap K V :=
  match m with
  | [] => []
  | (k', v') :: m' =>
    if cmp_lt k' k then (k', v') :: erase k m'
    else if cmp_lt k k' then (k', v') :: m'
    else m'
  end.

(** [m.upper_bound(k)]: the first entry above [k]. *)
Fixpoint upper_bound (k : K) (m : smap K V) : option (K * V) :=
  match m with
  | [] => None
  | (k', v') :: m' => if cmp_lt k k' then Some (k', v') else upper_bound k m'
  end.

(** [m.insert(first, last)] *)
Definition insert_range (update m : smap K V) : smap K V :=
  fold_left (fun acc kv => emplace kv.1 kv.2 acc) update m.

(** A [for] loop over a copy of the map that erases the keys that satisfy [p]. *)
Definition erase_if (p : K -> bool) (m : smap K V) : smap K V :=
  fold_left (fun acc kv => if p kv.1 then erase kv.1 acc else acc) m m.

Definition key_lt (p q : K * V) : Prop := p.1 ≺ q.1.

(** The order in which a [std::map] stores and iterates its entries. *)
Definition sorted (m : smap K V) : Prop := StronglySorted key_lt m.
End operations.

(** ** Lemmas *)

#[export] Instance Z_order : StrictOrderLaws Z.
Proof.
  split; unfold cmp_lt, Z_comparator; intros; rewrite ?Z.ltb_lt, ?Z.ltb_ge in *; lia.
Qed.

Section laws.
Context {K V : Type} `{StrictOrderLaws K}.
Implicit Types (m : smap K V) (k : K) (v : V).

Lemma cmp_asym (a b : K) : a ≺ b -> b ⊀ a.
Proof.
  intros Hab. destruct (cmp_lt b a) eqn:Hba; [|done].
  pose proof (cmp_trans _ _ _ Hab Hba). by rewrite cmp_irrefl in *.
Qed.

Lemma cmp_neq (a b : K) : a ≺ b -> a <> b.
Proof. intros Hab ->. by rewrite cmp_irrefl in *. Qed.

Lemma sorted_cons k v m :
  sorted ((k, v) :: m) <-> sorted m /\ Forall (fun q => k ≺ q.1) m.
Proof.
  split.
  - inversion 1; subst. done.
  - intros [??]. constructor; done.
Qed.

Lemma sorted_nil : sorted ([] : smap K V).
Proof. constructor. Qed.

(** Nothing below or equal to the least key is found. *)
Lemma find_below k m : Forall (fun q => k ≺ q.1) m -> find_key k m = None.
Proof.
  destruct m as [|[k' v'] m]; [done|]. intros [Hk _]%Forall_cons. simpl in *.
  by rewrite (cmp_asym _ _ Hk), Hk.
Qed.

Lemma find_cons_eq k v m : find_key k ((k, v) :: m) = Some v.
Proof. simpl. by rewrite cmp_irrefl. Qed.

Lemma find_cons_ne k k' v m :
  sorted ((k', v) :: m) -> k <> k' -> find_key k ((k', v) :: m) = find_key k m.
Proof.
  intros [Hs Hk']%sorted_cons Hne. simpl.
  destruct (cmp_lt k' k) eqn:?; [done|]. destruct (cmp_lt k k') eqn:Hk.
  - symmetry. apply find_below. eapply Forall_impl; [done|].
    intros q ?; simpl in *; eauto using cmp_trans.
  - exfalso. eauto using cmp_total.
Qed.

Lemma find_Some_elem m k v : sorted m -> find_key k m = Some v <-> (k, v) ∈ m.
Proof.
  induction m as [|[k' v'] m IH]; intros Hs.
  { split; [done|]. by intros ?%not_elem_of_nil. }
  pose proof Hs as [Hs' Hall]%sorted_cons.
  rewrite elem_of_cons. simpl.
  destruct (cmp_lt k' k) eqn:Hlt.
  { rewrite IH by done. split; [by right|]. intros [?|?]; [|done]. simplify_eq.
    by rewrite cmp_irrefl in *. }
  destruct (cmp_lt k k') eqn:Hgt.
  { split; [done|]. intros [?|Hin]; simplify_eq; [by rewrite cmp_irrefl in *|].
    rewrite Forall_forall in Hall. specialize (Hall _ Hin). simpl in Hall. congruence. }
  pose proof (cmp_total _ _ Hlt Hgt) as ->.
  split; [intros ?; simplify_eq; by left|]. intros [?|Hin]; [by simplify_eq|].
  rewrite Forall_forall in Hall. specialize (Hall _ Hin). simpl in Hall.
  by rewrite cmp_irrefl in *.
Qed.

Lemma find_elem_of_keys m k : sorted m -> is_Some (find_key k m) <-> k ∈ m.*1.
Proof.
  intros Hs. rewrite list_elem_of_fmap. split.
  - intros [v Hv]. apply find_Some_elem in Hv; [|done]. by exists (k, v).
  - intros ([k' v] & -> & Hin). exists v. by apply find_Some_elem.
Qed.

(** Decide the comparison of two keys, as a three-way case analysis. *)
Lemma cmp_cases (a b : K) :
  (a ≺ b /\ b ⊀ a /\ a <> b) \/ (a = b /\ a ⊀ b) \/ (b ≺ a /\ a ⊀ b /\ a <> b).
Proof.
  destruct (cmp_lt a b) eqn:Hab.
  - left. eauto using cmp_asym, cmp_neq.
  - destruct (cmp_lt b a) eqn:Hba.
    + right; right. split_and!; [done..|]. intros ->. by rewrite cmp_irrefl in *.
    + right; left. eauto using cmp_total.
Qed.
End laws.

#[export] Hint Extern 1 (sorted []) => apply sorted_nil : snmp.

(** Three-way analysis of [a] against [b], with the tests rewritten in the goal. *)
Ltac cmp a b :=
  let H1 := fresh "Hab" in let H2 := fresh "Hba" in let H3 := fresh "Hne" in
  destruct (cmp_cases a b) as [(H1 & H2 & H3)|[(<- & H1)|(H2 & H1 & H3)]];
  rewrite ?cmp_irrefl, ?H1; try rewrite ?H2.

Section updates.
Context {K V : Type} `{StrictOrderLaws K}.
Implicit Types (m : smap K V) (k : K) (v : V).

Lemma below_trans k k' m :
  k ≺ k' -> Forall (fun q => k' ≺ q.1) m -> Forall (fun q => k ≺ q.1) m.
Proof. intros Hk Hm. eapply Forall_impl; [exact Hm|]. intros q ?. eauto using cmp_trans. Qed.

Lemma assign_below k k' v m :
  k ≺ k' -> Forall (fun q => k ≺ q.1) m -> Forall (fun q => k ≺ q.1) (assign k' v m).
Proof.
  intros Hk. induction 1 as [|[k1 v1] m Hk1 Hm IH]; simpl; [by repeat constructor|].
  simpl in *. cmp k1 k'; repeat constructor; auto.
Qed.

Lemma emplace_below k k' v m :
  k ≺ k' -> Forall (fun q => k ≺ q.1) m -> Forall (fun q => k ≺ q.1) (emplace k' v m).
Proof.
  intros Hk. induction 1 as [|[k1 v1] m Hk1 Hm IH]; simpl; [by repeat constructor|].
  simpl in *. cmp k1 k'; repeat constructor; auto.
Qed.

Lemma erase_below k k' m :
  Forall (fun q => k ≺ q.1) m -> Forall (fun q => k ≺ q.1) (erase k' m).
Proof.
  induction 1 as [|[k1 v1] m Hk1 Hm IH]; simpl; [by constructor|].
  simpl in *. cmp k1 k'; repeat constructor; auto.
Qed.

Lemma assign_sorted k v m : sorted m -> sorted (assign k v m).
Proof.
  induction m as [|[k1 v1] m IH]; intros Hs; simpl; [by repeat constructor|].
  apply sorted_cons in Hs as Hs'. destruct Hs' as [Hm Hb].
  cmp k1 k; apply sorted_cons; split; auto using assign_below.
  constructor; [done|]. eauto using below_trans.
Qed.

Lemma emplace_sorted k v m : sorted m -> sorted (emplace k v m).
Proof.
  induction m as [|[k1 v1] m IH]; intros Hs; simpl; [by repeat constructor|].
  apply sorted_cons in Hs as Hs'. destruct Hs' as [Hm Hb].
  cmp k1 k; apply sorted_cons; split; auto using emplace_below.
  constructor; [done|]. eauto using below_trans.
Qed.

Lemma erase_sorted k m : sorted m -> sorted (erase k m).
Proof.
  induction m as [|[k1 v1] m IH]; intros Hs; simpl; [done|].
  apply sorted_cons in Hs as Hs'. destruct Hs' as [Hm Hb].
  cmp k1 k; [apply sorted_cons; split; auto using erase_below|done|done].
Qed.

Lemma find_assign_eq k v m : find_key k (assign k v m) = Some v.
Proof.
  induction m as [|[k1 v1] m IH]; simpl; [by rewrite cmp_irrefl|].
  cmp k1 k; simpl; rewrite ?cmp_irrefl, ?Hab, ?Hba; auto.
Qed.

Lemma assign_keys k v m :
  sorted m -> is_Some (find_key k m) -> (assign k v m).*1 = m.*1.
Proof.
  induction m as [|[k1 v1] m IH]; intros Hs Hk; simpl; [by destruct Hk|].
  apply sorted_cons in Hs as Hs'. destruct Hs' as [Hm Hb]. simpl in Hk.
  cmp k1 k; simpl; [|done|].
  - rewrite Hab in Hk. f_equal. by apply IH.
  - rewrite Hba, Hab in Hk. by destruct Hk.
Qed.

Lemma find_assign_ne k k' v m : k <> k' -> find_key k (assign k' v m) = find_key k m.
Proof.
  intros Hne. induction m as [|[k1 v1] m IH]; simpl.
  { cmp k k'; done. }
  cmp k1 k'; simpl; [by rewrite IH|by cmp k1 k|].
  cmp k' k; [done|congruence|].
  by rewrite (cmp_asym k k1), (cmp_trans k k' k1) by eauto using cmp_trans.
Qed.

Lemma find_emplace_eq k v m :
  find_key k (emplace k v m) = Some (default v (find_key k m)).
Proof.
  induction m as [|[k1 v1] m IH]; simpl; [by rewrite cmp_irrefl|].
  cmp k1 k; simpl; rewrite ?cmp_irrefl, ?Hab, ?Hba; auto.
Qed.

Lemma find_emplace_ne k k' v m : k <> k' -> find_key k (emplace k' v m) = find_key k m.
Proof.
  intros Hne. induction m as [|[k1 v1] m IH]; simpl.
  { cmp k k'; done. }
  cmp k1 k'; simpl; [by rewrite IH|by cmp k1 k|].
  cmp k' k; [done|congruence|].
  by rewrite (cmp_asym k k1), (cmp_trans k k' k1) by eauto using cmp_trans.
Qed.

Lemma find_erase_eq k m : sorted m -> find_key k (erase k m) = None.
Proof.
  induction m as [|[k1 v1] m IH]; intros Hs; [done|]. simpl.
  apply sorted_cons in Hs as [Hm Hb].
  cmp k1 k; simpl; rewrite ?Hab, ?Hba; auto using find_below.
Qed.

Lemma find_erase_ne k k' m : sorted m -> k <> k' -> find_key k (erase k' m) = find_key k m.
Proof.
  intros Hs Hne. induction m as [|[k1 v1] m IH]; [done|]. simpl erase.
  apply sorted_cons in Hs as Hs'. destruct Hs' as [Hm Hb].
  cmp k1 k'; [simpl; by rewrite IH|symmetry; by apply find_cons_ne|done].
Qed.

(** A sorted map is determined by its lookups. *)
Lemma smap_ext m1 m2 :
  sorted m1 -> sorted m2 -> (forall k, find_key k m1 = find_key k m2) -> m1 = m2.
Proof.
  revert m2. induction m1 as [|[k1 v1] m1 IH]; intros [|[k2 v2] m2] Hs1 Hs2 Heq; [done|..].
  - specialize (Heq k2). by rewrite find_cons_eq in Heq.
  - specialize (Heq k1). by rewrite find_cons_eq in Heq.
  - apply sorted_cons in Hs1 as Hs1'. destruct Hs1' as [Hm1 Hb1].
    apply sorted_cons in Hs2 as Hs2'. destruct Hs2' as [Hm2 Hb2].
    destruct (cmp_cases k1 k2) as [(H1&H2&H3)|[(<-&H1)|(H2&H1&H3)]].
    + specialize (Heq k1). rewrite find_cons_eq, find_below in Heq; [done|].
      constructor; [done|]. eauto using below_trans.
    + pose proof (Heq k1) as Hv. rewrite !find_cons_eq in Hv. simplify_eq. f_equal.
      apply IH; [done..|]. intros k.
      destruct (cmp_cases k k1) as [(?&?&?)|[(->&?)|(?&?&?)]].
      * by rewrite !find_below by eauto using below_trans.
      * by rewrite !find_below.
      * by rewrite <- (find_cons_ne k k1 v2 m1), <- (find_cons_ne k k1 v2 m2).
    + specialize (Heq k2). rewrite find_cons_eq, find_below in Heq; [done|].
      constructor; [done|]. eauto using below_trans.
Qed.

(** [upper_bound] returns the least entry above the key. *)
Lemma upper_bound_Some k k' v m :
  sorted m -> upper_bound k m = Some (k', v) ->
  k ≺ k' /\ find_key k' m = Some v /\ forall k'', is_Some (find_key k'' m) -> k ≺ k'' -> k' = k'' \/ k' ≺ k''.
Proof.
  intros Hs. induction m as [|[k1 v1] m IH]; [done|]. intros Hu. simpl in Hu.
  apply sorted_cons in Hs as Hs'. destruct Hs' as [Hm Hb].
  destruct (cmp_cases k k1) as [(H1&H2&H3)|Hle].
  - rewrite H1 in Hu. simplify_eq. split_and!; [done|apply find_cons_eq|].
    intros k'' Hk'' Hlt. destruct (cmp_cases k' k'') as [(?&?&?)|[(->&?)|(?&?&?)]]; [by right|by left|].
    rewrite find_below in Hk''; [by destruct Hk''|].
    constructor; [done|]. eauto using below_trans.
  - assert (k ⊀ k1) as Hk by (destruct Hle as [[-> ?]|(?&?&?)]; [apply cmp_irrefl|done]).
    rewrite Hk in Hu. destruct (IH Hm Hu) as (Hlt & Hf & Hmin).
    assert (k1 <> k') by congruence.
    split_and!; [done|by rewrite find_cons_ne|].
    intros k'' Hk'' Hlt''. apply Hmin; [|done].
    rewrite find_cons_ne in Hk''; [done|done|congruence].
Qed.

Lemma upper_bound_None k m :
  sorted m -> upper_bound k m = None -> forall k', is_Some (find_key k' m) -> k ⊀ k'.
Proof.
  intros Hs Hu k' Hk'. apply find_elem_of_keys in Hk'; [|done]. clear Hs.
  induction m as [|[k1 v1] m IH]; simpl in *; [by apply not_elem_of_nil in Hk'|].
  destruct (cmp_lt k k1) eqn:?; [done|].
  apply elem_of_cons in Hk' as [->|]; auto.
Qed.
End updates.

#[export] Hint Extern 2 (sorted (assign _ _ _)) => apply assign_sorted : snmp.
#[export] Hint Extern 2 (sorted (emplace _ _ _)) => apply emplace_sorted : snmp.
#[export] Hint Extern 2 (sorted (erase _ _)) => apply erase_sorted : snmp.

(** ** Range insertion and conditional erasure *)

Section ranges.
Context {K V : Type} `{StrictOrderLaws K}.
Implicit Types (m : smap K V) (k : K) (v : V).

Lemma insert_range_sorted upd m : sorted m -> sorted (insert_range upd m).
Proof.
  unfold insert_range. revert m. induction upd as [|kv upd IH]; simpl; auto with snmp.
Qed.

Lemma find_insert_range_old k upd m v :
  find_key k m = Some v -> find_key k (insert_range upd m) = Some v.
Proof.
  unfold insert_range. revert m. induction upd as [|[k' v'] upd IH]; intros m Hk; simpl; [done|].
  apply IH. destruct (cmp_cases k k') as [(?&?&?)|[(->&?)|(?&?&?)]].
  - by rewrite find_emplace_ne.
  - by rewrite find_emplace_eq, Hk.
  - by rewrite find_emplace_ne.
Qed.

(** [insert(first, last)] of a sorted range: the old entries win. *)
Lemma find_insert_range k upd m :
  sorted upd -> find_key k (insert_range upd m) = find_key k m ∪ find_key k upd.
Proof.
  revert m. induction upd as [|[k' v'] upd IH]; intros m Hs.
  { unfold insert_range; simpl. by destruct (find_key k m). }
  apply sorted_cons in Hs as Hs'. destruct Hs' as [Hu Hb].
  change (insert_range _ m) with (insert_range upd (emplace k' v' m)).
  destruct (cmp_cases k k') as [(?&?&?)|[(->&?)|(?&?&?)]].
  - by rewrite IH, find_emplace_ne, find_cons_ne.
  - rewrite find_cons_eq. erewrite find_insert_range_old by apply find_emplace_eq.
    by destruct (find_key k' m).
  - by rewrite IH, find_emplace_ne, find_cons_ne.
Qed.

Lemma erase_fold_sorted (p : K -> bool) (l : smap K V) m :
  sorted m -> sorted (fold_left (fun acc kv => if p kv.1 then erase kv.1 acc else acc) l m).
Proof.
  revert m. induction l as [|kv l IH]; intros m Hs; simpl; [done|].
  apply IH. destruct (p kv.1); auto with snmp.
Qed.

Lemma find_erase_fold_gone (p : K -> bool) (l : smap K V) m k :
  sorted m -> p k = true -> k ∈ l.*1 \/ find_key k m = None ->
  find_key k (fold_left (fun acc kv => if p kv.1 then erase kv.1 acc else acc) l m) = None.
Proof.
  intros Hs Hp. revert m Hs. induction l as [|[k1 v1] l IH]; intros m Hs Hk; simpl in *.
  { destruct Hk as [Hk|Hk]; [by apply not_elem_of_nil in Hk|done]. }
  rewrite elem_of_cons in Hk.
  apply IH; [destruct (p k1); auto with snmp|].
  destruct (cmp_cases k k1) as [(?&?&?)|[(<-&?)|(?&?&?)]].
  - destruct Hk as [[?|?]|?]; [done|by left|right].
    destruct (p k1); [by rewrite find_erase_ne|done].
  - right. rewrite Hp. by apply find_erase_eq.
  - destruct Hk as [[?|?]|?]; [done|by left|right].
    destruct (p k1); [by rewrite find_erase_ne|done].
Qed.

Lemma find_erase_fold_kept (p : K -> bool) (l : smap K V) m k :
  sorted m -> p k = false ->
  find_key k (fold_left (fun acc kv => if p kv.1 then erase kv.1 acc else acc) l m) = find_key k m.
Proof.
  intros Hs Hp. revert m Hs. induction l as [|[k1 v1] l IH]; intros m Hs; simpl; [done|].
  rewrite IH by (destruct (p k1); auto with snmp).
  destruct (p k1) eqn:?; [|done]. apply find_erase_ne; [done|congruence].
Qed.

Lemma erase_if_sorted p m : sorted m -> sorted (erase_if p m).
Proof. apply erase_fold_sorted. Qed.

Lemma find_erase_if p m k :
  sorted m -> find_key k (erase_if p m) = if p k then None else find_key k m.
Proof.
  intros Hs. unfold erase_if. destruct (p k) eqn:Hp.
  - apply find_erase_fold_gone; [done..|].
    destruct (find_key k m) as [v|] eqn:Hk; [left|by right].
    apply find_elem_of_keys; [done|]. by exists v.
  - by apply find_erase_fold_kept.
Qed.
End ranges.

#[export] Hint Extern 2 (sorted (insert_range _ _)) => apply insert_range_sorted : snmp.
#[export] Hint Extern 2 (sorted (erase_if _ _)) => apply erase_if_sorted : snmp.

(** ** Refinement to [gmap] *)

(** The abstract map a sorted association list stands for. *)
Definition as_gmap {K V} `{Countable K} (m : smap K V) : gmap K V := list_to_map m.

Section refinement.
Context {K V : Type} `{StrictOrderLaws K} `{Countable K}.
Implicit Types (m : smap K V) (k : K) (v : V).

Lemma sorted_NoDup_keys m : sorted m -> NoDup m.*1.
Proof.
  induction m as [|[k v] m IH]; intros Hs; simpl; [constructor|].
  apply sorted_cons in Hs as [Hs Hb]. constructor; [|by apply IH].
  rewrite list_elem_of_fmap. intros ([k' v'] & -> & Hin).
  rewrite Forall_forall in Hb. specialize (Hb _ Hin). simpl in Hb.
  by rewrite cmp_irrefl in Hb.
Qed.

Lemma as_gmap_lookup m k : sorted m -> as_gmap m !! k = find_key k m.
Proof.
  intros Hs. apply option_eq. intros v. unfold as_gmap.
  rewrite <- elem_of_list_to_map by by apply sorted_NoDup_keys.
  by rewrite find_Some_elem.
Qed.

Lemma as_gmap_assign m k v : sorted m -> as_gmap (assign k v m) = <[k:=v]> (as_gmap m).
Proof.
  intros Hs. apply map_eq. intros k'. rewrite as_gmap_lookup by auto with snmp.
  destruct (decide (k = k')) as [->|].
  - by rewrite find_assign_eq, lookup_insert_eq.
  - by rewrite find_assign_ne, lookup_insert_ne, as_gmap_lookup.
Qed.

Lemma as_gmap_erase m k : sorted m -> as_gmap (erase k m) = delete k (as_gmap m).
Proof.
  intros Hs. apply map_eq. intros k'. rewrite as_gmap_lookup by auto with snmp.
  destruct (decide (k = k')) as [->|].
  - by rewrite find_erase_eq, lookup_delete_eq.
  - by rewrite find_erase_ne, lookup_delete_ne, as_gmap_lookup.
Qed.

Lemma as_gmap_insert_range m upd :
  sorted m -> sorted upd -> as_gmap (insert_range upd m) = as_gmap m ∪ as_gmap upd.
Proof.
  intros Hs Hu. apply map_eq. intros k. rewrite as_gmap_lookup by auto with snmp.
  by rewrite find_insert_range, lookup_union, !as_gmap_lookup.
Qed.
End refinement.

#[export] Hint Rewrite @as_gmap_assign @as_gmap_erase @as_gmap_insert_range
  using auto with snmp : snmp_rw.
