(* ===== verification/CLib.v ===== *)
(** The pieces of the C and C++ standard libraries the program parses and prints
    numbers with: [atoi], [sscanf(.., "%u.%u", ..)], the decimal output of an
    unsigned integer, [strlen]-terminated views of a string and the splitting of
    a string at dots.

    [atoi] and [%u] are those of glibc: the digits are read as a (signed, resp.
    unsigned) 64-bit [long] that saturates, and the result is truncated to 32
    bits. The C standard leaves the out-of-range cases undefined; the theorems
    that depend on the value are stated for values in range. *)

From S2P Require Export Prelude.


(** ** Characters *)

Definition code (c : ascii) : Z := Z.of_nat (Ascii.nat_of_ascii c).
Definition is_space (c : ascii) : bool :=
  (code c =? 32) || ((9 <=? code c) && (code c <=? 13)).
Definition is_digit (c : ascii) : bool := (48 <=? code c) && (code c <=? 57).
Definition digit_value (c : ascii) : Z := code c - 48.
Definition digit_char (d : Z) : ascii := Ascii.ascii_of_nat (Z.to_nat (48 + d)).

(** ** Scanning integers *)

Fixpoint skip_space (s : string) : string :=
  match s with
  | String c s' => if is_space c then skip_space s' else s
  | EmptyString => s
  end.

(** An optional sign: [true] for a minus. *)
Definition scan_sign (s : string) : bool * string :=
  match s with
  | String "-"%char s' => (true, s')
  | String "+"%char s' => (false, s')
  | _ => (false, s)
  end.

Fixpoint scan_digits (acc : Z) (s : string) : Z * string :=
  match s with
  | String c s' => if is_digit c then scan_digits (10 * acc + digit_value c) s' else (acc, s)
  | EmptyString => (acc, s)
  end.

(** A sign and at least one digit after leading white space. *)
Definition scan_int (s : string) : option (bool * Z * string) :=
  let '(neg, s1) := scan_sign (skip_space s) in
  match s1 with
  | String c s2 =>
    if is_digit c then let '(v, rest) := scan_digits 0 s1 in Some (neg, v, rest) else None
  | EmptyString => None
  end.

Definition clamp (lo hi x : Z) : Z := Z.max lo (Z.min hi x).

(** [atoi(s)] *)
Definition atoi (s : string) : Z :=
  match scan_int s with
  | Some (neg, v, _) => s32 (clamp LONG_MIN LONG_MAX (if neg then - v else v))
  | None => 0
  end.

(** The conversion [%u], with the rest of the input. *)
Definition scan_u (s : string) : option (Z * string) :=
  match scan_int s with
  | Some (neg, v, rest) =>
    Some (u32 (if v <=? ULONG_MAX then (if neg then - v else v) else ULONG_MAX), rest)
  | None => None
  end.

(** [sscanf(s, "%u.%u", &a, &b) == 2], with the two values. *)
Definition sscanf_u_dot_u (s : string) : option (Z * Z) :=
  '(a, rest) ← scan_u s;
  match rest with
  | String "."%char rest' => '(b, _) ← scan_u rest'; Some (a, b)
  | _ => None
  end.

(** ** Printing *)

Fixpoint dec_go (fuel : nat) (n : Z) (acc : string) : string :=
  match fuel with
  | O => acc
  | S fuel' =>
    let acc' := String (digit_char (n mod 10)) acc in
    if n <? 10 then acc' else dec_go fuel' (n / 10) acc'
  end.

(** [ostream << n] for an [unsigned long]: at most 20 digits. *)
Definition dec (n : Z) : string := dec_go 20 n "".

(** [ostream << n] for an [int], and the end of a line. *)
Definition dec_signed (n : Z) : string := if n <? 0 then "-" +:+ dec (- n) else dec n.
Definition newline : string := String (ascii_of_nat 10) EmptyString.

(** ** Strings *)

(** The bytes of a [std::string], and those up to the first NUL ([strlen] of its [c_str()]). *)
Definition octets (s : string) : list Z := code <$> String.list_ascii_of_string s.

Fixpoint c_str (s : string) : string :=
  match s with
  | String c s' => if code c =? 0 then "" else String c (c_str s')
  | EmptyString => ""
  end.

(** [s.find(c) != npos] for a one-character string. *)
Fixpoint contains_char (c : ascii) (s : string) : bool :=
  match s with
  | String c' s' => bool_decide (c' = c) || contains_char c s'
  | EmptyString => false
  end.

(** [boost::split(result, s, boost::is_any_of(sep))]: adjacent separators give empty tokens. *)
Fixpoint split_on (sep : ascii) (s : string) : list string :=
  match s with
  | EmptyString => [""]
  | String c s' =>
    if bool_decide (c = sep) then "" :: split_on sep s'
    else match split_on sep s' with
         | t :: ts => String c t :: ts
         | [] => [String c ""]
         end
  end.

(** ** Lemmas *)

Lemma digit_value_char d : 0 <= d < 10 -> is_digit (digit_char d) = true /\ digit_value (digit_char d) = d.
Proof.
  intros Hd. unfold is_digit, digit_value, code, digit_char.
  rewrite Ascii.nat_ascii_embedding by lia. rewrite andb_true_iff, !Z.leb_le. lia.
Qed.

Lemma digit_not_space c : is_digit c = true -> is_space c = false.
Proof.
  unfold is_digit, is_space. intros; split_bools. apply orb_false_iff.
  rewrite andb_false_iff, Z.eqb_neq, !Z.leb_gt. lia.
Qed.

Lemma digit_not_sign c s : is_digit c = true -> scan_sign (String c s) = (false, String c s).
Proof. intros Hc. destruct c as [[] [] [] [] [] [] [] []]; try discriminate Hc; reflexivity. Qed.

Lemma dec_go_spec fuel n acc s :
  0 <= n < 10 ^ Z.of_nat fuel ->
  exists k, 0 <= k /\ scan_digits acc (dec_go fuel n s) = scan_digits (acc * 10 ^ k + n) s.
Proof.
  revert n acc s. induction fuel as [|fuel IH]; intros n acc s Hn; cbn [dec_go].
  { exists 0. replace n with 0 by (simpl in Hn; lia).
    split; [lia|]. f_equal. rewrite Z.pow_0_r. lia. }
  rewrite Nat2Z.inj_succ, Z.pow_succ_r in Hn by lia.
  pose proof (Z.mod_pos_bound n 10 ltac:(lia)) as Hm.
  destruct (digit_value_char _ Hm) as [Hd Hv].
  destruct (n <? 10) eqn:Hlt; split_bools.
  - exists 1. split; [lia|]. cbn [scan_digits]. rewrite Hd, Hv, Z.mod_small by lia. f_equal. lia.
  - destruct (IH (n / 10) acc (String (digit_char (n mod 10)) s)) as (k & Hk & Hs).
    { split; [apply Z.div_pos; lia|]. apply Z.div_lt_upper_bound; lia. }
    exists (k + 1). split; [lia|]. rewrite Hs. cbn [scan_digits]. rewrite Hd, Hv. f_equal.
    rewrite Z.pow_add_r by lia. pose proof (Z.div_mod n 10 ltac:(lia)). lia.
Qed.

Lemma dec_go_head fuel n s :
  0 <= n -> exists c s', dec_go (S fuel) n s = String c s' /\ is_digit c = true.
Proof.
  revert n s. induction fuel as [|fuel IH]; intros n s Hn; cbn [dec_go].
  - pose proof (Z.mod_pos_bound n 10 ltac:(lia)) as Hm.
    destruct (digit_value_char _ Hm). destruct (n <? 10); eauto.
  - pose proof (Z.mod_pos_bound n 10 ltac:(lia)) as Hm.
    destruct (digit_value_char _ Hm). destruct (n <? 10); [by eauto|].
    apply IH. apply Z.div_pos; lia.
Qed.

(** A printed number is scanned back, whatever follows that is not a digit. *)
Definition no_digit (rest : string) : Prop :=
  match rest with String c _ => is_digit c = false | EmptyString => True end.

Lemma scan_digits_stop acc rest : no_digit rest -> scan_digits acc rest = (acc, rest).
Proof. destruct rest as [|c rest]; simpl; [done|]. by intros ->. Qed.

Lemma scan_int_dec n rest :
  0 <= n <= ULONG_MAX -> no_digit rest ->
  scan_int (dec_go 20 n rest) = Some (false, n, rest).
Proof.
  intros Hn Hr. unfold scan_int.
  destruct (dec_go_head 19 n rest) as (c & s' & Heq & Hc); [lia|].
  destruct (dec_go_spec 20 n 0 rest) as (k & Hk & Hs); [unfold_ints; lia|].
  rewrite Heq in *. cbn [skip_space]. rewrite (digit_not_space c) by done.
  rewrite digit_not_sign by done. rewrite Hc, Hs.
  rewrite Z.mul_0_l, Z.add_0_l. by rewrite scan_digits_stop.
Qed.

Lemma atoi_dec n : 0 <= n <= INT_MAX -> atoi (dec n) = n.
Proof.
  intros Hn. unfold atoi, dec. rewrite scan_int_dec by (unfold_ints; done || lia).
  unfold clamp. rewrite Z.min_r, Z.max_r by (unfold_ints; lia).
  unfold s32. apply swrap_id; unfold_ints; lia.
Qed.

Lemma dec_go_app fuel n s t : dec_go fuel n s +:+ t = dec_go fuel n (s +:+ t).
Proof.
  revert n s. induction fuel as [|fuel IH]; intros n s; cbn [dec_go]; [done|].
  destruct (n <? 10); [done|]. apply IH.
Qed.

Lemma atoi_range s : in_s32 (atoi s).
Proof.
  unfold atoi. destruct (scan_int s) as [[[neg v] rest]|]; [|unfold_ints; lia].
  unfold s32. pose proof (swrap_range 32 (clamp LONG_MIN LONG_MAX (if neg then - v else v))).
  unfold_ints. lia.
Qed.

Lemma scan_u_range s v rest : scan_u s = Some (v, rest) -> in_u32 v.
Proof.
  unfold scan_u. destruct (scan_int s) as [[[neg n] r]|]; [|done]. intros [= <- _].
  unfold u32, in_u32, UINT_MAX.
  pose proof (wrap_range 32 (if n <=? ULONG_MAX then if neg then - n else n else ULONG_MAX)). lia.
Qed.

Lemma sscanf_range s a b : sscanf_u_dot_u s = Some (a, b) -> in_u32 a /\ in_u32 b.
Proof.
  unfold sscanf_u_dot_u. destruct (scan_u s) as [[a' rest]|] eqn:Ha; [simpl|done].
  destruct rest as [|c rest]; [done|].
  destruct c as [[] [] [] [] [] [] [] []]; try done.
  destruct (scan_u rest) as [[b' r]|] eqn:Hb; [|done]. intros; simplify_eq/=.
  eauto using scan_u_range.
Qed.

(** The identifier the alarm clients send ("1000.3") is read back. *)
Lemma sscanf_print a b :
  in_u32 a -> in_u32 b -> sscanf_u_dot_u (dec a +:+ "." +:+ dec b) = Some (a, b).
Proof.
  intros Ha Hb. unfold sscanf_u_dot_u, scan_u, dec. rewrite dec_go_app.
  rewrite scan_int_dec by (unfold_ints; try done; lia).
  assert (forall x, in_u32 x -> u32 (if x <=? ULONG_MAX then x else ULONG_MAX) = x) as Hu.
  { intros x Hx. destruct (x <=? ULONG_MAX) eqn:?; split_bools; [|unfold_ints; lia].
    apply wrap_id. unfold_ints. lia. }
  rewrite Hu by done. cbn [mbind option_bind].
  change ("" +:+ "." +:+ dec_go 20 b "") with (String "." (dec_go 20 b "")). cbv iota.
  rewrite scan_int_dec by (unfold_ints; try done; lia). by rewrite Hu.
Qed.
