(* ===== verification/NetSnmp.v ===== *)
(** What the program uses of Net-SNMP, and the OIDs of
    [include/oid_definitions.hpp].

    Net-SNMP is not part of the repository. Its data (variable bindings) is an
    inductive type; its functions are classes, whose fields are the functions
    and whose [..Spec] companions state what their documentation promises:
    - [NetSnmpOids]: the comparison of object identifiers;
    - [NetSnmpIndex]: [build_oid], the encoding of table indexes as OIDs;
    - [NetSnmpContainer]: the ordered container behind a table.
    A reference implementation of each, at the end, is what concrete examples
    are evaluated with. *)

From S2P Require Export CLib.

(** ** Data *)

(** An [oid] is an [unsigned long]; an object identifier a list of them. *)
Abbreviation oids := (list Z).

Inductive asn_value :=
| ASN_OCTET_STR (bytes : list Z)
| ASN_INTEGER (n : Z)
| ASN_UNSIGNED (n : Z)
| ASN_OBJECT_ID (objid : oids).

(** One [netsnmp_variable_list] cell: the name and the typed value. *)
Record varbind := mkVarbind {
  vb_name : oids;
  vb_value : asn_value;
}.

#[export] Instance asn_value_eq_dec : EqDecision asn_value.
Proof. solve_decision. Defined.
#[export] Instance varbind_eq_dec : EqDecision varbind.
Proof. solve_decision. Defined.

(** The result codes the program uses. *)
Inductive snmp_err := SNMP_ERR_NOERROR | SNMP_ERR_GENERR.

(** [val.objid[i] = x] on an object identifier value: [None] out of range. *)
Definition set_subid (i : nat) (x : Z) (o : oids) : option oids :=
  if decide (i < length o)%nat then Some (<[i := x]> o) else None.

(** ** Functions *)

Class NetSnmpOids := {
  snmp_oid_compare : oids -> oids -> Z;
  snmp_oidtree_compare : oids -> oids -> Z;
  netsnmp_oid_equals : oids -> oids -> Z;
}.

(** Lexicographic order of object identifiers, a prefix being below. *)
Fixpoint oid_lex_lt (a b : oids) : bool :=
  match a, b with
  | [], [] => false
  | [], _ :: _ => true
  | _ :: _, [] => false
  | x :: a', y :: b' => (x <? y) || ((x =? y) && oid_lex_lt a' b')
  end.

(** Equality up to the length of the shorter identifier. *)
Fixpoint oid_same_branch (a b : oids) : bool :=
  match a, b with
  | x :: a', y :: b' => (x =? y) && oid_same_branch a' b'
  | _, _ => true
  end.

Class NetSnmpOidsSpec `{NetSnmpOids} := {
  (** "-1 if name1 < name2", in lexicographic order. *)
  snmp_oid_compare_lt : forall a b, snmp_oid_compare a b = -1 <-> oid_lex_lt a b = true;
  (** "0 if they are equal up until the shortest length". *)
  snmp_oidtree_compare_0 : forall a b,
    snmp_oidtree_compare a b = 0 <-> oid_same_branch a b = true;
  (** "0 if they are equal". *)
  netsnmp_oid_equals_0 : forall a b, netsnmp_oid_equals a b = 0 <-> a = b;
}.

(** [build_oid] with an empty prefix over a chain of index variables; [None] is
    an error return. *)
Class NetSnmpIndex := build_oid : list asn_value -> option oids.

(** The index encoding is injective on chains of variables of given types. *)
Definition same_type (a b : asn_value) : bool :=
  match a, b with
  | ASN_OCTET_STR _, ASN_OCTET_STR _ | ASN_INTEGER _, ASN_INTEGER _
  | ASN_UNSIGNED _, ASN_UNSIGNED _ | ASN_OBJECT_ID _, ASN_OBJECT_ID _ => true
  | _, _ => false
  end.

Class NetSnmpIndexSpec `{NetSnmpIndex} := {
  build_oid_inj : forall vs ws o,
    Forall2 (fun a b => same_type a b = true) vs ws ->
    build_oid vs = Some o -> build_oid ws = Some o -> vs = ws;
  (** Indexes are encoded with a length before a string, an integer as itself. *)
  build_oid_name_numbers : forall name i j,
    build_oid [ASN_OCTET_STR name; ASN_UNSIGNED i; ASN_UNSIGNED j] =
      Some (Z.of_nat (length name) :: name ++ [i; j]) /\
    build_oid [ASN_OCTET_STR name; ASN_UNSIGNED i; ASN_INTEGER j] =
      Some (Z.of_nat (length name) :: name ++ [i; j]);
}.

(** The container of a table: rows (addresses of row contexts) by index. *)
Class NetSnmpContainer := {
  container : Type;
  container_empty : container;
  CONTAINER_INSERT : oids -> Z -> container -> container;
  CONTAINER_REMOVE : oids -> Z -> container -> container;
  container_rows : container -> gmap oids Z;
}.

Class NetSnmpContainerSpec `{NetSnmpContainer} := {
  container_empty_rows : container_rows container_empty = ∅;
  container_insert_rows : forall o a c, container_rows c !! o = None ->
    container_rows (CONTAINER_INSERT o a c) = <[o := a]> (container_rows c);
  container_remove_rows : forall o a c, container_rows c !! o = Some a ->
    container_rows (CONTAINER_REMOVE o a c) = delete o (container_rows c);
}.

(** ** The OIDs of the alarm MIBs *)

Definition alarmModelTable_oid : oids := [1;3;6;1;2;1;118;1;1;2].
Definition alarmActiveTable_oid : oids := [1;3;6;1;2;1;118;1;2;2].
Definition ituAlarmTable_oid : oids := [1;3;6;1;2;1;121;1;1;1].
Definition zero_dot_zero_oid : oids := [0;0].
Definition alarm_active_state_oid : oids := [1;3;6;1;2;1;118;0;2].
Definition alarm_clear_state_oid : oids := [1;3;6;1;2;1;118;0;3].
Definition itu_alarm_table_row_oid : oids := [1;3;6;1;2;1;121;1;1;1;1;2;0;1;1].
Definition alarm_model_table_row_oid : oids := [1;3;6;1;2;1;118;1;1;2;1;3;0;1;2].
Definition entry_column_oid : oids := [1;3].

(** ** Lemmas *)

Lemma oid_lex_lt_irrefl a : oid_lex_lt a a = false.
Proof. induction a as [|x a IH]; simpl; [done|]. by rewrite Z.ltb_irrefl, Z.eqb_refl, IH. Qed.

Lemma oid_lex_lt_cons x a y b :
  oid_lex_lt (x :: a) (y :: b) = true <-> x < y \/ (x = y /\ oid_lex_lt a b = true).
Proof. simpl. by rewrite orb_true_iff, andb_true_iff, Z.ltb_lt, Z.eqb_eq. Qed.

Lemma oid_lex_lt_trans a b c :
  oid_lex_lt a b = true -> oid_lex_lt b c = true -> oid_lex_lt a c = true.
Proof.
  revert b c. induction a as [|x a IH]; intros [|y b] [|z c] Hab Hbc; try done.
  rewrite oid_lex_lt_cons in *. destruct Hab as [?|[-> ?]], Hbc as [?|[-> ?]]; [left; lia..|].
  right. eauto.
Qed.

Lemma oid_lex_lt_total a b : oid_lex_lt a b = false -> oid_lex_lt b a = false -> a = b.
Proof.
  revert b. induction a as [|x a IH]; intros [|y b] Hab Hba; try done. simpl in *.
  split_bools. rewrite andb_false_iff, !Z.eqb_neq in *.
  assert (x = y) as <- by lia. f_equal. apply IH; naive_solver lia.
Qed.

(** Two identifiers are on one branch when one is a prefix of the other. *)
Lemma oid_same_branch_spec a b :
  oid_same_branch a b = true <-> a `prefix_of` b \/ b `prefix_of` a.
Proof.
  revert b. induction a as [|x a IH]; intros b.
  { split; [|by destruct b]. left. apply prefix_nil. }
  destruct b as [|y b]; [split; [right; apply prefix_nil|done]|].
  simpl. rewrite andb_true_iff, Z.eqb_eq, IH. split.
  - intros [<- [?|?]]; [left|right]; by apply prefix_cons.
  - intros [Hp|Hp]; pose proof (prefix_cons_inv_1 _ _ _ _ Hp); pose proof (prefix_cons_inv_2 _ _ _ _ Hp);
      subst; auto.
Qed.

Lemma set_subid_Some i x o : (i < length o)%nat -> set_subid i x o = Some (<[i := x]> o).
Proof. intros Hi. unfold set_subid. by rewrite decide_True. Qed.

(** ** Reference implementation, for concrete examples *)

Module Reference.
Definition oid_compare (a b : oids) : Z :=
  if oid_lex_lt a b then -1 else if oid_lex_lt b a then 1 else 0.

#[export] Instance oids_impl : NetSnmpOids := {
  snmp_oid_compare := oid_compare;
  snmp_oidtree_compare a b := if oid_same_branch a b then 0 else oid_compare a b;
  netsnmp_oid_equals a b := if bool_decide (a = b) then 0 else 1;
}.

Definition encode (v : asn_value) : oids :=
  match v with
  | ASN_OCTET_STR bs => Z.of_nat (length bs) :: bs
  | ASN_INTEGER n | ASN_UNSIGNED n => [n]
  | ASN_OBJECT_ID o => Z.of_nat (length o) :: o
  end.

#[export] Instance index_impl : NetSnmpIndex := fun vs => Some (vs ≫= encode).

#[export] Instance container_impl : NetSnmpContainer := {
  container := gmap oids Z;
  container_empty := ∅;
  CONTAINER_INSERT o a c := <[o := a]> c;
  CONTAINER_REMOVE o a c := delete o c;
  container_rows c := c;
}.

#[export] Instance oids_spec : NetSnmpOidsSpec.
Proof.
  split; simpl; unfold oid_compare; intros a b.
  - destruct (oid_lex_lt a b); [done|]. by destruct (oid_lex_lt b a).
  - destruct (oid_same_branch a b) eqn:Hb; [done|]. split; [|done].
    destruct (oid_lex_lt a b) eqn:?, (oid_lex_lt b a) eqn:?; [done..|].
    assert (a = b) as <- by by apply oid_lex_lt_total.
    intros _. rewrite <- Hb. by apply oid_same_branch_spec; left.
  - by case_bool_decide.
Qed.

Lemma encode_inj v w s t :
  same_type v w = true -> encode v ++ s = encode w ++ t -> v = w /\ s = t.
Proof.
  destruct v as [bs|n|n|o], w as [bs'|n'|n'|o']; simpl; try done; intros _ Heq; simplify_eq; auto.
  - apply app_inj_1 in H0 as [-> ->]; [done|lia].
  - apply app_inj_1 in H0 as [-> ->]; [done|lia].
Qed.

#[export] Instance index_spec : NetSnmpIndexSpec.
Proof.
  split; [|by split].
  intros vs ws o Hty. unfold build_oid, index_impl. intros Hv Hw.
  assert (vs ≫= encode = ws ≫= encode) as Heq by congruence. clear Hv Hw.
  induction Hty as [|v w vs ws Hvw Hty IH]; [done|]. simpl in Heq.
  apply encode_inj in Heq as [-> Heq]; [|done]. f_equal. auto.
Qed.

#[export] Instance container_spec : NetSnmpContainerSpec.
Proof. by split. Qed.
End Reference.
