(* ===== verification/AlarmDefs.v ===== *)
(** The alarm definitions: [src/alarm_table_defs.cpp] and
    [include/alarm_table_defs.hpp].

    [AlarmTableDef] (one severity level of one alarm), the key the table is
    ordered by, the table [AlarmTableDefs], its loading from a directory of JSON
    files with the duplicate check, and the lookup.

    The structures of [AlarmDef] and the JSON parser are declared by the
    [cpp-common] submodule: the fields the program reads are a record here, the
    two severity constants it names and the default values are [AlarmDefLib],
    the parser is [JsonAlarms], and the directory listing of Boost is an
    argument of [initialize]. Values of the enumeration [AlarmDef::Severity] are
    held as the [unsigned int] they convert to. *)

From S2P Require Export StdMap.

(** ** Data *)

Record SeverityDetails := mkSeverityDetails {
  _severity : Z;
  _description : string;
  _details : string;
  _cause : string;
  _effect : string;
  _action : string;
  _extended_details : string;
  _extended_description : string;
}.

Record AlarmDefinition := mkAlarmDefinition {
  _name : string;
  _index : Z;
  _alarm_cause : Z;
  _severity_details : list SeverityDetails;
}.

(** What the program uses of [AlarmDef]: two enumerators, and the values of the
    default constructors. *)
Class AlarmDefLib := {
  UNDEFINED_SEVERITY : Z;
  CLEARED : Z;
  AlarmDefinition_default : AlarmDefinition;
  SeverityDetails_default : SeverityDetails;
}.

(** [JSONAlarms::validate_alarms_from_json]: an error text, or the definitions. *)
Class JsonAlarms := validate_alarms_from_json : string -> string + list AlarmDefinition.

(** A [boost::filesystem::directory_iterator] entry, as the loop inspects it. *)
Record dir_entry := mkDirEntry {
  is_regular_file : bool;
  extension : string;
  entry_path : string;
}.

Record AlarmTableDef := mkAlarmTableDef {
  _valid : bool;
  _alarm_definition : AlarmDefinition;
  _severity_detail : SeverityDetails;
}.

Record AlarmTableDefKey := mkAlarmTableDefKey {
  key_index : Z;
  key_severity : Z;
}.

#[export] Instance AlarmTableDefKey_eq_dec : EqDecision AlarmTableDefKey.
Proof. solve_decision. Defined.

#[export] Instance AlarmTableDefKey_countable : Countable AlarmTableDefKey.
Proof.
  refine (inj_countable' (fun k => (key_index k, key_severity k))
            (fun p => mkAlarmTableDefKey p.1 p.2) _).
  by intros [].
Defined.

(** [AlarmTableDefKey::operator<] *)
#[export] Instance AlarmTableDefKey_lt : Comparator AlarmTableDefKey := fun lhs rhs =>
  (key_index lhs <? key_index rhs) ||
  ((key_index lhs =? key_index rhs) && (key_severity lhs <? key_severity rhs)).

(** [AlarmTableDef(alarm_definition, severity_details)] *)
Definition AlarmTableDef_make (a : AlarmDefinition) (d : SeverityDetails) : AlarmTableDef :=
  mkAlarmTableDef true a d.

(** [AlarmTableDef()] *)
Definition AlarmTableDef_default `{AlarmDefLib} : AlarmTableDef :=
  mkAlarmTableDef false AlarmDefinition_default SeverityDetails_default.

Section accessors.
Context (def : AlarmTableDef).

Definition name : string := _name (_alarm_definition def).
Definition alarm_index : Z := _index (_alarm_definition def).
Definition alarm_cause : Z := _alarm_cause (_alarm_definition def).
Definition severity : Z := _severity (_severity_detail def).
Definition description : string := _description (_severity_detail def).
Definition details : string := _details (_severity_detail def).
Definition cause : string := _cause (_severity_detail def).
Definition effect : string := _effect (_severity_detail def).
Definition action : string := _action (_severity_detail def).
Definition extended_details : string := _extended_details (_severity_detail def).
Definition extended_description : string := _extended_description (_severity_detail def).
Definition is_valid : bool := _valid def.
Definition is_not_clear `{AlarmDefLib} : bool := negb (severity =? CLEARED).
End accessors.

(** The table [severity_to_state] of [AlarmTableDef::state]. *)
Definition severity_to_state : list Z := [2; 1; 2; 6; 5; 4; 3].

(** [AlarmTableDef::state]: [None] is a read past the end of the array. *)
Definition state (def : AlarmTableDef) : option Z :=
  severity_to_state !! Z.to_nat (severity def).

(** ** The table *)

Record AlarmTableDefs := mkAlarmTableDefs {
  _key_to_def : smap AlarmTableDefKey AlarmTableDef;
  _invalid_def : AlarmTableDef;
}.

Definition def_key (def : AlarmTableDef) : AlarmTableDefKey :=
  mkAlarmTableDefKey (alarm_index def) (severity def).

(** [AlarmTableDefs::insert_def] *)
Definition insert_def (def : AlarmTableDef) (m : smap AlarmTableDefKey AlarmTableDef)
    : smap AlarmTableDefKey AlarmTableDef :=
  emplace (def_key def) def m.

(** [AlarmTableDefs::get_definition] *)
Definition get_definition (defs : AlarmTableDefs) (index sev : Z) : AlarmTableDef :=
  match find_key (mkAlarmTableDefKey index sev) (_key_to_def defs) with
  | Some def => def
  | None => _invalid_def defs
  end.

(** The inner loop of [populate_map] over the severities of one alarm. *)
Definition insert_severities (a : AlarmDefinition)
    (m : smap AlarmTableDefKey AlarmTableDef) : smap AlarmTableDefKey AlarmTableDef :=
  fold_left (fun m d => insert_def (AlarmTableDef_make a d) m) (_severity_details a) m.

(** The outer loop of [populate_map]: stops at an index already seen. *)
Fixpoint populate_loop (ds : list AlarmDefinition) (dup_check : smap Z Z)
    (m : smap AlarmTableDefKey AlarmTableDef)
    : bool * smap Z Z * smap AlarmTableDefKey AlarmTableDef :=
  match ds with
  | [] => (true, dup_check, m)
  | a :: ds' =>
    match find_key (_index a) dup_check with
    | Some _ => (false, dup_check, m)
    | None => populate_loop ds' (assign (_index a) 1 dup_check) (insert_severities a m)
    end
  end.

Section loading.
Context `{JsonAlarms}.

(** [AlarmTableDefs::populate_map] *)
Definition populate_map (path : string) (dup_check : smap Z Z)
    (m : smap AlarmTableDefKey AlarmTableDef)
    : bool * smap Z Z * smap AlarmTableDefKey AlarmTableDef :=
  match validate_alarms_from_json path with
  | inl error => (false, dup_check, m)
  | inr alarm_definitions => populate_loop alarm_definitions dup_check m
  end.

(** The [while] loop of [initialize] over the directory, run while [rc] holds. *)
Fixpoint initialize_loop (entries : list dir_entry) (dup_check : smap Z Z)
    (m : smap AlarmTableDefKey AlarmTableDef) : bool * smap AlarmTableDefKey AlarmTableDef :=
  match entries with
  | [] => (true, m)
  | e :: entries' =>
    if is_regular_file e && bool_decide (extension e = ".json"%string) then
      let '(rc, dup_check', m') := populate_map (entry_path e) dup_check m in
      if rc then initialize_loop entries' dup_check' m' else (false, m')
    else initialize_loop entries' dup_check m
  end.

(** [AlarmTableDefs::initialize]; [dir] is [None] when the path does not exist
    or is not a directory. *)
Definition initialize (dir : option (list dir_entry)) (defs : AlarmTableDefs)
    : bool * AlarmTableDefs :=
  match dir with
  | Some entries =>
    let '(rc, m) := initialize_loop entries [] [] in
    (rc, mkAlarmTableDefs m (_invalid_def defs))
  | None => (false, mkAlarmTableDefs [] (_invalid_def defs))
  end.

(** *** Specification *)

(** The paths the loop parses. *)
Definition json_paths (entries : list dir_entry) : list string :=
  entry_path <$>
    List.filter (fun e => is_regular_file e && bool_decide (extension e = ".json"%string)) entries.

(** Every definition of a list of files, in order, if every file parses. *)
Fixpoint load_all (paths : list string) : option (list AlarmDefinition) :=
  match paths with
  | [] => Some []
  | p :: paths' =>
    match validate_alarms_from_json p with
    | inl _ => None
    | inr ds => ds' ← load_all paths'; Some (ds ++ ds')
    end
  end.
End loading.

(** The table entries of a list of alarm definitions, in order. *)
Definition table_defs (ds : list AlarmDefinition) : list AlarmTableDef :=
  a ← ds; AlarmTableDef_make a <$> _severity_details a.

(** The entry a lookup should return: the first with this index and severity. *)
Definition first_def (ds : list AlarmDefinition) (key : AlarmTableDefKey) : option AlarmTableDef :=
  List.find (fun def => bool_decide (def_key def = key)) (table_defs ds).

(** Every entry is valid and stored under its own key: the invariant of the table. *)
Definition defs_wf (defs : AlarmTableDefs) : Prop :=
  sorted (_key_to_def defs) /\
  is_valid (_invalid_def defs) = false /\
  forall key def, find_key key (_key_to_def defs) = Some def -> is_valid def = true /\ def_key def = key.

(** ** Lemmas *)

#[export] Instance AlarmTableDefKey_order : StrictOrderLaws AlarmTableDefKey.
Proof.
  split; unfold cmp_lt, AlarmTableDefKey_lt.
  - intros [i s]; simpl. rewrite !Z.ltb_irrefl. by rewrite andb_false_r.
  - intros [i1 s1] [i2 s2] [i3 s3]; simpl. rewrite !orb_true_iff, !andb_true_iff.
    rewrite !Z.ltb_lt, !Z.eqb_eq. lia.
  - intros [i1 s1] [i2 s2]; simpl. rewrite !orb_false_iff, !andb_false_iff.
    rewrite !Z.ltb_ge, !Z.eqb_neq. intros. f_equal; lia.
Qed.

Definition insert_all (l : list AlarmTableDef) (m : smap AlarmTableDefKey AlarmTableDef)
    : smap AlarmTableDefKey AlarmTableDef :=
  fold_left (fun m def => insert_def def m) l m.

Lemma insert_severities_all a m :
  insert_severities a m = insert_all (AlarmTableDef_make a <$> _severity_details a) m.
Proof.
  unfold insert_severities, insert_all. generalize (_severity_details a) as l.
  intros l. revert m. induction l as [|d l IH]; intros m; simpl; auto.
Qed.

Lemma insert_all_app l1 l2 m : insert_all (l1 ++ l2) m = insert_all l2 (insert_all l1 m).
Proof. apply fold_left_app. Qed.

Lemma insert_all_sorted l m : sorted m -> sorted (insert_all l m).
Proof.
  revert m. induction l as [|d l IH]; intros m Hs; [done|].
  apply IH. unfold insert_def. auto with snmp.
Qed.

Lemma find_insert_all l m key :
  find_key key (insert_all l m) =
  find_key key m ∪ List.find (fun def => bool_decide (def_key def = key)) l.
Proof.
  revert m. induction l as [|d l IH]; intros m; simpl; [by destruct (find_key key m)|].
  change (insert_all _ m) with (insert_all l (insert_def d m)).
  rewrite IH. unfold insert_def. case_bool_decide as Hk; simplify_eq.
  - rewrite find_emplace_eq. by destruct (find_key (def_key d) m), (List.find _ l).
  - by rewrite find_emplace_ne by congruence.
Qed.

#[global] Arguments table_defs : simpl never.

Lemma table_defs_cons a ds :
  table_defs (a :: ds) = (AlarmTableDef_make a <$> _severity_details a) ++ table_defs ds.
Proof. done. Qed.

Lemma table_defs_app ds1 ds2 : table_defs (ds1 ++ ds2) = table_defs ds1 ++ table_defs ds2.
Proof. apply bind_app. Qed.

Lemma elem_of_table_defs ds def :
  def ∈ table_defs ds <->
  exists a d, a ∈ ds /\ d ∈ _severity_details a /\ def = AlarmTableDef_make a d.
Proof.
  unfold table_defs. rewrite list_elem_of_bind. setoid_rewrite list_elem_of_fmap. naive_solver.
Qed.

Definition indices (ds : list AlarmDefinition) : list Z := _index <$> ds.

(** Indices of a list of definitions not recorded as seen yet. *)
Definition unseen (dup_check : smap Z Z) (ds : list AlarmDefinition) : Prop :=
  NoDup (indices ds) /\ forall i, i ∈ indices ds -> find_key i dup_check = None.

Lemma unseen_cons dup a ds :
  unseen dup (a :: ds) <->
  find_key (_index a) dup = None /\ unseen (assign (_index a) 1 dup) ds.
Proof.
  unfold unseen, indices. rewrite fmap_cons, NoDup_cons. split.
  - intros [[Hni Hnd] Hf]. split_and!; [apply Hf; set_solver|done|].
    intros i Hi. rewrite find_assign_ne by (intros ->; done). apply Hf. set_solver.
  - intros (Ha & Hnd & Hf). split_and!; [|done|].
    + intros Hi. specialize (Hf _ Hi). by rewrite find_assign_eq in Hf.
    + intros i [->|Hi]%elem_of_cons; [done|].
      specialize (Hf _ Hi). destruct (decide (i = _index a)) as [->|]; [done|].
      by rewrite find_assign_ne in Hf.
Qed.

(** The parse loop of one file succeeds exactly on unseen indices. *)
Lemma populate_loop_true ds dup m :
  (populate_loop ds dup m).1.1 = true <-> unseen dup ds.
Proof.
  revert dup m. induction ds as [|a ds IH]; intros dup m; simpl.
  { split; [|done]. intros _. split; [constructor|]. by intros i ?%not_elem_of_nil. }
  rewrite unseen_cons. destruct (find_key (_index a) dup) eqn:Hf; simpl; [naive_solver|].
  rewrite IH. naive_solver.
Qed.

(** ... and then has recorded them and inserted every entry. *)
Lemma populate_loop_result ds dup m :
  unseen dup ds ->
  let '(rc, dup', m') := populate_loop ds dup m in
  rc = true /\ m' = insert_all (table_defs ds) m /\
  forall i, find_key i dup' = None <-> find_key i dup = None /\ i ∉ indices ds.
Proof.
  revert dup m. induction ds as [|a ds IH]; intros dup m Hu; simpl.
  { split_and!; [done..|]. intros i. split; [|naive_solver]. intros ?. split; [done|].
    apply not_elem_of_nil. }
  apply unseen_cons in Hu as [Ha Hu]. rewrite Ha.
  specialize (IH _ (insert_severities a m) Hu). destruct (populate_loop _ _ _) as [[rc dup'] m'].
  destruct IH as (-> & -> & Hd). split_and!; [done| |].
  - by rewrite insert_severities_all, table_defs_cons, insert_all_app.
  - intros i. rewrite Hd. change (indices (a :: ds)) with (_index a :: indices ds). rewrite not_elem_of_cons.
    destruct (decide (i = _index a)) as [->|].
    + rewrite find_assign_eq. naive_solver.
    + rewrite find_assign_ne by done. naive_solver.
Qed.

Section loading_laws.
Context `{JsonAlarms}.

Lemma unseen_app dup dup' ds1 ds2 :
  (forall i, find_key i dup' = None <-> find_key i dup = None /\ i ∉ indices ds1) ->
  unseen dup (ds1 ++ ds2) <-> unseen dup ds1 /\ unseen dup' ds2.
Proof.
  intros Hd. unfold unseen, indices. rewrite fmap_app, NoDup_app. split.
  - intros [(? & Hdisj & ?) Hf]. split_and!; [done|set_solver|done|].
    intros i Hi. apply Hd. split; [set_solver|]. intros Hi'. by apply (Hdisj i).
  - intros ((? & Hf1) & ? & Hf2). split_and!; [done| |done|].
    + intros i Hi1 Hi2. by apply Hf2, Hd in Hi2 as [_ ?].
    + intros i [?|Hi]%elem_of_app; [auto|]. by apply Hf2, Hd in Hi as [? _].
Qed.

(** The directory loop succeeds exactly when every file parses and no index is
    defined twice, and then the table holds every entry in order. *)
Lemma initialize_loop_spec entries dup m m' :
  initialize_loop entries dup m = (true, m') <->
  exists ds, load_all (json_paths entries) = Some ds /\ unseen dup ds /\
             m' = insert_all (table_defs ds) m.
Proof.
  revert dup m. induction entries as [|e entries IH]; intros dup m; simpl.
  { split; [|naive_solver]. intros ?; simplify_eq. exists []. split_and!; [done| |done].
    split; [constructor|]. by intros i ?%not_elem_of_nil. }
  unfold json_paths. simpl. destruct (is_regular_file e && _) eqn:He; [|apply IH].
  rewrite fmap_cons. simpl. unfold populate_map.
  destruct (validate_alarms_from_json (entry_path e)) as [err|ds]; [naive_solver|].
  fold (json_paths entries).
  pose proof (populate_loop_true ds dup m) as Ht.
  pose proof (populate_loop_result ds dup m) as Hr.
  destruct (populate_loop ds dup m) as [[rc dup'] m1]. simpl in Ht.
  destruct rc.
  - destruct Hr as (_ & -> & Hd); [by apply Ht|]. rewrite IH. split.
    + intros (ds' & Hl & Hu & ->). exists (ds ++ ds'). rewrite Hl. simpl.
      split_and!; [done| |by rewrite table_defs_app, insert_all_app].
      apply (unseen_app _ dup'); [done|]. split; [by apply Ht|done].
    + intros (ds0 & Hl & Hu & ->). destruct (load_all _) as [ds'|]; simplify_eq/=.
      apply (unseen_app _ dup') in Hu as [_ ?]; [|done].
      exists ds'. by rewrite table_defs_app, insert_all_app.
  - split; [done|]. intros (ds0 & Hl & [Hnd Hf] & ->). exfalso.
    destruct (load_all _) as [ds'|]; simplify_eq/=.
    unfold indices in Hnd, Hf. rewrite fmap_app in Hnd, Hf. apply NoDup_app in Hnd as (Hnd&_&_).
    assert (false = true) as [=]. apply Ht. split; [done|]. intros i Hi. apply Hf. set_solver.
Qed.

(** Entries of a table being built: valid, and under their own key. *)
Definition entries_wf (m : smap AlarmTableDefKey AlarmTableDef) : Prop :=
  sorted m /\
  forall key def, find_key key m = Some def -> is_valid def = true /\ def_key def = key.

Lemma insert_all_wf l m :
  entries_wf m -> (forall def, def ∈ l -> is_valid def = true) -> entries_wf (insert_all l m).
Proof.
  intros [Hs Hm] Hv. split; [by apply insert_all_sorted|]. intros key def.
  rewrite find_insert_all. intros [?|[_ Hl]]%union_Some; [auto|].
  apply List.find_some in Hl as [Hin Hk]. split_bools.
  split; [|done]. apply Hv. by apply list_elem_of_In.
Qed.

(** Even when it stops at a duplicate, the loop inserts only valid entries. *)
Lemma populate_loop_wf ds dup m :
  entries_wf m -> entries_wf (populate_loop ds dup m).2.
Proof.
  revert dup m. induction ds as [|a ds IH]; intros dup m Hm; simpl; [done|].
  destruct (find_key (_index a) dup); [done|]. apply IH.
  rewrite insert_severities_all. apply insert_all_wf; [done|].
  by intros def (d & -> & _)%list_elem_of_fmap.
Qed.

Lemma initialize_loop_wf entries dup m :
  entries_wf m -> entries_wf (initialize_loop entries dup m).2.
Proof.
  revert dup m. induction entries as [|e entries IH]; intros dup m Hm; simpl; [done|].
  destruct (is_regular_file e && _); [|by apply IH].
  unfold populate_map. destruct (validate_alarms_from_json _) as [|ds]; [done|].
  pose proof (populate_loop_wf ds dup m Hm) as Hp.
  destruct (populate_loop ds dup m) as [[[] dup1] m1]; [by apply IH|done].
Qed.
End loading_laws.

(** ** Properties *)

(** [operator<] on the keys and the numeric order of indices: entries of one
    alarm are adjacent, ordered by severity. *)
Lemma key_lt_spec k1 k2 :
  k1 ≺ k2 <->
  key_index k1 < key_index k2 \/ (key_index k1 = key_index k2 /\ key_severity k1 < key_severity k2).
Proof.
  unfold cmp_lt, AlarmTableDefKey_lt.
  rewrite orb_true_iff, andb_true_iff, !Z.ltb_lt, Z.eqb_eq. tauto.
Qed.

Lemma state_in_range def : 0 <= severity def <= 6 -> exists s, state def = Some s /\ 1 <= s <= 6.
Proof.
  intros Hs. unfold state.
  assert (severity def = 0 \/ severity def = 1 \/ severity def = 2 \/ severity def = 3 \/
          severity def = 4 \/ severity def = 5 \/ severity def = 6) as Hc by lia.
  repeat destruct Hc as [->|Hc]; try rewrite Hc; (eexists; split; [reflexivity|lia]).
Qed.

Lemma initialize_wf `{JsonAlarms} dir defs :
  is_valid (_invalid_def defs) = false -> defs_wf (initialize dir defs).2.
Proof.
  intros Hi. destruct dir as [entries|]; simpl.
  - pose proof (initialize_loop_wf entries [] []) as Hw.
    destruct (initialize_loop entries [] []) as [rc m]. simpl in *.
    destruct Hw as [? ?]; [split; [apply sorted_nil|done]|]. done.
  - split_and!; [apply sorted_nil|done|done].
Qed.

(** ** A sample configuration, in the numbering of the sender's name table *)

Module Sample.
Definition no_details : SeverityDetails := mkSeverityDetails 0 "" "" "" "" "" "" "".

#[export] Instance itu_severities : AlarmDefLib := {
  UNDEFINED_SEVERITY := 0;
  CLEARED := 1;
  AlarmDefinition_default := mkAlarmDefinition "" 0 0 [];
  SeverityDetails_default := no_details;
}.

Definition level (sev : Z) (text : string) : SeverityDetails :=
  mkSeverityDetails sev text text "Cause" "Effect" "Action" text text.

(** As [PROCESS_FAIL] of the repository's [valid_alarms.json]. *)
Definition process_fail (index : Z) : AlarmDefinition :=
  mkAlarmDefinition "PROCESS_FAIL" index 163
    [level 1 "Process failure cleared"; level 3 "Process failure"].

(** An alarm with several raised severities. *)
Definition multi_level (index : Z) : AlarmDefinition :=
  mkAlarmDefinition "MULTI" index 163
    [level 1 "cleared"; level 3 "critical"; level 4 "major"; level 5 "minor"; level 6 "warning"].

#[export] Instance json : JsonAlarms := fun path =>
  if bool_decide (path = "/alarms/valid.json") then inr [process_fail 1000; multi_level 2000]
  else if bool_decide (path = "/alarms/other.json") then inr [process_fail 1001]
  else if bool_decide (path = "/alarms/dup.json") then inr [process_fail 1000]
  else inl "Invalid JSON file".

Definition entries : list dir_entry :=
  [mkDirEntry true ".json" "/alarms/valid.json";
   mkDirEntry true ".txt" "/alarms/readme.txt";
   mkDirEntry false ".json" "/alarms/dir.json";
   mkDirEntry true ".json" "/alarms/other.json"].

Definition no_defs : AlarmTableDefs := mkAlarmTableDefs [] AlarmTableDef_default.
Definition defs : AlarmTableDefs := (initialize (Some entries) no_defs).2.
End Sample.

(** ** Properties of the table *)

Lemma defs_wf_valid_iff defs i s :
  defs_wf defs ->
  is_valid (get_definition defs i s) = true <->
  is_Some (find_key (mkAlarmTableDefKey i s) (_key_to_def defs)).
Proof.
  intros (_ & Hi & Hk). unfold get_definition.
  destruct (find_key _ _) as [def|] eqn:Hf; [|by rewrite Hi; split; [|intros []]].
  destruct (Hk _ _ Hf). split; [by eexists|done].
Qed.

Lemma defs_wf_get defs i s :
  defs_wf defs -> is_valid (get_definition defs i s) = true ->
  alarm_index (get_definition defs i s) = i /\ severity (get_definition defs i s) = s.
Proof.
  intros Hwf Hv. apply defs_wf_valid_iff in Hv as [def Hf]; [|done].
  unfold get_definition. rewrite Hf. destruct Hwf as (_ & _ & Hk).
  destruct (Hk _ _ Hf) as [_ [= -> ->]]. done.
Qed.

Lemma initialize_eq `{JsonAlarms} entries defs ds :
  load_all (json_paths entries) = Some ds -> NoDup (indices ds) ->
  initialize (Some entries) defs =
  (true, mkAlarmTableDefs (insert_all (table_defs ds) []) (_invalid_def defs)).
Proof.
  intros Hl Hnd. unfold initialize.
  destruct (initialize_loop entries [] []) as [rc m] eqn:Hi.
  assert (initialize_loop entries [] [] = (true, insert_all (table_defs ds) [])) as Heq.
  { apply initialize_loop_spec. by exists ds. }
  rewrite Heq in Hi. by simplify_eq.
Qed.

Lemma initialize_loads `{JsonAlarms} entries defs :
  (initialize (Some entries) defs).1 = true <->
  exists ds, load_all (json_paths entries) = Some ds /\ NoDup (indices ds).
Proof.
  split.
  - unfold initialize. destruct (initialize_loop entries [] []) as [rc m] eqn:Hi. simpl.
    intros ->. apply initialize_loop_spec in Hi as (ds & Hl & [Hnd _] & _). by exists ds.
  - intros (ds & Hl & Hnd). by rewrite (initialize_eq _ _ _ Hl Hnd).
Qed.

(** C25: [AlarmTableDefs::initialize] succeeds exactly when every regular [.json]
    file of the directory parses and no alarm index is defined twice across the
    files, and then [get_definition] returns, for every index and severity, the
    first such entry in the order the files list them, or the invalid entry. *)
Theorem initialize_correct `{JsonAlarms} entries defs :
  ((initialize (Some entries) defs).1 = true <->
   exists ds, load_all (json_paths entries) = Some ds /\ NoDup (indices ds)) /\
  forall ds, load_all (json_paths entries) = Some ds -> NoDup (indices ds) ->
  forall i s, get_definition (initialize (Some entries) defs).2 i s =
              default (_invalid_def defs) (first_def ds (mkAlarmTableDefKey i s)).
Proof.
  split; [apply initialize_loads|].
  - intros ds Hl Hnd i s. rewrite (initialize_eq _ _ _ Hl Hnd). unfold get_definition. simpl.
    rewrite find_insert_all. unfold first_def. simpl. by destruct (List.find _ _).
Qed.

(** *** The order of the directory *)

Lemma load_all_app `{JsonAlarms} ps1 ps2 :
  load_all (ps1 ++ ps2) = ds1 ← load_all ps1; ds2 ← load_all ps2; Some (ds1 ++ ds2).
Proof.
  induction ps1 as [|p ps1 IH]; simpl; [by destruct (load_all ps2)|].
  destruct (validate_alarms_from_json p) as [?|ds]; [done|]. rewrite IH.
  destruct (load_all ps1), (load_all ps2); simpl; by rewrite ?app_assoc.
Qed.

Lemma load_all_perm `{JsonAlarms} ps ps' ds :
  ps ≡ₚ ps' -> load_all ps = Some ds -> exists ds', load_all ps' = Some ds' /\ ds ≡ₚ ds'.
Proof.
  intros Hp. revert ds. induction Hp as [|p ps ps' Hp IH|p q ps|ps1 ps2 ps3 _ IH1 _ IH2]; intros ds; simpl.
  - intros [= <-]. by exists [].
  - destruct (validate_alarms_from_json p) as [?|d]; [done|]. intros (ds0 & Hds & [= <-])%bind_Some.
    destruct (IH _ Hds) as (ds' & -> & Hperm). exists (d ++ ds'). simpl. by rewrite Hperm.
  - destruct (validate_alarms_from_json p) as [?|d], (validate_alarms_from_json q) as [?|e]; try done.
    destruct (load_all ps) as [ds0|]; [|done]. simpl. intros [= <-]. exists (d ++ e ++ ds0). split; [done|].
    by rewrite !app_assoc, (Permutation_app_comm e d).
  - intros (ds2 & H2 & P2)%IH1. destruct (IH2 _ H2) as (ds3 & H3 & P3). exists ds3. by rewrite P2.
Qed.

Lemma first_def_cons a ds key :
  first_def (a :: ds) key =
    List.find (fun def => bool_decide (def_key def = key)) (AlarmTableDef_make a <$> _severity_details a) ∪ first_def ds key.
Proof.
  unfold first_def. rewrite table_defs_cons. induction (_ <$> _) as [|d l IH]; simpl.
  - by destruct (List.find _ _).
  - destruct (bool_decide _); [by destruct (List.find _ (table_defs ds))|done].
Qed.

Lemma found_index a key def :
  List.find (fun def => bool_decide (def_key def = key)) (AlarmTableDef_make a <$> _severity_details a) = Some def ->
  _index a = key_index key.
Proof.
  intros [Hin Hk]%List.find_some. apply bool_decide_eq_true in Hk as <-.
  by apply list_elem_of_In, list_elem_of_fmap in Hin as (d & -> & _).
Qed.

Lemma first_def_perm ds ds' key : ds ≡ₚ ds' -> NoDup (indices ds) -> first_def ds key = first_def ds' key.
Proof.
  induction 1 as [|a ds ds' Hp IH|a b ds|ds1 ds2 ds3 Hp1 IH1 Hp2 IH2]; intros Hnd.
  - done.
  - rewrite !first_def_cons, IH; [done|]. by apply NoDup_cons in Hnd as [_ ?].
  - rewrite !first_def_cons.
    destruct (List.find _ (AlarmTableDef_make a <$> _)) eqn:Ha, (List.find _ (AlarmTableDef_make b <$> _)) eqn:Hb;
      try (by destruct (first_def ds key)).
    apply found_index in Ha, Hb. apply NoDup_cons in Hnd as [Hni _]. destruct Hni. simpl. rewrite Hb, <- Ha. by left.
  - rewrite IH1, IH2; [done| |done]. unfold indices. by rewrite <- Hp1.
Qed.

Lemma initialize_perm `{JsonAlarms} entries entries' defs :
  entries ≡ₚ entries' -> (initialize (Some entries) defs).1 = true ->
  (initialize (Some entries') defs).1 = true /\
  forall i s, get_definition (initialize (Some entries) defs).2 i s = get_definition (initialize (Some entries') defs).2 i s.
Proof.
  intros Hp (ds & Hl & Hnd)%initialize_loads.
  assert (json_paths entries ≡ₚ json_paths entries') as Hpaths.
  { unfold json_paths. apply fmap_Permutation. clear -Hp.
    induction Hp as [|e l l' Hp IH|e f l|l1 l2 l3 _ IH1 _ IH2]; simpl; [done| | |by etransitivity];
      repeat match goal with |- context [if ?b then _ else _] => destruct b end; by econstructor. }
  destruct (load_all_perm _ _ _ Hpaths Hl) as (ds' & Hl' & Hds).
  assert (NoDup (indices ds')) as Hnd' by (unfold indices in *; by rewrite <- Hds).
  split; [apply initialize_loads; by exists ds'|]. intros i s.
  rewrite (initialize_eq _ _ _ Hl Hnd), (initialize_eq _ _ _ Hl' Hnd'). unfold get_definition. simpl.
  rewrite !find_insert_all. simpl. pose proof (first_def_perm _ _ (mkAlarmTableDefKey i s) Hds Hnd) as Hf.
  unfold first_def in Hf. by rewrite Hf.
Qed.

(** C24: the order in which the file system lists the directory does not
    matter: whether the definitions load, and what every lookup then returns, is the same
    for any permutation of its entries. *)
Theorem initialize_order_independent `{JsonAlarms} entries entries' defs :
  entries ≡ₚ entries' ->
  (initialize (Some entries) defs).1 = (initialize (Some entries') defs).1 /\
  ((initialize (Some entries) defs).1 = true -> forall i s,
    get_definition (initialize (Some entries) defs).2 i s = get_definition (initialize (Some entries') defs).2 i s).
Proof.
  intros Hp. split; [|intros Ht; by apply initialize_perm].
  apply eq_true_iff_eq. split; intros Ht; [by eapply initialize_perm in Ht as [? _]|].
  symmetry in Hp. by eapply initialize_perm in Ht as [? _].
Qed.

(** After a successful load a definition is valid for [(index, severity)]
    exactly when some loaded alarm has that index and lists that severity, and
    the entry returned then carries this index and this severity. *)
Theorem loaded_definition_valid `{JsonAlarms} entries defs defs' ds i s :
  is_valid (_invalid_def defs) = false ->
  load_all (json_paths entries) = Some ds ->
  initialize (Some entries) defs = (true, defs') ->
  (is_valid (get_definition defs' i s) = true <->
   exists a d, a ∈ ds /\ d ∈ _severity_details a /\ _index a = i /\ _severity d = s) /\
  (is_valid (get_definition defs' i s) = true ->
   alarm_index (get_definition defs' i s) = i /\ severity (get_definition defs' i s) = s).
Proof.
  intros Hinv Hl Hi. pose proof (initialize_wf (Some entries) defs Hinv) as Hwf.
  rewrite Hi in Hwf. split; [|by apply defs_wf_get].
  rewrite defs_wf_valid_iff by done.
  assert (NoDup (indices ds)) as Hnd.
  { unfold initialize in Hi. destruct (initialize_loop entries [] []) as [rc m] eqn:Hm. simplify_eq.
    apply initialize_loop_spec in Hm as (ds' & Hl' & [? _] & _). congruence. }
  rewrite (initialize_eq _ _ _ Hl Hnd) in Hi. simplify_eq/=. rewrite find_insert_all. simpl.
  split.
  - intros [def Hf%union_Some]. destruct Hf as [Hf|[_ Hf]]; [done|].
    apply List.find_some in Hf as [Hin Hk]. split_bools.
    apply list_elem_of_In, elem_of_table_defs in Hin as (a & d & Ha & Hd & ->).
    exists a, d. by injection Hk as <- <-.
  - intros (a & d & Ha & Hd & <- & <-).
    destruct (List.find _ (table_defs ds)) eqn:Hf; [by eexists|].
    apply (List.find_none _ _) with (x := AlarmTableDef_make a d) in Hf; [by split_bools|].
    apply list_elem_of_In, elem_of_table_defs. eauto.
Qed.

(** ** Concrete instances *)

Import Sample.

Lemma initialize_correct_witness :
  (initialize (Some Sample.entries) Sample.no_defs).1 = true /\
  (initialize (Some (Sample.entries ++ [mkDirEntry true ".json" "/alarms/dup.json"]))
     Sample.no_defs).1 = false /\
  get_definition Sample.defs 2000 4 =
    AlarmTableDef_make (Sample.multi_level 2000) (Sample.level 4 "major").
Proof.
  split_and!; [reflexivity|reflexivity|].
  pose proof (proj2 (initialize_correct Sample.entries Sample.no_defs)
    [Sample.process_fail 1000; Sample.multi_level 2000; Sample.process_fail 1001]) as Hl.
  unfold Sample.defs. rewrite Hl; [reflexivity|reflexivity|].
  vm_compute. repeat constructor; set_solver.
Defined.

Lemma loaded_definition_valid_witness :
  is_valid (get_definition Sample.defs 1000 3) = true /\
  is_valid (get_definition Sample.defs 6000 3) = false.
Proof.
  assert (forall i s, is_valid (get_definition Sample.defs i s) = true <->
    exists a d, a ∈ [Sample.process_fail 1000; Sample.multi_level 2000; Sample.process_fail 1001] /\
      d ∈ _severity_details a /\ _index a = i /\ _severity d = s) as Hv.
  { intros i s. apply (loaded_definition_valid Sample.entries Sample.no_defs); reflexivity. }
  split; [|reflexivity]. apply Hv. exists (Sample.process_fail 1000), (Sample.level 3 "Process failure").
  split_and!; [set_solver|set_solver|reflexivity|reflexivity].
Defined.

Lemma initialize_order_independent_witness :
  (initialize (Some Sample.entries) Sample.no_defs).1 = (initialize (Some (reverse Sample.entries)) Sample.no_defs).1 /\
  get_definition Sample.defs 2000 4 = get_definition (initialize (Some (reverse Sample.entries)) Sample.no_defs).2 2000 4.
Proof.
  destruct (initialize_order_independent Sample.entries (reverse Sample.entries) Sample.no_defs) as [Hrc Hget].
  - symmetry. apply reverse_Permutation.
  - split; [exact Hrc|]. apply Hget. reflexivity.
Defined.
