(* ===== verification/TrapSender.v ===== *)
(** The trap sender: [src/alarm_trap_sender.cpp], [include/alarm_trap_sender.hpp].

    [send_trap] turns an alarm definition into the INFORMs passed to Net-SNMP's
    [send_v2trap], one per configured notification type: the variable bindings
    of the RFC 3877 notification and of the enterprise one. What is handed to
    [send_v2trap] is a [v2trap]: the bindings in order and the correlator (the
    definition) the delivery callback gets back. The callback itself is in
    [Scheduler], since it only calls the scheduler. *)

From S2P Require Export AlarmDefs NetSnmp.

(** ** Data *)

Inductive NotificationType := RFC3877 | ENTERPRISE.

#[export] Instance NotificationType_eq_dec : EqDecision NotificationType.
Proof. solve_decision. Defined.

(** The values of the enumeration, which order [std::set<NotificationType>]. *)
Definition notification_value (n : NotificationType) : Z :=
  match n with RFC3877 => 0 | ENTERPRISE => 1 end.

#[export] Instance NotificationType_lt : Comparator NotificationType :=
  fun a b => notification_value a <? notification_value b.

(** [std::set<NotificationType>] *)
Abbreviation notification_set := (smap NotificationType unit).

Record AlarmTrapSender := mkAlarmTrapSender {
  _snmp_notifications : notification_set;
  _hostname : string;
}.

(** A call of [send_v2trap]: the chain of variables and the correlator. *)
Record v2trap := mkV2trap {
  trap_vars : list varbind;
  trap_correlator : AlarmTableDef;
}.

(** The delivery outcome reported by Net-SNMP. *)
Inductive callback_op :=
| NETSNMP_CALLBACK_OP_RECEIVED_MESSAGE
| NETSNMP_CALLBACK_OP_SEND_FAILED
| NETSNMP_CALLBACK_OP_TIMED_OUT
| NETSNMP_CALLBACK_OP_OTHER (op : Z).

(** ** The notifications *)

Definition MIB_VERSION : string := "201608081100".

(** Positions of the index and the state in a row OID of the model table. *)
Definition ALARMMODELTABLEROW_INDEX : nat := 13.
Definition ALARMMODELTABLEROW_STATE : nat := 14.

(** The row OID sent as model pointer: the constant row with its two index
    elements overwritten in place. *)
Definition fill_model_row (row : oids) (index st : Z) : option oids :=
  row1 ← set_subid ALARMMODELTABLEROW_INDEX index row;
  set_subid ALARMMODELTABLEROW_STATE st row1.

Section rfc3877.
Context `{AlarmDefLib}.

Definition snmp_trap_oid : oids := [1;3;6;1;6;3;1;1;4;1;0].
Definition clear_oid : oids := [1;3;6;1;2;1;118;0;3].
Definition active_oid : oids := [1;3;6;1;2;1;118;0;2].
Definition model_ptr_oid : oids := [1;3;6;1;2;1;118;1;2;2;1;13;0].
Definition model_row_oid : oids := [1;3;6;1;2;1;118;1;1;2;1;3;0;1;2].
Definition rfc_resource_id_oid : oids := [1;3;6;1;2;1;118;1;2;2;1;10;0].
Definition zero_dot_zero : oids := [0;0].

(** [AlarmTrapSender::send_rfc3877_trap] *)
Definition send_rfc3877_trap (def : AlarmTableDef) : option v2trap :=
  st ← state def;
  row ← fill_model_row model_row_oid (alarm_index def) st;
  Some (mkV2trap
    [ mkVarbind snmp_trap_oid
        (ASN_OBJECT_ID (if severity def =? CLEARED then clear_oid else active_oid));
      mkVarbind model_ptr_oid (ASN_OBJECT_ID row);
      mkVarbind rfc_resource_id_oid (ASN_OBJECT_ID zero_dot_zero) ]
    def).
End rfc3877.

(** [severity_to_string] of [send_enterprise_trap]. *)
Definition severity_to_string : list string :=
  ["UNDEFINED_SEVERITY"; "CLEARED"; "INDETERMINATE"; "CRITICAL"; "MAJOR"; "MINOR"; "WARNING"].

Definition trap_type_oid : oids := [1;3;6;1;4;1;19444;12;2;0;1].
Definition MIB_version_oid : oids := [1;2;826;0;1;1578918;12;1;1].
Definition alarm_name_oid : oids := [1;3;6;1;4;1;19444;12;2;0;2].
Definition alarm_oid_oid : oids := [1;3;6;1;4;1;19444;12;2;0;3].
Definition resource_id_oid : oids := [1;3;6;1;4;1;19444;12;2;0;4].
Definition alarm_severity_oid : oids := [1;3;6;1;4;1;19444;12;2;0;5].
Definition alarm_description_oid : oids := [1;3;6;1;4;1;19444;12;2;0;6].
Definition alarm_details_oid : oids := [1;3;6;1;4;1;19444;12;2;0;7].
Definition alarm_cause_oid : oids := [1;3;6;1;4;1;19444;12;2;0;8].
Definition alarm_effect_oid : oids := [1;3;6;1;4;1;19444;12;2;0;9].
Definition alarm_action_oid : oids := [1;3;6;1;4;1;19444;12;2;0;10].
Definition alarm_hostname_oid : oids := [1;3;6;1;4;1;19444;12;2;0;12].

(** [AlarmTrapSender::send_enterprise_trap] *)
Definition send_enterprise_trap (hostname : string) (def : AlarmTableDef) : option v2trap :=
  st ← state def;
  row ← fill_model_row model_row_oid (alarm_index def) st;
  sev ← severity_to_string !! Z.to_nat (severity def);
  Some (mkV2trap
    [ mkVarbind snmp_trap_oid (ASN_OBJECT_ID trap_type_oid);
      mkVarbind MIB_version_oid (ASN_OCTET_STR (octets MIB_VERSION));
      mkVarbind alarm_name_oid (ASN_OCTET_STR (octets (name def)));
      mkVarbind alarm_oid_oid (ASN_OBJECT_ID row);
      mkVarbind resource_id_oid (ASN_OBJECT_ID zero_dot_zero);
      mkVarbind alarm_severity_oid (ASN_OCTET_STR (octets sev));
      mkVarbind alarm_description_oid (ASN_OCTET_STR (octets (extended_description def)));
      mkVarbind alarm_details_oid (ASN_OCTET_STR (octets (extended_details def)));
      mkVarbind alarm_cause_oid (ASN_OCTET_STR (octets (cause def)));
      mkVarbind alarm_effect_oid (ASN_OCTET_STR (octets (effect def)));
      mkVarbind alarm_action_oid (ASN_OCTET_STR (octets (action def)));
      mkVarbind alarm_hostname_oid (ASN_OCTET_STR (octets hostname)) ]
    def).

Section send.
Context `{AlarmDefLib}.

(** One iteration of the loop of [send_trap]. *)
Definition send_notification (sender : AlarmTrapSender) (def : AlarmTableDef)
    (n : NotificationType) : option v2trap :=
  match n with
  | RFC3877 => send_rfc3877_trap def
  | ENTERPRISE => send_enterprise_trap (_hostname sender) def
  end.

(** [AlarmTrapSender::send_trap]: the traps sent, in the order of the set. *)
Definition send_trap (sender : AlarmTrapSender) (def : AlarmTableDef) : option (list v2trap) :=
  mapM (send_notification sender def) (_snmp_notifications sender).*1.
End send.

(** ** Lemmas *)

#[export] Instance NotificationType_order : StrictOrderLaws NotificationType.
Proof.
  split; unfold cmp_lt, NotificationType_lt.
  - by intros [].
  - by intros [] [] [].
  - by intros [] [].
Qed.

(** The row OID a trap carries, with its parts named: the model table, its entry
    and first accessible column, and the row index (empty list name, index, state). *)
Lemma fill_model_row_spec index st :
  fill_model_row model_row_oid index st =
  Some (alarmModelTable_oid ++ entry_column_oid ++ [0; index; st]).
Proof. reflexivity. Qed.

(** The severities the two lookup tables of the sender have an entry for. *)
Definition known_severity (s : Z) : Prop := 0 <= s <= 6.

Lemma state_known def : known_severity (severity def) -> is_Some (state def).
Proof. intros Hs. destruct (state_in_range def) as (s & -> & _); [done|]. by eexists. Qed.

Lemma severity_to_string_known s :
  known_severity s -> is_Some (severity_to_string !! Z.to_nat s).
Proof. intros Hs. apply lookup_lt_is_Some. unfold known_severity in Hs. simpl. lia. Qed.

Lemma send_trap_known `{AlarmDefLib} sender def :
  known_severity (severity def) -> is_Some (send_trap sender def).
Proof.
  intros Hs. unfold send_trap. apply mapM_is_Some_2, Forall_true. intros n.
  destruct (state_known _ Hs) as [st Hst], (severity_to_string_known _ Hs) as [sv Hsv].
  destruct n; simpl; unfold send_rfc3877_trap, send_enterprise_trap;
    rewrite Hst; simpl; rewrite ?Hsv; by eexists.
Qed.

Lemma send_trap_correlator `{AlarmDefLib} sender def traps t :
  send_trap sender def = Some traps -> t ∈ traps -> trap_correlator t = def.
Proof.
  unfold send_trap. intros Hm Ht. apply mapM_Some_1 in Hm.
  apply list_elem_of_lookup in Ht as [i Hi].
  destruct (Forall2_lookup_r _ _ _ _ _ Hm Hi) as (n & _ & Hn).
  destruct n; simpl in Hn; unfold send_rfc3877_trap, send_enterprise_trap in Hn;
    repeat (apply bind_Some in Hn as (? & ? & Hn)); by simplify_eq.
Qed.

(** ** What is sent *)

Section sent.
Context `{AlarmDefLib}.

Lemma notification_set_cases (s : notification_set) :
  sorted s ->
  s.*1 = (if bool_decide (RFC3877 ∈ s.*1) then [RFC3877] else []) ++
         (if bool_decide (ENTERPRISE ∈ s.*1) then [ENTERPRISE] else []).
Proof.
  destruct s as [|[a u] [|[b v] [|[c w] s]]]; simpl; intros Hs.
  - done.
  - by destruct a.
  - apply sorted_cons in Hs as [_ Hab]. apply Forall_inv in Hab. simpl in Hab.
    by destruct a, b.
  - apply sorted_cons in Hs as [Hs Hab]. apply sorted_cons in Hs as [_ Hbc].
    apply Forall_inv in Hab, Hbc. simpl in *. by destruct a, b, c.
Qed.

(** *** How a manager reads a notification *)

(** The value of a variable. *)
Definition variable (o : oids) (vars : list varbind) : option asn_value :=
  vb_value <$> List.find (fun vb => bool_decide (vb_name vb = o)) vars.

Definition object_value (v : asn_value) : option oids := match v with ASN_OBJECT_ID o => Some o | _ => None end.

Definition object (o : oids) (vars : list varbind) : option oids := v ← variable o vars; object_value v.

(** A [DisplayString]. *)
Definition display_value (v : asn_value) : option string :=
  match v with ASN_OCTET_STR bytes => Some (String.string_of_list_ascii ((fun b => Ascii.ascii_of_nat (Z.to_nat b)) <$> bytes)) | _ => None end.

Definition display (o : oids) (vars : list varbind) : option string := v ← variable o vars; display_value v.

(** The index and the state of a row of the alarm model table of RFC 3877, whose list name is
    empty: its first accessible column is the third. *)
Definition model_row_value (o : oids) : option (Z * Z) :=
  match drop 13 o with
  | [i; s] => if bool_decide (take 13 o = [1;3;6;1;2;1;118;1;1;2;1;3;0]) then Some (i, s) else None
  | _ => None
  end.

(** The perceived severity of an alarm model state: RFC 3877, section 5.4. *)
Definition perceived_severity (state : Z) : option Z :=
  match state with
  | 1 => Some 1 | 2 => Some 2 | 3 => Some 6 | 4 => Some 5 | 5 => Some 4 | 6 => Some 3 | _ => None
  end.

(** The number of a perceived severity in X.721. *)
Definition named_severity (s : string) : option Z :=
  (if String.eqb s "CLEARED" then Some 1
   else if String.eqb s "INDETERMINATE" then Some 2
   else if String.eqb s "CRITICAL" then Some 3
   else if String.eqb s "MAJOR" then Some 4
   else if String.eqb s "MINOR" then Some 5
   else if String.eqb s "WARNING" then Some 6
   else None)%string.

(** A notification of the MIB of RFC 3877, of whether the alarm is cleared, with its index and
    severity; or the [alarmTrap] of [CLEARWATER-ENTERPRISE-MIB], with the severity it names and
    the texts: display name, description, details, cause, effect, action and host name. *)
Inductive notification :=
| AlarmState (cleared : bool) (index severity : Z)
| AlarmTrap (index severity : Z) (texts : list string).

(** The objects under [alarmTrapsPrefix]. *)
Definition alarm_traps_prefix (n : Z) : oids := [1;3;6;1;4;1;19444;12;2;0;n].

Definition read_alarm_state (vars : list varbind) : option notification :=
  kind ← object [1;3;6;1;6;3;1;1;4;1;0] vars;
  row ← object [1;3;6;1;2;1;118;1;2;2;1;13;0] vars;
  '(i, st) ← model_row_value row;
  sev ← perceived_severity st;
  if bool_decide (kind = [1;3;6;1;2;1;118;0;2]) then Some (AlarmState false i sev)
  else if bool_decide (kind = [1;3;6;1;2;1;118;0;3]) then Some (AlarmState true i sev)
  else None.

Definition read_alarm_trap (vars : list varbind) : option notification :=
  row ← object (alarm_traps_prefix 3) vars;
  '(i, st) ← model_row_value row;
  text ← display (alarm_traps_prefix 5) vars;
  sev ← named_severity text;
  texts ← mapM (fun n => display (alarm_traps_prefix n) vars) [2; 6; 7; 8; 9; 10; 12];
  if bool_decide (perceived_severity st = Some sev) then Some (AlarmTrap i sev texts) else None.

Definition read_notification (vars : list varbind) : option notification :=
  if bool_decide (variable [1;3;6;1;6;3;1;1;4;1;0] vars = Some (ASN_OBJECT_ID (alarm_traps_prefix 1)))
  then read_alarm_trap vars else read_alarm_state vars.

Lemma display_octets s : display_value (ASN_OCTET_STR (octets s)) = Some s.
Proof.
  cbn. f_equal. unfold octets. rewrite <- list_fmap_compose.
  assert (forall l, (fun b => Ascii.ascii_of_nat (Z.to_nat b)) ∘ code <$> l = l) as ->.
  { induction l as [|c l IH]; [done|]. rewrite fmap_cons, IH. f_equal. unfold compose, code.
    by rewrite Nat2Z.id, Ascii.ascii_nat_embedding. }
  apply String.string_of_list_ascii_of_string.
Qed.

(** The model row names the alarm, and its state is that of the severity. *)
Lemma model_row_read def :
  1 <= severity def <= 6 ->
  exists st row, state def = Some st /\ fill_model_row model_row_oid (alarm_index def) st = Some row /\
    model_row_value row = Some (alarm_index def, st) /\ perceived_severity st = Some (severity def).
Proof.
  intros Hs. unfold state.
  assert (severity def = 1 \/ severity def = 2 \/ severity def = 3 \/ severity def = 4 \/ severity def = 5 \/ severity def = 6)
    as Hc by lia.
  destruct Hc as [->|[->|[->|[->|[->| ->]]]]]; eexists _, _;
    (split; [reflexivity|]); (split; [reflexivity|]); split; reflexivity.
Qed.

Lemma severity_named s :
  1 <= s <= 6 -> exists sev, severity_to_string !! Z.to_nat s = Some sev /\ named_severity sev = Some s.
Proof.
  intros Hs. assert (s = 1 \/ s = 2 \/ s = 3 \/ s = 4 \/ s = 5 \/ s = 6) as Hc by lia.
  destruct Hc as [->|[->|[->|[->|[->| ->]]]]]; by eexists.
Qed.

(** The RFC 3877 notification is an [alarmClearState] exactly when the severity is cleared. *)
Lemma rfc3877_read def :
  CLEARED = 1 -> 1 <= severity def <= 6 ->
  exists t, send_rfc3877_trap def = Some t /\ trap_correlator t = def /\
    read_notification (trap_vars t) = Some (AlarmState (severity def =? 1) (alarm_index def) (severity def)).
Proof.
  intros Hc Hs. destruct (model_row_read def Hs) as (st & row & Hst & Hrow & Hval & Hp).
  unfold send_rfc3877_trap. rewrite Hst. cbn [mbind option_bind]. rewrite Hrow. cbn [mbind option_bind].
  eexists. split; [done|]. split; [done|]. rewrite Hc.
  cbn [trap_vars]. set (kind := if severity def =? 1 then clear_oid else active_oid).
  match goal with |- read_notification ?l = _ => set (vars := l) end.
  assert (variable [1;3;6;1;6;3;1;1;4;1;0] vars = Some (ASN_OBJECT_ID kind)) as Hk by reflexivity.
  assert (object [1;3;6;1;2;1;118;1;2;2;1;13;0] vars = Some row) as Hm by reflexivity.
  unfold read_notification. rewrite bool_decide_false by (rewrite Hk; unfold kind; by destruct (severity def =? 1)).
  assert (object [1;3;6;1;6;3;1;1;4;1;0] vars = Some kind) as Ho by reflexivity.
  unfold read_alarm_state. rewrite Ho. cbn [mbind option_bind]. rewrite Hm. cbn [mbind option_bind]. rewrite Hval.
  cbn [mbind option_bind]. rewrite Hp. unfold kind. by destruct (severity def =? 1).
Qed.

Lemma enterprise_read hostname def :
  1 <= severity def <= 6 ->
  exists t, send_enterprise_trap hostname def = Some t /\ trap_correlator t = def /\
    read_notification (trap_vars t) =
      Some (AlarmTrap (alarm_index def) (severity def)
              [name def; extended_description def; extended_details def; cause def; effect def; action def; hostname]).
Proof.
  intros Hs. destruct (model_row_read def Hs) as (st & row & Hst & Hrow & Hval & Hp).
  destruct (severity_named _ Hs) as (sev & Hsev & Hname).
  unfold send_enterprise_trap. rewrite Hst. cbn [mbind option_bind]. rewrite Hrow. cbn [mbind option_bind].
  rewrite Hsev. cbn [mbind option_bind]. eexists. split; [done|]. split; [done|]. cbn [trap_vars].
  match goal with |- read_notification ?l = _ => set (vars := l) end.
  assert (read_notification vars =
    '(i, s) ← model_row_value row;
    text ← display_value (ASN_OCTET_STR (octets sev));
    sv ← named_severity text;
    texts ← mapM (fun text => display_value (ASN_OCTET_STR (octets text)))
      [name def; extended_description def; extended_details def; cause def; effect def; action def; hostname];
    if bool_decide (perceived_severity s = Some sv) then Some (AlarmTrap i sv texts) else None) as -> by reflexivity.
  rewrite Hval. cbn [mbind option_bind]. rewrite display_octets. cbn [mbind option_bind]. rewrite Hname.
  cbn [mbind option_bind mapM]. rewrite !display_octets. cbn. by rewrite bool_decide_true.
Qed.

(** C30: a manager reads from the notifications what the definition says. For a definition
    of any perceived severity, what [send_trap] hands to Net-SNMP, read as RFC 3877 and
    [CLEARWATER-ENTERPRISE-MIB] define the objects, is: when RFC 3877 is configured, an
    [alarmClearState] or else an [alarmActiveState], the former exactly when the severity is
    cleared, of an alarm model row with the definition's index and the state of its severity; and
    then, when the enterprise MIB is configured, an [alarmTrap] of the same row that
    names the same severity and has the texts of the definition and the host name, each in the
    object defined for it. The callback of each gets the definition back. [AlarmDef::CLEARED] has
    the value that the tables of the source give it. *)
Theorem notifications_decoded sender def :
  CLEARED = 1 -> sorted (_snmp_notifications sender) -> 1 <= severity def <= 6 ->
  exists traps, send_trap sender def = Some traps /\ Forall (fun t => trap_correlator t = def) traps /\
    (read_notification ∘ trap_vars <$> traps) =
      (if bool_decide (RFC3877 ∈ (_snmp_notifications sender).*1) then
         [Some (AlarmState (severity def =? 1) (alarm_index def) (severity def))]
       else []) ++
      (if bool_decide (ENTERPRISE ∈ (_snmp_notifications sender).*1) then
         [Some (AlarmTrap (alarm_index def) (severity def)
                  [name def; extended_description def; extended_details def; cause def; effect def; action def;
                   _hostname sender])]
       else []).
Proof.
  intros Hc Hs Hk. destruct (rfc3877_read def Hc Hk) as (t1 & Ht1 & Hd1 & Hr1).
  destruct (enterprise_read (_hostname sender) def Hk) as (t2 & Ht2 & Hd2 & Hr2).
  unfold send_trap. rewrite (notification_set_cases _ Hs).
  exists ((if bool_decide (RFC3877 ∈ (_snmp_notifications sender).*1) then [t1] else []) ++
          (if bool_decide (ENTERPRISE ∈ (_snmp_notifications sender).*1) then [t2] else [])).
  do 2 case_bool_decide; cbn [app mapM send_notification mbind option_bind]; rewrite ?Ht1; cbn [mbind option_bind];
    rewrite ?Ht2; (split; [done|]); (split; [by repeat constructor|]); cbn; by rewrite ?Hr1, ?Hr2.
Qed.
End sent.

Import Sample.

Lemma notifications_decoded_witness :
  exists rfc enterprise,
    send_trap (mkAlarmTrapSender [(RFC3877, tt); (ENTERPRISE, tt)] "host") (get_definition Sample.defs 1000 3) = Some [rfc; enterprise] /\
    read_notification (trap_vars rfc) = Some (AlarmState false 1000 3).
Proof.
  assert (severity (get_definition Sample.defs 1000 3) = 3) as Hsev by (vm_compute; reflexivity).
  destruct (notifications_decoded (mkAlarmTrapSender [(RFC3877, tt); (ENTERPRISE, tt)] "host") (get_definition Sample.defs 1000 3))
    as (traps & Ht & _ & Hr).
  - reflexivity.
  - by repeat constructor.
  - rewrite Hsev. lia.
  - destruct traps as [|rfc [|enterprise [|]]]; [discriminate Hr|discriminate Hr| |discriminate Hr].
    exists rfc, enterprise. split; [exact Ht|]. injection Hr as -> _. vm_compute. reflexivity.
Defined.
