(* ===== verification/Options.v ===== *)
(** The command line of the agent: the options of [src/alarms_agent.cpp].

    [getopt_long] is the C library's, as its manual describes it, over the table [long_opt] of
    the source, which has no terminating entry: the search for a name that no entry matches
    exactly goes on beyond the table. [Utils::split_string] and [Utils::split_host_port] of
    cpp-common are parameters. *)

From S2P Require Export TrapSender.

(** ** Parameters *)

(** [Utils::split_string(s, ',', tokens)]: the tokens it appends; and
    [Utils::split_host_port(s, host, port)]: its outputs when it returns true. *)
Class AgentUtils := {
  split_string : string -> list string;
  split_host_port : string -> option (string * Z);
}.

(** ** The table of options *)

Inductive OptionTypes :=
| OPT_COMMUNITY
| OPT_SNMP_NOTIFICATION_TYPE
| OPT_LOCAL_IP
| OPT_HOSTNAME
| OPT_SNMP_IPS
| OPT_LOG_LEVEL
| OPT_LOG_DIR.

#[export] Instance OptionTypes_eq_dec : EqDecision OptionTypes.
Proof. solve_decision. Defined.

(** The name and the value of each entry; all have a required argument. *)
Definition long_opt : list (string * OptionTypes) :=
  [("community", OPT_COMMUNITY);
   ("snmp-notification-types", OPT_SNMP_NOTIFICATION_TYPE);
   ("snmp-ips", OPT_SNMP_IPS);
   ("local-ip", OPT_LOCAL_IP);
   ("hostname", OPT_HOSTNAME);
   ("log-level", OPT_LOG_LEVEL);
   ("log-dir", OPT_LOG_DIR)].

(** ** [getopt_long] *)

(** How its calls end: with -1, with a question mark, or reading beyond [long_opt]. *)
Inductive getopt_end := EndOfOptions | QuestionMark | BeyondTable.

(** A long option up to its first [=], and what follows it. *)
Fixpoint option_name (s : string) : string * option string :=
  match s with
  | "" => ("", None)
  | String c s' =>
    if Ascii.eqb c "=" then ("", Some s')
    else let (n, v) := option_name s' in (String c n, v)
  end%string.

(** The entry whose name is matched exactly, searched from the first one. *)
Fixpoint exact_match (name : string) (table : list (string * OptionTypes)) : option OptionTypes :=
  match table with
  | [] => None
  | (n, val) :: table' => if String.eqb n name then Some val else exact_match name table'
  end.

(** What an argument is: no option, the end of the options, a short option (of which there are
    none), a long one found in the table, or one that is not found. *)
Inductive argument :=
| NoOption
| DashDash
| ShortOption
| LongOption (val : OptionTypes) (value : option string)
| NotFound.

Definition classify (arg : string) : argument :=
  match arg with
  | String "-" (String "-" "") => DashDash
  | String "-" (String "-" s) =>
    let (n, v) := option_name s in
    match exact_match n long_opt with Some val => LongOption val v | None => NotFound end
  | String "-" (String _ _) => ShortOption
  | _ => NoOption
  end%string.

(** The options that the calls of [getopt_long(argc, argv, "", long_opt, ...)] return, with
    [optarg], and how they end, on the arguments after [argv[0]]. Other arguments are
    passed over, or end the options if [POSIXLY_CORRECT] is set. *)
Fixpoint getopt_long (posixly_correct : bool) (args : list string) : list (OptionTypes * string) * getopt_end :=
  match args with
  | [] => ([], EndOfOptions)
  | arg :: args1 =>
    match classify arg with
    | NoOption => if posixly_correct then ([], EndOfOptions) else getopt_long posixly_correct args1
    | DashDash => ([], EndOfOptions)
    | ShortOption => ([], QuestionMark)
    | NotFound => ([], BeyondTable)
    | LongOption val (Some optarg) =>
      let (opts, e) := getopt_long posixly_correct args1 in ((val, optarg) :: opts, e)
    | LongOption val None =>
      match args1 with
      | [] => ([], QuestionMark)
      | optarg :: args2 => let (opts, e) := getopt_long posixly_correct args2 in ((val, optarg) :: opts, e)
      end
    end
  end.

(** ** The configuration *)

(** The local variables of [main] the options set. *)
Record agent_config := mkAgentConfig {
  trap_ips : list string;
  community : option string;
  snmp_notifications : notification_set;
  local_ip : string;
  hostname : string;
  logdir : string;
  loglevel : Z;
}.

Definition config_zero : agent_config := mkAgentConfig [] None [] "0.0.0.0" "" "" 4.

(** The loop over the notification types of one option; unknown names are reported. *)
Definition add_notification (l : notification_set) (it : string) : notification_set :=
  if String.eqb it "rfc3877" then emplace RFC3877 tt l
  else if String.eqb it "enterprise" then emplace ENTERPRISE tt l
  else l.

Section options.
Context `{AgentUtils}.

(** The cases of the [switch] for the options of the table. *)
Definition set_option (c : agent_config) (opt : OptionTypes * string) : agent_config :=
  let optarg := opt.2 in
  match opt.1 with
  | OPT_COMMUNITY =>
    mkAgentConfig (trap_ips c) (Some optarg) (snmp_notifications c) (local_ip c) (hostname c) (logdir c) (loglevel c)
  | OPT_SNMP_NOTIFICATION_TYPE =>
    mkAgentConfig (trap_ips c) (community c)
      (fold_left add_notification (split_string optarg) (snmp_notifications c))
      (local_ip c) (hostname c) (logdir c) (loglevel c)
  | OPT_SNMP_IPS =>
    mkAgentConfig (trap_ips c ++ split_string optarg) (community c) (snmp_notifications c) (local_ip c) (hostname c) (logdir c) (loglevel c)
  | OPT_LOCAL_IP =>
    mkAgentConfig (trap_ips c) (community c) (snmp_notifications c) optarg (hostname c) (logdir c) (loglevel c)
  | OPT_HOSTNAME =>
    mkAgentConfig (trap_ips c) (community c) (snmp_notifications c) (local_ip c) optarg (logdir c) (loglevel c)
  | OPT_LOG_LEVEL =>
    mkAgentConfig (trap_ips c) (community c) (snmp_notifications c) (local_ip c) (hostname c) (logdir c) (atoi optarg)
  | OPT_LOG_DIR =>
    mkAgentConfig (trap_ips c) (community c) (snmp_notifications c) (local_ip c) (hostname c) optarg (loglevel c)
  end.

(** How the loop over the options ends: with the configuration, with [usage] and [abort]
    (the default case), or in a read beyond the table. *)
Inductive options_outcome := Configured (c : agent_config) | UsageThenAbort | ReadOutOfBounds.

Definition parse_options (posixly_correct : bool) (args : list string) : options_outcome :=
  let (opts, e) := getopt_long posixly_correct args in
  match e with
  | EndOfOptions => Configured (fold_left set_option opts config_zero)
  | QuestionMark => UsageThenAbort
  | BeyondTable => ReadOutOfBounds
  end.

(** The default when no type is configured. *)
Definition notifications_or_default (l : notification_set) : notification_set :=
  match l with [] => emplace RFC3877 tt l | _ => l end.

(** The receiver of an element of [trap_ips]. *)
Definition trap_receiver (ip : string) : string * Z :=
  let addr := c_str ip in
  match split_host_port addr with
  | Some (host, port) => (c_str host, port)
  | None => (c_str addr, 162)
  end.
End options.

(** [usage]: what it prints before [main] aborts. *)
Definition usage : list string :=
  ["Options:";
   "";
   " --local-ip <ip>            Local IP address of this node";
   " --hostname <name>          Hostname to identify this node in enterprise alarms";
   " --snmp-ips <ip>,<ip>       Send SNMP notifications to the specified IPs";
   " --community <name>         Include the given community string on notifications";
   " --snmp-notification-types  Sends SNMP notifiations with the specified format";
   " --log-dir <directory>";
   "                            Log to file in specified directory";
   " --log-level N              Set log level to N (default: 4)"].

(** ** What the command line means *)

(** The name [usage] documents for each option. *)
Definition documented (o : OptionTypes) : string :=
  match o with
  | OPT_LOCAL_IP => "local-ip"
  | OPT_HOSTNAME => "hostname"
  | OPT_SNMP_IPS => "snmp-ips"
  | OPT_COMMUNITY => "community"
  | OPT_SNMP_NOTIFICATION_TYPE => "snmp-notification-types"
  | OPT_LOG_DIR => "log-dir"
  | OPT_LOG_LEVEL => "log-level"
  end.

Definition not_option (arg : string) : Prop := forall s, arg = ("-" ++ s)%string -> s = ""%string.

(** Arguments that are options with their values, in either form, among others that are not. *)
Inductive arguments (posixly_correct : bool) : list (OptionTypes * string) -> list string -> Prop :=
| args_nil : arguments posixly_correct [] []
| args_separate o v opts l :
    arguments posixly_correct opts l ->
    arguments posixly_correct ((o, v) :: opts) (("--" ++ documented o)%string :: v :: l)
| args_joined o v opts l :
    arguments posixly_correct opts l ->
    arguments posixly_correct ((o, v) :: opts) (("--" ++ documented o ++ "=" ++ v)%string :: l)
| args_other arg opts l :
    posixly_correct = false -> not_option arg -> arguments posixly_correct opts l ->
    arguments posixly_correct opts (arg :: l).

(** What can follow them: the end of the options; a short option, or a documented one that lacks
    its value; or a long option that is not documented. *)
Inductive arguments_end (posixly_correct : bool) : list string -> getopt_end -> Prop :=
| end_nil : arguments_end posixly_correct [] EndOfOptions
| end_dashes l : arguments_end posixly_correct ("--" :: l) EndOfOptions
| end_posix arg l :
    posixly_correct = true -> not_option arg -> arguments_end posixly_correct (arg :: l) EndOfOptions
| end_short c s l : c <> "-"%char -> arguments_end posixly_correct (String "-" (String c s) :: l) QuestionMark
| end_missing o : arguments_end posixly_correct [("--" ++ documented o)%string] QuestionMark
| end_undocumented s l :
    s <> ""%string -> (forall o, s <> documented o /\ forall v, s <> (documented o ++ "=" ++ v)%string) ->
    arguments_end posixly_correct (("--" ++ s)%string :: l) BeyondTable.

(** The values given to an option. *)
Definition values (o : OptionTypes) (opts : list (OptionTypes * string)) : list string :=
  (filter (fun x => x.1 = o) opts).*2.

(** ** Lemmas *)

Lemma option_name_inv s :
  s = match option_name s with (n, Some v) => (n ++ "=" ++ v)%string | (n, None) => n end.
Proof.
  induction s as [|c s IH]; [done|]. cbn [option_name]. destruct (Ascii.eqb_spec c "=") as [->|Hc]; [done|].
  destruct (option_name s) as [n [v|]]; cbn; by rewrite IH at 1.
Qed.

Lemma option_name_documented o : option_name (documented o) = (documented o, None).
Proof. by destruct o. Qed.

Lemma option_name_joined o v : option_name (documented o ++ "=" ++ v) = (documented o, Some v).
Proof. by destruct o. Qed.

Lemma exact_match_documented o : exact_match (documented o) long_opt = Some o.
Proof. by destruct o. Qed.

Lemma exact_match_Some n o : exact_match n long_opt = Some o -> n = documented o.
Proof.
  unfold long_opt. cbn [exact_match].
  repeat (match goal with |- context [String.eqb ?a ?b] => destruct (String.eqb_spec a b) as [<-|] end; [by intros [= <-]|]).
  done.
Qed.

(** The classes of arguments, read both ways. *)
Lemma classify_spec arg :
  match classify arg with
  | NoOption => not_option arg
  | DashDash => arg = "--"%string
  | ShortOption => exists c s, arg = String "-" (String c s) /\ c <> "-"%char
  | LongOption o None => arg = ("--" ++ documented o)%string
  | LongOption o (Some v) => arg = ("--" ++ documented o ++ "=" ++ v)%string
  | NotFound => exists s, arg = ("--" ++ s)%string /\ s <> ""%string /\
      forall o, s <> documented o /\ forall v, s <> (documented o ++ "=" ++ v)%string
  end.
Proof.
  assert (forall s, (exists c s', s = String "-" (String c s')) \/ s = "-"%string \/ s = ""%string \/
                    exists c s', s = String c s' /\ c <> "-"%char) as Hs.
  { intros [|c s]; [by auto|]. destruct (ascii_dec c "-") as [->|Hc]; [|right; right; right; by exists c, s].
    destruct s as [|c' s]; [by auto|]. left. by exists c', s. }
  destruct (Hs arg) as [(c & s & ->)|[->|[->|(c & s & -> & Hc)]]].
  - destruct (ascii_dec c "-") as [->|Hc].
    + destruct s as [|c s]; [done|]. cbn [classify]. pose proof (option_name_inv (String c s)) as Hn.
      destruct (option_name (String c s)) as [n v] eqn:He. destruct (exact_match n long_opt) as [o|] eqn:Hm.
      * apply exact_match_Some in Hm as ->. destruct v as [v|]; by rewrite Hn.
      * exists (String c s). split_and!; [done|done|]. intros o. split.
        -- intros Ho. rewrite Ho, option_name_documented in He. injection He as <- _. by rewrite exact_match_documented in Hm.
        -- intros w Ho. rewrite Ho, option_name_joined in He. injection He as <- _. by rewrite exact_match_documented in Hm.
    + assert (classify (String "-" (String c s)) = ShortOption) as ->; [|by exists c, s].
      destruct c as [[] [] [] [] [] [] [] []]; try done; by destruct s.
  - intros [|c s] Hd; [done|discriminate Hd].
  - intros s Hd. discriminate Hd.
  - assert (classify (String c s) = NoOption) as ->.
    { by destruct c as [[] [] [] [] [] [] [] []]. }
    intros s' Hd. injection Hd as -> _. by destruct Hc.
Qed.

(** Every command line is options with their values and an end, and [getopt_long]
    returns exactly these. *)
Lemma getopt_long_spec posixly args opts e :
  getopt_long posixly args = (opts, e) ->
  exists l rest, args = l ++ rest /\ arguments posixly opts l /\ arguments_end posixly rest e.
Proof.
  remember (length args) as n eqn:Hn. revert args opts e Hn. induction n as [n IH] using lt_wf_ind. intros args opts e -> Hg.
  destruct args as [|arg args1]; cbn [getopt_long] in Hg.
  { injection Hg as <- <-. exists [], []. split_and!; constructor. }
  pose proof (classify_spec arg) as Hc. destruct (classify arg) as [| | |o [v|]|].
  - destruct posixly eqn:Hp.
    + injection Hg as <- <-. exists [], (arg :: args1). split_and!; [done|constructor|by apply end_posix].
    + destruct (IH (length args1)) with (3 := Hg) as (l & rest & -> & Hl & He); [simpl; lia|done|].
      exists (arg :: l), rest. split_and!; [done|by constructor|done].
  - subst arg. injection Hg as <- <-. exists [], ("--"%string :: args1). split_and!; [done|constructor..].
  - destruct Hc as (c & s & -> & Hc). injection Hg as <- <-. eexists [], (_ :: args1). split_and!; [done|constructor|by constructor].
  - subst arg. destruct (getopt_long posixly args1) as [opts' e'] eqn:Hg1. injection Hg as <- <-.
    destruct (IH (length args1)) with (3 := Hg1) as (l & rest & -> & Hl & He); [simpl; lia|done|].
    eexists (_ :: l), rest. split_and!; [done|by apply args_joined|done].
  - subst arg. destruct args1 as [|v args2].
    { injection Hg as <- <-. eexists [], [_]. split_and!; [done|constructor|apply end_missing]. }
    destruct (getopt_long posixly args2) as [opts' e'] eqn:Hg1. injection Hg as <- <-.
    destruct (IH (length args2)) with (3 := Hg1) as (l & rest & -> & Hl & He); [simpl; lia|done|].
    eexists (_ :: _ :: l), rest. split_and!; [done|by apply args_separate|done].
  - destruct Hc as (s & -> & Hs & Ho). injection Hg as <- <-. eexists [], (_ :: args1). split_and!; [done|constructor|by constructor].
Qed.

(** The names of the notification types. *)
Definition type_name (n : NotificationType) : string :=
  match n with RFC3877 => "rfc3877" | ENTERPRISE => "enterprise" end.

Lemma find_add_notification (l : notification_set) it n :
  is_Some (find_key n (add_notification l it)) <-> it = type_name n \/ is_Some (find_key n l).
Proof.
  unfold add_notification. destruct (String.eqb_spec it "rfc3877") as [->|Hr];
    [|destruct (String.eqb_spec it "enterprise") as [->|He]].
  - destruct n; [rewrite find_emplace_eq|rewrite find_emplace_ne by done]; simpl; [|naive_solver].
    split; [by left|]. intros _. by destruct (find_key RFC3877 l); eexists.
  - destruct n; [rewrite find_emplace_ne by done|rewrite find_emplace_eq]; simpl; [naive_solver|].
    split; [by left|]. intros _. by destruct (find_key ENTERPRISE l); eexists.
  - split; [by right|]. intros [->|?]; [by destruct n|done].
Qed.

Lemma add_notifications_spec toks (l : notification_set) :
  sorted l ->
  sorted (fold_left add_notification toks l) /\
  forall n, is_Some (find_key n (fold_left add_notification toks l)) <->
            type_name n ∈ toks \/ is_Some (find_key n l).
Proof.
  revert l. induction toks as [|it toks IH]; intros l Hl; cbn [fold_left].
  { split; [done|]. intros n. rewrite elem_of_nil. tauto. }
  destruct (IH (add_notification l it)) as [Hs Hf].
  { unfold add_notification. repeat case_match; auto with snmp. }
  split; [done|]. intros n. rewrite Hf, find_add_notification, elem_of_cons. naive_solver.
Qed.

Section meaning.
Context `{AgentUtils}.

(** The configuration a list of options makes: of an option that is given more than once the last
    value counts, but the addresses and the notification types are all collected. *)
Lemma set_options_spec opts c :
  sorted (snmp_notifications c) ->
  let c' := fold_left set_option opts c in
  local_ip c' = default (local_ip c) (last (values OPT_LOCAL_IP opts)) /\
  hostname c' = default (hostname c) (last (values OPT_HOSTNAME opts)) /\
  trap_ips c' = trap_ips c ++ (values OPT_SNMP_IPS opts ≫= split_string) /\
  community c' = match last (values OPT_COMMUNITY opts) with Some v => Some v | None => community c end /\
  sorted (snmp_notifications c') /\
  forall n, is_Some (find_key n (snmp_notifications c')) <->
    type_name n ∈ (values OPT_SNMP_NOTIFICATION_TYPE opts ≫= split_string) \/ is_Some (find_key n (snmp_notifications c)).
Proof.
  revert c. induction opts as [|[o v] opts IH]; intros c Hs; cbn zeta.
  { cbn. rewrite app_nil_r. split_and!; try done. intros n. rewrite elem_of_nil. tauto. }
  assert (forall o', values o' ((o, v) :: opts) = if decide (o = o') then v :: values o' opts else values o' opts) as Hv.
  { intros o'. unfold values. rewrite filter_cons. by destruct (decide _), (decide (o = o')). }
  assert (forall (d : string) l, default d (last (v :: l)) = default v (last l)) as Hlast.
  { intros d l. rewrite last_cons. by destruct (last l). }
  cbn [fold_left]. rewrite !Hv. specialize (IH (set_option c (o, v))). cbn zeta in IH.
  destruct o; cbn [set_option fst snd] in *;
    repeat (destruct (decide _); try congruence); try (by apply IH); clear Hv.
  all: rewrite ?Hlast, ?last_cons, ?bind_cons.
  all: destruct IH as (-> & -> & -> & -> & Hs' & Hn); cbn [snmp_notifications trap_ips local_ip hostname community] in *.
  all: try (by apply add_notifications_spec); try done.
  all: refine (conj _ (conj _ (conj _ (conj _ (conj _ _))))); rewrite ?app_assoc; try done.
  - by destruct (last _).
  - intros m. destruct (add_notifications_spec (split_string v) _ Hs) as [_ Hf]. rewrite Hn, Hf, elem_of_app. tauto.
Qed.

(** The notifications sent are those configured: the types that the values name, or RFC 3877
    alone when none names one, in the order in which they are sent. *)
Lemma notifications_configured (named : NotificationType -> Prop) (l : notification_set) :
  sorted l -> (forall n, is_Some (find_key n l) <-> named n) ->
  let s := notifications_or_default l in
  sorted s /\ forall n, n ∈ s.*1 <-> named n \/ ((forall n', ~ named n') /\ n = RFC3877).
Proof.
  intros Hs Hn s.
  assert (forall l n, sorted l -> n ∈ l.*1 <-> is_Some (find_key n (l : notification_set))) as Hk
    by (intros; symmetry; by apply find_elem_of_keys).
  unfold s, notifications_or_default. destruct l as [|kv l].
  - split; [by apply emplace_sorted|]. intros n. cbn. rewrite list_elem_of_singleton.
    assert (forall n', ~ named n') as Hno by (intros n' [v Hv]%Hn; discriminate Hv).
    split; [by right|]. intros [?%Hno|[_ ?]]; done.
  - split; [done|]. intros n. rewrite Hk by done. rewrite Hn. split; [by left|].
    intros [?|[Hno _]]; [done|]. exfalso. destruct kv as [k v]. apply (Hno k), Hn.
    apply Hk; [done|]. cbn. set_solver.
Qed.
End meaning.
