(* ===== verification/RowTable.v ===== *)
(** The part the three SNMP tables share: a registered handler, a Net-SNMP
    container of rows, and the heap of row contexts the container points into
    ([alarmModelTable_context], [ituAlarmTable_context] and
    [alarmActiveTable_context] have the same two fields).

    Row contexts are allocated and freed by the tables, so they are modelled
    with their addresses: [contexts] is the heap of live contexts, the container
    holds addresses, and a dereference of an address that is not live is an
    error ([None]) of the operation that makes it. *)

From S2P Require Export AlarmDefs NetSnmp.

(** A row context: its index (first member) and the definition it points to. *)
Record row_context := mkRow {
  row_index : oids;
  _alarm_table_def : AlarmTableDef;
}.

Section table.
Context `{NetSnmpContainer}.

(** The static variables of a table: [my_handler] (registered or [NULL]), the
    container in [cb], and the live contexts. *)
Record table := mkTable {
  my_handler : bool;
  cb_container : container;
  contexts : gmap Z row_context;
  next_address : Z;
}.

(** Before initialisation. *)
Definition table_zero : table := mkTable false container_empty ∅ 1.

(** A table initialiser: nothing if registered already, an error when one of
    its two allocations fails, otherwise registered with an empty container. *)
Definition register_table (table_info_ok handler_ok : bool) (t : table) : snmp_err * table :=
  if my_handler t then (SNMP_ERR_NOERROR, t)
  else if negb table_info_ok then (SNMP_ERR_GENERR, t)
  else if negb handler_ok then (SNMP_ERR_GENERR, t)
  else (SNMP_ERR_NOERROR, mkTable true container_empty (contexts t) (next_address t)).

(** Allocate a context for an index already encoded and insert it. *)
Definition insert_row (o : oids) (def : AlarmTableDef) (t : table) : table :=
  let a := next_address t in
  mkTable (my_handler t) (CONTAINER_INSERT o a (cb_container t))
          (<[a := mkRow o def]> (contexts t)) (a + 1).

(** The rows a manager sees: index to definition, through the live contexts. *)
Definition table_view (t : table) : gmap oids AlarmTableDef :=
  map_imap (fun _ a => _alarm_table_def <$> contexts t !! a) (container_rows (cb_container t)).

(** Every address in the container is live, under the index of its context,
    and every live address is below the next one. *)
Record table_wf (t : table) : Prop := {
  rows_live : forall o a, container_rows (cb_container t) !! o = Some a ->
    exists ctx, contexts t !! a = Some ctx /\ row_index ctx = o;
  live_below : forall a ctx, contexts t !! a = Some ctx -> a < next_address t;
}.
End table.

(** ** Lemmas *)

Section laws.
Context `{NetSnmpContainerSpec}.

Lemma table_zero_wf : table_wf table_zero.
Proof.
  split; simpl.
  - intros o a. by rewrite container_empty_rows, lookup_empty.
  - intros a ctx. by rewrite lookup_empty.
Qed.

Lemma table_view_lookup t o :
  table_view t !! o =
  (a ← container_rows (cb_container t) !! o; _alarm_table_def <$> contexts t !! a).
Proof.
  unfold table_view. rewrite map_lookup_imap.
  by destruct (container_rows (cb_container t) !! o).
Qed.

(** A table just registered, or not, with nothing inserted. *)
Lemma table_fresh_wf b : table_wf (mkTable b container_empty ∅ 1).
Proof. destruct table_zero_wf. by split. Qed.

Lemma table_fresh_view b : table_view (mkTable b container_empty ∅ 1) = ∅.
Proof.
  apply map_eq. intros o. rewrite table_view_lookup, lookup_empty. simpl.
  by rewrite container_empty_rows, lookup_empty.
Qed.

Lemma insert_row_wf o def t :
  table_wf t -> container_rows (cb_container t) !! o = None ->
  table_wf (insert_row o def t).
Proof.
  intros [Hl Hb] Ho. split; simpl.
  - intros o' a'. rewrite container_insert_rows by done.
    intros [[-> <-]|[? Ha]]%lookup_insert_Some.
    + eexists. by rewrite lookup_insert_eq.
    + destruct (Hl _ _ Ha) as (ctx & Hc & ?). exists ctx. split; [|done].
      rewrite lookup_insert_ne; [done|]. apply Hb in Hc. lia.
  - intros a ctx [[<- _]|[_ Hc]]%lookup_insert_Some; [lia|]. apply Hb in Hc. lia.
Qed.

Lemma insert_row_view o def t :
  table_wf t -> container_rows (cb_container t) !! o = None ->
  table_view (insert_row o def t) = <[o := def]> (table_view t).
Proof.
  intros [Hl Hb] Ho. apply map_eq. intros o'. rewrite table_view_lookup. simpl.
  rewrite container_insert_rows by done. destruct (decide (o = o')) as [<-|Hne].
  - rewrite !lookup_insert_eq. simpl. by rewrite lookup_insert_eq.
  - rewrite !lookup_insert_ne by done. rewrite table_view_lookup.
    destruct (container_rows (cb_container t) !! o') as [a|] eqn:Ha; [simpl|done].
    destruct (Hl _ _ Ha) as (ctx & Hc & _). rewrite lookup_insert_ne; [done|].
    apply Hb in Hc. lia.
Qed.

Lemma table_view_None t o :
  table_wf t -> table_view t !! o = None <-> container_rows (cb_container t) !! o = None.
Proof.
  intros [Hl _]. rewrite table_view_lookup.
  destruct (container_rows (cb_container t) !! o) as [a|] eqn:Ha; [simpl|done].
  destruct (Hl _ _ Ha) as (ctx & -> & _). done.
Qed.
End laws.

#[export] Hint Resolve table_zero_wf insert_row_wf : snmp.
