(* ===== verification/AlarmTables.v ===== *)
(** The two static tables: [src/alarm_model_table.cpp] and
    [src/itu_alarm_table.cpp], with their headers.

    Both hold one row per alarm definition, inserted once at start-up; the model
    table is indexed by alarm index and [alarmModelState], the ITU table by alarm
    index and perceived severity, and each has a column that points into the
    other. A GET is the [.._get_value] function of a row and a column number. *)

From S2P Require Export RowTable TrapSender.

(** ** Columns *)

(** The columns of the index, which are not accessible, and the others. *)
Definition COLUMN_ALARMMODELINDEX : Z := 1.
Definition COLUMN_ALARMMODELSTATE : Z := 2.
Definition COLUMN_ALARMMODELNOTIFICATIONID : Z := 3.
Definition COLUMN_ALARMMODELVARBINDINDEX : Z := 4.
Definition COLUMN_ALARMMODELVARBINDVALUE : Z := 5.
Definition COLUMN_ALARMMODELDESCRIPTION : Z := 6.
Definition COLUMN_ALARMMODELSPECIFICPOINTER : Z := 7.
Definition COLUMN_ALARMMODELVARBINDSUBTREE : Z := 8.
Definition COLUMN_ALARMMODELRESOURCEPREFIX : Z := 9.
Definition COLUMN_ALARMMODELROWSTATUS : Z := 10.
Definition alarmModelTable_COL_MIN : Z := 3.
Definition alarmModelTable_COL_MAX : Z := 10.
Definition ROWSTATUS_ACTIVE : Z := 1.
Definition ITUALARMTABLEROW_INDEX : nat := 13.
Definition ITUALARMTABLEROW_SEVERITY : nat := 14.

Definition COLUMN_ITUALARMPERCEIVEDSEVERITY : Z := 1.
Definition COLUMN_ITUALARMEVENTTYPE : Z := 2.
Definition COLUMN_ITUALARMPROBABLECAUSE : Z := 3.
Definition COLUMN_ITUALARMADDITIONALTEXT : Z := 4.
Definition COLUMN_ITUALARMGENERICMODEL : Z := 5.
Definition ituAlarmTable_COL_MIN : Z := 2.
Definition ituAlarmTable_COL_MAX : Z := 5.
Definition IANAITUEVENTTYPE_OPERATIONALVIOLATION : Z := 8.

(** The result of a GET: the code and the value set, if any. *)
Abbreviation get_result := (snmp_err * option asn_value)%type.

Definition answer (v : asn_value) : get_result := (SNMP_ERR_NOERROR, Some v).

(** ** The Alarm Model Table *)

Section model_table.
Context `{AlarmDefLib} `{NetSnmpIndex} `{NetSnmpContainer}.

(** [initialize_table_alarmModelTable]; the arguments say whether each of the
    two allocations succeeds. *)
Definition initialize_table_alarmModelTable (table_info_ok handler_ok : bool) (t : table)
    : snmp_err * table :=
  register_table table_info_ok handler_ok t.

(** [alarmModelTable_index_to_oid] *)
Definition alarmModelTable_index_to_oid (name : string) (index st : Z) : option oids :=
  build_oid [ASN_OCTET_STR (octets (c_str name)); ASN_UNSIGNED index; ASN_UNSIGNED st].

(** [alarmModelTable_create_row_context]: the index of the new row, or [NULL]. *)
Definition alarmModelTable_create_row_context (malloc_ok : bool) (name : string)
    (index st : Z) : option oids :=
  if malloc_ok then alarmModelTable_index_to_oid name index st else None.

(** One iteration of [alarmModelTable_insert_defs]. *)
Definition alarmModelTable_insert_def (malloc_ok : AlarmTableDef -> bool)
    (def : AlarmTableDef) (t : table) : option table :=
  st ← state def;
  match alarmModelTable_create_row_context (malloc_ok def) "" (alarm_index def) st with
  | Some o => Some (insert_row o def t)
  | None => Some t
  end.

(** [alarmModelTable_insert_defs], over the definitions in key order. *)
Fixpoint alarmModelTable_insert_defs (malloc_ok : AlarmTableDef -> bool)
    (defs : list AlarmTableDef) (t : table) : option table :=
  match defs with
  | [] => Some t
  | def :: defs' =>
    t' ← alarmModelTable_insert_def malloc_ok def t;
    alarmModelTable_insert_defs malloc_ok defs' t'
  end.

(** [init_alarmModelTable] *)
Definition init_alarmModelTable (table_info_ok handler_ok : bool)
    (malloc_ok : AlarmTableDef -> bool) (defs : AlarmTableDefs) (t : table) : option table :=
  match initialize_table_alarmModelTable table_info_ok handler_ok t with
  | (SNMP_ERR_NOERROR, t') => alarmModelTable_insert_defs malloc_ok (_key_to_def defs).*2 t'
  | (SNMP_ERR_GENERR, t') => Some t'
  end.

(** [alarmModelTable_get_value]; [None] is an out-of-range access. *)
Definition alarmModelTable_get_value (def : AlarmTableDef) (colnum : Z) : option get_result :=
  if colnum =? COLUMN_ALARMMODELNOTIFICATIONID then
    Some (answer (ASN_OBJECT_ID
      (if severity def =? CLEARED then alarm_clear_state_oid else alarm_active_state_oid)))
  else if colnum =? COLUMN_ALARMMODELVARBINDINDEX then Some (answer (ASN_UNSIGNED 0))
  else if colnum =? COLUMN_ALARMMODELVARBINDVALUE then Some (answer (ASN_INTEGER 0))
  else if colnum =? COLUMN_ALARMMODELDESCRIPTION then
    Some (answer (ASN_OCTET_STR (octets (description def))))
  else if colnum =? COLUMN_ALARMMODELSPECIFICPOINTER then
    row ← set_subid ITUALARMTABLEROW_INDEX (alarm_index def) itu_alarm_table_row_oid;
    row ← set_subid ITUALARMTABLEROW_SEVERITY (severity def) row;
    Some (answer (ASN_OBJECT_ID row))
  else if colnum =? COLUMN_ALARMMODELVARBINDSUBTREE then
    Some (answer (ASN_OBJECT_ID zero_dot_zero_oid))
  else if colnum =? COLUMN_ALARMMODELRESOURCEPREFIX then
    Some (answer (ASN_OBJECT_ID zero_dot_zero_oid))
  else if colnum =? COLUMN_ALARMMODELROWSTATUS then
    Some (answer (ASN_INTEGER ROWSTATUS_ACTIVE))
  else Some (SNMP_ERR_GENERR, None).
End model_table.

(** ** The ITU Alarm Table *)

Section itu_table.
Context `{NetSnmpIndex} `{NetSnmpContainer}.

(** [initialize_table_ituAlarmTable] *)
Definition initialize_table_ituAlarmTable (table_info_ok handler_ok : bool) (t : table)
    : snmp_err * table :=
  register_table table_info_ok handler_ok t.

(** [ituAlarmTable_index_to_oid] *)
Definition ituAlarmTable_index_to_oid (name : string) (index sev : Z) : option oids :=
  build_oid [ASN_OCTET_STR (octets (c_str name)); ASN_UNSIGNED index; ASN_INTEGER sev].

(** [ituAlarmTable_create_row_context] *)
Definition ituAlarmTable_create_row_context (malloc_ok : bool) (name : string)
    (index sev : Z) : option oids :=
  if malloc_ok then ituAlarmTable_index_to_oid name index sev else None.

(** One iteration of [ituAlarmTable_insert_defs]. *)
Definition ituAlarmTable_insert_def (malloc_ok : AlarmTableDef -> bool)
    (def : AlarmTableDef) (t : table) : table :=
  match ituAlarmTable_create_row_context (malloc_ok def) "" (alarm_index def) (severity def) with
  | Some o => insert_row o def t
  | None => t
  end.

(** [ituAlarmTable_insert_defs] *)
Fixpoint ituAlarmTable_insert_defs (malloc_ok : AlarmTableDef -> bool)
    (defs : list AlarmTableDef) (t : table) : table :=
  match defs with
  | [] => t
  | def :: defs' => ituAlarmTable_insert_defs malloc_ok defs' (ituAlarmTable_insert_def malloc_ok def t)
  end.

(** [init_ituAlarmTable] *)
Definition init_ituAlarmTable (table_info_ok handler_ok : bool)
    (malloc_ok : AlarmTableDef -> bool) (defs : AlarmTableDefs) (t : table) : table :=
  match initialize_table_ituAlarmTable table_info_ok handler_ok t with
  | (SNMP_ERR_NOERROR, t') => ituAlarmTable_insert_defs malloc_ok (_key_to_def defs).*2 t'
  | (SNMP_ERR_GENERR, t') => t'
  end.

(** [ituAlarmTable_get_value] *)
Definition ituAlarmTable_get_value (def : AlarmTableDef) (colnum : Z) : option get_result :=
  if colnum =? COLUMN_ITUALARMEVENTTYPE then
    Some (answer (ASN_INTEGER IANAITUEVENTTYPE_OPERATIONALVIOLATION))
  else if colnum =? COLUMN_ITUALARMPROBABLECAUSE then
    Some (answer (ASN_INTEGER (alarm_cause def)))
  else if colnum =? COLUMN_ITUALARMADDITIONALTEXT then
    Some (answer (ASN_OCTET_STR (octets (details def))))
  else if colnum =? COLUMN_ITUALARMGENERICMODEL then
    st ← state def;
    row ← fill_model_row alarm_model_table_row_oid (alarm_index def) st;
    Some (answer (ASN_OBJECT_ID row))
  else Some (SNMP_ERR_GENERR, None).
End itu_table.

(** ** Lemmas *)

(** The OID of a cell of a table: the table, its entry, a column and a row index. *)
Definition cell_oid (table_oid : oids) (column : Z) (row : oids) : oids :=
  table_oid ++ [1; column] ++ row.

(** [alarmModelState] tells severities apart, but for UNDEFINED and INDETERMINATE. *)
Definition proper_severity (s : Z) : Prop := 1 <= s <= 6.

Lemma state_inj d1 d2 :
  proper_severity (severity d1) -> proper_severity (severity d2) ->
  state d1 = state d2 -> severity d1 = severity d2.
Proof.
  unfold proper_severity, state. generalize (severity d1) as s1, (severity d2) as s2.
  intros s1 s2 H1 H2.
  assert (s1 = 1 \/ s1 = 2 \/ s1 = 3 \/ s1 = 4 \/ s1 = 5 \/ s1 = 6) as C1 by lia.
  assert (s2 = 1 \/ s2 = 2 \/ s2 = 3 \/ s2 = 4 \/ s2 = 5 \/ s2 = 6) as C2 by lia.
  destruct C1 as [->|[->|[->|[->|[->| ->]]]]], C2 as [->|[->|[->|[->|[->| ->]]]]]; simpl; congruence.
Qed.

Section model_laws.
Context `{NetSnmpIndexSpec} `{NetSnmpContainerSpec}.

Lemma model_index_spec index st :
  alarmModelTable_index_to_oid "" index st = Some [0; index; st].
Proof. apply build_oid_name_numbers. Qed.

Lemma itu_index_spec index sev :
  ituAlarmTable_index_to_oid "" index sev = Some [0; index; sev].
Proof. apply build_oid_name_numbers. Qed.

(** The rows a list of definitions should give the model table. *)
Definition model_row_of (def : AlarmTableDef) : option (oids * AlarmTableDef) :=
  st ← state def; Some ([0; alarm_index def; st], def).
Definition itu_row_of (def : AlarmTableDef) : oids * AlarmTableDef :=
  ([0; alarm_index def; severity def], def).

Lemma model_insert_defs_spec defs rows t :
  table_wf t -> mapM model_row_of defs = Some rows ->
  NoDup rows.*1 -> (forall o, o ∈ rows.*1 -> container_rows (cb_container t) !! o = None) ->
  exists t', alarmModelTable_insert_defs (fun _ => true) defs t = Some t' /\
    table_wf t' /\ table_view t' = list_to_map rows ∪ table_view t.
Proof.
  revert rows t. induction defs as [|def defs IH]; intros rows t Hwf Hm Hnd Hfresh; simpl in *;
    cbv [mret option_ret] in Hm.
  { simplify_eq. exists t. split_and!; [done..|]. by rewrite list_to_map_nil, map_empty_union. }
  apply bind_Some in Hm as (r & Hr & (rows' & Hm' & [= <-])%bind_Some).
  apply bind_Some in Hr as (st & Hst & [= <-]). simpl in *.
  apply NoDup_cons in Hnd as [Hni Hnd].
  assert (container_rows (cb_container t) !! [0; alarm_index def; st] = None) as Ho
    by (apply Hfresh; set_solver).
  unfold alarmModelTable_insert_def, alarmModelTable_create_row_context.
  rewrite Hst. simpl. rewrite model_index_spec. simpl.
  destruct (IH rows' (insert_row [0; alarm_index def; st] def t)) as (t' & -> & Hwf' & Hv);
    [by apply insert_row_wf|done|done| |].
  - intros o Hin. simpl. rewrite container_insert_rows by done.
    rewrite lookup_insert_ne by (intros <-; done). apply Hfresh. set_solver.
  - exists t'. split_and!; [done..|]. rewrite Hv, insert_row_view by done.
    rewrite <- insert_union_r; [by rewrite insert_union_l|].
    apply not_elem_of_list_to_map. done.
Qed.

Lemma itu_insert_defs_spec defs t :
  table_wf t -> NoDup (itu_row_of <$> defs).*1 ->
  (forall o, o ∈ (itu_row_of <$> defs).*1 -> container_rows (cb_container t) !! o = None) ->
  let t' := ituAlarmTable_insert_defs (fun _ => true) defs t in
  table_wf t' /\ table_view t' = list_to_map (itu_row_of <$> defs) ∪ table_view t.
Proof.
  revert t. induction defs as [|def defs IH]; intros t Hwf Hnd Hfresh; simpl in *.
  { split; [done|]. by rewrite map_empty_union. }
  apply NoDup_cons in Hnd as [Hni Hnd].
  assert (container_rows (cb_container t) !! [0; alarm_index def; severity def] = None) as Ho
    by (apply Hfresh; set_solver).
  unfold ituAlarmTable_insert_def, ituAlarmTable_create_row_context.
  rewrite itu_index_spec. simpl.
  destruct (IH (insert_row [0; alarm_index def; severity def] def t)) as [Hwf' Hv];
    [by apply insert_row_wf|done| |].
  - intros o Hin. simpl. rewrite container_insert_rows by done.
    rewrite lookup_insert_ne by (intros <-; done). apply Hfresh. set_solver.
  - split; [done|]. rewrite Hv, insert_row_view by done.
    rewrite <- insert_union_r; [by rewrite insert_union_l|].
    by apply not_elem_of_list_to_map.
Qed.
End model_laws.

Section static_tables.
Context `{NetSnmpIndexSpec} `{NetSnmpContainerSpec}.

Lemma defs_wf_elem defs def :
  defs_wf defs -> def ∈ (_key_to_def defs).*2 <-> find_key (def_key def) (_key_to_def defs) = Some def.
Proof.
  intros (Hs & _ & Hk). split.
  - intros ([k d] & -> & Hin)%list_elem_of_fmap. simpl.
    apply find_Some_elem in Hin; [|done]. by destruct (Hk _ _ Hin) as [_ ->].
  - intros Hf. apply list_elem_of_fmap. exists (def_key def, def). split; [done|].
    by apply find_Some_elem.
Qed.

(** A definition is in the table when looking its key up gives it back. *)
Lemma defs_wf_stored `{AlarmDefLib} defs def :
  defs_wf defs -> def ∈ (_key_to_def defs).*2 <->
  get_definition defs (alarm_index def) (severity def) = def /\ is_valid def = true.
Proof.
  intros Hwf. rewrite defs_wf_elem by done. unfold get_definition.
  change (mkAlarmTableDefKey (alarm_index def) (severity def)) with (def_key def).
  destruct Hwf as (Hs & Hinv & Hk). destruct (find_key (def_key def) _) as [d|] eqn:Hf.
  - split; [intros [= ->]; split; [done|by apply (Hk _ _ Hf)]|by intros [-> _]].
  - split; [done|]. intros [<- Hval]. congruence.
Qed.

Lemma defs_wf_NoDup defs : defs_wf defs -> NoDup (def_key <$> (_key_to_def defs).*2).
Proof.
  intros Hwf. pose proof Hwf as (Hs & _ & Hk).
  replace (def_key <$> (_key_to_def defs).*2) with (_key_to_def defs).*1;
    [by apply sorted_NoDup_keys|].
  rewrite <- list_fmap_compose. apply list_fmap_ext. intros i [k d] Hi. simpl.
  symmetry. apply (Hk k d). apply find_Some_elem; [done|]. by eapply list_elem_of_lookup_2.
Qed.

(** Distinct keys give distinct row indexes. *)
Lemma NoDup_fmap_via {A B C} (f : A -> B) (g : A -> C) (l : list A) :
  (forall x y, x ∈ l -> y ∈ l -> g x = g y -> f x = f y) -> NoDup (f <$> l) -> NoDup (g <$> l).
Proof.
  intros Hinj Hnd. induction l as [|x l IH]; [constructor|].
  rewrite !fmap_cons in *. apply NoDup_cons in Hnd as [Hx Hnd]. constructor.
  - intros (y & Heq & Hy)%list_elem_of_fmap. apply Hx, list_elem_of_fmap.
    exists y. split; [|done]. apply Hinj; [set_solver|set_solver|done].
  - apply IH; [|done]. intros ????. apply Hinj; set_solver.
Qed.

Lemma model_rows_exist l :
  (forall def, def ∈ l -> proper_severity (severity def)) ->
  exists rows, mapM model_row_of l = Some rows /\
    rows.*2 = l /\ rows.*1 = (fun def => [0; alarm_index def; default 0 (state def)]) <$> l.
Proof.
  induction l as [|def l IH]; intros Hp; [by exists []|].
  destruct IH as (rows & Hm & H2' & H1'); [intros; apply Hp; set_solver|].
  destruct (state_known def) as [st Hst].
  { specialize (Hp def ltac:(set_solver)). unfold proper_severity, known_severity in *. lia. }
  exists (([0; alarm_index def; st], def) :: rows). rewrite !fmap_cons, H1', H2', Hst.
  split_and!; [|done|done]. apply mapM_Some_2. constructor; [|by apply mapM_Some_1].
  unfold model_row_of. by rewrite Hst.
Qed.

Lemma model_rows_elem l rows o def :
  mapM model_row_of l = Some rows ->
  (o, def) ∈ rows <-> def ∈ l /\ exists st, state def = Some st /\ o = [0; alarm_index def; st].
Proof.
  intros Hm%mapM_Some_1. induction Hm as [|d r l rows Hr Hm IH].
  { split; [by intros ?%not_elem_of_nil|]. by intros [?%not_elem_of_nil _]. }
  apply bind_Some in Hr as (st & Hst & [= <-]). rewrite !elem_of_cons, IH. naive_solver.
Qed.
End static_tables.
