(* ===== verification/ActiveTable.v ===== *)
(** The Alarm Active Table: [src/alarm_active_table.cpp] and its header.

    The table holds one row per raised alarm. Its static variables are the
    registration and container of [RowTable], the map from alarm index to row
    ([alarm_indexes_to_rows], whose [operator[]] inserts [NULL] for a missing
    index), the row counter and the local address. A trap creates, replaces or
    deletes the row of its alarm ([alarmActiveTable_trap_handler]); rows are
    addresses of contexts, so using a freed or [NULL] row is an error ([None]). *)

From S2P Require Export AlarmTables.

(** ** Columns *)

Definition COLUMN_ALARMLISTNAME : Z := 1.
Definition COLUMN_ALARMACTIVEDATEANDTIME : Z := 2.
Definition COLUMN_ALARMACTIVEINDEX : Z := 3.
Definition COLUMN_ALARMACTIVEENGINEID : Z := 4.
Definition COLUMN_ALARMACTIVEENGINEADDRESSTYPE : Z := 5.
Definition COLUMN_ALARMACTIVEENGINEADDRESS : Z := 6.
Definition COLUMN_ALARMACTIVECONTEXTNAME : Z := 7.
Definition COLUMN_ALARMACTIVEVARIABLES : Z := 8.
Definition COLUMN_ALARMACTIVENOTIFICATIONID : Z := 9.
Definition COLUMN_ALARMACTIVERESOURCEID : Z := 10.
Definition COLUMN_ALARMACTIVEDESCRIPTION : Z := 11.
Definition COLUMN_ALARMACTIVELOGPOINTER : Z := 12.
Definition COLUMN_ALARMACTIVEMODELPOINTER : Z := 13.
Definition COLUMN_ALARMACTIVESPECIFICPOINTER : Z := 14.
Definition alarmActiveTable_COL_MIN : Z := 4.
Definition alarmActiveTable_COL_MAX : Z := 14.

(** ** Time stamps *)

(** The fields of [struct tm] the program reads. *)
Record tm := mkTm {
  tm_year : Z; tm_mon : Z; tm_mday : Z; tm_hour : Z; tm_min : Z; tm_sec : Z;
}.

(** [alarmActiveTable_SNMPDateTime]; [year] is the value whose network-order
    bytes the structure holds. *)
Record SNMPDateTime := mkSNMPDateTime {
  year : Z; month : Z; day : Z; hour : Z; minute : Z; second : Z;
  decisecond : Z; direction : Z; timegeozone : Z; mintimezone : Z;
}.

(** [alarm_time_issued], from the broken-down local time and the C library's
    [timezone], the seconds west of UTC. *)
Definition alarm_time_issued (timing : tm) (timezone : Z) : SNMPDateTime :=
  mkSNMPDateTime
    (u16 (1900 + tm_year timing))
    (u8 (1 + tm_mon timing))
    (u8 (tm_mday timing))
    (u8 (tm_hour timing))
    (u8 (tm_min timing))
    (u8 (tm_sec timing))
    0
    (code (if 0 <? timezone then "+"%char else "-"%char))
    (u8 (Z.abs timezone / 3600))
    (u8 ((Z.abs timezone mod 3600) / 60)).

(** The first 11 octets of the structure. *)
Definition datetime_octets (d : SNMPDateTime) : list Z :=
  [year d / 256; year d mod 256; month d; day d; hour d; minute d; second d;
   decisecond d; direction d; timegeozone d; mintimezone d].

(** ** The table *)

(** What one [alarmActiveTable_create_row] reads from its environment. *)
Record row_env := mkRowEnv {
  malloc_ok : bool;
  env_localtime : tm;
  env_timezone : Z;
}.

Section active_table.
Context `{AlarmDefLib} `{NetSnmpIndex} `{NetSnmpContainer}.

Record active_table := mkActive {
  at_table : table;
  alarm_indexes_to_rows : smap Z (option Z);
  alarm_counter : Z;
  local_ip : string;
}.

Definition active_zero : active_table := mkActive table_zero [] 0 "".

(** [init_alarmActiveTable] *)
Definition init_alarmActiveTable (ip : string) (table_info_ok handler_ok : bool)
    (st : active_table) : snmp_err * active_table :=
  let '(rc, t) := register_table table_info_ok handler_ok (at_table st) in
  (rc, mkActive t (alarm_indexes_to_rows st) (alarm_counter st) ip).

(** [alarm_indexes_to_rows[index]] read: the row or [NULL], and the map after. *)
Definition row_at (index : Z) (m : smap Z (option Z)) : option Z * smap Z (option Z) :=
  match find_key index m with
  | Some row => (row, m)
  | None => (None, assign index None m)
  end.

(** [alarmActiveTable_index_to_oid] *)
Definition alarmActiveTable_index_to_oid (name : string) (datetime : SNMPDateTime)
    (counter : Z) : option oids :=
  build_oid [ASN_OCTET_STR (octets (c_str name));
             ASN_OCTET_STR (datetime_octets datetime);
             ASN_UNSIGNED counter].

(** [alarmActiveTable_create_row] *)
Definition alarmActiveTable_create_row (def : AlarmTableDef) (env : row_env)
    (st : active_table) : active_table :=
  if malloc_ok env then
    let datetime := alarm_time_issued (env_localtime env) (env_timezone env) in
    let counter := u64 (alarm_counter st + 1) in
    match alarmActiveTable_index_to_oid "" datetime counter with
    | None => mkActive (at_table st) (alarm_indexes_to_rows st) counter (local_ip st)
    | Some o =>
      mkActive (insert_row o def (at_table st))
        (assign (alarm_index def) (Some (next_address (at_table st))) (alarm_indexes_to_rows st))
        (if counter =? UINT_MAX then 0 else counter)
        (local_ip st)
    end
  else st.

(** [alarmActiveTable_delete_row]: [None] on a [NULL] or freed row. *)
Definition alarmActiveTable_delete_row (def : AlarmTableDef) (st : active_table)
    : option active_table :=
  let '(existing_row, m) := row_at (alarm_index def) (alarm_indexes_to_rows st) in
  a ← existing_row;
  ctx ← contexts (at_table st) !! a;
  let t := at_table st in
  Some (mkActive
    (mkTable (my_handler t) (CONTAINER_REMOVE (row_index ctx) a (cb_container t))
             (delete a (contexts t)) (next_address t))
    (assign (alarm_index def) None m) (alarm_counter st) (local_ip st)).

(** [alarmActiveTable_trap_handler] *)
Definition alarmActiveTable_trap_handler (def : AlarmTableDef) (env : row_env)
    (st : active_table) : option active_table :=
  if my_handler (at_table st) then
    let '(existing_row, m) := row_at (alarm_index def) (alarm_indexes_to_rows st) in
    let st := mkActive (at_table st) m (alarm_counter st) (local_ip st) in
    match existing_row with
    | None =>
      (* New alarm, or clearing an unraised one *)
      if negb (severity def =? CLEARED) then Some (alarmActiveTable_create_row def env st)
      else Some st
    | Some a =>
      if negb (severity def =? CLEARED) then
        ctx ← contexts (at_table st) !! a;
        if negb (severity def =? severity (_alarm_table_def ctx)) then
          st' ← alarmActiveTable_delete_row def st;
          Some (alarmActiveTable_create_row def env st')
        else Some st
      else alarmActiveTable_delete_row def st
    end
  else Some st.

(** [alarmActiveTable_get_value] *)
Definition alarmActiveTable_get_value (st : active_table) (def : AlarmTableDef)
    (colnum : Z) : get_result :=
  if colnum =? COLUMN_ALARMACTIVEENGINEID then answer (ASN_OCTET_STR [])
  else if colnum =? COLUMN_ALARMACTIVEENGINEADDRESSTYPE then
    answer (ASN_INTEGER (if contains_char ":"%char (local_ip st) then 2 else 1))
  else if colnum =? COLUMN_ALARMACTIVEENGINEADDRESS then
    answer (ASN_OCTET_STR (octets (c_str (local_ip st))))
  else if colnum =? COLUMN_ALARMACTIVECONTEXTNAME then answer (ASN_OCTET_STR [])
  else if colnum =? COLUMN_ALARMACTIVEVARIABLES then answer (ASN_UNSIGNED 0)
  else if colnum =? COLUMN_ALARMACTIVENOTIFICATIONID then
    answer (ASN_OBJECT_ID alarm_active_state_oid)
  else if colnum =? COLUMN_ALARMACTIVERESOURCEID then answer (ASN_OBJECT_ID zero_dot_zero_oid)
  else if colnum =? COLUMN_ALARMACTIVEDESCRIPTION then
    answer (ASN_OCTET_STR (octets (description def)))
  else if colnum =? COLUMN_ALARMACTIVELOGPOINTER then answer (ASN_OBJECT_ID zero_dot_zero_oid)
  else if colnum =? COLUMN_ALARMACTIVEMODELPOINTER then
    answer (ASN_OBJECT_ID
      (alarmModelTable_oid ++ entry_column_oid ++ [0; alarm_index def; severity def]))
  else if colnum =? COLUMN_ALARMACTIVESPECIFICPOINTER then
    answer (ASN_OBJECT_ID zero_dot_zero_oid)
  else (SNMP_ERR_GENERR, None).

(** *** Specification *)

(** The raised alarms: the definition shown for each alarm index. *)
Definition active_view (st : active_table) (index : Z) : option AlarmTableDef :=
  a ← mjoin (find_key index (alarm_indexes_to_rows st));
  _alarm_table_def <$> contexts (at_table st) !! a.

(** What a trap does to the raised alarms: a CLEARED one removes its alarm,
    another one shows its definition, unless it repeats the severity shown. *)
Definition trap_spec (def : AlarmTableDef) (view : Z -> option AlarmTableDef)
    (index : Z) : option AlarmTableDef :=
  if negb (index =? alarm_index def) then view index
  else if severity def =? CLEARED then None
  else match view index with
       | Some shown => if severity def =? severity shown then Some shown else Some def
       | None => Some def
       end.

(** Rows, live contexts and the index map describe the same raised alarms. *)
Record active_wf (st : active_table) : Prop := {
  aw_table : table_wf (at_table st);
  aw_sorted : sorted (alarm_indexes_to_rows st);
  aw_map : forall index a, find_key index (alarm_indexes_to_rows st) = Some (Some a) ->
    exists ctx, contexts (at_table st) !! a = Some ctx /\
      alarm_index (_alarm_table_def ctx) = index;
  aw_live : forall a ctx, contexts (at_table st) !! a = Some ctx ->
    container_rows (cb_container (at_table st)) !! row_index ctx = Some a /\
    find_key (alarm_index (_alarm_table_def ctx)) (alarm_indexes_to_rows st) = Some (Some a) /\
    severity (_alarm_table_def ctx) <> CLEARED;
}.

(** Every row was indexed by a counter value up to the present one. *)
Definition counter_wf (st : active_table) : Prop :=
  0 <= alarm_counter st < UINT_MAX /\
  forall o a, container_rows (cb_container (at_table st)) !! o = Some a ->
  exists datetime c, alarmActiveTable_index_to_oid "" datetime c = Some o /\
                     0 < c <= alarm_counter st.
End active_table.

(** ** Lemmas *)

Section active_laws.
Context `{AlarmDefLib} `{NetSnmpIndexSpec} `{NetSnmpContainerSpec}.
Implicit Types (st : active_table) (def : AlarmTableDef) (env : row_env).

Lemma active_zero_wf : active_wf active_zero.
Proof. split; simpl; eauto with snmp; intros ??; by rewrite ?lookup_empty. Qed.

Lemma row_at_spec index m :
  (row_at index m).1 = mjoin (find_key index m) /\
  forall i, mjoin (find_key i (row_at index m).2) = mjoin (find_key i m).
Proof.
  unfold row_at. destruct (find_key index m) as [row|] eqn:Hf; [by destruct row|].
  split; [done|]. intros i. simpl. destruct (decide (i = index)) as [->|].
  - by rewrite find_assign_eq, Hf.
  - by rewrite find_assign_ne.
Qed.

(** Reading the index map may add a [NULL] entry, which shows nothing. *)
Definition same_rows (m m' : smap Z (option Z)) : Prop :=
  forall i, mjoin (find_key i m') = mjoin (find_key i m).

Lemma mjoin_Some {A} (o : option (option A)) a : mjoin o = Some a <-> o = Some (Some a).
Proof. by destruct o as [[]|]; split; intros; simplify_eq/=. Qed.

Lemma same_rows_Some m m' i a :
  same_rows m m' -> find_key i m' = Some (Some a) <-> find_key i m = Some (Some a).
Proof. intros Hm. by rewrite <- !mjoin_Some, Hm. Qed.

Lemma active_wf_same_rows t m m' c ip :
  active_wf (mkActive t m c ip) -> sorted m' -> same_rows m m' -> active_wf (mkActive t m' c ip).
Proof.
  intros [Ht Hs Hm Hl] Hs' Heq. split; simpl in *; [done..| |].
  - intros i a Hf. apply (same_rows_Some m m') in Hf; auto.
  - intros a ctx Hc. destruct (Hl _ _ Hc) as (? & ? & ?). split_and!; [done| |done].
    by apply (same_rows_Some m m').
Qed.

Lemma row_at_sorted index m : sorted m -> sorted (row_at index m).2.
Proof. intros Hs. unfold row_at. destruct (find_key index m); simpl; auto with snmp. Qed.

(** The index a row about to be created would get is not in use. *)
Definition fresh_row env st : Prop :=
  forall o, alarmActiveTable_index_to_oid ""
              (alarm_time_issued (env_localtime env) (env_timezone env))
              (u64 (alarm_counter st + 1)) = Some o ->
            container_rows (cb_container (at_table st)) !! o = None.

Lemma counter_fresh env st : counter_wf st -> fresh_row env st.
Proof.
  intros [Hc Hr] o Ho. destruct (container_rows _ !! o) as [a|] eqn:Ha; [|done].
  destruct (Hr _ _ Ha) as (dt & c & Hc' & Hle). exfalso.
  unfold alarmActiveTable_index_to_oid in *.
  pose proof (fun Hty => build_oid_inj _ _ _ Hty Ho Hc') as Heq.
  specialize (Heq ltac:(repeat constructor)). simplify_eq.
  unfold u64 in *. rewrite wrap_id in * by (unfold_ints; lia). lia.
Qed.

(** The environment lets a row be created: memory, and an index encoding. *)
Definition row_env_ok env : Prop :=
  malloc_ok env = true /\
  forall c, is_Some (alarmActiveTable_index_to_oid ""
               (alarm_time_issued (env_localtime env) (env_timezone env)) c).

Lemma create_row_wf def env st :
  active_wf st -> fresh_row env st -> severity def <> CLEARED ->
  mjoin (find_key (alarm_index def) (alarm_indexes_to_rows st)) = None ->
  active_wf (alarmActiveTable_create_row def env st).
Proof.
  intros [Ht Hs Hm Hl] Hf Hsev Hnone. unfold alarmActiveTable_create_row.
  destruct (malloc_ok env); [|by split].
  destruct (alarmActiveTable_index_to_oid _ _ _) as [o|] eqn:Ho; [|by split].
  specialize (Hf _ Ho). split; simpl; [by apply insert_row_wf|by auto with snmp| |].
  - intros i a Hi. destruct (decide (i = alarm_index def)) as [->|].
    + rewrite find_assign_eq in Hi. simplify_eq. eexists. by rewrite lookup_insert_eq.
    + rewrite find_assign_ne in Hi by done. destruct (Hm _ _ Hi) as (ctx & Hc & ?).
      exists ctx. split; [|done]. rewrite lookup_insert_ne; [done|].
      apply (live_below _ Ht) in Hc. lia.
  - intros a ctx. rewrite container_insert_rows by done.
    intros [[<- <-]|[Hne Hc]]%lookup_insert_Some; simpl.
    + by rewrite lookup_insert_eq, find_assign_eq.
    + destruct (Hl _ _ Hc) as (Hr & Hi & ?).
      rewrite lookup_insert_ne by congruence. split_and!; [done| |done].
      rewrite find_assign_ne; [done|]. intros Heq. by rewrite Heq, <- mjoin_Some, Hnone in Hi.
Qed.

Lemma create_row_view def env st index :
  active_wf st -> fresh_row env st -> row_env_ok env ->
  active_view (alarmActiveTable_create_row def env st) index =
  if index =? alarm_index def then Some def else active_view st index.
Proof.
  intros [Ht Hs Hm Hl] Hf [Hmal Hok]. unfold alarmActiveTable_create_row. rewrite Hmal.
  destruct (Hok (u64 (alarm_counter st + 1))) as [o Ho]. rewrite Ho. unfold active_view. simpl.
  destruct (index =? alarm_index def) eqn:Hi; split_bools; subst.
  - rewrite find_assign_eq. simpl. by rewrite lookup_insert_eq.
  - rewrite find_assign_ne by done.
    destruct (find_key index (alarm_indexes_to_rows st)) as [[a|]|] eqn:Ha; [simpl|done..].
    destruct (Hm _ _ Ha) as (ctx & Hc & _). rewrite lookup_insert_ne; [done|].
    apply (live_below _ Ht) in Hc. lia.
Qed.

Lemma delete_row_spec def a st :
  active_wf st -> find_key (alarm_index def) (alarm_indexes_to_rows st) = Some (Some a) ->
  exists st', alarmActiveTable_delete_row def st = Some st' /\ active_wf st' /\
    mjoin (find_key (alarm_index def) (alarm_indexes_to_rows st')) = None /\
    my_handler (at_table st') = my_handler (at_table st) /\
    alarm_counter st' = alarm_counter st /\
    (forall index, active_view st' index =
       if index =? alarm_index def then None else active_view st index) /\
    (forall o b, container_rows (cb_container (at_table st')) !! o = Some b ->
                 container_rows (cb_container (at_table st)) !! o = Some b).
Proof.
  intros [Ht Hs Hm Hl] Ha. unfold alarmActiveTable_delete_row, row_at. rewrite Ha. simpl.
  destruct (Hm _ _ Ha) as (ctx & Hc & Hidx). rewrite Hc. simpl.
  destruct (Hl _ _ Hc) as (Hrow & _ & _).
  eexists. split; [done|]. simpl. split_and!; [|by rewrite find_assign_eq|done|done| |].
  - split; simpl; [|by auto with snmp| |].
    + split; simpl.
      * intros o b. rewrite container_remove_rows by done.
        intros [Hne Hb]%lookup_delete_Some. destruct (rows_live _ Ht _ _ Hb) as (ctx' & Hc' & <-).
        exists ctx'. split; [|done]. apply lookup_delete_Some. split; [|done]. congruence.
      * intros b ctx' [_ Hb]%lookup_delete_Some. by apply (live_below _ Ht) in Hb.
    + intros i b Hi. destruct (decide (i = alarm_index def)) as [->|];
        [by rewrite find_assign_eq in Hi|].
      rewrite find_assign_ne in Hi by done. destruct (Hm _ _ Hi) as (ctx' & Hc' & Hidx').
      exists ctx'. split; [|done]. apply lookup_delete_Some. split; [|done]. congruence.
    + intros b ctx' [Hne Hb]%lookup_delete_Some. destruct (Hl _ _ Hb) as (Hr' & Hi' & ?).
      rewrite container_remove_rows by done. split_and!; [| |done].
      * apply lookup_delete_Some. split; [congruence|done].
      * rewrite find_assign_ne; [done|]. congruence.
  - intros index. unfold active_view. simpl.
    destruct (index =? alarm_index def) eqn:Hi; split_bools; subst.
    + by rewrite find_assign_eq.
    + rewrite find_assign_ne by done.
      destruct (find_key index (alarm_indexes_to_rows st)) as [[b|]|] eqn:Hb; [simpl|done..].
      destruct (Hm _ _ Hb) as (ctx' & Hc' & Hidx'). rewrite lookup_delete_ne; [done|]. congruence.
  - intros o b. rewrite container_remove_rows by done. by intros [_ ?]%lookup_delete_Some.
Qed.
End active_laws.

Section handler_laws.
Context `{AlarmDefLib} `{NetSnmpIndexSpec} `{NetSnmpContainerSpec}.
Implicit Types (st : active_table) (def : AlarmTableDef) (env : row_env).

Lemma active_view_row st index a ctx :
  find_key index (alarm_indexes_to_rows st) = Some (Some a) ->
  contexts (at_table st) !! a = Some ctx ->
  active_view st index = Some (_alarm_table_def ctx).
Proof. intros Hf Hc. unfold active_view. rewrite Hf. simpl. by rewrite Hc. Qed.

(** The rows of [st'] are rows of [st], and no counter value was used. *)
Definition rows_shrink st st' : Prop :=
  my_handler (at_table st') = my_handler (at_table st) /\
  alarm_counter st' = alarm_counter st /\
  forall o b, container_rows (cb_container (at_table st')) !! o = Some b ->
              container_rows (cb_container (at_table st)) !! o = Some b.

(** At most one counter value was used, unless the counter is about to wrap. *)
Definition counter_step st st' : Prop :=
  counter_wf st -> alarm_counter st + 1 < UINT_MAX ->
  counter_wf st' /\ alarm_counter st <= alarm_counter st' <= alarm_counter st + 1.

Lemma rows_shrink_counter st st' : rows_shrink st st' -> counter_wf st -> counter_wf st'.
Proof.
  intros (_ & Hc & Hr) [Hb Hrows]. split; [by rewrite Hc|].
  intros o b Ho. rewrite Hc. eauto.
Qed.

Lemma rows_shrink_step st st' : rows_shrink st st' -> counter_step st st'.
Proof.
  intros Hs Hwf Hlt. split; [by eapply rows_shrink_counter|]. destruct Hs as (_ & -> & _). lia.
Qed.

Lemma rows_shrink_fresh env st st' : rows_shrink st st' -> fresh_row env st -> fresh_row env st'.
Proof.
  intros (_ & Hc & Hr) Hf o Ho. rewrite Hc in Ho. specialize (Hf o Ho).
  destruct (container_rows (cb_container (at_table st')) !! o) eqn:Hb; [|done]. apply Hr in Hb. congruence.
Qed.

Lemma create_row_counter def env st : counter_step st (alarmActiveTable_create_row def env st).
Proof.
  intros Hwf Hlt. pose proof (counter_fresh env st Hwf) as Hfr.
  destruct Hwf as [Hc Hr]. unfold alarmActiveTable_create_row.
  destruct (malloc_ok env); [|split; [done|lia]].
  unfold fresh_row in Hfr. unfold u64 in *. rewrite wrap_id in * by (unfold_ints; lia).
  destruct (alarmActiveTable_index_to_oid _ _ _) as [o|] eqn:Ho; simpl.
  - assert ((alarm_counter st + 1 =? UINT_MAX) = false) as -> by (apply Z.eqb_neq; lia).
    split; [|lia]. split; simpl; [lia|]. intros o' b.
    rewrite container_insert_rows by auto.
    intros [[<- _]|[_ Hb]]%lookup_insert_Some; [eexists _, _; split; [done|lia]|].
    destruct (Hr _ _ Hb) as (dt & c & ? & ?). exists dt, c. split; [done|lia].
  - split; [|lia]. split; simpl; [lia|]. intros o' b Hb.
    destruct (Hr _ _ Hb) as (dt & c & ? & ?). exists dt, c. split; [done|lia].
Qed.

Lemma create_row_handler def env st :
  my_handler (at_table (alarmActiveTable_create_row def env st)) = my_handler (at_table st).
Proof. unfold alarmActiveTable_create_row. case_tests; done. Qed.

Lemma shrink_create_step def env st st' :
  rows_shrink st st' -> counter_step st (alarmActiveTable_create_row def env st').
Proof.
  intros Hs Hwf Hlt. pose proof Hs as (_ & Hc & _). rewrite <- Hc in *.
  apply create_row_counter; [by eapply rows_shrink_counter|done].
Qed.

(** What one call of the handler leaves: a well-formed table that shows the
    alarms the specification says, if a row could be created. *)
Definition handled def env st st' : Prop :=
  active_wf st' /\ my_handler (at_table st') = my_handler (at_table st) /\
  counter_step st st' /\
  (row_env_ok env -> forall index, active_view st' index = trap_spec def (active_view st) index).

(** Case analysis on whether the index asked for is the alarm's own. *)
Local Ltac own_index :=
  intros Hok index; unfold trap_spec; rewrite ?create_row_view by done;
  destruct (index =? _) eqn:Hi; [apply Z.eqb_eq in Hi; subst index|done]; simpl.

(** Cases 1 and 5: the alarm has no row. *)
Lemma handler_no_row def env st :
  active_wf st -> fresh_row env st ->
  mjoin (find_key (alarm_index def) (alarm_indexes_to_rows st)) = None ->
  handled def env st
    (if negb (severity def =? CLEARED) then alarmActiveTable_create_row def env st else st).
Proof.
  intros Hwf Hfr Hnone.
  assert (active_view st (alarm_index def) = None) as Hshown by (unfold active_view; by rewrite Hnone).
  destruct (severity def =? CLEARED) eqn:Hclr; simpl; split_and!; [done|done|by apply rows_shrink_step| | | | |].
  - own_index. by rewrite Hclr.
  - apply create_row_wf; [done..| |done]. by split_bools.
  - apply create_row_handler.
  - apply create_row_counter.
  - own_index. by rewrite Hclr, Hshown.
Qed.

(** Cases 2 to 4: the alarm has a row. *)
Lemma handler_row def env st a ctx :
  active_wf st -> fresh_row env st ->
  find_key (alarm_index def) (alarm_indexes_to_rows st) = Some (Some a) ->
  contexts (at_table st) !! a = Some ctx ->
  exists st',
    (if negb (severity def =? CLEARED) then
       if negb (severity def =? severity (_alarm_table_def ctx)) then
         st' ← alarmActiveTable_delete_row def st; Some (alarmActiveTable_create_row def env st')
       else Some st
     else alarmActiveTable_delete_row def st) = Some st' /\ handled def env st st'.
Proof.
  intros Hwf Hfr Ha Hc. pose proof (active_view_row st _ _ _ Ha Hc) as Hshown.
  destruct (delete_row_spec def a st Hwf Ha) as (st2 & -> & Hwf2 & Hnone & Hreg & Hcnt & Hview & Hrows).
  assert (rows_shrink st st2) as Hshrink by done.
  pose proof (rows_shrink_fresh env _ _ Hshrink Hfr) as Hfr2.
  destruct (severity def =? CLEARED) eqn:Hclr; simpl.
  { exists st2. split; [done|]. split_and!; [done|done|by apply rows_shrink_step|].
    intros _ index. rewrite Hview. unfold trap_spec. rewrite Hclr. by destruct (index =? _). }
  destruct (severity def =? severity (_alarm_table_def ctx)) eqn:Hsev; simpl.
  - exists st. split; [done|]. split_and!; [done|done|by apply rows_shrink_step|].
    own_index. by rewrite Hclr, Hshown, Hsev.
  - exists (alarmActiveTable_create_row def env st2). split; [done|]. split_and!.
    + apply create_row_wf; [done..| |done]. by split_bools.
    + by rewrite create_row_handler.
    + by apply shrink_create_step.
    + intros Hok index. rewrite create_row_view by done. rewrite Hview. unfold trap_spec.
      destruct (index =? _) eqn:Hi; [apply Z.eqb_eq in Hi; subst index|done]. simpl.
      by rewrite Hclr, Hshown, Hsev.
Qed.

(** One call of the handler reaches no freed or missing row. *)
Lemma trap_handler_spec def env st :
  active_wf st -> fresh_row env st -> my_handler (at_table st) = true ->
  exists st', alarmActiveTable_trap_handler def env st = Some st' /\ handled def env st st'.
Proof.
  intros Hwf Hfr Hreg. unfold alarmActiveTable_trap_handler. rewrite Hreg.
  pose proof (row_at_spec (alarm_index def) (alarm_indexes_to_rows st)) as [Hrow Hsame].
  pose proof (row_at_sorted (alarm_index def) _ (aw_sorted _ Hwf)) as Hsorted.
  destruct (row_at (alarm_index def) (alarm_indexes_to_rows st)) as [row m]. simpl in *.
  set (st1 := mkActive (at_table st) m (alarm_counter st) (local_ip st)).
  assert (active_wf st1) as Hwf1 by (destruct st; by eapply active_wf_same_rows).
  assert (forall st', handled def env st1 st' -> handled def env st st') as Hh.
  { intros st' (? & ? & ? & Hv). split_and!; [done..|]. intros Hok index. rewrite Hv by done.
    unfold trap_spec, active_view. simpl. by rewrite !Hsame. }
  destruct row as [a|]; symmetry in Hrow.
  - assert (find_key (alarm_index def) (alarm_indexes_to_rows st1) = Some (Some a)) as Ha
      by (apply mjoin_Some; simpl; by rewrite Hsame).
    destruct (aw_map _ Hwf1 _ _ Ha) as (ctx & Hc & _).
    destruct (handler_row def env st1 a ctx Hwf1 Hfr Ha Hc) as (st' & Heq & Hst').
    simpl in Hc. rewrite Hc. simpl in *. exists st'. split; [|by apply Hh].
    rewrite <- Heq. by destruct (negb (severity def =? CLEARED)).
  - pose proof (handler_no_row def env st1 Hwf1 Hfr) as Hst'. simpl in Hst'.
    rewrite Hsame in Hst'. specialize (Hst' Hrow).
    eexists. split; [|apply Hh, Hst']. by destruct (negb _).
Qed.

Lemma trap_handler_unregistered def env st :
  my_handler (at_table st) = false -> alarmActiveTable_trap_handler def env st = Some st.
Proof. intros Hr. unfold alarmActiveTable_trap_handler. by rewrite Hr. Qed.

(** The table after one call, registered or not. *)
Lemma trap_handler_step def env st :
  active_wf st -> counter_wf st -> alarm_counter st + 1 < UINT_MAX ->
  exists st', alarmActiveTable_trap_handler def env st = Some st' /\
    active_wf st' /\ counter_wf st' /\ my_handler (at_table st') = my_handler (at_table st) /\
    alarm_counter st <= alarm_counter st' <= alarm_counter st + 1 /\
    (my_handler (at_table st) = true -> row_env_ok env ->
     forall index, active_view st' index = trap_spec def (active_view st) index).
Proof.
  intros Hwf Hc Hlt. destruct (my_handler (at_table st)) eqn:Hreg.
  - destruct (trap_handler_spec def env st Hwf (counter_fresh _ _ Hc) Hreg)
      as (st' & -> & Hwf' & Hreg' & Hstep & Hv).
    destruct (Hstep Hc Hlt). exists st'. split_and!; done || lia || auto || congruence.
  - exists st. rewrite trap_handler_unregistered by done. split_and!; try done; lia.
Qed.
End handler_laws.
