(* ===== verification/TableProps.v ===== *)
(** What is proved of the SNMP tables: the rows of the two static tables, the
    pointers between them, from the notifications and from the Alarm Active
    Table into them, and the rows the Alarm Active Table has after any sequence of traps. *)

From S2P Require Export ActiveTable.

(** ** The static tables *)

Section static_theorems.
Context `{AlarmDefLib} `{NetSnmpIndexSpec} `{NetSnmpContainerSpec}.

(** A table of definitions whose severities are those of the ITU perceived
    severity and its [CLEARED]. *)
Definition proper_defs (defs : AlarmTableDefs) : Prop :=
  defs_wf defs /\ forall def, def ∈ (_key_to_def defs).*2 -> proper_severity (severity def).

Lemma model_init_view defs :
  proper_defs defs ->
  exists t rows, init_alarmModelTable true true (fun _ => true) defs table_zero = Some t /\
    table_wf t /\ mapM model_row_of (_key_to_def defs).*2 = Some rows /\
    NoDup rows.*1 /\ table_view t = list_to_map rows.
Proof.
  intros [Hwf Hp]. destruct (model_rows_exist (_key_to_def defs).*2 Hp) as (rows & Hm & Hr2 & Hr1).
  assert (NoDup rows.*1) as Hnd.
  { rewrite Hr1. eapply NoDup_fmap_via; [|by apply defs_wf_NoDup].
    intros d1 d2 H1' H2' [= Hi Hst]. unfold def_key. f_equal; [done|].
    destruct (state_known d1) as [s1 E1]; [specialize (Hp _ H1'); unfold proper_severity, known_severity in *; lia|].
    destruct (state_known d2) as [s2 E2]; [specialize (Hp _ H2'); unfold proper_severity, known_severity in *; lia|].
    rewrite E1, E2 in Hst. simpl in Hst. apply state_inj; [auto|auto|congruence]. }
  unfold init_alarmModelTable, initialize_table_alarmModelTable, register_table. simpl.
  destruct (model_insert_defs_spec (_key_to_def defs).*2 rows (mkTable true container_empty ∅ 1))
    as (t & -> & Hwf' & Hv); [apply table_fresh_wf|done|done| |].
  - intros o _. simpl. by rewrite container_empty_rows, lookup_empty.
  - exists t, rows. split_and!; [done..|]. rewrite Hv.
    by rewrite table_fresh_view, map_union_empty.
Qed.

Lemma itu_init_view defs :
  defs_wf defs ->
  let t := init_ituAlarmTable true true (fun _ => true) defs table_zero in
  table_wf t /\ NoDup (itu_row_of <$> (_key_to_def defs).*2).*1 /\
  table_view t = list_to_map (itu_row_of <$> (_key_to_def defs).*2).
Proof.
  intros Hwf. assert (NoDup (itu_row_of <$> (_key_to_def defs).*2).*1) as Hnd.
  { rewrite <- list_fmap_compose. eapply NoDup_fmap_via; [|by apply defs_wf_NoDup].
    intros d1 d2 _ _ [= Hi Hs]. unfold def_key. by f_equal. }
  unfold init_ituAlarmTable, initialize_table_ituAlarmTable, register_table. simpl.
  destruct (itu_insert_defs_spec (_key_to_def defs).*2 (mkTable true container_empty ∅ 1)) as (Hwf' & Hv);
    [apply table_fresh_wf|done| |].
  - intros o _. simpl. by rewrite container_empty_rows, lookup_empty.
  - split_and!; [done..|]. rewrite Hv.
    by rewrite table_fresh_view, map_union_empty.
Qed.

Lemma model_view_lookup defs t rows o def :
  table_view t = list_to_map rows -> NoDup rows.*1 ->
  mapM model_row_of (_key_to_def defs).*2 = Some rows ->
  table_view t !! o = Some def <->
  def ∈ (_key_to_def defs).*2 /\ exists st, state def = Some st /\ o = [0; alarm_index def; st].
Proof.
  intros -> Hnd Hm. rewrite <- elem_of_list_to_map by done. by apply model_rows_elem.
Qed.

Lemma itu_view_lookup defs t o def :
  table_view t = list_to_map (itu_row_of <$> (_key_to_def defs).*2) ->
  NoDup (itu_row_of <$> (_key_to_def defs).*2).*1 ->
  table_view t !! o = Some def <->
  def ∈ (_key_to_def defs).*2 /\ o = [0; alarm_index def; severity def].
Proof.
  intros -> Hnd. rewrite <- elem_of_list_to_map by done. rewrite list_elem_of_fmap.
  unfold itu_row_of. split.
  - by intros (d & [= -> ->] & Hd).
  - intros [Hd ->]. by exists def.
Qed.

(** After initialisation the Alarm Model Table has exactly one row per
    definition of the table of definitions, indexed by the empty list name, the alarm
    index and the [alarmModelState] of the severity. *)
Theorem model_table_rows defs :
  proper_defs defs ->
  exists t, init_alarmModelTable true true (fun _ => true) defs table_zero = Some t /\
    table_wf t /\
    forall o def, table_view t !! o = Some def <->
      get_definition defs (alarm_index def) (severity def) = def /\ is_valid def = true /\
      exists st, state def = Some st /\ o = [0; alarm_index def; st].
Proof.
  intros Hp. destruct (model_init_view defs Hp) as (t & rows & Hi & Hwf & Hm & Hnd & Hv).
  exists t. split_and!; [done..|]. intros o def. rewrite (model_view_lookup _ _ _ _ _ Hv Hnd Hm).
  rewrite (defs_wf_stored _ _ (proj1 Hp)). tauto.
Qed.

(** Likewise the ITU Alarm Table, indexed by alarm index and severity. *)
Theorem itu_table_rows defs :
  defs_wf defs ->
  let t := init_ituAlarmTable true true (fun _ => true) defs table_zero in
  table_wf t /\
  forall o def, table_view t !! o = Some def <->
    get_definition defs (alarm_index def) (severity def) = def /\ is_valid def = true /\
    o = [0; alarm_index def; severity def].
Proof.
  intros Hwf. cbv zeta. destruct (itu_init_view defs Hwf) as (Hwf' & Hnd & Hv). split; [done|].
  intros o def. rewrite (itu_view_lookup _ _ _ _ Hv Hnd).
  rewrite (defs_wf_stored _ _ Hwf). tauto.
Qed.
End static_theorems.

(** ** Pointers into the static tables *)

Section pointer_theorems.
Context `{AlarmDefLib} `{NetSnmpIndexSpec} `{NetSnmpContainerSpec}.

(** The cell a row pointer names: the first accessible column of a row. *)
Definition model_row_pointer (row : oids) : oids :=
  cell_oid alarmModelTable_oid COLUMN_ALARMMODELNOTIFICATIONID row.
Definition itu_row_pointer (row : oids) : oids :=
  cell_oid ituAlarmTable_oid COLUMN_ITUALARMEVENTTYPE row.

Lemma stored_state defs def :
  proper_defs defs -> get_definition defs (alarm_index def) (severity def) = def ->
  is_valid def = true -> proper_severity (severity def) /\ is_Some (state def).
Proof.
  intros [Hwf Hp] Hg Hval.
  assert (proper_severity (severity def)) as Hs by by apply Hp, defs_wf_stored.
  split; [done|]. apply state_known. unfold proper_severity, known_severity in *. lia.
Qed.

(** C36: the row pointers agree. For every loaded definition, the model pointer of the RFC 3877
    notification, the alarm OID of the enterprise notification and the
    GENERICMODEL column of its ITU row are the OID of the first cell of the
    definition's row in the Alarm Model Table; the SPECIFICPOINTER column of
    that row is the OID of the first cell of its row in the ITU Alarm Table. *)
Theorem row_pointers_agree defs def hostname :
  proper_defs defs -> get_definition defs (alarm_index def) (severity def) = def ->
  is_valid def = true ->
  exists t model_row itu_row rfc enterprise,
    init_alarmModelTable true true (fun _ => true) defs table_zero = Some t /\
    table_view t !! model_row = Some def /\
    table_view (init_ituAlarmTable true true (fun _ => true) defs table_zero) !! itu_row = Some def /\
    send_rfc3877_trap def = Some rfc /\
    trap_vars rfc !! 1%nat =
      Some (mkVarbind model_ptr_oid (ASN_OBJECT_ID (model_row_pointer model_row))) /\
    send_enterprise_trap hostname def = Some enterprise /\
    trap_vars enterprise !! 3%nat =
      Some (mkVarbind alarm_oid_oid (ASN_OBJECT_ID (model_row_pointer model_row))) /\
    ituAlarmTable_get_value def COLUMN_ITUALARMGENERICMODEL =
      Some (answer (ASN_OBJECT_ID (model_row_pointer model_row))) /\
    alarmModelTable_get_value def COLUMN_ALARMMODELSPECIFICPOINTER =
      Some (answer (ASN_OBJECT_ID (itu_row_pointer itu_row))).
Proof.
  intros Hp Hg Hval. destruct (stored_state _ _ Hp Hg Hval) as [Hs [st Hst]].
  destruct (severity_to_string_known (severity def)) as [sv Hsv];
    [unfold proper_severity, known_severity in *; lia|].
  destruct (model_init_view defs Hp) as (t & rows & Hi & Hwf & Hm & Hnd & Hv).
  destruct (itu_init_view defs (proj1 Hp)) as (Hwf' & Hnd' & Hv').
  assert (def ∈ (_key_to_def defs).*2) as Hin by by apply (defs_wf_stored _ _ (proj1 Hp)).
  unfold send_rfc3877_trap, send_enterprise_trap. rewrite Hst. simpl. rewrite Hsv. simpl.
  eexists t, [0; alarm_index def; st], [0; alarm_index def; severity def], _, _.
  split_and!; [done| | |done|done|done|done| |done].
  - apply (model_view_lookup _ _ _ _ _ Hv Hnd Hm). split; [done|]. by exists st.
  - by apply (itu_view_lookup _ _ _ _ Hv' Hnd').
  - unfold ituAlarmTable_get_value. simpl. by rewrite Hst.
Qed.

(** The MODELPOINTER column of an Alarm Active Table row puts the ITU
    severity where the model table has the [alarmModelState], so it names the
    row of the alarm's own definition only for INDETERMINATE alarms (and CLEARED ones,
    which have no row): a CRITICAL, MAJOR, MINOR or WARNING alarm points to the
    row of another severity or to none. *)
Theorem active_model_pointer_row defs def (st : active_table) :
  proper_defs defs -> get_definition defs (alarm_index def) (severity def) = def ->
  is_valid def = true ->
  exists t row, init_alarmModelTable true true (fun _ => true) defs table_zero = Some t /\
    alarmActiveTable_get_value st def COLUMN_ALARMACTIVEMODELPOINTER =
      answer (ASN_OBJECT_ID (model_row_pointer row)) /\
    (table_view t !! row = Some def <-> severity def <= 2).
Proof.
  intros Hp Hg Hval. destruct (stored_state _ _ Hp Hg Hval) as [Hs [s Hst]].
  destruct (model_init_view defs Hp) as (t & rows & Hi & Hwf & Hm & Hnd & Hv).
  exists t, [0; alarm_index def; severity def]. split_and!; [done|done|].
  rewrite (model_view_lookup _ _ _ _ _ Hv Hnd Hm), (defs_wf_stored _ _ (proj1 Hp)), Hst.
  unfold proper_severity in Hs. unfold state in Hst.
  assert (severity def = 1 \/ severity def = 2 \/ severity def = 3 \/ severity def = 4 \/
          severity def = 5 \/ severity def = 6) as Hc by lia.
  split; [|intros Hle; split; [done|]; exists s; split; [done|]; f_equal; f_equal; f_equal].
  - intros (_ & s' & [= <-] & [= Heq]).
    destruct Hc as [E|[E|[E|[E|[E|E]]]]]; rewrite E in *; injection Hst as <-; simpl in *; lia.
  - destruct Hc as [E|[E|[E|[E|[E|E]]]]]; rewrite E in *; injection Hst as <-; simpl in *; lia.
Qed.

(** A GET answers a value, or fails without one. *)
Definition answers (r : option get_result) : Prop := exists v, r = Some (answer v).
Definition refuses (r : option get_result) : Prop := r = Some (SNMP_ERR_GENERR, None).

(** Split a column number of a range into its values. *)
Local Ltac each_column column :=
  match goal with
  | Hr : ?lo <= column <= ?hi |- _ =>
    let E := fresh in
    destruct (Z.eq_dec column lo) as [E|E];
    [subst column; clear Hr
    |let Hr' := fresh in
     let lo' := eval vm_compute in (lo + 1) in
     assert (lo' <= column <= hi) as Hr' by (clear - Hr E; lia);
     clear Hr E; try (exfalso; clear - Hr'; lia); each_column column]
  end.

Local Ltac no_column := repeat rewrite (proj2 (Z.eqb_neq _ _)) by lia; reflexivity.

Lemma model_get_value_columns def column :
  (alarmModelTable_COL_MIN <= column <= alarmModelTable_COL_MAX ->
   answers (alarmModelTable_get_value def column)) /\
  (~ alarmModelTable_COL_MIN <= column <= alarmModelTable_COL_MAX ->
   refuses (alarmModelTable_get_value def column)).
Proof.
  unfold alarmModelTable_get_value, alarmModelTable_COL_MIN, alarmModelTable_COL_MAX,
    COLUMN_ALARMMODELNOTIFICATIONID, COLUMN_ALARMMODELVARBINDINDEX, COLUMN_ALARMMODELVARBINDVALUE,
    COLUMN_ALARMMODELDESCRIPTION, COLUMN_ALARMMODELSPECIFICPOINTER, COLUMN_ALARMMODELVARBINDSUBTREE,
    COLUMN_ALARMMODELRESOURCEPREFIX, COLUMN_ALARMMODELROWSTATUS, answers, refuses.
  split; intros Hr; [each_column column; simpl; by eexists|no_column].
Qed.

Lemma itu_get_value_columns def column :
  known_severity (severity def) ->
  (ituAlarmTable_COL_MIN <= column <= ituAlarmTable_COL_MAX ->
   answers (ituAlarmTable_get_value def column)) /\
  (~ ituAlarmTable_COL_MIN <= column <= ituAlarmTable_COL_MAX ->
   refuses (ituAlarmTable_get_value def column)).
Proof.
  intros [st Hst]%state_known.
  unfold ituAlarmTable_get_value, ituAlarmTable_COL_MIN, ituAlarmTable_COL_MAX,
    COLUMN_ITUALARMEVENTTYPE, COLUMN_ITUALARMPROBABLECAUSE, COLUMN_ITUALARMADDITIONALTEXT,
    COLUMN_ITUALARMGENERICMODEL, answers, refuses. rewrite Hst.
  split; intros Hr; [each_column column; simpl; by eexists|no_column].
Qed.

Lemma active_get_value_columns st def column :
  (alarmActiveTable_COL_MIN <= column <= alarmActiveTable_COL_MAX ->
   answers (Some (alarmActiveTable_get_value st def column))) /\
  (~ alarmActiveTable_COL_MIN <= column <= alarmActiveTable_COL_MAX ->
   refuses (Some (alarmActiveTable_get_value st def column))).
Proof.
  unfold alarmActiveTable_get_value, alarmActiveTable_COL_MIN, alarmActiveTable_COL_MAX,
    COLUMN_ALARMACTIVEENGINEID, COLUMN_ALARMACTIVEENGINEADDRESSTYPE, COLUMN_ALARMACTIVEENGINEADDRESS,
    COLUMN_ALARMACTIVECONTEXTNAME, COLUMN_ALARMACTIVEVARIABLES, COLUMN_ALARMACTIVENOTIFICATIONID,
    COLUMN_ALARMACTIVERESOURCEID, COLUMN_ALARMACTIVEDESCRIPTION, COLUMN_ALARMACTIVELOGPOINTER,
    COLUMN_ALARMACTIVEMODELPOINTER, COLUMN_ALARMACTIVESPECIFICPOINTER, answers, refuses.
  split; intros Hr; [each_column column; simpl; by eexists|no_column].
Qed.

(** The syntax of a value, and that of the columns of a table from [first] on. *)
Inductive syntax := OctetString | Integer | Unsigned | ObjectIdentifier.

Definition syntax_of (v : asn_value) : syntax :=
  match v with
  | ASN_OCTET_STR _ => OctetString
  | ASN_INTEGER _ => Integer
  | ASN_UNSIGNED _ => Unsigned
  | ASN_OBJECT_ID _ => ObjectIdentifier
  end.

Definition column_syntax (first : Z) (l : list syntax) (column : Z) : option syntax :=
  if column <? first then None else l !! Z.to_nat (column - first).

Definition model_syntax : Z -> option syntax := column_syntax alarmModelTable_COL_MIN
  [ObjectIdentifier; Unsigned; Integer; OctetString; ObjectIdentifier; ObjectIdentifier; ObjectIdentifier; Integer].
Definition itu_syntax : Z -> option syntax := column_syntax ituAlarmTable_COL_MIN
  [Integer; Integer; OctetString; ObjectIdentifier].
Definition active_syntax : Z -> option syntax := column_syntax alarmActiveTable_COL_MIN
  [OctetString; Integer; OctetString; OctetString; Unsigned; ObjectIdentifier; ObjectIdentifier; OctetString;
   ObjectIdentifier; ObjectIdentifier; ObjectIdentifier].

(** The GET answers a value of the syntax, or, where there is none, fails without one. *)
Definition typed (r : option get_result) (ty : option syntax) : Prop :=
  match ty with
  | Some s => exists v, r = Some (answer v) /\ syntax_of v = s
  | None => r = Some (SNMP_ERR_GENERR, None)
  end.

Lemma column_syntax_none first l column :
  ~ first <= column <= first + Z.of_nat (length l) - 1 -> column_syntax first l column = None.
Proof.
  intros Hc. unfold column_syntax. destruct (column <? first) eqn:Hlt; [done|]. split_bools.
  apply lookup_ge_None_2. lia.
Qed.

(** C35: the tables are well typed. A GET of any cell, whatever the row and the column,
    reads nothing out of bounds and answers a value of the column's ASN.1 syntax, for exactly
    the columns registered as accessible; for the others, the index
    columns among them, it fails and sets no value. *)
Theorem get_value_types def column (st : active_table) :
  known_severity (severity def) ->
  typed (alarmModelTable_get_value def column) (model_syntax column) /\
  typed (ituAlarmTable_get_value def column) (itu_syntax column) /\
  typed (Some (alarmActiveTable_get_value st def column)) (active_syntax column) /\
  (column = COLUMN_ALARMMODELINDEX \/ column = COLUMN_ALARMMODELSTATE -> model_syntax column = None) /\
  (column = COLUMN_ITUALARMPERCEIVEDSEVERITY -> itu_syntax column = None) /\
  (column = COLUMN_ALARMLISTNAME \/ column = COLUMN_ALARMACTIVEDATEANDTIME \/ column = COLUMN_ALARMACTIVEINDEX ->
   active_syntax column = None).
Proof.
  intros Hs. destruct (state_known _ Hs) as [s Hst]. split_and!.
  - destruct (decide (alarmModelTable_COL_MIN <= column <= alarmModelTable_COL_MAX)) as [Hr|Hr].
    + unfold alarmModelTable_COL_MIN, alarmModelTable_COL_MAX in Hr.
      each_column column; vm_compute; eexists; split; reflexivity.
    + unfold model_syntax. rewrite column_syntax_none by exact Hr. by apply model_get_value_columns.
  - destruct (decide (ituAlarmTable_COL_MIN <= column <= ituAlarmTable_COL_MAX)) as [Hr|Hr].
    + unfold ituAlarmTable_COL_MIN, ituAlarmTable_COL_MAX in Hr.
      each_column column; unfold ituAlarmTable_get_value; cbn; rewrite ?Hst; eexists; split; reflexivity.
    + unfold itu_syntax. rewrite column_syntax_none by exact Hr. by apply itu_get_value_columns.
  - destruct (decide (alarmActiveTable_COL_MIN <= column <= alarmActiveTable_COL_MAX)) as [Hr|Hr].
    + unfold alarmActiveTable_COL_MIN, alarmActiveTable_COL_MAX in Hr.
      each_column column; cbn; eexists; split; reflexivity.
    + unfold active_syntax. rewrite column_syntax_none by exact Hr. by apply (active_get_value_columns st def column).
  - by intros [-> | ->].
  - by intros ->.
  - by intros [-> |[-> | ->]].
Qed.

(** A GET of the three tables answers a value for exactly the columns
    registered as accessible, and fails without one for the others; no
    severity of [AlarmDef::Severity] makes it read out of bounds. *)
Theorem get_value_columns def column (st : active_table) :
  known_severity (severity def) ->
  (if bool_decide (alarmModelTable_COL_MIN <= column <= alarmModelTable_COL_MAX)
   then answers (alarmModelTable_get_value def column)
   else refuses (alarmModelTable_get_value def column)) /\
  (if bool_decide (ituAlarmTable_COL_MIN <= column <= ituAlarmTable_COL_MAX)
   then answers (ituAlarmTable_get_value def column)
   else refuses (ituAlarmTable_get_value def column)) /\
  (if bool_decide (alarmActiveTable_COL_MIN <= column <= alarmActiveTable_COL_MAX)
   then answers (Some (alarmActiveTable_get_value st def column))
   else refuses (Some (alarmActiveTable_get_value st def column))).
Proof.
  intros Hs. split_and!; case_bool_decide.
  1,2: by apply model_get_value_columns.
  1,2: by apply itu_get_value_columns.
  all: by apply active_get_value_columns.
Qed.
End pointer_theorems.

(** ** The Alarm Active Table *)

Section active_theorems.
Context `{AlarmDefLib} `{NetSnmpIndexSpec} `{NetSnmpContainerSpec}.
Implicit Types (l : list (AlarmTableDef * row_env)).

(** Traps handled in sequence, each with the environment its row is created in. *)
Fixpoint run_traps l (st : active_table) : option active_table :=
  match l with
  | [] => Some st
  | (def, env) :: l' => st' ← alarmActiveTable_trap_handler def env st; run_traps l' st'
  end.

(** The table as [init_alarmActiveTable] leaves it. *)
Definition active_init (ip : string) (ok : bool) : active_table :=
  (init_alarmActiveTable ip true ok active_zero).2.

Lemma active_init_wf ip ok :
  active_wf (active_init ip ok) /\ counter_wf (active_init ip ok) /\
  alarm_counter (active_init ip ok) = 0 /\ my_handler (at_table (active_init ip ok)) = ok /\
  forall i, active_view (active_init ip ok) i = None.
Proof.
  unfold active_init, init_alarmActiveTable, register_table. simpl.
  destruct ok; simpl; (split; [split; simpl; [apply table_fresh_wf|auto with snmp|done|]|];
    [intros a ctx; by rewrite lookup_empty|]);
    (split; [split; simpl; [by unfold_ints|]; intros o a; by rewrite container_empty_rows, lookup_empty|]); done.
Qed.

Definition shown_by l (i : Z) (view : Z -> option AlarmTableDef) : option AlarmTableDef :=
  fold_left (fun v p => trap_spec p.1 v) l view i.

Lemma shown_by_ext l v v' i : (forall j, v j = v' j) -> shown_by l i v = shown_by l i v'.
Proof.
  revert v v'. induction l as [|p l IH]; intros v v' Heq; [apply Heq|].
  apply IH. intros j. unfold trap_spec. by rewrite Heq.
Qed.

Lemma run_traps_spec l st :
  active_wf st -> counter_wf st -> alarm_counter st + Z.of_nat (length l) < UINT_MAX ->
  exists st', run_traps l st = Some st' /\ active_wf st' /\ counter_wf st' /\
    alarm_counter st' <= alarm_counter st + Z.of_nat (length l) /\
    (my_handler (at_table st) = true -> Forall (fun p => row_env_ok p.2) l ->
     forall i, active_view st' i = shown_by l i (active_view st)).
Proof.
  revert st. induction l as [|[def env] l IH]; intros st Hwf Hc Hlt; simpl in *.
  { exists st. split_and!; try done. lia. }
  destruct (trap_handler_step def env st Hwf Hc) as (st1 & -> & Hwf1 & Hc1 & Hreg & Hcnt & Hv); [lia|].
  destruct (IH st1 Hwf1 Hc1) as (st' & Hrun & Hwf' & Hc' & Hcnt' & Hv'); [lia|].
  exists st'. split_and!; [done..|lia|]. intros Hr [Henv Hl]%Forall_cons i.
  rewrite Hv' by (congruence || done). unfold shown_by. simpl.
  apply shown_by_ext. auto.
Qed.

(** The last trap of an alarm in a history. *)
Definition last_trap l (i : Z) : option AlarmTableDef :=
  last (List.filter (fun def => alarm_index def =? i) l.*1).

Lemma last_trap_snoc l def env i :
  last_trap (l ++ [(def, env)]) i = if alarm_index def =? i then Some def else last_trap l i.
Proof.
  unfold last_trap. rewrite fmap_app, List.filter_app. simpl.
  destruct (alarm_index def =? i); [apply last_snoc|by rewrite app_nil_r].
Qed.

(** What the last traps say is shown. *)
Definition shown_after l (i : Z) (shown : option AlarmTableDef) : Prop :=
  match last_trap l i with
  | None => shown = None
  | Some def =>
    if severity def =? CLEARED then shown = None
    else exists def', shown = Some def' /\ def' ∈ l.*1 /\ alarm_index def' = i /\
                      severity def' = severity def
  end.

Lemma shown_by_last l i : shown_after l i (shown_by l i (fun _ => None)).
Proof.
  induction l as [|[def env] l IH] using rev_ind; [done|].
  unfold shown_after in *. rewrite last_trap_snoc. unfold shown_by. rewrite fold_left_app. simpl.
  fold (shown_by l i (fun _ => None)). unfold trap_spec.
  change (fold_left _ l _ i) with (shown_by l i (fun _ => None)).
  rewrite (Z.eqb_sym (alarm_index def)). destruct (i =? alarm_index def) eqn:Hi; simpl.
  - apply Z.eqb_eq in Hi as ->. destruct (severity def =? CLEARED); [done|].
    assert (def ∈ (l ++ [(def, env)]).*1) as Hin by (rewrite fmap_app, elem_of_app; right; by left).
    destruct (shown_by l _ _) as [d|] eqn:Hs; [|by exists def].
    destruct (severity def =? severity d) eqn:Heq; [|by exists def].
    apply Z.eqb_eq in Heq. exists d. split; [done|].
    destruct (last_trap l (alarm_index def)) as [d'|]; [|done].
    destruct (severity d' =? CLEARED); [done|]. destruct IH as (d2 & [= <-] & Hd & Hid & _).
    split_and!; [|done|done]. rewrite fmap_app, elem_of_app. by left.
  - destruct (last_trap l i) as [d'|]; [|done]. destruct (severity d' =? CLEARED); [done|].
    destruct IH as (d2 & Hd2 & Hin & ? & ?). exists d2. split_and!; [done| |done..].
    rewrite fmap_app, elem_of_app. by left.
Qed.

(** C12: the Alarm Active Table after any history of traps. It never touches
    a missing or freed row; an alarm is shown exactly when the last trap for it was not a
    CLEARED one, with a definition of the severity of that trap. (The bound
    keeps the row counter from coming round.) *)
Theorem active_table_history ip l i :
  Z.of_nat (length l) < UINT_MAX -> Forall (fun p => row_env_ok p.2) l ->
  exists st, run_traps l (active_init ip true) = Some st /\ active_wf st /\
    match last_trap l i with
    | None => active_view st i = None
    | Some def =>
      if severity def =? CLEARED then active_view st i = None
      else exists def', active_view st i = Some def' /\ def' ∈ l.*1 /\ alarm_index def' = i /\
                        severity def' = severity def
    end.
Proof.
  intros Hl Henv. destruct (active_init_wf ip true) as (Hwf & Hc & H0' & Hreg & Hnone).
  destruct (run_traps_spec l _ Hwf Hc) as (st & Hrun & Hwf' & _ & _ & Hv); [lia|].
  exists st. split_and!; [done..|]. rewrite (Hv Hreg Henv).
  rewrite (shown_by_ext _ _ (fun _ => None)) by done. apply shown_by_last.
Qed.

(** C37: whatever fails while rows are created (memory, the index encoding,
    the registration itself), the table stays well formed and no trap crashes. *)
Theorem active_table_safe ip ok l :
  Z.of_nat (length l) < UINT_MAX ->
  exists st, run_traps l (active_init ip ok) = Some st /\ active_wf st /\
    0 <= alarm_counter st <= Z.of_nat (length l).
Proof.
  intros Hl. destruct (active_init_wf ip ok) as (Hwf & Hc & H0' & _).
  destruct (run_traps_spec l _ Hwf Hc) as (st & Hrun & Hwf' & [Hc' _] & Hle & _); [lia|].
  exists st. split_and!; try done; lia.
Qed.

(** The rows a manager sees. In every state of the table a manager sees exactly one row per
    raised alarm, with its definition, and no row of a CLEARED definition. *)
Theorem active_table_one_row ip ok l st i def :
  Z.of_nat (length l) < UINT_MAX -> run_traps l (active_init ip ok) = Some st ->
  (active_view st i = Some def <->
   alarm_index def = i /\ exists o, table_view (at_table st) !! o = Some def) /\
  (forall o1 o2 d1 d2, table_view (at_table st) !! o1 = Some d1 ->
     table_view (at_table st) !! o2 = Some d2 -> alarm_index d1 = alarm_index d2 -> o1 = o2) /\
  (forall o d, table_view (at_table st) !! o = Some d -> severity d <> CLEARED).
Proof.
  intros Hl Hrun. destruct (active_init_wf ip ok) as (Hwf & Hc & H0' & _).
  destruct (run_traps_spec l _ Hwf Hc) as (st' & Hrun' & [Ht Hs Hm Hv] & _); [lia|].
  assert (st' = st) as -> by congruence. clear Hrun'.
  assert (forall o d, table_view (at_table st) !! o = Some d ->
    exists a ctx, contexts (at_table st) !! a = Some ctx /\ row_index ctx = o /\
      _alarm_table_def ctx = d /\
      find_key (alarm_index d) (alarm_indexes_to_rows st) = Some (Some a) /\ severity d <> CLEARED) as Hrow.
  { intros o d. rewrite table_view_lookup. intros (a & Ha & (ctx & Hctx & ->)%fmap_Some)%bind_Some.
    destruct (rows_live _ Ht _ _ Ha) as (ctx' & Hctx' & Hidx). simplify_eq.
    destruct (Hv _ _ Hctx) as (_ & ? & ?). by exists a, ctx. }
  split_and!; [split| |].
  - unfold active_view. intros (a & (r & Hr & Ha)%bind_Some & (ctx & Hctx & ->)%fmap_Some)%bind_Some.
    simpl in Ha. subst r. destruct (Hm _ _ Hr) as (ctx' & Hctx' & Hidx). simplify_eq. split; [done|].
    exists (row_index ctx). rewrite table_view_lookup. destruct (Hv _ _ Hctx) as (-> & _). simpl.
    by rewrite Hctx.
  - intros (<- & o & (a & ctx & Hctx & _ & Hd & Hf & _)%Hrow).
    rewrite (active_view_row _ _ _ _ Hf Hctx). by rewrite Hd.
  - intros o1 o2 d1 d2 (a1 & c1 & Hc1 & <- & _ & Hf1 & _)%Hrow (a2 & c2 & Hc2 & <- & _ & Hf2 & _)%Hrow Heq.
    rewrite Heq in Hf1. congruence.
  - by intros o d (_ & _ & _ & _ & _ & _ & ?)%Hrow.
Qed.
End active_theorems.

(** ** Time stamps *)

(** A broken-down time and offset in the ranges the C library gives them. *)
Definition tm_ok (t : tm) (timezone : Z) : Prop :=
  0 <= 1900 + tm_year t < 65536 /\ 0 <= tm_mon t <= 11 /\ 1 <= tm_mday t <= 31 /\
  0 <= tm_hour t <= 23 /\ 0 <= tm_min t <= 59 /\ 0 <= tm_sec t <= 60 /\
  Z.abs timezone < 24 * 3600.

(** The local time a DateAndTime value denotes, by RFC 2579. *)
Definition decode_local_time (d : list Z) : option tm :=
  match d with
  | [y1; y2; mo; da; h; mi; s; _; _; _; _] => Some (mkTm (y1 * 256 + y2 - 1900) (mo - 1) da h mi s)
  | _ => None
  end.

(** The minutes east of UTC it denotes. *)
Definition decode_utc_offset (d : list Z) : option Z :=
  match d with
  | [_; _; _; _; _; _; _; _; dir; h; m] =>
    if dir =? code "+" then Some (h * 60 + m)
    else if dir =? code "-" then Some (- (h * 60 + m))
    else None
  | _ => None
  end.

Lemma u8_id x : 0 <= x < 256 -> u8 x = x.
Proof. intros. unfold u8. by apply wrap_id. Qed.

Lemma quot_60 x : Z.quot x 60 = Z.sgn x * (Z.abs x / 60).
Proof. rewrite <- (Z.quot_div_nonneg (Z.abs x) 60), Z.quot_abs_l by lia. destruct (Z.sgn_spec x) as [[? ->]|[[<- ->]|[? ->]]]; [|done|]; pose proof (Z.quot_pos x 60); pose proof (Z.quot_pos (-x) 60); rewrite Z.quot_opp_l in * by lia; lia. Qed.

Lemma hours_minutes a : 0 <= a -> a / 3600 * 60 + a mod 3600 / 60 = a / 60.
Proof.
  intros Ha. rewrite (Z.mod_eq a 3600) by lia. replace 3600 with (60 * 60) by lia. rewrite <- Z.div_div by lia.
  replace (a - 60 * 60 * (a / 60 / 60)) with (a + (- (60 * (a / 60 / 60))) * 60) by lia. rewrite Z.div_add by lia. lia.
Qed.

(** C38: the time in a row's index, read by RFC 2579. The 11 octets say the local time of the
    trap, in ranges the RFC allows but for the hours of the offset, and a UTC offset with
    the wrong sign: [timezone] is the seconds west of UTC, so that local time is that much
    behind UTC, and the octets say that it is ahead. The instant they denote is so that of the
    trap exactly when the local time is within a minute of UTC. *)
Theorem time_issued_decoded t timezone :
  tm_ok t timezone ->
  let d := datetime_octets (alarm_time_issued t timezone) in
  length d = 11%nat /\ Forall (fun x => 0 <= x < 256) d /\
  decode_local_time d = Some t /\ d !! 7%nat = Some 0 /\
  decode_utc_offset d = Some (Z.quot timezone 60) /\
  (decode_utc_offset d = Some (Z.quot (- timezone) 60) <-> Z.abs timezone < 60).
Proof.
  intros (Hy & Hmo & Hd & Hh & Hmi & Hs & Htz).
  set (a := Z.abs timezone) in *.
  assert (0 <= a / 3600 < 24) as Hq by (split; [apply Z.div_pos; lia|apply Z.div_lt_upper_bound; lia]).
  assert (0 <= a mod 3600 / 60 < 60) as Hr.
  { pose proof (Z.mod_pos_bound a 3600). split; [apply Z.div_pos; lia|apply Z.div_lt_upper_bound; lia]. }
  assert (u16 (1900 + tm_year t) = 1900 + tm_year t) as Hu by (unfold u16; by apply wrap_id).
  unfold datetime_octets, alarm_time_issued. simpl. fold a. rewrite Hu, !u8_id by lia.
  assert ((if code (if 0 <? timezone then "+"%char else "-"%char) =? code "+"
           then Some (a / 3600 * 60 + a mod 3600 / 60)
           else if code (if 0 <? timezone then "+"%char else "-"%char) =? code "-"
                then Some (- (a / 3600 * 60 + a mod 3600 / 60)) else None) = Some (Z.quot timezone 60)) as Hoff.
  { rewrite quot_60. fold a. rewrite <- (hours_minutes a) by lia.
    destruct (Z.ltb_spec 0 timezone); [rewrite Z.sgn_pos by lia; cbn; f_equal; lia|]. cbn. f_equal.
    destruct (Z.eq_dec timezone 0) as [->|]; [done|]. rewrite Z.sgn_neg by lia. lia. }
  split; [done|]. split; [|split; [|split; [done|]]].
  - repeat apply Forall_cons_2; try apply Forall_nil; try lia.
    + split; [apply Z.div_pos; lia|apply Z.div_lt_upper_bound; lia].
    + apply Z.mod_pos_bound. lia.
    + by destruct (0 <? timezone).
  - unfold decode_local_time. pose proof (Z.div_mod (1900 + tm_year t) 256).
    destruct t as [ty tmo td th tmi ts]. simpl in *. f_equal. f_equal; lia.
  - rewrite Hoff. split; [done|]. rewrite Z.quot_opp_l, quot_60 by lia. fold a. split.
    + intros [= Heq]. destruct (Z.lt_ge_cases a 60); [done|]. pose proof (Z.div_le_lower_bound a 60 1).
      destruct (Z.sgn_spec timezone) as [[? Hsg]|[[? Hsg]|[? Hsg]]]; rewrite Hsg in Heq; lia.
    + intros Ha. rewrite (Z.div_small a) by lia. f_equal. lia.
Qed.

(** ** Concrete tables *)

Import Sample Reference.

Lemma proper_defs_sample : proper_defs Sample.defs.
Proof.
  split; [by apply initialize_wf|]. apply Forall_forall.
  assert (forallb (fun d => (1 <=? severity d) && (severity d <=? 6))%bool (_key_to_def Sample.defs).*2 = true)
    as Hall by (vm_compute; reflexivity).
  rewrite forallb_forall in Hall. apply Forall_forall. intros d Hd%list_elem_of_In.
  specialize (Hall d Hd). unfold proper_severity. split_bools. lia.
Qed.

Lemma model_table_rows_witness :
  exists t, init_alarmModelTable true true (fun _ => true) Sample.defs table_zero = Some t /\
    table_view t !! [0; 2000; 5] = Some (get_definition Sample.defs 2000 4).
Proof.
  destruct (model_table_rows Sample.defs proper_defs_sample) as (t & Hi & _ & Hv).
  exists t. split; [exact Hi|]. apply Hv. split; [vm_compute; reflexivity|].
  split; [vm_compute; reflexivity|]. exists 5. split; vm_compute; reflexivity.
Defined.

Lemma itu_table_rows_witness :
  table_view (init_ituAlarmTable true true (fun _ => true) Sample.defs table_zero) !! [0; 2000; 4] =
    Some (get_definition Sample.defs 2000 4).
Proof.
  destruct (itu_table_rows Sample.defs (proj1 proper_defs_sample)) as [_ Hv].
  apply Hv. split_and!; vm_compute; reflexivity.
Defined.

Lemma row_pointers_agree_witness :
  exists row, alarmModelTable_get_value (get_definition Sample.defs 2000 4) COLUMN_ALARMMODELSPECIFICPOINTER =
    Some (answer (ASN_OBJECT_ID (itu_row_pointer row))).
Proof.
  destruct (row_pointers_agree Sample.defs (get_definition Sample.defs 2000 4) "host")
    as (_ & _ & row & _ & _ & _ & _ & _ & _ & _ & _ & _ & _ & Hp).
  - exact proper_defs_sample.
  - vm_compute. reflexivity.
  - vm_compute. reflexivity.
  - exists row. exact Hp.
Defined.

Lemma active_model_pointer_row_witness :
  exists t row, init_alarmModelTable true true (fun _ => true) Sample.defs table_zero = Some t /\
    alarmActiveTable_get_value active_zero (get_definition Sample.defs 2000 4) COLUMN_ALARMACTIVEMODELPOINTER =
      answer (ASN_OBJECT_ID (model_row_pointer row)) /\
    table_view t !! row <> Some (get_definition Sample.defs 2000 4).
Proof.
  destruct (active_model_pointer_row Sample.defs (get_definition Sample.defs 2000 4) active_zero)
    as (t & row & Hi & Hg & Hr).
  - exact proper_defs_sample.
  - vm_compute. reflexivity.
  - vm_compute. reflexivity.
  - exists t, row. split_and!; [exact Hi|exact Hg|]. intros Hrow%Hr.
    assert (severity (get_definition Sample.defs 2000 4) = 4) as Hs by (vm_compute; reflexivity).
    rewrite Hs in Hrow. lia.
Defined.

Lemma get_value_columns_witness :
  answers (alarmModelTable_get_value (get_definition Sample.defs 2000 4) 10) /\
  refuses (ituAlarmTable_get_value (get_definition Sample.defs 2000 4) 6).
Proof.
  assert (known_severity (severity (get_definition Sample.defs 2000 4))) as Hs
    by (assert (severity (get_definition Sample.defs 2000 4) = 4) as -> by (vm_compute; reflexivity);
        unfold known_severity; lia).
  split.
  - apply (get_value_columns _ 10 active_zero Hs).
  - apply (get_value_columns _ 6 active_zero Hs).
Defined.

(** The alarm 1000 is raised, 2000 raised and cleared. *)
Definition sample_env : row_env := mkRowEnv true (mkTm 117 3 5 12 30 15) 0.
Definition sample_history : list (AlarmTableDef * row_env) :=
  [(get_definition Sample.defs 1000 3, sample_env); (get_definition Sample.defs 2000 4, sample_env);
   (get_definition Sample.defs 2000 1, sample_env)].

Lemma sample_history_env : Forall (fun p => row_env_ok p.2) sample_history.
Proof. repeat constructor; intros c; eexists; reflexivity. Qed.

Lemma active_table_history_witness :
  exists st, run_traps sample_history (active_init "10.0.0.1" true) = Some st /\
    active_view st 2000 = None.
Proof.
  destruct (active_table_history "10.0.0.1" sample_history 2000) as (st & Hrun & _ & Hv);
    [vm_compute; reflexivity|exact sample_history_env|].
  exists st. split; [exact Hrun|]. exact Hv.
Defined.

Lemma active_table_safe_witness :
  exists st, run_traps sample_history (active_init "10.0.0.1" false) = Some st /\ active_wf st.
Proof.
  destruct (active_table_safe "10.0.0.1" false sample_history) as (st & Hrun & Hwf & _);
    [vm_compute; reflexivity|].
  exists st. split; [exact Hrun|exact Hwf].
Defined.

Lemma active_table_one_row_witness :
  exists st o, run_traps sample_history (active_init "10.0.0.1" true) = Some st /\
    table_view (at_table st) !! o = Some (get_definition Sample.defs 1000 3).
Proof.
  assert (is_Some (run_traps sample_history (active_init "10.0.0.1" true))) as [st Hrun]
    by (vm_compute; eexists; reflexivity).
  destruct (active_table_one_row "10.0.0.1" true sample_history st 1000 (get_definition Sample.defs 1000 3))
    as ([Hrow _] & _); [vm_compute; reflexivity|exact Hrun|].
  assert ((fun st => active_view st 1000) <$> run_traps sample_history (active_init "10.0.0.1" true) =
    Some (Some (get_definition Sample.defs 1000 3))) as Hv by (vm_compute; reflexivity).
  rewrite Hrun in Hv. injection Hv as Hv. destruct (Hrow Hv) as (_ & o & Ho).
  exists st, o. split; [exact Hrun|exact Ho].
Defined.

Lemma time_issued_decoded_witness :
  let d := datetime_octets (alarm_time_issued (mkTm 117 3 5 12 30 15) (- 3600)) in
  d = [7; 225; 4; 5; 12; 30; 15; 0; code "-"; 1; 0] /\
  decode_local_time d = Some (mkTm 117 3 5 12 30 15) /\ decode_utc_offset d = Some (- 60).
Proof.
  destruct (time_issued_decoded (mkTm 117 3 5 12 30 15) (- 3600)) as (_ & _ & Hl & _ & Ho & _).
  - unfold tm_ok. simpl. lia.
  - split; [reflexivity|]. split; [exact Hl|exact Ho].
Defined.

Lemma get_value_types_witness :
  typed (alarmModelTable_get_value (get_definition Sample.defs 1000 3) 6) (Some OctetString) /\
  typed (ituAlarmTable_get_value (get_definition Sample.defs 1000 3) 2) (Some Integer) /\
  typed (Some (alarmActiveTable_get_value active_zero (get_definition Sample.defs 1000 3) 3)) None.
Proof.
  assert (known_severity (severity (get_definition Sample.defs 1000 3))) as Hk
    by (vm_compute; split; discriminate).
  split; [|split].
  - apply (get_value_types (get_definition Sample.defs 1000 3) 6 active_zero Hk).
  - apply (get_value_types (get_definition Sample.defs 1000 3) 2 active_zero Hk).
  - exact (proj1 (proj2 (proj2 (get_value_types (get_definition Sample.defs 1000 3) 3 active_zero Hk)))).
Defined.
