(* ===== verification/TimerHeap.v ===== *)
(** The timer heap: what [src/alarm_scheduler.cpp] uses of the [TimerHeap] and
    [HeapableTimer] of the [cpp-common] submodule.

    Timers are objects that the heap points to, named here by the alarm index
    that owns them (the scheduler keeps one timer per index). Their pop times live in
    the timers and change while they are in the heap, so every operation takes
    the pop times at the time of the call and [heap_ok pop h] says that the heap
    is ordered for them. [heap_timers] is the set of timers whose [_heap]
    pointer is set. [TimerHeapSpec] states what the scheduler relies on: in
    particular that inserting a member and removing a non-member change nothing,
    and that [rebalance] and [remove] restore the order when only the pop time
    of their own timer has changed. *)

From S2P Require Export Prelude.

(** ** Interface *)

Class TimerHeap := {
  heap : Type;
  heap_empty : heap;
  heap_insert : (Z -> Z) -> Z -> heap -> heap;
  heap_remove : (Z -> Z) -> Z -> heap -> heap;
  heap_rebalance : (Z -> Z) -> Z -> heap -> heap;
  get_next_timer : heap -> option Z;
  heap_timers : heap -> gset Z;
}.

(** The pop times of all timers but [t] are the same. *)
Definition agree_but (t : Z) (pop pop' : Z -> Z) : Prop := forall u, u <> t -> pop' u = pop u.

Class TimerHeapSpec `{TimerHeap} := {
  heap_ok : (Z -> Z) -> heap -> Prop;
  heap_ok_ext : forall pop pop' h, (forall u, pop' u = pop u) -> heap_ok pop h -> heap_ok pop' h;
  heap_empty_timers : heap_timers heap_empty = ∅;
  heap_empty_ok : forall pop, heap_ok pop heap_empty;
  heap_insert_timers : forall pop t h, heap_timers (heap_insert pop t h) = {[t]} ∪ heap_timers h;
  heap_insert_ok : forall pop t h, heap_ok pop h -> heap_ok pop (heap_insert pop t h);
  heap_remove_timers : forall pop t h, heap_timers (heap_remove pop t h) = heap_timers h ∖ {[t]};
  heap_remove_ok : forall pop pop' t h, heap_ok pop h -> agree_but t pop pop' ->
    heap_ok pop' (heap_remove pop' t h);
  heap_rebalance_timers : forall pop t h, t ∈ heap_timers h ->
    heap_timers (heap_rebalance pop t h) = heap_timers h;
  heap_rebalance_ok : forall pop pop' t h, t ∈ heap_timers h -> heap_ok pop h ->
    agree_but t pop pop' -> heap_ok pop' (heap_rebalance pop' t h);
  get_next_None : forall pop h, heap_ok pop h -> get_next_timer h = None <-> heap_timers h = ∅;
  get_next_Some : forall pop h t, heap_ok pop h -> get_next_timer h = Some t ->
    t ∈ heap_timers h /\ forall u, u ∈ heap_timers h -> pop t <= pop u;
}.

(** ** Reference implementation: a list ordered by pop time *)

Module ReferenceHeap.
Fixpoint insert_ordered (pop : Z -> Z) (t : Z) (l : list Z) : list Z :=
  match l with
  | [] => [t]
  | u :: l' => if pop t <=? pop u then t :: l else u :: insert_ordered pop t l'
  end.

Definition without (t : Z) (l : list Z) : list Z := List.filter (fun u => negb (u =? t)) l.

#[export] Instance list_heap : TimerHeap := {
  heap := list Z;
  heap_empty := [];
  heap_insert pop t l := if bool_decide (t ∈ l) then l else insert_ordered pop t l;
  heap_remove _ t l := without t l;
  heap_rebalance pop t l := insert_ordered pop t (without t l);
  get_next_timer := head;
  heap_timers l := list_to_set l;
}.

Definition ordered (pop : Z -> Z) (l : list Z) : Prop :=
  StronglySorted (fun a b => pop a <= pop b) l.

Lemma elem_of_insert_ordered pop t l u : u ∈ insert_ordered pop t l <-> u = t \/ u ∈ l.
Proof.
  induction l as [|v l IH]; simpl; [set_solver|].
  destruct (pop t <=? pop v); rewrite !elem_of_cons; [done|]. rewrite IH. tauto.
Qed.

Lemma elem_of_without t l u : u ∈ without t l <-> u ∈ l /\ u <> t.
Proof.
  unfold without. rewrite !list_elem_of_In, List.filter_In, negb_true_iff, Z.eqb_neq. done.
Qed.

Lemma insert_ordered_ok pop t l : ordered pop l -> ordered pop (insert_ordered pop t l).
Proof.
  induction 1 as [|u l Hl IH Hu]; simpl; [by repeat constructor|].
  destruct (pop t <=? pop u) eqn:Hle; split_bools.
  - constructor; [by constructor|]. constructor; [done|].
    eapply Forall_impl; [done|]. simpl. intros; lia.
  - constructor; [done|]. rewrite Forall_forall in *. intros v.
    rewrite elem_of_insert_ordered. intros [->|?]; [lia|auto].
Qed.

Lemma without_ok pop pop' t l :
  ordered pop l -> agree_but t pop pop' -> ordered pop' (without t l).
Proof.
  intros Hl Hag. induction Hl as [|u l Hl IH Hu]; simpl; [constructor|].
  destruct (u =? t) eqn:Hut; simpl; [done|]. split_bools. constructor; [done|].
  rewrite Forall_forall in *. intros v [Hv Hvt]%elem_of_without.
  rewrite !Hag by done. auto.
Qed.

Lemma ordered_ext pop pop' l : (forall u, pop' u = pop u) -> ordered pop l -> ordered pop' l.
Proof.
  intros Heq. induction 1 as [|u l Hl IH Hu]; constructor; [done|].
  eapply Forall_impl; [exact Hu|]. intros v. by rewrite !Heq.
Qed.

#[export] Instance list_heap_spec : TimerHeapSpec.
Proof.
  unshelve econstructor; [exact ordered|..]; simpl; try done.
  - intros. by eapply ordered_ext.
  - constructor.
  - intros pop t l. case_bool_decide; [set_solver|].
    apply set_eq. intros u. rewrite elem_of_list_to_set, elem_of_insert_ordered. set_solver.
  - intros pop t l Hl. case_bool_decide; [done|]. by apply insert_ordered_ok.
  - intros _ t l. apply set_eq. intros u. rewrite elem_of_difference, !elem_of_list_to_set.
    rewrite elem_of_without. set_solver.
  - intros. by eapply without_ok.
  - intros pop t l. rewrite elem_of_list_to_set. intros Ht. apply set_eq. intros u.
    rewrite !elem_of_list_to_set, elem_of_insert_ordered, elem_of_without.
    destruct (decide (u = t)); naive_solver.
  - intros pop pop' t l _ Hl Hag. apply insert_ordered_ok. by eapply without_ok.
  - intros pop [|u l] _; simpl; [done|]. split; [done|]. set_solver.
  - intros pop [|u l] t Hl; simpl; [done|]. intros [= <-].
    split; [set_solver|]. inversion Hl as [|?? _ Hu]; subst. rewrite Forall_forall in Hu.
    intros v. rewrite elem_of_union, elem_of_singleton, elem_of_list_to_set. intros [->|?]; [lia|auto].
Defined.
End ReferenceHeap.
