(* ===== verification/Scheduler.v ===== *)
(** The alarm scheduler: [src/alarm_scheduler.cpp] and its header, with the
    delivery callback of [src/alarm_trap_sender.cpp].

    The scheduler keeps one [SingleAlarmManager] per alarm index: the severity
    last sent, and the timer that carries the severity to send next. Requests
    ([issue_alarm], [sync_alarms], [handle_failed_alarm]) put timers in the heap;
    the heap thread ([heap_sender]) sends what is due, updates the severity and
    the Alarm Active Table, and waits for the next pop time.

    Every operation is a function of the whole state, run with the lock held as
    the code does; the time read from the clock is an argument. [None] is a
    crash (a null or freed pointer, a read out of bounds) or a loop that was not
    given enough fuel. *)

From S2P Require Export ActiveTable TimerHeap.

(** ** Data *)

Record AlarmTimer := mkAlarmTimer {
  _pop_time : Z;
  timer_severity : Z;
  timer_index : Z;
}.

Record SingleAlarmManager := mkSingleAlarmManager {
  _alarm_timer : AlarmTimer;
  manager_severity : Z;
}.

(** The delays, in milliseconds. *)
Definition ALARM_REDUCED_DELAY : Z := 30000.
Definition ALARM_RETRY_DELAY : Z := 30000.
Definition ALARM_RESYNC_DELAY : Z := 0.
Definition ALARM_INCREASED_DELAY : Z := 0.

(** How the heap thread waits: [timedwait] until an absolute time, or [wait]. *)
Inductive cond_wait :=
| TimedWait (tv_sec tv_nsec : Z)
| WaitForSignal.

#[export] Instance cond_wait_eq_dec : EqDecision cond_wait.
Proof. solve_decision. Defined.

Section scheduler.
Context `{AlarmDefLib} `{NetSnmpIndex} `{NetSnmpContainer} `{TimerHeap}.

(** The members of [AlarmScheduler], with the state behind the singletons it
    calls: the trap sender, the traps sent so far and the Alarm Active Table.
    [cond_signals] counts the signals of the condition variable. *)
Record AlarmScheduler := mkAlarmScheduler {
  _terminated : bool;
  _alarm_table_defs : AlarmTableDefs;
  _trap_sender : AlarmTrapSender;
  _alarm_heap : heap;
  _all_alarms_state : smap Z SingleAlarmManager;
  _active_table : active_table;
  sent_traps : list v2trap;
  cond_signals : Z;
}.

(** *** Updates of single members *)

Definition with_heap (h : heap) (st : AlarmScheduler) : AlarmScheduler :=
  mkAlarmScheduler (_terminated st) (_alarm_table_defs st) (_trap_sender st) h
    (_all_alarms_state st) (_active_table st) (sent_traps st) (cond_signals st).

Definition with_manager (i : Z) (m : SingleAlarmManager) (st : AlarmScheduler) : AlarmScheduler :=
  mkAlarmScheduler (_terminated st) (_alarm_table_defs st) (_trap_sender st) (_alarm_heap st)
    (assign i m (_all_alarms_state st)) (_active_table st) (sent_traps st) (cond_signals st).

Definition with_active (at' : active_table) (st : AlarmScheduler) : AlarmScheduler :=
  mkAlarmScheduler (_terminated st) (_alarm_table_defs st) (_trap_sender st) (_alarm_heap st)
    (_all_alarms_state st) at' (sent_traps st) (cond_signals st).

Definition with_sent (traps : list v2trap) (st : AlarmScheduler) : AlarmScheduler :=
  mkAlarmScheduler (_terminated st) (_alarm_table_defs st) (_trap_sender st) (_alarm_heap st)
    (_all_alarms_state st) (_active_table st) (sent_traps st ++ traps) (cond_signals st).

(** [_cond->signal()] *)
Definition signal (st : AlarmScheduler) : AlarmScheduler :=
  mkAlarmScheduler (_terminated st) (_alarm_table_defs st) (_trap_sender st) (_alarm_heap st)
    (_all_alarms_state st) (_active_table st) (sent_traps st) (cond_signals st + 1).

Definition manager (i : Z) (st : AlarmScheduler) : option SingleAlarmManager :=
  find_key i (_all_alarms_state st).

(** The pop times the heap reads from the timers. *)
Definition pop_times (st : AlarmScheduler) (i : Z) : Z :=
  match manager i st with
  | Some m => _pop_time (_alarm_timer m)
  | None => UINT64_MAX
  end.

(** [AlarmTimer::in_heap] of the timer of alarm [i]. *)
Definition in_heap (i : Z) (st : AlarmScheduler) : bool :=
  bool_decide (i ∈ heap_timers (_alarm_heap st)).

(** *** Construction *)

(** [AlarmTimer(index)] *)
Definition AlarmTimer_make (i : Z) : AlarmTimer := mkAlarmTimer UINT64_MAX UNDEFINED_SEVERITY i.

(** The loop of the constructor over the definitions: one manager per index. *)
Definition populate_state (defs : AlarmTableDefs) : smap Z SingleAlarmManager :=
  fold_left (fun m def =>
    match find_key (alarm_index def) m with
    | Some _ => m
    | None =>
      emplace (alarm_index def)
        (mkSingleAlarmManager (AlarmTimer_make (alarm_index def)) UNDEFINED_SEVERITY) m
    end) (_key_to_def defs).*2 [].

(** [AlarmScheduler(alarm_table_defs, snmp_notifications, hostname, lock)], over
    the active table as the agent has initialised it. *)
Definition AlarmScheduler_make (defs : AlarmTableDefs) (snmp_notifications : notification_set)
    (hostname : string) (active : active_table) : AlarmScheduler :=
  mkAlarmScheduler false defs (mkAlarmTrapSender snmp_notifications hostname) heap_empty
    (populate_state defs) active [] 0.

(** The destructor up to the join: the flag that ends the heap thread. *)
Definition AlarmScheduler_terminate (st : AlarmScheduler) : AlarmScheduler :=
  signal (mkAlarmScheduler true (_alarm_table_defs st) (_trap_sender st) (_alarm_heap st)
    (_all_alarms_state st) (_active_table st) (sent_traps st) (cond_signals st)).

(** *** Timers *)

Definition set_timer (i : Z) (m : SingleAlarmManager) (t : AlarmTimer) (st : AlarmScheduler)
    : AlarmScheduler :=
  with_manager i (mkSingleAlarmManager t (manager_severity m)) st.

(** [AlarmTimer::update_pop_time]: [_heap] must not be null. *)
Definition update_pop_time (i : Z) (now time_to_add : Z) (st : AlarmScheduler)
    : option AlarmScheduler :=
  m ← manager i st;
  let t := _alarm_timer m in
  let st' := set_timer i m (mkAlarmTimer (u64 (now + time_to_add)) (timer_severity t) (timer_index t)) st in
  if in_heap i st' then
    Some (with_heap (heap_rebalance (pop_times st') i (_alarm_heap st')) st')
  else None.

(** [AlarmTimer::remove_from_heap]: [_heap] must not be null. *)
Definition remove_from_heap (i : Z) (st : AlarmScheduler) : option AlarmScheduler :=
  m ← manager i st;
  let t := _alarm_timer m in
  let st' := set_timer i m (mkAlarmTimer UINT64_MAX UNDEFINED_SEVERITY (timer_index t)) st in
  if in_heap i st' then
    Some (with_heap (heap_remove (pop_times st') i (_alarm_heap st')) st')
  else None.

(** [SingleAlarmManager::change_schedule] *)
Definition change_schedule (i : Z) (new_severity time_to_delay_in_ms now : Z)
    (st : AlarmScheduler) : option AlarmScheduler :=
  m ← manager i st;
  let t := _alarm_timer m in
  if negb (new_severity =? timer_severity t) then
    update_pop_time i now time_to_delay_in_ms
      (set_timer i m (mkAlarmTimer (_pop_time t) new_severity (timer_index t)) st)
  else Some st.

(** [SingleAlarmManager::should_resend_alarm] *)
Definition should_resend_alarm (i : Z) (m : SingleAlarmManager) (sev : Z) (st : AlarmScheduler)
    : bool :=
  (manager_severity m =? sev) && negb (in_heap i st).

(** [SingleAlarmManager::update_alarm_state] *)
Definition update_alarm_state (i : Z) (m : SingleAlarmManager) (def : AlarmTableDef)
    (env : row_env) (st : AlarmScheduler) : option AlarmScheduler :=
  let st' := with_manager i (mkSingleAlarmManager (_alarm_timer m) (severity def)) st in
  at' ← alarmActiveTable_trap_handler def env (_active_table st');
  Some (with_active at' st').

(** *** Requests *)

(** [AlarmScheduler::remove_outdated_alarm_from_heap] *)
Definition remove_outdated_alarm_from_heap (i : Z) (m : SingleAlarmManager)
    (st : AlarmScheduler) : AlarmScheduler :=
  if negb (manager_severity m =? timer_severity (_alarm_timer m)) then
    signal (with_heap (heap_remove (pop_times st) i (_alarm_heap st)) st)
  else st.

(** [AlarmScheduler::change_schedule_for_alarm] *)
Definition change_schedule_for_alarm (i : Z) (sev alarm_pop_time_ms now : Z)
    (st : AlarmScheduler) : option AlarmScheduler :=
  change_schedule i sev alarm_pop_time_ms now
    (with_heap (heap_insert (pop_times st) i (_alarm_heap st)) st).

(** [AlarmScheduler::validate_alarm_trigger]: the index and severity of a
    well-formed identifier that names a valid definition. *)
Definition validate_alarm_trigger (identifier : string) (st : AlarmScheduler) : option (Z * Z) :=
  match sscanf_u_dot_u identifier with
  | Some (index, sev) =>
    if is_valid (get_definition (_alarm_table_defs st) index sev) then Some (index, sev) else None
  | None => None
  end.

(** [AlarmScheduler::issue_alarm] *)
Definition issue_alarm (issuer identifier : string) (now : Z) (st : AlarmScheduler)
    : option AlarmScheduler :=
  match validate_alarm_trigger identifier st with
  | Some (index, sev) =>
    match manager index st with
    | Some m =>
      if sev =? manager_severity m then Some (remove_outdated_alarm_from_heap index m st)
      else if manager_severity m <? sev then
        signal <$> change_schedule_for_alarm index sev ALARM_INCREASED_DELAY now st
      else
        signal <$> change_schedule_for_alarm index sev ALARM_REDUCED_DELAY now st
    | None => Some st
    end
  | None => Some st
  end.

(** The loop of [sync_alarms] over the alarms; [times i] is the clock reading
    made for alarm [i]. *)
Fixpoint sync_loop (keys : list Z) (times : Z -> Z) (st : AlarmScheduler)
    : option AlarmScheduler :=
  match keys with
  | [] => Some st
  | i :: keys' =>
    m ← manager i st;
    st' ← (if negb (manager_severity m =? UNDEFINED_SEVERITY) then
             change_schedule_for_alarm i (manager_severity m) ALARM_RESYNC_DELAY (times i) st
           else Some st);
    sync_loop keys' times st'
  end.

(** [AlarmScheduler::sync_alarms] *)
Definition sync_alarms (times : Z -> Z) (st : AlarmScheduler) : option AlarmScheduler :=
  signal <$> sync_loop (_all_alarms_state st).*1 times st.

(** [AlarmScheduler::handle_failed_alarm] *)
Definition handle_failed_alarm (def : AlarmTableDef) (now : Z) (st : AlarmScheduler)
    : option AlarmScheduler :=
  match manager (alarm_index def) st with
  | Some m =>
    if should_resend_alarm (alarm_index def) m (severity def) st then
      signal <$> change_schedule_for_alarm (alarm_index def) (severity def) ALARM_RETRY_DELAY now st
    else Some st
  | None => Some st
  end.

(** [AlarmTrapSender::alarm_trap_send_callback] *)
Definition alarm_trap_send_callback (op : callback_op) (def : AlarmTableDef) (now : Z)
    (st : AlarmScheduler) : option AlarmScheduler :=
  match op with
  | NETSNMP_CALLBACK_OP_RECEIVED_MESSAGE => Some st
  | NETSNMP_CALLBACK_OP_SEND_FAILED => Some st
  | NETSNMP_CALLBACK_OP_TIMED_OUT => handle_failed_alarm def now st
  | NETSNMP_CALLBACK_OP_OTHER _ => Some st
  end.

(** The C function given to [send_v2trap], which passes its correlator on and returns 1. *)
Definition alarm_trap_send_callback_c (op : callback_op) (correlator : AlarmTableDef) (now : Z)
    (st : AlarmScheduler) : option (AlarmScheduler * Z) :=
  st' ← alarm_trap_send_callback op correlator now st; Some (st', 1).

(** *** The heap thread *)

(** Send the INFORMs of a definition and record it as the current state. *)
Definition send_alarm (i : Z) (def : AlarmTableDef) (env : row_env) (st : AlarmScheduler)
    : option AlarmScheduler :=
  traps ← send_trap (_trap_sender st) def;
  let st' := with_sent traps st in
  match manager i st' with
  | Some m => update_alarm_state i m def env st'
  | None => Some st'
  end.

(** The body of the inner loop of [heap_sender] for the timer [i]. *)
Definition pop_alarm (i : Z) (env : row_env) (st : AlarmScheduler) : option AlarmScheduler :=
  m ← manager i st;
  let t := _alarm_timer m in
  let def := get_definition (_alarm_table_defs st) (timer_index t) (timer_severity t) in
  st' ← (if is_valid def then send_alarm (timer_index t) def env st else Some st);
  remove_from_heap i st'.

(** The inner loop of [heap_sender]; [envs n] is the environment of the [n]th
    row created. *)
Fixpoint pop_due (fuel : nat) (time_now_in_ms : Z) (envs : nat -> row_env)
    (st : AlarmScheduler) : option AlarmScheduler :=
  match get_next_timer (_alarm_heap st) with
  | Some i =>
    if pop_times st i <=? time_now_in_ms then
      match fuel with
      | O => None
      | S fuel' =>
        st' ← pop_alarm i (envs O) st;
        pop_due fuel' time_now_in_ms (fun n => envs (S n)) st'
      end
    else Some st
  | None => Some st
  end.

(** The wait at the end of an iteration of [heap_sender]. *)
Definition next_wait (st : AlarmScheduler) : cond_wait :=
  match get_next_timer (_alarm_heap st) with
  | Some i => TimedWait (pop_times st i / 1000) ((pop_times st i mod 1000) * 1000000)
  | None => WaitForSignal
  end.

(** One iteration of the outer loop of [heap_sender], up to the wait. *)
Definition heap_sender_iteration (fuel : nat) (time_now_in_ms : Z) (envs : nat -> row_env)
    (st : AlarmScheduler) : option (AlarmScheduler * cond_wait) :=
  st' ← pop_due fuel time_now_in_ms envs st;
  Some (st', next_wait st').

(** *** Runs *)

(** The steps of the agent that take the lock. *)
Inductive event :=
| Issue (issuer identifier : string) (now : Z)
| Sync (times : Z -> Z)
| Callback (op : callback_op) (def : AlarmTableDef) (now : Z)
| HeapSender (fuel : nat) (now : Z) (envs : nat -> row_env).

Definition run_event (e : event) (st : AlarmScheduler) : option AlarmScheduler :=
  match e with
  | Issue issuer identifier now => issue_alarm issuer identifier now st
  | Sync times => sync_alarms times st
  | Callback op def now => alarm_trap_send_callback op def now st
  | HeapSender fuel now envs => fst <$> heap_sender_iteration fuel now envs st
  end.
End scheduler.
