(* ===== verification/SchedulerSpec.v ===== *)
(** What the alarm scheduler promises, alarm by alarm, and its invariant.

    The abstract state of an alarm ([alarm_view]) is the severity last sent and
    the state of its timer; each operation of [Scheduler] acts on it as one of
    the [_spec] functions below. [sched_wf] is the invariant of the detailed state.
    The lemmas show that the operations of [Scheduler] implement the
    specification and keep the invariant; [SchedulerProps] states the results. *)

From S2P Require Export Scheduler.

(** ** Abstract state *)

(** [Cancelled] is a timer taken out of the heap by
    [remove_outdated_alarm_from_heap], which leaves its severity and pop time. *)
Inductive timer_state :=
| Idle
| Scheduled (sev pop : Z)
| Cancelled (sev pop : Z).

Record alarm_view := mkView { last_sent : Z; timer : timer_state }.

Section spec.
Context `{AlarmDefLib}.

(** Put the timer in the heap for severity [sev], to pop at [pop]: the pop time
    of a timer that has this severity already stays. *)
Definition schedule_spec (sev pop : Z) (t : timer_state) : timer_state :=
  match t with
  | Idle => Scheduled sev pop
  | Scheduled s p | Cancelled s p => if sev =? s then Scheduled s p else Scheduled sev pop
  end.

(** Cancel a change to a severity other than [sev]. *)
Definition cancel_spec (sev : Z) (t : timer_state) : timer_state :=
  match t with
  | Scheduled s p => if s =? sev then t else Cancelled s p
  | _ => t
  end.

(** The delay before a change from [old] to [new] is sent. *)
Definition change_delay (old new : Z) : Z :=
  if old <? new then ALARM_INCREASED_DELAY else ALARM_REDUCED_DELAY.

Definition issue_spec (sev now : Z) (v : alarm_view) : alarm_view :=
  mkView (last_sent v)
    (if sev =? last_sent v then cancel_spec sev (timer v)
     else schedule_spec sev (u64 (now + change_delay (last_sent v) sev)) (timer v)).

Definition sync_spec (now : Z) (v : alarm_view) : alarm_view :=
  if last_sent v =? UNDEFINED_SEVERITY then v
  else mkView (last_sent v)
         (schedule_spec (last_sent v) (u64 (now + ALARM_RESYNC_DELAY)) (timer v)).

Definition retry_spec (sev now : Z) (v : alarm_view) : alarm_view :=
  match timer v with
  | Scheduled _ _ => v
  | _ => if last_sent v =? sev
         then mkView (last_sent v) (Scheduled sev (u64 (now + ALARM_RETRY_DELAY)))
         else v
  end.

Definition is_due (now : Z) (v : alarm_view) : bool :=
  match timer v with Scheduled _ p => p <=? now | _ => false end.

Definition sent_spec (v : alarm_view) : alarm_view :=
  match timer v with Scheduled s _ => mkView s Idle | _ => v end.

Definition pop_spec (now : Z) (v : alarm_view) : alarm_view :=
  if is_due now v then sent_spec v else v.

(** What an event does to the abstract state of alarm [i]. *)
Definition event_spec (defs : AlarmTableDefs) (e : event) (i : Z) (v : alarm_view) : alarm_view :=
  match e with
  | Issue _ identifier now =>
    match sscanf_u_dot_u identifier with
    | Some (index, sev) =>
      if (index =? i) && is_valid (get_definition defs index sev) then issue_spec sev now v else v
    | None => v
    end
  | Sync times => sync_spec (times i) v
  | Callback NETSNMP_CALLBACK_OP_TIMED_OUT def now =>
    if alarm_index def =? i then retry_spec (severity def) now v else v
  | Callback _ _ _ => v
  | HeapSender _ now _ => pop_spec now v
  end.

(** A severity is sent, or about to be, only where a definition has it; a
    cancelled change is never to the severity last sent. *)
Definition view_ok (defs : AlarmTableDefs) (i : Z) (v : alarm_view) : Prop :=
  (last_sent v <> UNDEFINED_SEVERITY -> is_valid (get_definition defs i (last_sent v)) = true) /\
  match timer v with
  | Idle => True
  | Scheduled s _ => is_valid (get_definition defs i s) = true
  | Cancelled s _ => s <> last_sent v
  end.

(** The severities of the definitions are those of [AlarmDef::Severity]
    that can be sent. *)
Definition defs_ok (defs : AlarmTableDefs) : Prop :=
  defs_wf defs /\
  forall i s, is_valid (get_definition defs i s) = true ->
              known_severity s /\ s <> UNDEFINED_SEVERITY.

(** What the Alarm Active Table should show for alarm [i]. *)
Definition shown_spec (defs : AlarmTableDefs) (i : Z) (v : alarm_view) : option AlarmTableDef :=
  if (last_sent v =? UNDEFINED_SEVERITY) || (last_sent v =? CLEARED) then None
  else Some (get_definition defs i (last_sent v)).
End spec.

(** ** Abstraction and invariant *)

Section invariant.
Context `{AlarmDefLib} `{NetSnmpIndex} `{NetSnmpContainer} `{TimerHeapSpec}.

Definition timer_of (i : Z) (m : SingleAlarmManager) (st : AlarmScheduler) : timer_state :=
  let t := _alarm_timer m in
  if in_heap i st then Scheduled (timer_severity t) (_pop_time t)
  else if timer_severity t =? UNDEFINED_SEVERITY then Idle
  else Cancelled (timer_severity t) (_pop_time t).

Definition view (st : AlarmScheduler) (i : Z) : option alarm_view :=
  m ← manager i st; Some (mkView (manager_severity m) (timer_of i m st)).

(** The shape of the state: one manager per timer of the heap, each timer with
    the index of its manager, the heap ordered by the present pop times. *)
Record shape_wf (st : AlarmScheduler) : Prop := {
  sh_sorted : sorted (_all_alarms_state st);
  sh_index : forall i m, manager i st = Some m -> timer_index (_alarm_timer m) = i;
  sh_heap : forall i, i ∈ heap_timers (_alarm_heap st) -> is_Some (manager i st);
  sh_ok : heap_ok (pop_times st) (_alarm_heap st);
}.

Record sched_wf (st : AlarmScheduler) : Prop := {
  sw_shape : shape_wf st;
  sw_defs : defs_ok (_alarm_table_defs st);
  sw_views : forall i v, view st i = Some v -> view_ok (_alarm_table_defs st) i v;
  sw_manager : forall i s, is_valid (get_definition (_alarm_table_defs st) i s) = true ->
                           is_Some (manager i st);
  sw_active : active_wf (_active_table st);
  sw_counter : counter_wf (_active_table st);
}.

(** The members other than the managers, the heap and the signals. *)
Definition same_rest (st st' : AlarmScheduler) : Prop :=
  _terminated st' = _terminated st /\
  _alarm_table_defs st' = _alarm_table_defs st /\
  _trap_sender st' = _trap_sender st /\
  _active_table st' = _active_table st /\
  sent_traps st' = sent_traps st /\
  (_all_alarms_state st').*1 = (_all_alarms_state st).*1.

(** [st'] is [st] with the abstract state of alarm [i] changed by [f]. *)
Definition changes (i : Z) (f : alarm_view -> alarm_view) (st st' : AlarmScheduler) : Prop :=
  shape_wf st' /\ same_rest st st' /\
  forall j, view st' j = (if j =? i then f <$> view st j else view st j).
End invariant.

(** ** Lemmas on the abstract state *)

Section spec_laws.
Context `{AlarmDefLib}.

Lemma schedule_spec_scheduled sev pop t :
  exists p, schedule_spec sev pop t = Scheduled sev p.
Proof. destruct t; simpl; case_tests; subst; eauto. Qed.

Lemma issue_spec_ok defs i sev now v :
  view_ok defs i v -> is_valid (get_definition defs i sev) = true ->
  view_ok defs i (issue_spec sev now v).
Proof.
  intros [Hl Ht] Hv. unfold issue_spec. split; simpl; [done|].
  destruct (sev =? last_sent v) eqn:Hs; split_bools; subst.
  - destruct (timer v); simpl; [done| |done].
    destruct (_ =? _) eqn:Hs; split_bools; done.
  - by destruct (schedule_spec_scheduled sev
      (u64 (now + change_delay (last_sent v) sev)) (timer v)) as [p ->].
Qed.

Lemma sync_spec_ok defs i now v : view_ok defs i v -> view_ok defs i (sync_spec now v).
Proof.
  intros [Hl Ht]. unfold sync_spec. destruct (last_sent v =? _) eqn:Hs; [done|]. split_bools.
  split; simpl; [done|].
  destruct (schedule_spec_scheduled (last_sent v)
    (u64 (now + ALARM_RESYNC_DELAY)) (timer v)) as [p ->]. auto.
Qed.

Lemma retry_spec_ok defs i sev now v :
  view_ok defs i v -> is_valid (get_definition defs i sev) = true ->
  view_ok defs i (retry_spec sev now v).
Proof.
  intros [Hl Ht] Hv. unfold retry_spec, view_ok in *.
  destruct (timer v) eqn:Htv; [destruct (_ =? _)| |destruct (_ =? _)]; simpl; by rewrite ?Htv.
Qed.

Lemma sent_spec_ok defs i v :
  view_ok defs i v -> view_ok defs i (sent_spec v).
Proof.
  unfold sent_spec, view_ok. destruct (timer v) eqn:Htv; intros [Hl Ht]; simpl; by rewrite ?Htv.
Qed.
End spec_laws.

(** ** One manager and its timer *)

Section updates.
Context `{AlarmDefLib} `{NetSnmpIndex} `{NetSnmpContainer} `{TimerHeapSpec}.
Implicit Types (st : AlarmScheduler) (m : SingleAlarmManager).

(** [st'] is [st] but for the manager of alarm [i], now [m], and the
    presence of its timer in the heap, now [b]. *)
Record updated (i : Z) m (b : bool) st st' : Prop := {
  up_rest : same_rest st st';
  up_sorted : sorted (_all_alarms_state st');
  up_manager : manager i st' = Some m;
  up_others : forall j, j <> i -> manager j st' = manager j st;
  up_in_heap : in_heap i st' = b;
  up_in_heap_others : forall j, j <> i -> in_heap j st' = in_heap j st;
  up_ok : heap_ok (pop_times st') (_alarm_heap st');
}.

Lemma same_rest_refl st : same_rest st st.
Proof. by split_and!. Qed.

Lemma same_rest_trans st1 st2 st3 : same_rest st1 st2 -> same_rest st2 st3 -> same_rest st1 st3.
Proof. intros (?&?&?&?&?&?) (?&?&?&?&?&?). split_and!; congruence. Qed.

Lemma updated_trans i m1 m2 b1 b2 st1 st2 st3 :
  updated i m1 b1 st1 st2 -> updated i m2 b2 st2 st3 -> updated i m2 b2 st1 st3.
Proof.
  intros [R1 S1 M1 O1 H1' HO1 K1] [R2 S2' M2 O2 H2' HO2 K2].
  split; [by eapply same_rest_trans|done|done| |done| |done].
  - intros j Hj. by rewrite O2, O1.
  - intros j Hj. by rewrite HO2, HO1.
Qed.

Lemma in_heap_spec i st : in_heap i st = true <-> i ∈ heap_timers (_alarm_heap st).
Proof. apply bool_decide_eq_true. Qed.

Lemma updated_shape i m b st st' :
  shape_wf st -> updated i m b st st' -> timer_index (_alarm_timer m) = i -> shape_wf st'.
Proof.
  intros [Hs Hi Hh Ho] [R S M O B BO K] Hti. split; [done| | |done].
  - intros j m' Hm'. destruct (decide (j = i)) as [->|Hne]; [congruence|].
    rewrite O in Hm' by done. auto.
  - intros j Hj. destruct (decide (j = i)) as [->|Hne]; [by eexists|].
    rewrite O by done. apply Hh, in_heap_spec. rewrite <- BO by done. by apply in_heap_spec.
Qed.

Lemma timer_of_same j m st st' : in_heap j st' = in_heap j st -> timer_of j m st' = timer_of j m st.
Proof. unfold timer_of. by intros ->. Qed.

Lemma updated_changes i m m' b st st' f :
  shape_wf st -> manager i st = Some m -> updated i m' b st st' ->
  timer_index (_alarm_timer m') = i ->
  mkView (manager_severity m') (timer_of i m' st') = f (mkView (manager_severity m) (timer_of i m st)) ->
  changes i f st st'.
Proof.
  intros Hsh Hm Hup Hti Hf. split_and!; [by eapply updated_shape|apply Hup|].
  intros j. unfold view. destruct (j =? i) eqn:Hj; split_bools; subst.
  - rewrite Hm, (up_manager _ _ _ _ _ Hup). simpl. by rewrite Hf.
  - rewrite (up_others _ _ _ _ _ Hup) by done. destruct (manager j st); [simpl|done].
    by rewrite (timer_of_same _ _ st) by by apply (up_in_heap_others _ _ _ _ _ Hup).
Qed.

Lemma manager_with i m st : manager i (with_manager i m st) = Some m.
Proof. apply find_assign_eq. Qed.

Lemma manager_with_ne i j m st : j <> i -> manager j (with_manager i m st) = manager j st.
Proof. apply find_assign_ne. Qed.

Lemma pop_times_with i m st : agree_but i (pop_times st) (pop_times (with_manager i m st)).
Proof. intros j Hj. unfold pop_times. by rewrite manager_with_ne. Qed.

Lemma same_rest_with i m h st :
  sorted (_all_alarms_state st) -> is_Some (manager i st) ->
  same_rest st (with_heap h (with_manager i m st)).
Proof. intros. split_and!; [done..|]. by apply assign_keys. Qed.
End updates.

(** ** Operations on the timer of one alarm *)

Section timers.
Context `{AlarmDefLib} `{NetSnmpIndex} `{NetSnmpContainer} `{TimerHeapSpec}.
Implicit Types (st : AlarmScheduler) (m : SingleAlarmManager).

Lemma agree_but_trans i p1 p2 p3 : agree_but i p1 p2 -> agree_but i p2 p3 -> agree_but i p1 p3.
Proof. intros H12 H23 j Hj. by rewrite H23, H12. Qed.

(** A state reached by updates of the manager of [i], with a new heap. *)
Lemma updated_with i m m' h b st st1 :
  shape_wf st -> manager i st = Some m ->
  st1 = st \/ (exists m1, st1 = with_manager i m1 st) ->
  heap_ok (pop_times (with_manager i m' st1)) h ->
  bool_decide (i ∈ heap_timers h) = b ->
  (forall j, j <> i -> j ∈ heap_timers h <-> j ∈ heap_timers (_alarm_heap st)) ->
  updated i m' b st (with_heap h (with_manager i m' st1)).
Proof.
  intros [Hs Hi Hh Ho] Hm Hst1 Hok Hb Hoth.
  assert (sorted (_all_alarms_state st1)) as Hs1 by (destruct Hst1 as [->|[m1 ->]]; simpl; auto with snmp).
  assert (is_Some (manager i st1)) as Hm1
    by (destruct Hst1 as [->|[m1 ->]]; [by eexists|rewrite manager_with; by eexists]).
  split; [|simpl; auto with snmp|apply manager_with| |done| |done].
  - apply same_rest_trans with st1; [|by apply same_rest_with].
    destruct Hst1 as [->|[m1 ->]]; [apply same_rest_refl|].
    apply (same_rest_with i m1 (_alarm_heap st) st); [done|by eexists].
  - intros j Hj. change (manager j (with_manager i m' st1) = manager j st).
    rewrite manager_with_ne by done. destruct Hst1 as [->|[m1 ->]]; [done|by rewrite manager_with_ne].
  - intros j Hj. unfold in_heap. simpl. by apply bool_decide_ext, Hoth.
Qed.

(** [_alarm_heap.insert] *)
Lemma insert_updated i m st :
  shape_wf st -> manager i st = Some m ->
  updated i m true st (with_heap (heap_insert (pop_times st) i (_alarm_heap st)) st).
Proof.
  intros [Hs Hi Hh Ho] Hm. split; [by split_and!|done|done|done| | |].
  - apply in_heap_spec. simpl. rewrite heap_insert_timers. set_solver.
  - intros j Hj. unfold in_heap. simpl. apply bool_decide_ext. rewrite heap_insert_timers. set_solver.
  - by apply heap_insert_ok.
Qed.

(** [SingleAlarmManager::change_schedule] of a timer in the heap. *)
Lemma change_schedule_updated i m sev delay now st :
  shape_wf st -> manager i st = Some m -> in_heap i st = true ->
  let t := _alarm_timer m in
  let m' := if sev =? timer_severity t then m
            else mkSingleAlarmManager
                   (mkAlarmTimer (u64 (now + delay)) sev (timer_index t)) (manager_severity m) in
  exists st', change_schedule i sev delay now st = Some st' /\ updated i m' true st st'.
Proof.
  intros Hsh Hm Hin t m'. unfold change_schedule. rewrite Hm. simpl. fold t.
  destruct (sev =? timer_severity t) eqn:Hsev; simpl.
  { exists st. split; [done|]. destruct Hsh. by split. }
  unfold update_pop_time, set_timer. rewrite manager_with. simpl.
  unfold in_heap in *. simpl. rewrite Hin. eexists. split; [done|].
  apply bool_decide_eq_true in Hin.
  eapply updated_with; [done|done|right; by eexists| | |]; simpl.
  - eapply heap_rebalance_ok; [done|by apply Hsh|]. eapply agree_but_trans; apply pop_times_with.
  - rewrite heap_rebalance_timers by done. by apply bool_decide_eq_true.
  - intros j _. by rewrite heap_rebalance_timers.
Qed.

(** [AlarmTimer::remove_from_heap] of a timer in the heap. *)
Lemma remove_updated i m st :
  shape_wf st -> manager i st = Some m -> in_heap i st = true ->
  exists st', remove_from_heap i st = Some st' /\
    updated i (mkSingleAlarmManager
                 (mkAlarmTimer UINT64_MAX UNDEFINED_SEVERITY (timer_index (_alarm_timer m)))
                 (manager_severity m)) false st st'.
Proof.
  intros Hsh Hm Hin. unfold remove_from_heap, set_timer. rewrite Hm. simpl.
  unfold in_heap in *. simpl. rewrite Hin. eexists. split; [done|].
  eapply updated_with; [done|done|by left| | |]; simpl.
  - eapply heap_remove_ok; [by apply Hsh|apply pop_times_with].
  - rewrite heap_remove_timers. apply bool_decide_eq_false. set_solver.
  - intros j Hj. rewrite heap_remove_timers. set_solver.
Qed.
End timers.

(** ** Requests *)

Section requests.
Context `{AlarmDefLib} `{NetSnmpIndex} `{NetSnmpContainer} `{TimerHeapSpec}.
Implicit Types (st : AlarmScheduler) (m : SingleAlarmManager).

Lemma view_Some st i v :
  view st i = Some v <->
  exists m, manager i st = Some m /\ v = mkView (manager_severity m) (timer_of i m st).
Proof.
  unfold view. destruct (manager i st) as [m|]; simpl; split.
  - intros [= <-]. by exists m.
  - by intros (m' & [= ->] & ->).
  - done.
  - by intros (? & ? & _).
Qed.

Lemma manager_view st i : is_Some (manager i st) <-> is_Some (view st i).
Proof. unfold view. destruct (manager i st); simpl; split; intros []; done || by eexists. Qed.

Lemma shape_signal st : shape_wf st -> shape_wf (signal st).
Proof. by intros []; split. Qed.

Lemma changes_signal i f st st' : changes i f st st' -> changes i f st (signal st').
Proof. intros (? & ? & ?). split_and!; [by apply shape_signal|done|done]. Qed.

Lemma changes_wf i f st st' :
  sched_wf st -> changes i f st st' ->
  (forall v, view st i = Some v -> view_ok (_alarm_table_defs st) i (f v)) -> sched_wf st'.
Proof.
  intros [Hsh Hd Hv Hm Ha Hc] (Hsh' & (_ & Hd' & _ & Ha' & _) & Hch) Hf.
  split; rewrite ?Hd', ?Ha'; [done..| | |done|done].
  - intros j v. rewrite Hch. destruct (j =? i) eqn:Hj; split_bools; subst; [|by apply Hv].
    intros Hjv. apply fmap_Some in Hjv as (v0 & Hv0 & ->). auto.
  - intros j s Hjs. apply manager_view. rewrite Hch.
    specialize (Hm _ _ Hjs) as Hjm. apply manager_view in Hjm as [v Hjv].
    destruct (j =? i); rewrite Hjv; by eexists.
Qed.

(** [defs_ok] of a table in the form the loader leaves, checked entry by entry. *)
Lemma defs_ok_checked defs :
  defs_wf defs ->
  forallb (fun kv => (0 <=? severity kv.2) && (severity kv.2 <=? 6) &&
                     negb (severity kv.2 =? UNDEFINED_SEVERITY))%bool (_key_to_def defs) = true ->
  defs_ok defs.
Proof.
  intros Hwf Hall. split; [done|]. intros i s Hval.
  destruct (defs_wf_get _ _ _ Hwf Hval) as [_ Hs].
  apply (defs_wf_valid_iff _ _ _ Hwf) in Hval as [def Hdef].
  assert (get_definition defs i s = def) as Hg by (unfold get_definition; by rewrite Hdef).
  apply find_Some_elem in Hdef; [|apply Hwf]. rewrite forallb_forall in Hall.
  specialize (Hall _ (proj1 (list_elem_of_In _ _) Hdef)). simpl in Hall. split_bools.
  unfold known_severity. rewrite Hg in Hs. subst s. by split; [lia|].
Qed.

Lemma defs_ok_defined defs i s :
  defs_ok defs -> is_valid (get_definition defs i s) = true -> s <> UNDEFINED_SEVERITY.
Proof. intros [_ Hd] Hv. by apply (Hd i s). Qed.

(** [change_schedule_for_alarm] *)
Lemma schedule_changes i m sev delay now st :
  shape_wf st -> manager i st = Some m -> sev <> UNDEFINED_SEVERITY ->
  exists st', change_schedule_for_alarm i sev delay now st = Some st' /\
    changes i (fun v => mkView (last_sent v) (schedule_spec sev (u64 (now + delay)) (timer v))) st st'.
Proof.
  intros Hsh Hm Hsev. unfold change_schedule_for_alarm.
  pose proof (insert_updated i m st Hsh Hm) as Hins.
  pose proof (sh_index _ Hsh _ _ Hm) as Hi.
  pose proof (updated_shape _ _ _ _ _ Hsh Hins Hi) as Hsh1.
  destruct (change_schedule_updated i m sev delay now _ Hsh1 Hm (up_in_heap _ _ _ _ _ Hins))
    as (st' & -> & Hup).
  exists st'. split; [done|].
  eapply updated_changes; [done|done|by eapply updated_trans| |].
  - by destruct (sev =? _).
  - unfold timer_of. rewrite (up_in_heap _ _ _ _ _ Hup). simpl.
    destruct (sev =? timer_severity _) eqn:Hs, (in_heap i st);
      [| |simpl; by rewrite Hs|]; simpl; rewrite ?Hs; [done|..];
      destruct (timer_severity _ =? _) eqn:Hu; simpl; rewrite ?Hs; split_bools; congruence || done.
Qed.

(** [remove_outdated_alarm_from_heap] *)
Lemma cancel_changes i m st :
  sched_wf st -> manager i st = Some m ->
  changes i (fun v => mkView (last_sent v) (cancel_spec (last_sent v) (timer v))) st
    (remove_outdated_alarm_from_heap i m st).
Proof.
  intros Hwf Hm. pose proof (sw_shape _ Hwf) as Hsh.
  assert (in_heap i st = true -> timer_severity (_alarm_timer m) <> UNDEFINED_SEVERITY) as Hdef.
  { intros Hin. eapply defs_ok_defined with (i := i); [by apply (sw_defs _ Hwf)|].
    assert (view st i = Some (mkView (manager_severity m) (timer_of i m st))) as Hv
      by (unfold view; by rewrite Hm).
    apply (sw_views _ Hwf) in Hv as [_ Hv]. unfold timer_of in Hv. by rewrite Hin in Hv. }
  unfold remove_outdated_alarm_from_heap.
  destruct (manager_severity m =? timer_severity (_alarm_timer m)) eqn:Hs; simpl.
  - eapply updated_changes with (m' := m) (b := in_heap i st); [done|done| |by apply (sh_index _ Hsh)|].
    + destruct Hsh. split; [apply same_rest_refl|done..].
    + unfold timer_of. destruct (in_heap i st); simpl; [|by destruct (_ =? UNDEFINED_SEVERITY)].
      by rewrite Z.eqb_sym, Hs.
  - apply changes_signal.
    eapply updated_changes with (m' := m) (b := false); [done|done| |by apply (sh_index _ Hsh)|].
    + destruct Hsh as [Hso Hix Hh Ho]. split; [by split_and!|done|done|done| | |].
      * apply bool_decide_eq_false. simpl. rewrite heap_remove_timers. set_solver.
      * intros j Hj. unfold in_heap. simpl. apply bool_decide_ext. rewrite heap_remove_timers. set_solver.
      * by apply (heap_remove_ok (pop_times st) (pop_times st)).
    + unfold timer_of at 1. unfold in_heap at 1. simpl.
      rewrite bool_decide_eq_false_2 by (rewrite heap_remove_timers; set_solver).
      unfold timer_of. destruct (in_heap i st) eqn:Hin; simpl; [|by destruct (_ =? UNDEFINED_SEVERITY)].
      rewrite (Z.eqb_sym _ (manager_severity m)), Hs.
      by rewrite (proj2 (Z.eqb_neq _ UNDEFINED_SEVERITY)) by auto.
Qed.
End requests.

(** ** Requests as events *)

Section request_events.
Context `{AlarmDefLib} `{NetSnmpIndex} `{NetSnmpContainer} `{TimerHeapSpec}.
Implicit Types (st : AlarmScheduler) (m : SingleAlarmManager).

(** [st'] implements the change [g] of the abstract state; nothing was sent. *)
Definition requests (g : Z -> alarm_view -> alarm_view) st st' : Prop :=
  sched_wf st' /\ same_rest st st' /\ forall i, view st' i = g i <$> view st i.

Lemma requests_none st : sched_wf st -> requests (fun _ v => v) st st.
Proof.
  intros Hwf. split_and!; [done|by apply same_rest_refl|].
  intros i. by rewrite option_fmap_id.
Qed.

Lemma requests_ext g g' st st' :
  (forall i v, view st i = Some v -> g i v = g' i v) -> requests g st st' -> requests g' st st'.
Proof.
  intros Hg (Hwf & Hr & Hv). split_and!; [done..|]. intros i. rewrite Hv.
  destruct (view st i) as [v|] eqn:Hi; simpl; [by rewrite (Hg i v Hi)|done].
Qed.

Lemma changes_requests i f st st' :
  sched_wf st -> changes i f st st' ->
  (forall v, view st i = Some v -> view_ok (_alarm_table_defs st) i (f v)) ->
  requests (fun j v => if j =? i then f v else v) st st'.
Proof.
  intros Hwf Hch Hok. split_and!; [by eapply changes_wf|apply Hch|].
  intros j. destruct Hch as (_ & _ & ->). destruct (j =? i); [done|by rewrite option_fmap_id].
Qed.

Lemma view_manager i m st :
  manager i st = Some m -> view st i = Some (mkView (manager_severity m) (timer_of i m st)).
Proof. intros Hm. unfold view. by rewrite Hm. Qed.

(** A valid trigger. *)
Lemma issue_valid issuer identifier index sev now st :
  sched_wf st -> sscanf_u_dot_u identifier = Some (index, sev) ->
  is_valid (get_definition (_alarm_table_defs st) index sev) = true ->
  exists st', issue_alarm issuer identifier now st = Some st' /\
    requests (fun i v => if i =? index then issue_spec sev now v else v) st st'.
Proof.
  intros Hwf Hsc Hval. unfold issue_alarm, validate_alarm_trigger. rewrite Hsc, Hval. simpl.
  destruct (sw_manager _ Hwf _ _ Hval) as [m Hm]. rewrite Hm.
  pose proof (view_manager _ _ _ Hm) as Hv.
  assert (forall st', changes index (issue_spec sev now) st st' ->
            requests (fun i v => if i =? index then issue_spec sev now v else v) st st') as Hreq.
  { intros st' Hch. apply changes_requests; [done..|].
    intros v Hv'. apply issue_spec_ok; [by apply (sw_views _ Hwf)|done]. }
  assert (forall f st', changes index f st st' ->
            f (mkView (manager_severity m) (timer_of index m st)) =
            issue_spec sev now (mkView (manager_severity m) (timer_of index m st)) ->
            changes index (issue_spec sev now) st st') as Heq.
  { intros f st' (? & ? & Hch) Hf. split_and!; [done..|]. intros j. rewrite Hch.
    destruct (j =? index) eqn:Hj; split_bools; subst; [|done]. rewrite Hv. simpl. by rewrite Hf. }
  unfold issue_spec, change_delay in Heq. simpl in Heq.
  assert (sev <> UNDEFINED_SEVERITY) as Hsev by (eapply defs_ok_defined; [apply Hwf|done]).
  pose proof (sw_shape _ Hwf) as Hsh.
  destruct (sev =? manager_severity m) eqn:Hs; [|destruct (manager_severity m <? sev) eqn:Hlt].
  - eexists. split; [done|]. apply Hreq. eapply Heq; [by apply cancel_changes|].
    split_bools. by subst.
  - destruct (schedule_changes index m sev ALARM_INCREASED_DELAY now st Hsh Hm Hsev) as (st' & -> & Hch).
    eexists. split; [done|]. apply Hreq. by eapply Heq; [apply changes_signal|].
  - destruct (schedule_changes index m sev ALARM_REDUCED_DELAY now st Hsh Hm Hsev) as (st' & -> & Hch).
    eexists. split; [done|]. apply Hreq. by eapply Heq; [apply changes_signal|].
Qed.
End request_events.

Section other_requests.
Context `{AlarmDefLib} `{NetSnmpIndex} `{NetSnmpContainer} `{TimerHeapSpec}.
Implicit Types (st : AlarmScheduler) (m : SingleAlarmManager) (defs : AlarmTableDefs).

Lemma requests_trans g1 g2 st1 st2 st3 :
  requests g1 st1 st2 -> requests g2 st2 st3 -> requests (fun i v => g2 i (g1 i v)) st1 st3.
Proof.
  intros (_ & Hr1 & Hv1) (Hwf & Hr2 & Hv2). split_and!; [done|by eapply same_rest_trans|].
  intros i. rewrite Hv2, Hv1. by destruct (view st1 i).
Qed.

Lemma requests_signal g st st' : requests g st st' -> requests g st (signal st').
Proof.
  intros ([] & Hr & Hv). split_and!; [split|done|done]; [by apply shape_signal|done..].
Qed.

Lemma issue_requests issuer identifier now st :
  sched_wf st ->
  exists st', issue_alarm issuer identifier now st = Some st' /\
    requests (event_spec (_alarm_table_defs st) (Issue issuer identifier now)) st st'.
Proof.
  intros Hwf. unfold event_spec.
  destruct (sscanf_u_dot_u identifier) as [[index sev]|] eqn:Hsc.
  - destruct (is_valid (get_definition (_alarm_table_defs st) index sev)) eqn:Hval.
    + destruct (issue_valid issuer identifier index sev now st Hwf Hsc Hval) as (st' & -> & Hreq).
      exists st'. split; [done|]. eapply requests_ext, Hreq. simpl. intros i v _.
      by rewrite andb_true_r, (Z.eqb_sym i).
    + exists st. unfold issue_alarm, validate_alarm_trigger. rewrite Hsc, Hval. split; [done|].
      eapply requests_ext, requests_none; [|done]. simpl. intros i v _. by rewrite andb_false_r.
  - exists st. unfold issue_alarm, validate_alarm_trigger. rewrite Hsc. split; [done|].
    by apply requests_none.
Qed.

(** One iteration of the loop of [sync_alarms]. *)
Lemma sync_one i m now st :
  sched_wf st -> manager i st = Some m ->
  exists st',
    (if negb (manager_severity m =? UNDEFINED_SEVERITY) then
       change_schedule_for_alarm i (manager_severity m) ALARM_RESYNC_DELAY now st
     else Some st) = Some st' /\
    requests (fun j v => if j =? i then sync_spec now v else v) st st'.
Proof.
  intros Hwf Hm. pose proof (view_manager _ _ _ Hm) as Hv.
  destruct (manager_severity m =? UNDEFINED_SEVERITY) eqn:Hu; simpl.
  - exists st. split; [done|]. eapply requests_ext, requests_none; [|done].
    intros j v Hj. simpl. destruct (j =? i) eqn:Hji; [|done]. apply Z.eqb_eq in Hji as ->.
    unfold sync_spec. simplify_eq. simpl. by rewrite Hu.
  - destruct (schedule_changes i m (manager_severity m) ALARM_RESYNC_DELAY now st) as (st' & -> & Hch);
      [apply Hwf|done|by split_bools|].
    exists st'. split; [done|]. apply changes_requests; [done| |].
    + destruct Hch as (? & ? & Hch). split_and!; [done..|]. intros j. rewrite Hch.
      destruct (j =? i) eqn:Hji; [|done]. apply Z.eqb_eq in Hji as ->.
      rewrite Hv. unfold sync_spec. simpl. by rewrite Hu.
    + intros v Hv'. by apply sync_spec_ok, (sw_views _ Hwf).
Qed.

Lemma sync_loop_requests keys times st :
  sched_wf st -> NoDup keys -> (forall i, i ∈ keys -> is_Some (manager i st)) ->
  exists st', sync_loop keys times st = Some st' /\
    requests (fun i v => if bool_decide (i ∈ keys) then sync_spec (times i) v else v) st st'.
Proof.
  revert st. induction keys as [|i keys IH]; intros st Hwf Hnd Hin; simpl.
  { exists st. split; [done|]. eapply requests_ext, requests_none; [done|done]. }
  apply NoDup_cons in Hnd as [Hi Hnd].
  destruct (Hin i) as [m Hm]; [by left|]. rewrite Hm. simpl.
  destruct (sync_one i m (times i) st Hwf Hm) as (st1 & -> & Hreq1). simpl.
  destruct (IH st1) as (st2 & -> & Hreq2); [apply Hreq1|done| |].
  { intros j Hj. apply manager_view. destruct Hreq1 as (_ & _ & ->).
    apply fmap_is_Some, manager_view, Hin. by right. }
  exists st2. split; [done|]. eapply requests_ext, requests_trans; [|done..].
  intros j v _. simpl. destruct (j =? i) eqn:Hji.
  - apply Z.eqb_eq in Hji as ->. rewrite bool_decide_eq_false_2 by done.
    by rewrite bool_decide_eq_true_2 by by left.
  - split_bools. case_bool_decide; [by rewrite bool_decide_eq_true_2 by by right|].
    rewrite bool_decide_eq_false_2; [done|]. by intros [|]%elem_of_cons.
Qed.

Lemma elem_of_alarms st i : sched_wf st -> i ∈ (_all_alarms_state st).*1 <-> is_Some (manager i st).
Proof. intros Hwf. symmetry. apply find_elem_of_keys, (sh_sorted _ (sw_shape _ Hwf)). Qed.

Lemma sync_requests times st :
  sched_wf st ->
  exists st', sync_alarms times st = Some st' /\
    requests (event_spec (_alarm_table_defs st) (Sync times)) st st'.
Proof.
  intros Hwf. unfold sync_alarms.
  destruct (sync_loop_requests (_all_alarms_state st).*1 times st Hwf) as (st' & -> & Hreq).
  - apply sorted_NoDup_keys, (sh_sorted _ (sw_shape _ Hwf)).
  - intros i. by apply elem_of_alarms.
  - eexists. split; [done|]. apply requests_signal. eapply requests_ext, Hreq. simpl.
    intros i v Hv. rewrite bool_decide_eq_true_2; [done|].
    apply elem_of_alarms; [done|]. apply manager_view. by eexists.
Qed.

Lemma failed_requests def now st :
  sched_wf st -> is_valid (get_definition (_alarm_table_defs st) (alarm_index def) (severity def)) = true ->
  exists st', handle_failed_alarm def now st = Some st' /\
    requests (fun i v => if alarm_index def =? i then retry_spec (severity def) now v else v) st st'.
Proof.
  intros Hwf Hval. unfold handle_failed_alarm. set (i := alarm_index def) in *.
  destruct (sw_manager _ Hwf _ _ Hval) as [m Hm]. rewrite Hm.
  pose proof (view_manager _ _ _ Hm) as Hv.
  pose proof (sw_views _ Hwf _ _ Hv) as [_ Hok]. simpl in Hok.
  unfold should_resend_alarm.
  destruct ((manager_severity m =? severity def) && negb (in_heap i st))%bool eqn:Hre.
  - split_bools.
    destruct (schedule_changes i m (severity def) ALARM_RETRY_DELAY now st) as (st' & -> & Hch);
      [apply Hwf|done|eapply defs_ok_defined; [apply Hwf|done]|].
    eexists. split; [done|]. apply requests_signal.
    apply requests_ext with (fun j v => if j =? i then retry_spec (severity def) now v else v);
      [intros j v _; by rewrite (Z.eqb_sym j)|].
    apply changes_requests; [done| |].
    + destruct Hch as (? & ? & Hch). split_and!; [done..|]. intros j. rewrite Hch.
      destruct (j =? i) eqn:Hji; [|done]. apply Z.eqb_eq in Hji as ->. rewrite Hv. simpl.
      unfold retry_spec, timer_of in *. simpl.
      replace (in_heap i st) with false in * by done.
      destruct (timer_severity _ =? UNDEFINED_SEVERITY) eqn:Hu; simpl.
      * by rewrite (proj2 (Z.eqb_eq _ _)).
      * rewrite (proj2 (Z.eqb_neq _ _)) by congruence. by rewrite (proj2 (Z.eqb_eq _ _)).
    + intros v Hv'. by apply retry_spec_ok; [apply (sw_views _ Hwf)|].
  - exists st. split; [done|]. eapply requests_ext, requests_none; [|done].
    intros j v Hj. simpl. destruct (i =? j) eqn:Hji; [|done]. apply Z.eqb_eq in Hji as <-. simplify_eq. unfold retry_spec, timer_of. simpl.
    apply andb_false_iff in Hre as [Hre|Hre].
    + rewrite Hre. by case_tests.
    + apply negb_false_iff in Hre. by rewrite Hre.
Qed.
End other_requests.
