(* ===== verification/SchedulerHeap.v ===== *)
(** The heap thread: what [heap_sender] does to the invariant and to the
    abstract state of [SchedulerSpec], to the traps sent and to the
    Alarm Active Table. *)

From S2P Require Export SchedulerSpec.

(** ** Sending one alarm *)

Section pop_one.
Context `{AlarmDefLib} `{NetSnmpIndexSpec} `{NetSnmpContainerSpec} `{TimerHeapSpec}.
Implicit Types (st : AlarmScheduler) (m : SingleAlarmManager) (env : row_env).

(** The definition the timer of alarm [i] would send. *)
Definition scheduled_def st (i : Z) : AlarmTableDef :=
  match manager i st with
  | Some m => get_definition (_alarm_table_defs st) i (timer_severity (_alarm_timer m))
  | None => _invalid_def (_alarm_table_defs st)
  end.

Definition alarm_traps st (i : Z) : list v2trap :=
  default [] (send_trap (_trap_sender st) (scheduled_def st i)).

(** [st'] is [st] after alarm [i] was sent and taken out of the heap. *)
Record popped (i : Z) env st st' : Prop := {
  pp_wf : sched_wf st';
  pp_terminated : _terminated st' = _terminated st;
  pp_defs : _alarm_table_defs st' = _alarm_table_defs st;
  pp_sender : _trap_sender st' = _trap_sender st;
  pp_keys : (_all_alarms_state st').*1 = (_all_alarms_state st).*1;
  pp_views : forall j, view st' j = (if j =? i then sent_spec <$> view st j else view st j);
  pp_timers : forall j, in_heap j st' = negb (j =? i) && in_heap j st;
  pp_sent : sent_traps st' = sent_traps st ++ alarm_traps st i;
  pp_active : alarmActiveTable_trap_handler (scheduled_def st i) env (_active_table st) =
              Some (_active_table st');
  pp_registered : my_handler (at_table (_active_table st')) = my_handler (at_table (_active_table st));
  pp_counter : alarm_counter (_active_table st) <= alarm_counter (_active_table st') <=
               alarm_counter (_active_table st) + 1;
  pp_shown : my_handler (at_table (_active_table st)) = true -> row_env_ok env ->
    forall index, active_view (_active_table st') index =
                  trap_spec (scheduled_def st i) (active_view (_active_table st)) index;
}.

Lemma scheduled_valid i m st :
  sched_wf st -> manager i st = Some m -> in_heap i st = true ->
  is_valid (get_definition (_alarm_table_defs st) i (timer_severity (_alarm_timer m))) = true.
Proof.
  intros Hwf Hm Hin. pose proof (sw_views _ Hwf _ _ (view_manager _ _ _ Hm)) as [_ Hv].
  unfold timer_of in Hv. by rewrite Hin in Hv.
Qed.

(** [send_trap] and [update_alarm_state]. *)
Lemma send_alarm_spec i m env st :
  sched_wf st -> manager i st = Some m -> in_heap i st = true ->
  alarm_counter (_active_table st) + 1 < UINT_MAX ->
  exists at', alarmActiveTable_trap_handler (scheduled_def st i) env (_active_table st) = Some at' /\
    send_alarm i (scheduled_def st i) env st =
      Some (with_active at' (with_manager i
        (mkSingleAlarmManager (_alarm_timer m) (timer_severity (_alarm_timer m)))
        (with_sent (alarm_traps st i) st))) /\
    active_wf at' /\ counter_wf at' /\
    my_handler (at_table at') = my_handler (at_table (_active_table st)) /\
    alarm_counter (_active_table st) <= alarm_counter at' <= alarm_counter (_active_table st) + 1 /\
    (my_handler (at_table (_active_table st)) = true -> row_env_ok env ->
     forall index, active_view at' index =
                   trap_spec (scheduled_def st i) (active_view (_active_table st)) index).
Proof.
  intros Hwf Hm Hin Hcnt. pose proof (scheduled_valid _ _ _ Hwf Hm Hin) as Hval.
  pose proof (sw_defs _ Hwf) as [Hdefs Hknown].
  destruct (Hknown _ _ Hval) as [Hks _].
  destruct (defs_wf_get _ _ _ Hdefs Hval) as [_ Hsev].
  assert (scheduled_def st i =
    get_definition (_alarm_table_defs st) i (timer_severity (_alarm_timer m))) as Hdef
    by (unfold scheduled_def; by rewrite Hm).
  destruct (trap_handler_step (scheduled_def st i) env (_active_table st))
    as (at' & Hat & Hawf & Hcwf & Hreg & Hc & Hsh); [apply Hwf..|done|].
  exists at'. split; [done|]. split; [|done].
  unfold send_alarm. destruct (send_trap_known (_trap_sender st) (scheduled_def st i)) as [traps Htr];
    [by rewrite Hdef, Hsev|].
  assert (alarm_traps st i = traps) as -> by (unfold alarm_traps; by rewrite Htr).
  rewrite Htr. simpl. change (manager i (with_sent traps st)) with (manager i st). rewrite Hm.
  unfold update_alarm_state. simpl. rewrite Hat. simpl. rewrite Hdef, Hsev. done.
Qed.

(** The state between sending and taking the timer out of the heap. *)
Lemma sent_shape i m m1 at' traps st :
  shape_wf st -> manager i st = Some m -> _alarm_timer m1 = _alarm_timer m ->
  shape_wf (with_active at' (with_manager i m1 (with_sent traps st))).
Proof.
  intros [Hs Hi Hh Ho] Hm Ht.
  set (st1 := with_active at' (with_manager i m1 (with_sent traps st))).
  assert (manager i st1 = Some m1) as Hm1 by apply find_assign_eq.
  assert (forall j, j <> i -> manager j st1 = manager j st) as Hoth
    by (intros; by apply find_assign_ne).
  split; [simpl; auto with snmp| | |].
  - intros j m'. destruct (decide (j = i)) as [->|]; [|rewrite Hoth by done; auto].
    rewrite Hm1. intros [= <-]. rewrite Ht. auto.
  - intros j Hj. destruct (decide (j = i)) as [->|]; [by eexists|]. rewrite Hoth by done. auto.
  - apply (heap_ok_ext (pop_times st)); [|done]. intros j. unfold pop_times.
    destruct (decide (j = i)) as [->|]; [by rewrite Hm1, Hm, Ht|by rewrite Hoth].
Qed.

Lemma pop_alarm_spec i env st :
  sched_wf st -> in_heap i st = true -> alarm_counter (_active_table st) + 1 < UINT_MAX ->
  exists st', pop_alarm i env st = Some st' /\ popped i env st st'.
Proof.
  intros Hwf Hin Hcnt. pose proof (sw_shape _ Hwf) as Hsh.
  destruct (sh_heap _ Hsh i) as [m Hm]; [by apply in_heap_spec|].
  pose proof (sh_index _ Hsh _ _ Hm) as Hti.
  pose proof (scheduled_valid _ _ _ Hwf Hm Hin) as Hval.
  destruct (send_alarm_spec i m env st Hwf Hm Hin Hcnt) as (at' & Hat & Hsend & Hawf & Hcwf & Hreg & Hc & Hshown).
  unfold pop_alarm. rewrite Hm. simpl. rewrite Hti, Hval.
  unfold scheduled_def at 1 in Hsend. rewrite Hm in Hsend. rewrite Hsend. clear Hsend. simpl.
  set (m1 := mkSingleAlarmManager _ _) in *. set (st1 := with_active _ _).
  assert (shape_wf st1) as Hsh1 by by eapply sent_shape.
  assert (manager i st1 = Some m1) as Hm1 by apply find_assign_eq.
  destruct (remove_updated i m1 st1 Hsh1 Hm1 Hin) as (st2 & -> & Hup).
  exists st2. split; [done|].
  assert (shape_wf st2) as Hsh2 by by eapply updated_shape.
  destruct Hup as [(R1 & R2 & R3 & R4 & R5 & R6) S M O B BO K]. simpl in *.
  assert (forall j, view st2 j = if j =? i then sent_spec <$> view st j else view st j) as Hviews.
  { intros j. unfold view at 1. destruct (j =? i) eqn:Hj; [apply Z.eqb_eq in Hj as ->|split_bools].
    - rewrite M, (view_manager _ _ _ Hm). unfold timer_of. rewrite B, Hin. simpl. by rewrite Z.eqb_refl.
    - rewrite O by done. change (manager j st1) with (find_key j (assign i m1 (_all_alarms_state st))).
      rewrite find_assign_ne by done. unfold view, manager. destruct (find_key j _) as [mj|]; simpl; [|done].
      by rewrite (timer_of_same _ _ st) by by apply BO. }
  split; try (exact Hviews || congruence || by rewrite R4); [|rewrite R6; by apply assign_keys; [apply Hsh|eexists]|].
  - split; rewrite ?R2, ?R4; [done|apply Hwf| | |done..].
    + intros j v. rewrite Hviews. destruct (j =? i); [|by apply (sw_views _ Hwf)].
      intros (v0 & Hv0 & ->)%fmap_Some. by apply sent_spec_ok, (sw_views _ Hwf).
    + intros j s Hjs. apply manager_view. rewrite Hviews.
      apply (sw_manager _ Hwf), manager_view in Hjs as [v Hv]. rewrite Hv. by destruct (j =? i); eexists.
  - intros j. destruct (j =? i) eqn:Hj; [apply Z.eqb_eq in Hj as ->; by rewrite B|].
    split_bools. by apply BO.
Qed.
End pop_one.

(** ** Draining the due alarms *)

Section drain.
Context `{AlarmDefLib} `{NetSnmpIndexSpec} `{NetSnmpContainerSpec} `{TimerHeapSpec}.
Implicit Types (st : AlarmScheduler) (m : SingleAlarmManager) (env : row_env).

(** Whether alarm [i] is in the heap and due at [now]. *)
Definition due (now : Z) st (i : Z) : bool := in_heap i st && (pop_times st i <=? now).

(** The inner loop of [heap_sender] sends the alarms of [l], in this order. *)
Inductive drains (now : Z) : (nat -> row_env) -> AlarmScheduler -> list Z -> AlarmScheduler -> Prop :=
| drains_done envs st : (forall i, due now st i = false) -> drains now envs st [] st
| drains_pop envs i st st1 l st2 :
    in_heap i st = true -> pop_times st i <= now ->
    (forall j, in_heap j st = true -> pop_times st i <= pop_times st j) ->
    popped i (envs O) st st1 -> drains now (fun n => envs (S n)) st1 l st2 ->
    drains now envs st (i :: l) st2.

Definition heap_size st : nat := size (heap_timers (_alarm_heap st)).

Lemma popped_size i env st st1 :
  in_heap i st = true -> popped i env st st1 -> (heap_size st1 < heap_size st)%nat.
Proof.
  intros Hin Hp. unfold heap_size. apply subset_size.
  assert (forall j, j ∈ heap_timers (_alarm_heap st1) <-> j <> i /\ j ∈ heap_timers (_alarm_heap st)) as Hj.
  { intros j. rewrite <- !in_heap_spec, (pp_timers _ _ _ _ Hp), andb_true_iff, negb_true_iff, Z.eqb_neq. done. }
  apply in_heap_spec in Hin. set_solver.
Qed.

Lemma heap_size_pos i st : in_heap i st = true -> (0 < heap_size st)%nat.
Proof.
  intros Hi%in_heap_spec. unfold heap_size.
  destruct (decide (size (heap_timers (_alarm_heap st)) = 0%nat)) as [He|]; [|lia].
  apply size_empty_inv in He. set_solver.
Qed.

Lemma due_next st :
  shape_wf st ->
  match get_next_timer (_alarm_heap st) with
  | Some i => in_heap i st = true /\ forall j, in_heap j st = true -> pop_times st i <= pop_times st j
  | None => forall j, in_heap j st = false
  end.
Proof.
  intros Hsh. pose proof (sh_ok _ Hsh) as Hok.
  destruct (get_next_timer _) as [i|] eqn:Hn.
  - destruct (get_next_Some _ _ _ Hok Hn) as [Hi Hle]. split; [by apply in_heap_spec|].
    intros j Hj. by apply Hle, in_heap_spec.
  - apply (get_next_None _ _ Hok) in Hn. intros j. apply bool_decide_eq_false. rewrite Hn. set_solver.
Qed.

Lemma pop_due_drains now fuel envs st :
  sched_wf st -> (heap_size st <= fuel)%nat ->
  alarm_counter (_active_table st) + Z.of_nat (heap_size st) < UINT_MAX ->
  exists st' l, pop_due fuel now envs st = Some st' /\ drains now envs st l st'.
Proof.
  revert envs st. induction fuel as [|fuel IH]; intros envs st Hwf Hf Hc;
    pose proof (due_next st (sw_shape _ Hwf)) as Hnext; simpl;
    destruct (get_next_timer (_alarm_heap st)) as [i|].
  - destruct Hnext as [Hi _]. pose proof (heap_size_pos _ _ Hi). lia.
  - exists st, []. split; [done|]. constructor. intros i. unfold due. by rewrite Hnext.
  - destruct Hnext as [Hi Hmin]. destruct (pop_times st i <=? now) eqn:Hle.
    + destruct (pop_alarm_spec i (envs O) st Hwf Hi) as (st1 & -> & Hp).
      { pose proof (heap_size_pos _ _ Hi). lia. }
      simpl. pose proof (popped_size _ _ _ _ Hi Hp). pose proof (pp_counter _ _ _ _ Hp).
      destruct (IH (fun n => envs (S n)) st1) as (st' & l & -> & Hd); [apply Hp|lia|lia|].
      exists st', (i :: l). split; [done|]. split_bools. by econstructor.
    + exists st, []. split; [done|]. constructor. intros j. unfold due.
      destruct (in_heap j st) eqn:Hj; [simpl|done]. specialize (Hmin j Hj). split_bools.
      apply Z.leb_gt. lia.
  - exists st, []. split; [done|]. constructor. intros i. unfold due. by rewrite Hnext.
Qed.
End drain.

(** ** What draining does *)

Section drained.
Context `{AlarmDefLib} `{NetSnmpIndexSpec} `{NetSnmpContainerSpec} `{TimerHeapSpec}.
Implicit Types (st : AlarmScheduler) (m : SingleAlarmManager) (env : row_env).

Lemma popped_other i j env st st1 :
  sched_wf st -> popped i env st st1 -> j <> i -> in_heap j st = true ->
  pop_times st1 j = pop_times st j /\ scheduled_def st1 j = scheduled_def st j.
Proof.
  intros Hwf Hp Hj Hin.
  destruct (sh_heap _ (sw_shape _ Hwf) j) as [m Hm]; [by apply in_heap_spec|].
  pose proof (pp_views _ _ _ _ Hp j) as Hv. rewrite (proj2 (Z.eqb_neq _ _) Hj) in Hv.
  rewrite (view_manager _ _ _ Hm) in Hv. apply view_Some in Hv as (m1 & Hm1 & Hv).
  unfold timer_of in Hv. rewrite (pp_timers _ _ _ _ Hp), (proj2 (Z.eqb_neq _ _) Hj), Hin in Hv.
  simpl in Hv. injection Hv as Hms Hts Hpop.
  unfold pop_times, scheduled_def. by rewrite Hm, Hm1, (pp_defs _ _ _ _ Hp), Hpop, Hts.
Qed.

Lemma due_view now st i v : view st i = Some v -> due now st i = is_due now v.
Proof.
  intros (m & Hm & ->)%view_Some. unfold due, is_due, pop_times. rewrite Hm. simpl. unfold timer_of.
  destruct (in_heap i st); simpl; [done|]. by destruct (_ =? _).
Qed.

Lemma popped_due now i j env st st1 :
  sched_wf st -> popped i env st st1 -> due now st1 j = negb (j =? i) && due now st j.
Proof.
  intros Hwf Hp. unfold due. rewrite (pp_timers _ _ _ _ Hp).
  destruct (j =? i) eqn:Hji; [done|]. simpl. destruct (in_heap j st) eqn:Hj; [simpl|done].
  split_bools. by destruct (popped_other i j _ _ _ Hwf Hp) as [-> _].
Qed.

Lemma drains_views now envs st l st' :
  drains now envs st l st' -> forall j, view st' j = pop_spec now <$> view st j.
Proof.
  induction 1 as [envs st Hd|envs i st st1 l st2 Hin Hle Hmin Hp Hd IH]; intros j.
  - destruct (view st j) as [v|] eqn:Hv; simpl; [|done]. unfold pop_spec.
    by rewrite <- (due_view _ _ _ _ Hv), Hd.
  - rewrite IH, (pp_views _ _ _ _ Hp). destruct (j =? i) eqn:Hji; [|done].
    apply Z.eqb_eq in Hji as ->. destruct (view st i) as [v|] eqn:Hv; simpl; [|done].
    assert (due now st i = true) as Hdue by (unfold due; rewrite Hin; simpl; by apply Z.leb_le).
    unfold pop_spec at 2. rewrite <- (due_view _ _ _ _ Hv), Hdue.
    unfold sent_spec, pop_spec, is_due. by destruct (timer v) eqn:Ht; simpl; rewrite ?Ht.
Qed.

(** The members a drain keeps, and what it does to the heap. *)
Lemma drains_rest now envs st l st' :
  drains now envs st l st' -> sched_wf st ->
  sched_wf st' /\ _terminated st' = _terminated st /\
  _alarm_table_defs st' = _alarm_table_defs st /\ _trap_sender st' = _trap_sender st /\
  (_all_alarms_state st').*1 = (_all_alarms_state st).*1 /\
  my_handler (at_table (_active_table st')) = my_handler (at_table (_active_table st)) /\
  alarm_counter (_active_table st') <= alarm_counter (_active_table st) + Z.of_nat (length l) /\
  (forall i, due now st' i = false).
Proof.
  induction 1 as [envs st Hd|envs i st st1 l st2 Hin Hle Hmin Hp Hd IH]; intros Hwf.
  - split_and!; try done. simpl; lia.
  - destruct IH as (? & Ht & Hdef & Hs & Hk & Hr & Hc & ?); [apply Hp|].
    destruct Hp. split_and!; try done; try congruence. simpl. lia.
Qed.

(** The alarms sent are those due, each once, in the order of their pop times. *)
Lemma drains_order now envs st l st' :
  drains now envs st l st' -> sched_wf st ->
  (forall i, i ∈ l <-> due now st i = true) /\ NoDup l /\
  StronglySorted (fun i j => pop_times st i <= pop_times st j) l.
Proof.
  induction 1 as [envs st Hd|envs i st st1 l st2 Hin Hle Hmin Hp Hd IH]; intros Hwf.
  { split_and!; [|constructor..]. intros i. rewrite Hd. set_solver. }
  destruct IH as (Hmem & Hnd & Hso); [apply Hp|].
  assert (forall j, j ∈ l -> j <> i /\ due now st j = true) as Hl.
  { intros j Hj%Hmem. rewrite (popped_due _ _ _ _ _ _ Hwf Hp) in Hj. by split_bools. }
  assert (forall j, due now st j = true -> in_heap j st = true) as Hheap
    by (intros j; unfold due; intros ?; by split_bools).
  split_and!.
  - intros j. rewrite elem_of_cons, Hmem, (popped_due _ _ _ _ _ _ Hwf Hp).
    destruct (j =? i) eqn:Hji; simpl; split_bools.
    + subst. unfold due. rewrite Hin. simpl. rewrite Z.leb_le. tauto.
    + tauto.
  - constructor; [|done]. intros Hi. by apply Hl in Hi as [? _].
  - constructor.
    + eapply StronglySorted_impl_in, Hso. intros j k Hj Hk. apply Hl in Hj as [? ?], Hk as [? ?].
      destruct (popped_other i j _ _ _ Hwf Hp) as [-> _]; [by auto..|].
      by destruct (popped_other i k _ _ _ Hwf Hp) as [-> _]; auto.
    + rewrite Forall_forall. intros j Hj. by apply Hmin, Hheap, Hl.
Qed.

(** The traps sent, in that order. *)
Lemma drains_sent now envs st l st' :
  drains now envs st l st' -> sched_wf st ->
  sent_traps st' = sent_traps st ++ (l ≫= alarm_traps st).
Proof.
  induction 1 as [envs st Hd|envs i st st1 l st2 Hin Hle Hmin Hp Hd IH]; intros Hwf; simpl.
  { by rewrite app_nil_r. }
  rewrite IH by apply Hp. rewrite (pp_sent _ _ _ _ Hp), <- app_assoc. f_equal. f_equal.
  destruct (drains_order _ _ _ _ _ Hd) as (Hmem & _); [apply Hp|].
  apply bind_ext_in. intros j Hj%Hmem.
  rewrite (popped_due _ _ _ _ _ _ Hwf Hp) in Hj. unfold due in Hj. split_bools.
  unfold alarm_traps. rewrite (pp_sender _ _ _ _ Hp).
  by destruct (popped_other i j _ _ _ Hwf Hp) as [_ ->].
Qed.
End drained.

(** ** The Alarm Active Table *)

Section shown.
Context `{AlarmDefLib} `{NetSnmpIndexSpec} `{NetSnmpContainerSpec} `{TimerHeapSpec}.
Implicit Types (st : AlarmScheduler) (m : SingleAlarmManager) (env : row_env).

(** The Alarm Active Table shows the severity last sent of each alarm. *)
Definition shows_last_sent st : Prop :=
  forall i, active_view (_active_table st) i =
            v ← view st i; shown_spec (_alarm_table_defs st) i v.

Lemma popped_shows i env st st1 :
  sched_wf st -> in_heap i st = true -> my_handler (at_table (_active_table st)) = true ->
  row_env_ok env -> popped i env st st1 -> shows_last_sent st -> shows_last_sent st1.
Proof.
  intros Hwf Hin Hreg Henv Hp Hshows j.
  rewrite (pp_shown _ _ _ _ Hp Hreg Henv), (pp_views _ _ _ _ Hp), (pp_defs _ _ _ _ Hp).
  destruct (sh_heap _ (sw_shape _ Hwf) i) as [m Hm]; [by apply in_heap_spec|].
  pose proof (scheduled_valid _ _ _ Hwf Hm Hin) as Hval.
  pose proof (defs_ok_defined _ _ _ (sw_defs _ Hwf) Hval) as Hdef.
  destruct (defs_wf_get _ _ _ (proj1 (sw_defs _ Hwf)) Hval) as [Hidx Hsev].
  unfold trap_spec, scheduled_def. rewrite Hm, Hidx, Hsev.
  destruct (j =? i) eqn:Hj; simpl; [apply Z.eqb_eq in Hj as ->|apply Hshows].
  rewrite Hshows, (view_manager _ _ _ Hm). simpl. unfold sent_spec, timer_of. rewrite Hin. simpl.
  unfold shown_spec. simpl. rewrite (proj2 (Z.eqb_neq _ _) Hdef). simpl.
  destruct (timer_severity (_alarm_timer m) =? CLEARED) eqn:Hclr; [done|].
  pose proof (sw_views _ Hwf _ _ (view_manager _ _ _ Hm)) as [Hlast _]. simpl in Hlast.
  destruct (manager_severity m =? UNDEFINED_SEVERITY) eqn:Hu; simpl; [done|].
  destruct (manager_severity m =? CLEARED) eqn:Hc; [done|]. split_bools.
  destruct (defs_wf_get _ _ _ (proj1 (sw_defs _ Hwf)) (Hlast Hu)) as [_ ->].
  destruct (timer_severity (_alarm_timer m) =? manager_severity m) eqn:Heq; [|done].
  apply Z.eqb_eq in Heq. by rewrite Heq.
Qed.

Lemma drains_shows now envs st l st' :
  drains now envs st l st' -> sched_wf st -> my_handler (at_table (_active_table st)) = true ->
  (forall n, row_env_ok (envs n)) -> shows_last_sent st -> shows_last_sent st'.
Proof.
  induction 1 as [|envs st i st1 l st2 Hin Hle Hmin Hp Hd IH]; intros Hwf Hreg Henv Hs; [done|].
  apply IH; [apply Hp|by rewrite (pp_registered _ _ _ _ Hp)|auto|].
  by eapply popped_shows.
Qed.
End shown.
