(* ===== verification/SchedulerRun.v ===== *)
(** Runs of the scheduler: start-up, the events that can happen in a state, the
    states a run reaches, and the lemmas that lift [SchedulerSpec] and
    [SchedulerHeap] to them. *)

From S2P Require Export SchedulerHeap.

(** ** Start-up *)

Section start.
Context `{AlarmDefLib} `{NetSnmpIndexSpec} `{NetSnmpContainerSpec} `{TimerHeapSpec}.

(** The entry of the constructor's loop for alarm [i]. *)
Definition new_manager (i : Z) : SingleAlarmManager :=
  mkSingleAlarmManager (AlarmTimer_make i) UNDEFINED_SEVERITY.

Definition add_manager (m : smap Z SingleAlarmManager) (def : AlarmTableDef)
    : smap Z SingleAlarmManager :=
  match find_key (alarm_index def) m with
  | Some _ => m
  | None => emplace (alarm_index def) (new_manager (alarm_index def)) m
  end.

Lemma add_managers_spec (l : list AlarmTableDef) m :
  sorted m -> (forall i x, find_key i m = Some x -> x = new_manager i) ->
  let m' := fold_left add_manager l m in
  sorted m' /\
  forall i, find_key i m' = if bool_decide (is_Some (find_key i m) \/ i ∈ alarm_index <$> l)
                            then Some (new_manager i) else None.
Proof.
  revert m. induction l as [|def l IH]; intros m Hs Hm; simpl.
  - split; [done|]. intros i. case_bool_decide as Hi.
    + destruct Hi as [[x Hx]|?%not_elem_of_nil]; [|done]. rewrite Hx. f_equal. auto.
    + destruct (find_key i m) eqn:Hf; [|done]. exfalso. apply Hi. left. by eexists.
  - assert (sorted (add_manager m def)) as Hs1
      by (unfold add_manager; destruct (find_key _ m); auto with snmp).
    assert (forall i, find_key i (add_manager m def) =
              if bool_decide (i = alarm_index def) then Some (new_manager i) else find_key i m) as Hf.
    { intros i. unfold add_manager. destruct (find_key (alarm_index def) m) as [x|] eqn:Hx;
        case_bool_decide; subst; [|done| |].
      - rewrite Hx. f_equal. auto.
      - by rewrite find_emplace_eq, Hx.
      - by rewrite find_emplace_ne. }
    destruct (IH (add_manager m def) Hs1) as [Hs' Hf'].
    { intros i x. rewrite Hf. case_bool_decide; [congruence|auto]. }
    split; [done|]. intros i. rewrite Hf', Hf.
    rewrite (bool_decide_ext _ (is_Some (find_key i m) \/ i ∈ alarm_index def :: (alarm_index <$> l))); [done|].
    rewrite elem_of_cons. case_bool_decide; [|naive_solver].
    split; [tauto|]. intros _. left. by eexists.
Qed.

Lemma populate_state_spec defs i :
  sorted (populate_state defs) /\
  find_key i (populate_state defs) =
    if bool_decide (i ∈ alarm_index <$> (_key_to_def defs).*2) then Some (new_manager i) else None.
Proof.
  destruct (add_managers_spec (_key_to_def defs).*2 []) as [Hs Hf]; [auto with snmp|done|].
  split; [exact Hs|]. unfold populate_state.
  change (fold_left _ _ _) with (fold_left add_manager (_key_to_def defs).*2 []). rewrite Hf.
  rewrite (bool_decide_ext _ (i ∈ alarm_index <$> (_key_to_def defs).*2)); [done|].
  simpl. split; [|by right]. intros [[? [=]]|]; done.
Qed.

Lemma make_view defs notifications hostname active i v :
  view (AlarmScheduler_make defs notifications hostname active) i = Some v ->
  v = mkView UNDEFINED_SEVERITY Idle.
Proof.
  intros (m & Hm & ->)%view_Some. change (find_key i (populate_state defs) = Some m) in Hm.
  rewrite (proj2 (populate_state_spec defs i)) in Hm. case_bool_decide; [|done].
  injection Hm as <-. simpl. unfold timer_of, in_heap. simpl.
  rewrite bool_decide_eq_false_2 by (rewrite heap_empty_timers; set_solver).
  by rewrite Z.eqb_refl.
Qed.

Lemma make_wf defs notifications hostname active :
  defs_ok defs -> active_wf active -> counter_wf active ->
  sched_wf (AlarmScheduler_make defs notifications hostname active).
Proof.
  intros Hd Ha Hc. set (st := AlarmScheduler_make _ _ _ _).
  assert (forall i m, manager i st = Some m -> m = new_manager i) as Hnew.
  { intros i m Hm. change (find_key i (populate_state defs) = Some m) in Hm.
    rewrite (proj2 (populate_state_spec defs i)) in Hm. by case_bool_decide; simplify_eq. }
  split; [split|done| | |done|done].
  - apply (populate_state_spec defs 0).
  - by intros i m ->%Hnew.
  - intros i. simpl. rewrite heap_empty_timers. set_solver.
  - apply heap_empty_ok.
  - intros i v ->%make_view. by split.
  - intros i s Hval. change (is_Some (find_key i (populate_state defs))).
    rewrite (proj2 (populate_state_spec defs i)), bool_decide_eq_true_2; [by eexists|].
    destruct (defs_wf_get _ _ _ (proj1 Hd) Hval) as [Hi _].
    apply (defs_wf_valid_iff _ _ _ (proj1 Hd)) in Hval as [def Hdef].
    assert (get_definition defs i s = def) as Hg by (unfold get_definition; by rewrite Hdef).
    apply list_elem_of_fmap. exists def. split; [congruence|].
    apply list_elem_of_fmap. eexists (_, def). split; [done|].
    apply find_Some_elem; [apply Hd|exact Hdef].
Qed.
End start.

(** ** Events and reachable states *)

Section runs.
Context `{AlarmDefLib} `{NetSnmpIndexSpec} `{NetSnmpContainerSpec} `{TimerHeapSpec}.
Implicit Types (st : AlarmScheduler) (e : event).

(** An event that can happen: a callback is for a trap that was sent, and a
    pass of the heap thread has fuel for every alarm. *)
Definition event_ok st e : Prop :=
  match e with
  | Callback _ def _ => exists t, t ∈ sent_traps st /\ trap_correlator t = def
  | HeapSender fuel _ _ => (length (_all_alarms_state st) <= fuel)%nat
  | _ => True
  end.

(** Every row the event creates can be created. *)
Definition event_env_ok e : Prop :=
  match e with HeapSender _ _ envs => forall n, row_env_ok (envs n) | _ => True end.

Definition is_heap_pass e : bool := match e with HeapSender _ _ _ => true | _ => false end.

(** The states the scheduler reaches from [st0] in events that satisfy [P];
    [n] counts the passes of the heap thread. *)
Inductive reachable (P : event -> Prop) (st0 : AlarmScheduler) : Z -> AlarmScheduler -> Prop :=
| reachable_start : reachable P st0 0 st0
| reachable_step n st e st' :
    reachable P st0 n st -> event_ok st e -> P e -> run_event e st = Some st' ->
    reachable P st0 (if is_heap_pass e then n + 1 else n) st'.

(** The row counter does not come round in a pass of the heap thread. *)
Definition counter_room e st : Prop :=
  is_heap_pass e = true ->
  alarm_counter (_active_table st) + Z.of_nat (length (_all_alarms_state st)) < UINT_MAX.

(** The traps sent carry definitions of the table. *)
Definition sent_wf st : Prop :=
  forall t, t ∈ sent_traps st ->
    let def := trap_correlator t in
    is_valid (get_definition (_alarm_table_defs st) (alarm_index def) (severity def)) = true.

Lemma heap_size_alarms st : shape_wf st -> (heap_size st <= length (_all_alarms_state st))%nat.
Proof.
  intros Hsh. unfold heap_size. rewrite <- (length_map fst).
  change (map fst (_all_alarms_state st)) with ((_all_alarms_state st).*1).
  rewrite <- (size_list_to_set (C := gset Z)) by (apply sorted_NoDup_keys, Hsh).
  apply subseteq_size. intros i Hi. apply elem_of_list_to_set.
  apply find_elem_of_keys; [apply Hsh|]. by apply (sh_heap _ Hsh).
Qed.

Lemma same_rest_sent_wf st st' : same_rest st st' -> sent_wf st -> sent_wf st'.
Proof. intros (_ & Hd & _ & _ & Hs & _) Hw t. rewrite Hs, Hd. apply Hw. Qed.

(** The outcome of an event: the abstract state as specified, the table of
    definitions and the alarms unchanged. *)
Definition event_result e st st' : Prop :=
  sched_wf st' /\ sent_wf st' /\
  _terminated st' = _terminated st /\
  _alarm_table_defs st' = _alarm_table_defs st /\
  _trap_sender st' = _trap_sender st /\
  (_all_alarms_state st').*1 = (_all_alarms_state st).*1 /\
  my_handler (at_table (_active_table st')) = my_handler (at_table (_active_table st)) /\
  alarm_counter (_active_table st') <= alarm_counter (_active_table st) +
    (if is_heap_pass e then Z.of_nat (length (_all_alarms_state st)) else 0) /\
  forall i, view st' i = event_spec (_alarm_table_defs st) e i <$> view st i.

Lemma requests_result e st st' :
  sent_wf st -> requests (event_spec (_alarm_table_defs st) e) st st' -> event_result e st st'.
Proof.
  intros Hs (Hwf & Hr & Hv). pose proof (same_rest_sent_wf _ _ Hr Hs).
  destruct Hr as (? & ? & ? & Ha & ? & ?). split_and!; try done; [by rewrite Ha|].
  rewrite Ha. destruct (is_heap_pass e); lia.
Qed.

Lemma alarm_traps_correlator st i t : t ∈ alarm_traps st i -> trap_correlator t = scheduled_def st i.
Proof.
  unfold alarm_traps. destruct (send_trap _ _) as [traps|] eqn:Htr; simpl.
  - intros. by eapply send_trap_correlator.
  - by intros ?%not_elem_of_nil.
Qed.

Lemma due_valid now st i :
  sched_wf st -> due now st i = true ->
  let def := scheduled_def st i in
  is_valid (get_definition (_alarm_table_defs st) (alarm_index def) (severity def)) = true.
Proof.
  intros Hwf Hdue. unfold due in Hdue. split_bools.
  destruct (sh_heap _ (sw_shape _ Hwf) i) as [m Hm]; [by apply in_heap_spec|].
  pose proof (scheduled_valid _ _ _ Hwf Hm ltac:(done)) as Hval.
  unfold scheduled_def. rewrite Hm.
  by destruct (defs_wf_get _ _ _ (proj1 (sw_defs _ Hwf)) Hval) as [-> ->].
Qed.

Lemma scheduled_def_index now st i :
  sched_wf st -> due now st i = true -> alarm_index (scheduled_def st i) = i.
Proof.
  intros Hwf Hdue. unfold due in Hdue. split_bools.
  destruct (sh_heap _ (sw_shape _ Hwf) i) as [m Hm]; [by apply in_heap_spec|].
  pose proof (scheduled_valid _ _ _ Hwf Hm ltac:(done)) as Hval.
  unfold scheduled_def. rewrite Hm. by apply defs_wf_get; [apply (sw_defs _ Hwf)|].
Qed.

Lemma drains_sent_wf now envs st l st' :
  drains now envs st l st' -> sched_wf st -> sent_wf st -> sent_wf st'.
Proof.
  intros Hd Hwf Hs t. rewrite (drains_sent _ _ _ _ _ Hd Hwf), elem_of_app.
  destruct (drains_rest _ _ _ _ _ Hd Hwf) as (_ & _ & -> & _).
  intros [Ht|(i & Hi & Hl)%list_elem_of_bind]; [by apply Hs|].
  apply alarm_traps_correlator in Hi as ->. eapply due_valid; [done|].
  by apply (drains_order _ _ _ _ _ Hd Hwf).
Qed.

Lemma drains_length now envs st l st' :
  drains now envs st l st' -> sched_wf st -> (length l <= length (_all_alarms_state st))%nat.
Proof.
  intros Hd Hwf. destruct (drains_order _ _ _ _ _ Hd Hwf) as (Hmem & Hnd & _).
  rewrite <- (length_map fst). apply submseteq_length, NoDup_submseteq; [done|].
  intros i Hi. apply elem_of_alarms; [done|]. apply (sh_heap _ (sw_shape _ Hwf)), in_heap_spec.
  apply Hmem in Hi. unfold due in Hi. by split_bools.
Qed.

Lemma drains_result now fuel envs st l st' :
  drains now envs st l st' -> sched_wf st -> sent_wf st ->
  event_result (HeapSender fuel now envs) st st'.
Proof.
  intros Hd Hwf Hs. destruct (drains_rest _ _ _ _ _ Hd Hwf) as (? & ? & ? & ? & ? & ? & Hc & _).
  pose proof (drains_length _ _ _ _ _ Hd Hwf). split_and!; try done.
  - by eapply drains_sent_wf.
  - simpl. lia.
  - by eapply drains_views.
Qed.

(** A pass of the heap thread, with what it sends. *)
Lemma heap_pass fuel now envs st :
  sched_wf st -> (length (_all_alarms_state st) <= fuel)%nat ->
  alarm_counter (_active_table st) + Z.of_nat (length (_all_alarms_state st)) < UINT_MAX ->
  exists st' l, heap_sender_iteration fuel now envs st = Some (st', next_wait st') /\
                drains now envs st l st'.
Proof.
  intros Hwf Hf Hc. pose proof (heap_size_alarms _ (sw_shape _ Hwf)).
  destruct (pop_due_drains now fuel envs st) as (st' & l & Hp & Hd); [done|lia|lia|].
  exists st', l. split; [|done]. unfold heap_sender_iteration. by rewrite Hp.
Qed.

(** Every event succeeds and does what the specification says. *)
Lemma run_event_result e st :
  sched_wf st -> sent_wf st -> event_ok st e -> counter_room e st ->
  exists st', run_event e st = Some st' /\ event_result e st st'.
Proof.
  intros Hwf Hs Hok Hc. destruct e as [issuer identifier now|times|op def now|fuel now envs]; simpl.
  - destruct (issue_requests issuer identifier now st Hwf) as (st' & -> & Hr).
    exists st'. split; [done|by apply requests_result].
  - destruct (sync_requests times st Hwf) as (st' & -> & Hr).
    exists st'. split; [done|by apply requests_result].
  - destruct Hok as (t & Ht & <-). pose proof (Hs t Ht) as Hval. simpl in Hval.
    destruct (failed_requests _ now st Hwf Hval) as (st' & Hf & Hr).
    destruct op; simpl; try (exists st; split; [done|]; apply requests_result, requests_none; done).
    exists st'. split; [done|by apply requests_result].
  - destruct (heap_pass fuel now envs st Hwf Hok (Hc eq_refl)) as (st' & l & -> & Hd).
    exists st'. split; [done|]. by eapply drains_result.
Qed.

(** The invariant holds in every reachable state, as long as the row counter
    of the Alarm Active Table has not come round. *)
Lemma reachable_wf P st0 n st :
  reachable P st0 n st -> sched_wf st0 -> sent_wf st0 ->
  alarm_counter (_active_table st0) + n * Z.of_nat (length (_all_alarms_state st0)) < UINT_MAX ->
  sched_wf st /\ sent_wf st /\ _terminated st = _terminated st0 /\
  _alarm_table_defs st = _alarm_table_defs st0 /\ _trap_sender st = _trap_sender st0 /\
  length (_all_alarms_state st) = length (_all_alarms_state st0) /\
  my_handler (at_table (_active_table st)) = my_handler (at_table (_active_table st0)) /\
  alarm_counter (_active_table st) <=
    alarm_counter (_active_table st0) + n * Z.of_nat (length (_all_alarms_state st0)).
Proof.
  intros Hr Hwf0 Hs0. set (k := Z.of_nat _).
  induction Hr as [|n st e st' Hr IH Hok _ He]; intros Hc; [by split_and!; try lia|].
  assert (0 <= k) by lia.
  destruct IH as (Hwf & Hs & Ht & Hd & Hsd & Hl & Hh & Hle); [destruct (is_heap_pass e); lia|].
  destruct (run_event_result e st Hwf Hs Hok)
    as (st2 & He2 & Hwf' & Hs' & ? & ? & ? & Hk & ? & Hle' & _).
  { intros Hp. rewrite Hp in Hc. rewrite Hl. fold k. lia. }
  assert (st2 = st') as -> by congruence. rewrite Hl in Hle'. fold k in Hle'.
  split_and!; try done; try congruence.
  - rewrite <- (length_map fst (_all_alarms_state st')). change (map fst ?l) with (l.*1).
    rewrite Hk. by rewrite length_fmap.
  - destruct (is_heap_pass e); lia.
Qed.
End runs.

Section runs_shown.
Context `{AlarmDefLib} `{NetSnmpIndexSpec} `{NetSnmpContainerSpec} `{TimerHeapSpec}.
Implicit Types (st : AlarmScheduler) (e : event).

Lemma event_spec_last_sent defs e i v :
  is_heap_pass e = false -> last_sent (event_spec defs e i v) = last_sent v.
Proof.
  destruct e as [? identifier ?|times|op def ?|]; simpl; intros He; [| | |done].
  - destruct (sscanf_u_dot_u identifier) as [[]|]; [|done]. by destruct (_ && _)%bool.
  - unfold sync_spec. by destruct (_ =? _).
  - destruct op; try done. destruct (_ =? _); [|done]. unfold retry_spec.
    destruct (timer v); try done; by destruct (_ =? _).
Qed.

Lemma shown_spec_last_sent defs i v v' :
  last_sent v = last_sent v' -> shown_spec defs i v = shown_spec defs i v'.
Proof. unfold shown_spec. by intros ->. Qed.

(** A request changes neither the table nor the severities last sent. *)
Lemma request_shows e st st' :
  is_heap_pass e = false -> _active_table st' = _active_table st ->
  event_result e st st' -> shows_last_sent st -> shows_last_sent st'.
Proof.
  intros He Ha (_ & _ & _ & Hd & _ & _ & _ & _ & Hv) Hs i. rewrite Ha, Hs, Hv, Hd.
  destruct (view st i) as [v|]; simpl; [|done].
  apply shown_spec_last_sent. by rewrite event_spec_last_sent.
Qed.

Lemma run_event_shows e st st' :
  sched_wf st -> sent_wf st -> event_ok st e -> counter_room e st -> event_env_ok e ->
  my_handler (at_table (_active_table st)) = true -> run_event e st = Some st' ->
  shows_last_sent st -> shows_last_sent st'.
Proof.
  intros Hwf Hs Hok Hc Henv Hreg He Hsh.
  destruct e as [issuer identifier now|times|op def now|fuel now envs]; simpl in He.
  - destruct (issue_requests issuer identifier now st Hwf) as (st2 & He2 & Hr). simplify_eq.
    eapply request_shows; [|apply Hr|by apply requests_result|]; done.
  - destruct (sync_requests times st Hwf) as (st2 & He2 & Hr). simplify_eq.
    eapply request_shows; [|apply Hr|by apply requests_result|]; done.
  - destruct Hok as (t & Ht & <-). pose proof (Hs t Ht) as Hval.
    destruct (failed_requests _ now st Hwf Hval) as (st2 & He2 & Hr).
    destruct op; simpl in He; simplify_eq; try done.
    eapply (request_shows (Callback NETSNMP_CALLBACK_OP_TIMED_OUT (trap_correlator t) now));
      [|apply Hr|by apply requests_result|]; done.
  - destruct (heap_pass fuel now envs st Hwf Hok (Hc eq_refl)) as (st2 & l & He2 & Hd).
    rewrite He2 in He. simplify_eq/=. by eapply drains_shows.
Qed.

Lemma reachable_shows st0 n st :
  reachable event_env_ok st0 n st -> sched_wf st0 -> sent_wf st0 ->
  my_handler (at_table (_active_table st0)) = true -> shows_last_sent st0 ->
  alarm_counter (_active_table st0) + n * Z.of_nat (length (_all_alarms_state st0)) < UINT_MAX ->
  shows_last_sent st.
Proof.
  intros Hr Hwf0 Hs0 Hreg0 Hsh0. set (k := Z.of_nat _).
  induction Hr as [|n st e st' Hr IH Hok Henv He]; intros Hc; [done|].
  assert (0 <= k) by lia.
  assert (alarm_counter (_active_table st0) + n * k < UINT_MAX) as Hc' by (destruct (is_heap_pass e); lia).
  destruct (reachable_wf _ _ _ _ Hr Hwf0 Hs0 Hc') as (Hwf & Hs & _ & _ & _ & Hl & Hreg & Hle).
  eapply run_event_shows; [done|done|done| |done|by rewrite Hreg|done|by apply IH].
  intros Hp. rewrite Hp in Hc. rewrite Hl. fold k. fold k in Hle. lia.
Qed.

Lemma make_shows defs notifications hostname active :
  (forall i, active_view active i = None) ->
  shows_last_sent (AlarmScheduler_make defs notifications hostname active).
Proof.
  intros Ha i. simpl. rewrite Ha. destruct (view _ i) as [v|] eqn:Hv; simpl; [|done].
  apply make_view in Hv as ->. unfold shown_spec. simpl. by rewrite Z.eqb_refl.
Qed.

Lemma make_sent_wf defs notifications hostname active :
  sent_wf (AlarmScheduler_make defs notifications hostname active).
Proof. intros t. simpl. by intros ?%not_elem_of_nil. Qed.
End runs_shown.

(** ** Executions *)

Section executions.
Context `{AlarmDefLib} `{NetSnmpIndexSpec} `{NetSnmpContainerSpec} `{TimerHeapSpec}.
Implicit Types (st : AlarmScheduler) (e : event).

(** The events [es] happen in this order and lead from [st] to [st']. *)
Inductive execution : AlarmScheduler -> list event -> AlarmScheduler -> Prop :=
| execution_nil st : execution st [] st
| execution_cons st e st1 es st2 :
    event_ok st e -> run_event e st = Some st1 -> execution st1 es st2 ->
    execution st (e :: es) st2.

(** The row counter does not come round in the heap passes of [es] and one more. *)
Definition room_for (es : list event) st : Prop :=
  alarm_counter (_active_table st) +
    (Z.of_nat (length (List.filter is_heap_pass es)) + 1) * Z.of_nat (length (_all_alarms_state st))
  < UINT_MAX.

Lemma room_for_cons e es st st' :
  room_for (e :: es) st -> event_result e st st' -> room_for es st'.
Proof.
  unfold room_for. intros Hroom (_ & _ & _ & _ & _ & Hk & _ & Hc & _).
  assert (length (_all_alarms_state st') = length (_all_alarms_state st)) as ->
    by (rewrite <- !(length_fmap fst); by rewrite Hk).
  simpl in Hroom. destruct (is_heap_pass e); simpl in Hroom; lia.
Qed.

Lemma room_for_event e es st : room_for (e :: es) st -> counter_room e st.
Proof. unfold room_for, counter_room. simpl. intros Hroom He. rewrite He in Hroom. simpl in Hroom. lia. Qed.

Lemma room_for_last es st : room_for es st -> room_for [] st.
Proof. unfold room_for. simpl. nia. Qed.

(** Alarm [i] stays as it is through events that do not concern it. *)
Lemma execution_undisturbed es st st' i v :
  execution st es st' -> sched_wf st -> sent_wf st -> room_for es st ->
  view st i = Some v ->
  (forall e, e ∈ es -> event_spec (_alarm_table_defs st) e i v = v) ->
  sched_wf st' /\ sent_wf st' /\ room_for [] st' /\ view st' i = Some v /\
  _alarm_table_defs st' = _alarm_table_defs st /\ _trap_sender st' = _trap_sender st.
Proof.
  induction 1 as [st|st e st1 es st2 Hok He Hex IH]; intros Hwf Hs Hroom Hv Hun; [done|].
  destruct (run_event_result e st Hwf Hs Hok (room_for_event _ _ _ Hroom)) as (st1' & He' & Hres).
  assert (st1' = st1) as -> by congruence.
  pose proof (room_for_cons _ _ _ _ Hroom Hres) as Hroom1.
  destruct Hres as (Hwf1 & Hs1 & _ & Hd & Hsd & _ & _ & _ & Hv1).
  destruct IH as (? & ? & ? & ? & -> & ->); [done..| | |by rewrite Hd, Hsd].
  - rewrite Hv1, Hv. simpl. f_equal. apply Hun. by left.
  - intros e' He''. rewrite Hd. apply Hun. by right.
Qed.

(** What one pass adds to the traps sent, by alarm. *)
Lemma drains_sent_one now envs st l st' i :
  drains now envs st l st' -> sched_wf st -> i ∈ l ->
  exists before after, sent_traps st' = sent_traps st ++ before ++ alarm_traps st i ++ after.
Proof.
  intros Hd Hwf (l1 & l2 & ->)%list_elem_of_split.
  rewrite (drains_sent _ _ _ _ _ Hd Hwf), bind_app, bind_cons. by eexists _, _.
Qed.

Lemma view_scheduled st i c s p :
  view st i = Some (mkView c (Scheduled s p)) ->
  in_heap i st = true /\ pop_times st i = p /\
  scheduled_def st i = get_definition (_alarm_table_defs st) i s.
Proof.
  intros (m & Hm & Hv)%view_Some. unfold timer_of in Hv. unfold pop_times, scheduled_def.
  destruct (in_heap i st); [|by destruct (_ =? _)]. injection Hv as -> -> ->. by rewrite Hm.
Qed.
End executions.
