(* ===== verification/SchedulerProps.v ===== *)
(** What is proved of the alarm scheduler. Each theorem is followed, at the end
    of the file, by a witness that applies it to a concrete run. *)

From S2P Require Export SchedulerRun.

Section theorems.
Context `{AlarmDefLib} `{NetSnmpIndexSpec} `{NetSnmpContainerSpec} `{TimerHeapSpec}.
Implicit Types (st : AlarmScheduler) (e : event).

(** The agent when its heap thread starts. *)
Definition agent_start (defs : AlarmTableDefs) (notifications : notification_set)
    (hostname ip : string) (table_info_ok handler_ok : bool) : AlarmScheduler :=
  AlarmScheduler_make defs notifications hostname
    (init_alarmActiveTable ip table_info_ok handler_ok active_zero).2.

Lemma init_active ip ok1 ok2 :
  let st := (init_alarmActiveTable ip ok1 ok2 active_zero).2 in
  active_wf st /\ counter_wf st /\ (forall i, active_view st i = None) /\ alarm_counter st = 0 /\
  my_handler (at_table st) = ok1 && ok2.
Proof.
  assert (forall b, active_wf (mkActive (mkTable b container_empty ∅ 1) [] 0 ip) /\
                    counter_wf (mkActive (mkTable b container_empty ∅ 1) [] 0 ip)) as Hz.
  { intros b. split; split; simpl; try done.
    - destruct table_zero_wf. by split.
    - auto with snmp.
    - intros o a. by rewrite container_empty_rows, lookup_empty. }
  unfold init_alarmActiveTable, register_table. simpl.
  by destruct ok1, ok2; simpl; split_and!; try done; apply Hz.
Qed.

Lemma agent_start_wf defs notifications hostname ip ok1 ok2 :
  defs_ok defs -> sched_wf (agent_start defs notifications hostname ip ok1 ok2).
Proof. intros Hd. destruct (init_active ip ok1 ok2) as (? & ? & _). by apply make_wf. Qed.

(** C2: the agent never crashes and never diverges. In any state reached from
    start-up by triggers, resyncs, callbacks and passes of the heap thread, in any
    order, the invariant holds and the next event that can happen completes:
    no null manager, no timer used out of the heap, no freed row, no unknown
    severity, and the heap thread's loop ends. The bound is the one the row counter of
    the Alarm Active Table needs not to come round. *)
Theorem scheduler_safe defs notifications hostname ip ok1 ok2 P n st e :
  let st0 := agent_start defs notifications hostname ip ok1 ok2 in
  defs_ok defs -> reachable P st0 n st -> event_ok st e ->
  (n + 1) * Z.of_nat (length (_all_alarms_state st0)) < UINT_MAX ->
  sched_wf st /\ is_Some (run_event e st).
Proof.
  intros st0 Hd Hr Hok Hn.
  assert (alarm_counter (_active_table st0) = 0) as Hc0 by apply (init_active ip ok1 ok2).
  destruct (reachable_wf _ _ _ _ Hr) as (Hwf & Hs & _ & _ & _ & Hl & _ & Hc);
    [by apply agent_start_wf|apply make_sent_wf|rewrite Hc0; lia|]. rewrite Hc0 in Hc.
  split; [done|].
  destruct (run_event_result e st Hwf Hs Hok) as (st' & -> & _); [|by eexists].
  intros _. rewrite Hl. lia.
Qed.

(** C3: the scheduler implements its specification. Every event takes the
    abstract state of every alarm (severity last sent, state of its timer) to the one
    [event_spec] gives, touches no other alarm, and leaves the definitions,
    the sender and the set of alarms alone. *)
Theorem scheduler_refines_spec st e :
  sched_wf st -> sent_wf st -> event_ok st e -> counter_room e st ->
  exists st', run_event e st = Some st' /\ sched_wf st' /\ sent_wf st' /\
    _alarm_table_defs st' = _alarm_table_defs st /\ _trap_sender st' = _trap_sender st /\
    (_all_alarms_state st').*1 = (_all_alarms_state st).*1 /\
    forall i, view st' i = event_spec (_alarm_table_defs st) e i <$> view st i.
Proof.
  intros Hwf Hs Hok Hc. destruct (run_event_result e st Hwf Hs Hok Hc) as (st' & He & Hres).
  exists st'. split; [done|]. by destruct Hres as (? & ? & _ & ? & ? & ? & _ & _ & ?).
Qed.

(** The wait is until the first pop time, in seconds and nanoseconds. *)
Lemma next_wait_spec st :
  shape_wf st ->
  match next_wait st with
  | WaitForSignal => forall i, in_heap i st = false
  | TimedWait s ns =>
    0 <= ns < 10 ^ 9 /\
    exists i, in_heap i st = true /\ pop_times st i = s * 1000 + ns / 10 ^ 6 /\
              forall j, in_heap j st = true -> pop_times st i <= pop_times st j
  end.
Proof.
  intros Hsh. pose proof (due_next st Hsh) as Hnext. unfold next_wait.
  destruct (get_next_timer _) as [i|]; [|done]. destruct Hnext as [Hi Hmin].
  pose proof (Z.mod_pos_bound (pop_times st i) 1000). split; [lia|]. exists i. split_and!; [done| |done].
  change (10 ^ 6) with 1000000. rewrite Z.div_mul by done. pose proof (Z.div_mod (pop_times st i) 1000). lia.
Qed.

(** C8: a pass of the heap thread sends exactly the alarms that are due, each
    once, in the order of their pop times, and leaves none due. It then waits
    until the first remaining pop time, converted to seconds and nanoseconds,
    or for a signal when nothing is left. *)
Theorem heap_sender_sends_due st fuel now envs :
  sched_wf st -> (length (_all_alarms_state st) <= fuel)%nat ->
  counter_room (HeapSender fuel now envs) st ->
  exists st' l, heap_sender_iteration fuel now envs st = Some (st', next_wait st') /\
    (forall i, i ∈ l <-> due now st i = true) /\ NoDup l /\
    StronglySorted (fun i j => pop_times st i <= pop_times st j) l /\
    sent_traps st' = sent_traps st ++ (l ≫= alarm_traps st) /\
    match next_wait st' with
    | WaitForSignal => forall i, in_heap i st' = false
    | TimedWait s ns =>
      0 <= ns < 10 ^ 9 /\ now < s * 1000 + ns / 10 ^ 6 /\
      exists i, in_heap i st' = true /\ pop_times st' i = s * 1000 + ns / 10 ^ 6 /\
                forall j, in_heap j st' = true -> pop_times st' i <= pop_times st' j
    end.
Proof.
  intros Hwf Hf Hc. destruct (heap_pass fuel now envs st Hwf Hf (Hc eq_refl)) as (st' & l & Hp & Hd).
  destruct (drains_order _ _ _ _ _ Hd Hwf) as (Hmem & Hnd & Hso).
  exists st', l. split_and!; [done..|by eapply drains_sent|].
  destruct (drains_rest _ _ _ _ _ Hd Hwf) as (Hwf' & _ & _ & _ & _ & _ & _ & Hnone).
  pose proof (next_wait_spec st' (sw_shape _ Hwf')) as Hnext.
  destruct (next_wait st') as [sec ns|]; [|done]. destruct Hnext as (Hns & i & Hi & Hpop & Hmin).
  specialize (Hnone i). unfold due in Hnone. rewrite Hi, Hpop in Hnone. simpl in Hnone. split_bools.
  split_and!; [lia..|by exists i].
Qed.
End theorems.

Section trigger_theorems.
Context `{AlarmDefLib} `{NetSnmpIndexSpec} `{NetSnmpContainerSpec} `{TimerHeapSpec}.
Implicit Types (st : AlarmScheduler) (e : event).

Lemma u64_id x : 0 <= x <= UINT64_MAX -> u64 x = x.
Proof. intros. unfold u64. apply wrap_id. unfold_ints. lia. Qed.

(** C11: what a valid trigger does. It sends nothing itself and concerns no other alarm. A
    trigger for the severity last sent cancels a timer for another severity and touches
    nothing else. One for another severity is scheduled: a timer that has that severity keeps
    its pop time, even one that was cancelled; else it pops at once when the number of the
    severity is above that of the one last sent, and 30 seconds from now when it is below.
    The numbers are CLEARED 1, INDETERMINATE 2, CRITICAL 3, MAJOR 4, MINOR 5 and WARNING 6:
    an alarm raised from CLEARED goes at once and one cleared waits, but between raised severities
    the worse of the two waits. *)
Theorem issue_alarm_schedules st issuer identifier index sev now v :
  sched_wf st -> sscanf_u_dot_u identifier = Some (index, sev) ->
  is_valid (get_definition (_alarm_table_defs st) index sev) = true ->
  view st index = Some v -> 0 <= now -> now + ALARM_REDUCED_DELAY <= UINT64_MAX ->
  exists st' t, issue_alarm issuer identifier now st = Some st' /\
    sent_traps st' = sent_traps st /\ _active_table st' = _active_table st /\
    (forall j, j <> index -> view st' j = view st j) /\
    view st' index = Some (mkView (last_sent v) t) /\
    (sev = last_sent v ->
       t = match timer v with Scheduled s p => if s =? sev then Scheduled s p else Cancelled s p | t0 => t0 end) /\
    (sev <> last_sent v -> exists p, t = Scheduled sev p /\
       (forall q, timer v = Scheduled sev q \/ timer v = Cancelled sev q -> p = q) /\
       ((forall q, timer v <> Scheduled sev q /\ timer v <> Cancelled sev q) ->
          p = now + if last_sent v <? sev then 0 else 30000)).
Proof.
  intros Hwf Hsc Hval Hv Hnow Hmax.
  destruct (issue_valid issuer identifier index sev now st Hwf Hsc Hval) as (st' & -> & Hreq).
  destruct Hreq as (_ & (_ & _ & _ & Ha & Hsent & _) & Hview).
  exists st', (timer (issue_spec sev now v)). split_and!; [done..| | | |].
  - intros j Hj. rewrite Hview, (proj2 (Z.eqb_neq _ _) Hj). by destruct (view st j).
  - rewrite Hview, Hv, Z.eqb_refl. done.
  - intros ->. unfold issue_spec. simpl. rewrite Z.eqb_refl. by destruct (timer v).
  - intros Hne. unfold issue_spec, change_delay. simpl. rewrite (proj2 (Z.eqb_neq _ _)) by done.
    unfold ALARM_INCREASED_DELAY, ALARM_REDUCED_DELAY in *.
    rewrite u64_id by (destruct (_ <? _); lia).
    destruct (timer v) as [|s p|s p]; simpl; [|destruct (Z.eqb_spec sev s) as [<-|]..]; eexists; (split; [done|]);
      (split; [intros q [Hq|Hq]; congruence|]); intros Hno; try done; by destruct (Hno p) as [? ?].
Qed.

(** A trigger that is not two unsigned numbers around a dot, or that
    names no definition, changes nothing. *)
Theorem issue_alarm_rejects st issuer identifier now :
  (forall index sev, sscanf_u_dot_u identifier = Some (index, sev) ->
     is_valid (get_definition (_alarm_table_defs st) index sev) = false) ->
  issue_alarm issuer identifier now st = Some st.
Proof.
  intros Hrej. unfold issue_alarm, validate_alarm_trigger.
  destruct (sscanf_u_dot_u identifier) as [[index sev]|]; [|done]. by rewrite (Hrej _ _ eq_refl).
Qed.

(** The identifiers the senders of alarms print, [index.severity] in decimal, are
    read back exactly for the whole range of [unsigned int], so a trigger is
    accepted exactly when its definition was loaded. *)
Theorem printed_identifier_validated st index sev :
  in_u32 index -> in_u32 sev ->
  validate_alarm_trigger (dec index +:+ "." +:+ dec sev) st =
    if is_valid (get_definition (_alarm_table_defs st) index sev) then Some (index, sev) else None.
Proof. intros Hi Hs. unfold validate_alarm_trigger. by rewrite sscanf_print. Qed.

(** Flicker is suppressed. When an alarm with no timer pending leaves its
    severity and comes back to it before the heap thread sends the change, no
    later pass of the heap thread, at any time, sends anything for it. *)
Theorem flicker_suppressed st issuer away back index sev now1 now2 v fuel now envs :
  sched_wf st -> counter_room (HeapSender fuel now envs) st ->
  (length (_all_alarms_state st) <= fuel)%nat ->
  view st index = Some v -> timer v = Idle ->
  sscanf_u_dot_u away = Some (index, sev) -> sev <> last_sent v ->
  is_valid (get_definition (_alarm_table_defs st) index sev) = true ->
  sscanf_u_dot_u back = Some (index, last_sent v) ->
  is_valid (get_definition (_alarm_table_defs st) index (last_sent v)) = true ->
  exists st1 st2 st3 new, issue_alarm issuer away now1 st = Some st1 /\
    issue_alarm issuer back now2 st1 = Some st2 /\
    run_event (HeapSender fuel now envs) st2 = Some st3 /\
    sent_traps st3 = sent_traps st ++ new /\
    (forall t, t ∈ new -> alarm_index (trap_correlator t) <> index) /\
    exists t, view st3 index = Some (mkView (last_sent v) t).
Proof.
  intros Hwf Hroom Hfuel Hv Hidle Haway Hne Hval1 Hback Hval2.
  destruct (issue_valid issuer away index sev now1 st Hwf Haway Hval1) as (st1 & He1 & Hwf1 & Hr1 & Hv1).
  assert (_alarm_table_defs st1 = _alarm_table_defs st) as Hd1 by apply Hr1.
  destruct (issue_valid issuer back index (last_sent v) now2 st1 Hwf1 Hback) as (st2 & He2 & Hwf2 & Hr2 & Hv2);
    [by rewrite Hd1|].
  pose proof (same_rest_trans _ _ _ Hr1 Hr2) as (_ & Hd & Hsd & Ha & Hsent & Hk).
  assert (length (_all_alarms_state st2) = length (_all_alarms_state st)) as Hlen
    by (rewrite <- !(length_fmap fst); by rewrite Hk).
  destruct (heap_pass fuel now envs st2 Hwf2) as (st3 & l & Hp & Hd3);
    [by rewrite Hlen|rewrite Hlen, Ha; by apply Hroom|].
  assert (exists p, view st2 index = Some (mkView (last_sent v) (Cancelled sev p))) as [p Hview].
  { eexists. rewrite Hv2, Hv1, Hv, Z.eqb_refl. simpl. unfold issue_spec. simpl.
    rewrite (proj2 (Z.eqb_neq _ _) Hne), Hidle. simpl. rewrite Z.eqb_refl.
    by rewrite (proj2 (Z.eqb_neq _ _) Hne). }
  exists st1, st2, st3, (l ≫= alarm_traps st2).
  split_and!; [done|done| | | |].
  - simpl. by rewrite Hp.
  - by rewrite (drains_sent _ _ _ _ _ Hd3 Hwf2), Hsent.
  - intros t (j & Hj & Hl)%list_elem_of_bind. apply alarm_traps_correlator in Hj as ->.
    apply (drains_order _ _ _ _ _ Hd3 Hwf2) in Hl.
    assert (j <> index) as Hji by (intros ->; by rewrite (due_view _ _ _ _ Hview) in Hl).
    rewrite (scheduled_def_index _ _ _ Hwf2 Hl). done.
  - exists (Cancelled sev p). by rewrite (drains_views _ _ _ _ _ Hd3), Hview.
Qed.
End trigger_theorems.

Section delivery_theorems.
Context `{AlarmDefLib} `{NetSnmpIndexSpec} `{NetSnmpContainerSpec} `{TimerHeapSpec}.
Implicit Types (st : AlarmScheduler) (e : event).

(** C9: a scheduled change is delivered. Whatever else happens that does not
    concern the alarm, the first pass of the heap thread at or after its pop
    time sends the traps of its definition and makes its severity the one last sent. *)
Theorem scheduled_alarm_delivered st es st' i c s p fuel now envs :
  sched_wf st -> sent_wf st -> room_for es st ->
  view st i = Some (mkView c (Scheduled s p)) ->
  execution st es st' ->
  (forall e, e ∈ es -> event_spec (_alarm_table_defs st) e i (mkView c (Scheduled s p)) =
                       mkView c (Scheduled s p)) ->
  event_ok st' (HeapSender fuel now envs) -> p <= now ->
  exists st'' before after,
    run_event (HeapSender fuel now envs) st' = Some st'' /\
    (exists traps, send_trap (_trap_sender st) (get_definition (_alarm_table_defs st) i s) = Some traps /\
       sent_traps st'' = sent_traps st' ++ before ++ traps ++ after) /\
    view st'' i = Some (mkView s Idle).
Proof.
  intros Hwf Hs Hroom Hv Hex Hun Hok Hp.
  destruct (execution_undisturbed _ _ _ _ _ Hex Hwf Hs Hroom Hv Hun) as (Hwf' & Hs' & Hroom' & Hv' & Hd & Hsd).
  destruct (heap_pass fuel now envs st' Hwf' Hok) as (st'' & l & He & Hdr).
  { unfold room_for in Hroom'. cbn [List.filter length] in Hroom'. lia. }
  assert (i ∈ l) as Hi.
  { apply (drains_order _ _ _ _ _ Hdr Hwf'). rewrite (due_view _ _ _ _ Hv'). by apply Z.leb_le. }
  destruct (drains_sent_one _ _ _ _ _ _ Hdr Hwf' Hi) as (before & after & Hsent).
  destruct (view_scheduled _ _ _ _ _ Hv') as (_ & _ & Hdef).
  exists st'', before, after. split_and!; [simpl; by rewrite He| |].
  - pose proof (sw_views _ Hwf' _ _ Hv') as [_ Hval]. simpl in Hval.
    pose proof (proj2 (sw_defs _ Hwf') _ _ Hval) as [Hkn _].
    pose proof (proj2 (defs_wf_get _ _ _ (proj1 (sw_defs _ Hwf')) Hval)) as Hsev.
    destruct (send_trap_known (_trap_sender st) (get_definition (_alarm_table_defs st) i s)) as [traps Htr];
      [rewrite <- Hd; by rewrite Hsev|].
    exists traps. split; [done|]. rewrite Hsent. unfold alarm_traps.
    by rewrite Hdef, Hd, Hsd, Htr.
  - rewrite (drains_views _ _ _ _ _ Hdr), Hv'. simpl. unfold pop_spec, is_due. simpl.
    by rewrite (proj2 (Z.leb_le _ _) Hp).
Qed.

(** A cancelled timer keeps its pop time. After a change was scheduled and cancelled,
    the same trigger puts the timer back with the pop time of the first: the
    30 second delay does not start again, however late the trigger comes. *)
Theorem cancelled_timer_keeps_pop_time st issuer identifier index sev now c p :
  sched_wf st -> sscanf_u_dot_u identifier = Some (index, sev) ->
  view st index = Some (mkView c (Cancelled sev p)) ->
  is_valid (get_definition (_alarm_table_defs st) index sev) = true ->
  exists st', issue_alarm issuer identifier now st = Some st' /\
    view st' index = Some (mkView c (Scheduled sev p)) /\ pop_times st' index = p.
Proof.
  intros Hwf Hsc Hv Hval.
  pose proof (sw_views _ Hwf _ _ Hv) as [_ Hne]. simpl in Hne.
  destruct (issue_valid issuer identifier index sev now st Hwf Hsc Hval) as (st' & -> & _ & _ & Hview).
  assert (view st' index = Some (mkView c (Scheduled sev p))) as Hv'.
  { rewrite Hview, Hv, Z.eqb_refl. simpl. unfold issue_spec. simpl.
    rewrite (proj2 (Z.eqb_neq _ _) Hne). by rewrite Z.eqb_refl. }
  exists st'. split_and!; [done..|]. by apply view_scheduled in Hv' as (_ & ? & _).
Qed.

(** A resync schedules every alarm whose state is known for the severity
    last sent, replacing a change that was pending to another severity; an
    alarm already scheduled for that severity keeps its pop time. *)
Theorem sync_alarms_schedules st times :
  sched_wf st -> (forall i, 0 <= times i <= UINT64_MAX) ->
  exists st', sync_alarms times st = Some st' /\ sent_traps st' = sent_traps st /\
    forall i v, view st i = Some v ->
      view st' i = Some (if last_sent v =? UNDEFINED_SEVERITY then v
                         else mkView (last_sent v) (Scheduled (last_sent v)
                           match timer v with
                           | Scheduled s p => if s =? last_sent v then p else times i
                           | _ => times i
                           end)).
Proof.
  intros Hwf Ht. destruct (sync_requests times st Hwf) as (st' & -> & Hreq).
  destruct Hreq as (_ & (_ & _ & _ & _ & Hs & _) & Hview). exists st'. split_and!; [done..|].
  intros i v Hv. rewrite Hview, Hv. simpl. f_equal. unfold sync_spec.
  destruct (last_sent v =? UNDEFINED_SEVERITY); [done|]. f_equal.
  unfold ALARM_RESYNC_DELAY. rewrite Z.add_0_r, u64_id by done.
  pose proof (sw_views _ Hwf _ _ Hv) as [_ Hok].
  destruct (timer v) as [|s p|s p]; simpl; [done| |].
  - rewrite (Z.eqb_sym s). destruct (last_sent v =? s) eqn:Hs'; [|done]. by apply Z.eqb_eq in Hs' as ->.
  - by rewrite (proj2 (Z.eqb_neq _ _)) by congruence.
Qed.

(** An INFORM that timed out is sent again 30 seconds later exactly when
    its severity is still the one last sent and no change is scheduled; otherwise, and
    on every other callback, nothing changes. *)
Theorem failed_inform_retried st t op now v :
  let def := trap_correlator t in
  sched_wf st -> sent_wf st -> t ∈ sent_traps st -> 0 <= now -> now + ALARM_RETRY_DELAY <= UINT64_MAX ->
  view st (alarm_index def) = Some v ->
  exists st', alarm_trap_send_callback op def now st = Some st' /\ sent_traps st' = sent_traps st /\
    (forall j, j <> alarm_index def -> view st' j = view st j) /\
    view st' (alarm_index def) =
      Some (if match op with NETSNMP_CALLBACK_OP_TIMED_OUT => true | _ => false end &&
               (last_sent v =? severity def) &&
               match timer v with Scheduled _ _ => false | _ => true end
            then mkView (last_sent v) (Scheduled (severity def) (now + 30000)) else v).
Proof.
  intros def Hwf Hs Ht Hnow Hmax Hv.
  destruct (failed_requests def now st Hwf (Hs t Ht)) as (st' & Hf & _ & (_&_&_&_&Hsent&_) & Hview).
  destruct op; simpl; try (by exists st).
  exists st'. split_and!; [done..| |].
  - intros j Hj. rewrite Hview, (proj2 (Z.eqb_neq _ _)) by done. by destruct (view st j).
  - rewrite Hview, Hv, Z.eqb_refl. simpl. unfold retry_spec.
    rewrite u64_id by (unfold ALARM_RETRY_DELAY in *; lia).
    destruct (timer v), (last_sent v =? severity def); done.
Qed.
End delivery_theorems.

Section agent_theorems.
Context `{AlarmDefLib} `{NetSnmpIndexSpec} `{NetSnmpContainerSpec} `{TimerHeapSpec}.
Implicit Types (st : AlarmScheduler) (e : event).

(** C10: the Alarm Active Table agrees with the scheduler. In every reachable
    state an alarm has a row exactly when the severity last sent for it is a raised
    one, and the row shows the definition of that severity. *)
Theorem active_table_shows_last_sent defs notifications hostname ip n st i m :
  let st0 := agent_start defs notifications hostname ip true true in
  defs_ok defs -> reachable event_env_ok st0 n st ->
  n * Z.of_nat (length (_all_alarms_state st0)) < UINT_MAX ->
  manager i st = Some m ->
  active_view (_active_table st) i =
    if (manager_severity m =? UNDEFINED_SEVERITY) || (manager_severity m =? CLEARED) then None
    else Some (get_definition defs i (manager_severity m)).
Proof.
  intros st0 Hd Hr Hn Hm. destruct (init_active ip true true) as (_ & _ & Hnone & Hc0 & Hreg).
  pose proof (agent_start_wf defs notifications hostname ip true true Hd) as Hwf0.
  assert (alarm_counter (_active_table st0) = 0) as Hc by exact Hc0.
  pose proof (reachable_shows _ _ _ Hr Hwf0 (make_sent_wf _ _ _ _) Hreg (make_shows _ _ _ _ Hnone)) as Hs.
  destruct (reachable_wf _ _ _ _ Hr Hwf0 (make_sent_wf _ _ _ _)) as (_ & _ & _ & Hdefs & _);
    [change (alarm_counter (_active_table st0) + n * Z.of_nat (length (_all_alarms_state st0)) < UINT_MAX); lia|].
  rewrite Hs by (change (alarm_counter (_active_table st0) + n * Z.of_nat (length (_all_alarms_state st0)) < UINT_MAX); lia).
  rewrite (view_manager _ _ _ Hm), Hdefs. done.
Qed.

Lemma change_schedule_signals i sev delay now st st' :
  change_schedule_for_alarm i sev delay now st = Some st' -> cond_signals st' = cond_signals st.
Proof.
  unfold change_schedule_for_alarm, change_schedule, update_pop_time, set_timer, with_manager.
  intros Hc. repeat (apply bind_Some in Hc as (? & _ & Hc) || case_match); by simplify_eq/=.
Qed.

Lemma sync_loop_signals keys times st st' :
  sync_loop keys times st = Some st' -> cond_signals st' = cond_signals st.
Proof.
  revert st. induction keys as [|i keys IH]; intros st; simpl; [by intros [= ->]|].
  intros (m & _ & (st1 & Hst1 & Hl)%bind_Some)%bind_Some. rewrite (IH _ Hl).
  case_match; [by eapply change_schedule_signals|by simplify_eq].
Qed.

Lemma fmap_signal_signals (x : option AlarmScheduler) st' n :
  (forall st1, x = Some st1 -> cond_signals st1 = n) -> signal <$> x = Some st' ->
  cond_signals st' = n + 1.
Proof. intros Hx (st1 & -> & ->)%fmap_Some. simpl. by rewrite (Hx st1). Qed.

(** A trigger, resync or callback either leaves the whole state as it was or
    signals the heap thread's condition variable, once. *)
Lemma request_signals_heap_thread e st st' :
  is_heap_pass e = false -> run_event e st = Some st' ->
  st' = st \/ cond_signals st' = cond_signals st + 1.
Proof.
  assert (forall i sev delay now st1, signal <$> change_schedule_for_alarm i sev delay now st = Some st1 ->
            cond_signals st1 = cond_signals st + 1) as Hch.
  { intros i sev delay now st1. apply fmap_signal_signals. intros ?. apply change_schedule_signals. }
  destruct e as [issuer identifier now|times|op def now|]; simpl; intros He; [| | |done].
  - unfold issue_alarm, remove_outdated_alarm_from_heap.
    intros Hst'. repeat case_match; simplify_eq; eauto.
  - intros Hs. right. revert Hs. apply fmap_signal_signals. intros st1. apply sync_loop_signals.
  - destruct op; simpl; intros Hst'; simplify_eq; eauto.
    unfold handle_failed_alarm in Hst'. repeat case_match; simplify_eq; eauto.
Qed.

Lemma pop_due_more_fuel fuel fuel' now envs st st' :
  pop_due fuel now envs st = Some st' -> (fuel <= fuel')%nat -> pop_due fuel' now envs st = Some st'.
Proof.
  revert fuel' envs st. induction fuel as [|fuel IH]; intros [|fuel'] envs st Hp Hle; simpl in *;
    try lia; destruct (get_next_timer _) as [i|]; try done; destruct (pop_times st i <=? now); try done.
  apply bind_Some in Hp as (st1 & -> & Hp). simpl. apply IH; [done|lia].
Qed.

(** The loop of the heap thread ends: with as much fuel as the heap has
    timers it never runs out, and more fuel changes nothing. *)
Theorem heap_sender_loop_terminates st now envs :
  sched_wf st -> alarm_counter (_active_table st) + Z.of_nat (heap_size st) < UINT_MAX ->
  exists st', forall fuel, (heap_size st <= fuel)%nat -> pop_due fuel now envs st = Some st'.
Proof.
  intros Hwf Hc. destruct (pop_due_drains now (heap_size st) envs st Hwf) as (st' & l & Hp & _); [done..|].
  exists st'. intros fuel Hf. by eapply pop_due_more_fuel.
Qed.
End agent_theorems.

(** ** A sample agent *)

Module ScheduleSample.
Import Sample Reference ReferenceHeap.

Lemma defs_ok_sample : defs_ok Sample.defs.
Proof.
  apply defs_ok_checked; [by apply initialize_wf|]. by vm_compute.
Qed.

Definition env : row_env := mkRowEnv true (mkTm 117 3 5 12 30 15) 0.
Definition pass (now : Z) : event := HeapSender 3 now (fun _ => env).

Definition start : AlarmScheduler :=
  agent_start Sample.defs [(RFC3877, tt); (ENTERPRISE, tt)] "host" "10.0.0.1" true true.

Definition after (e : event) (st : AlarmScheduler) : AlarmScheduler := default st (run_event e st).

(** The critical alarm 1000 was raised and sent; its clearing was asked for
    at 1 second; a second raise at 2 seconds cancelled it. *)
Definition raised : AlarmScheduler := after (pass 0) (after (Issue "" "1000.3" 0) start).
Definition clearing : AlarmScheduler := after (Issue "" "1000.1" 1000) raised.
Definition cancelled : AlarmScheduler := after (Issue "" "1000.3" 2000) clearing.

(** What the witnesses need of a state, after [k] rows at most. *)
Definition fit (k : Z) (st : AlarmScheduler) : Prop :=
  sched_wf st /\ sent_wf st /\ length (_all_alarms_state st) = 3%nat /\
  alarm_counter (_active_table st) <= k.

Lemma fit_start : fit 0 start.
Proof.
  split_and!; [apply agent_start_wf, defs_ok_sample|apply make_sent_wf|by vm_compute|by vm_compute].
Qed.

Lemma fit_event k st e :
  fit k st -> k < 1000 -> event_ok st e ->
  run_event e st = Some (after e st) /\ fit (k + 3) (after e st).
Proof.
  intros (Hwf & Hs & Hl & Hk) Hlt Hok.
  destruct (run_event_result e st Hwf Hs Hok) as (st' & He & Hres).
  { intros _. rewrite Hl. unfold_ints. lia. }
  unfold after. rewrite He. split; [done|].
  destruct Hres as (? & ? & _ & _ & _ & Hkeys & _ & Hc & _). split_and!; [done..| |].
  - rewrite <- Hl, <- !(length_fmap fst). simpl. by rewrite Hkeys.
  - simpl. rewrite Hl in Hc. destruct (is_heap_pass e); lia.
Qed.

Lemma fit_raised : fit 6 raised.
Proof.
  destruct (fit_event 0 start (Issue "" "1000.3" 0) fit_start) as [_ H1]; [lia|done|].
  apply (fit_event _ _ (pass 0) H1); [lia|]. unfold event_ok, pass. destruct H1 as (_ & _ & -> & _). lia.
Qed.

Lemma fit_clearing : fit 9 clearing.
Proof. by apply (fit_event _ _ (Issue "" "1000.1" 1000) fit_raised). Qed.

Lemma fit_cancelled : fit 12 cancelled.
Proof. by apply (fit_event _ _ (Issue "" "1000.3" 2000) fit_clearing). Qed.

Lemma fit_room k st now : fit k st -> k < 1000 -> counter_room (pass now) st.
Proof. intros (_ & _ & Hl & Hk) Hlt _. rewrite Hl. unfold_ints. lia. Qed.
End ScheduleSample.

(** ** Concrete runs *)

Import Sample Reference ReferenceHeap ScheduleSample.

Lemma scheduler_safe_witness : exists st, reachable (fun _ => True) start 1 st /\ is_Some (run_event (pass 31000) st).
Proof.
  pose proof fit_start as H0.
  destruct (fit_event 0 start (Issue "" "1000.3" 0) H0) as [He1 H1]; [lia|exact I|].
  destruct (fit_event _ _ (pass 0) H1) as [He2 H2];
    [lia|unfold event_ok, pass; destruct H1 as (_ & _ & -> & _); lia|].
  assert (reachable (fun _ => True) start 1 raised) as Hr.
  { eapply (reachable_step _ _ 0 _ (pass 0)); [| |exact I|exact He2].
    - eapply (reachable_step _ _ 0 _ (Issue "" "1000.3" 0)); [constructor|exact I|exact I|exact He1].
    - unfold event_ok, pass. destruct H1 as (_ & _ & -> & _). lia. }
  exists raised. split; [exact Hr|].
  apply (scheduler_safe Sample.defs [(RFC3877, tt); (ENTERPRISE, tt)] "host" "10.0.0.1" true true
           (fun _ => True) 1 raised (pass 31000)); [exact defs_ok_sample|exact Hr| |].
  - destruct fit_raised as (_ & _ & Hl & _). unfold event_ok, pass. rewrite Hl. lia.
  - vm_compute. reflexivity.
Defined.

Lemma scheduler_refines_spec_witness :
  view raised 1000 = Some (mkView 3 Idle) /\
  exists st', run_event (Issue "" "1000.1" 1000) raised = Some st' /\
              view st' 1000 = Some (mkView 3 (Scheduled 1 31000)).
Proof.
  assert (view raised 1000 = Some (mkView 3 Idle)) as Hv by (vm_compute; reflexivity).
  split; [exact Hv|]. destruct fit_raised as (Hwf & Hs & _).
  destruct (scheduler_refines_spec raised (Issue "" "1000.1" 1000)) as (st' & He & _ & _ & _ & _ & _ & Hview);
    [exact Hwf|exact Hs|exact I|by intros [=]|].
  exists st'. split; [exact He|]. rewrite Hview, Hv. vm_compute. reflexivity.
Defined.

Lemma heap_sender_sends_due_witness :
  exists st' (l : list Z), heap_sender_iteration 3 31000 (fun _ => env) clearing = Some (st', WaitForSignal) /\
    1000 ∈ l /\ length (sent_traps st') = 4%nat.
Proof.
  destruct (heap_sender_sends_due clearing 3 31000 (fun _ => env)) as (st' & l & He & Hl & _).
  - apply fit_clearing.
  - destruct fit_clearing as (_ & _ & -> & _). lia.
  - apply (fit_room 9), eq_refl. apply fit_clearing.
  - assert ((fun r => (bool_decide (r.2 = WaitForSignal), length (sent_traps r.1))) <$>
      heap_sender_iteration 3 31000 (fun _ => env) clearing = Some (true, 4%nat)) as Hr
      by (vm_compute; reflexivity).
    rewrite He in Hr. injection Hr as Hw Hlen. apply bool_decide_eq_true in Hw. simpl in Hw.
    exists st', l. rewrite Hw in He. split_and!; [exact He|apply Hl; vm_compute; reflexivity|exact Hlen].
Defined.

Lemma issue_alarm_schedules_witness :
  exists st' t, issue_alarm "" "2000.3" 5 raised = Some st' /\
    view st' 2000 = Some (mkView 0 t) /\ t = Scheduled 3 5.
Proof.
  destruct (issue_alarm_schedules raised "" "2000.3" 2000 3 5 (mkView 0 Idle))
    as (st' & t & He & _ & _ & _ & Hv & _ & Hother);
    [apply fit_raised|vm_compute; reflexivity|vm_compute; reflexivity|vm_compute; reflexivity|lia|
     unfold ALARM_REDUCED_DELAY; unfold_ints; lia|].
  exists st', t. split_and!; [exact He|exact Hv|].
  destruct Hother as (p & -> & _ & Hp); [discriminate|]. f_equal. apply Hp. split; discriminate.
Defined.

Lemma issue_alarm_rejects_witness :
  issue_alarm "" "1000-3" 5 raised = Some raised /\ issue_alarm "" "6000.3" 5 raised = Some raised.
Proof.
  split; apply issue_alarm_rejects; intros index sev Hsc.
  - vm_compute in Hsc. discriminate Hsc.
  - assert (sscanf_u_dot_u "6000.3" = Some (6000, 3)) as Hsc' by (vm_compute; reflexivity).
    rewrite Hsc' in Hsc. injection Hsc as <- <-. vm_compute. reflexivity.
Defined.

Lemma printed_identifier_validated_witness :
  validate_alarm_trigger (dec 2000 +:+ "." +:+ dec 4) raised = Some (2000, 4).
Proof.
  pose proof (printed_identifier_validated raised 2000 4) as Hv. rewrite Hv.
  - vm_compute. reflexivity.
  - unfold in_u32. unfold_ints. lia.
  - unfold in_u32. unfold_ints. lia.
Defined.

Lemma flicker_suppressed_witness :
  exists st1 st2 st3 new, issue_alarm "" "1000.1" 1000 raised = Some st1 /\
    issue_alarm "" "1000.3" 2000 st1 = Some st2 /\ run_event (pass 99000) st2 = Some st3 /\
    sent_traps st3 = sent_traps raised ++ new /\
    (forall t, t ∈ new -> alarm_index (trap_correlator t) <> 1000) /\
    exists t, view st3 1000 = Some (mkView 3 t).
Proof.
  apply (flicker_suppressed raised "" "1000.1" "1000.3" 1000 1 1000 2000 (mkView 3 Idle) 3 99000 (fun _ => env)).
  - apply fit_raised.
  - apply (fit_room 6); [apply fit_raised|reflexivity].
  - destruct fit_raised as (_ & _ & -> & _). lia.
  - vm_compute. reflexivity.
  - reflexivity.
  - vm_compute. reflexivity.
  - discriminate.
  - vm_compute. reflexivity.
  - vm_compute. reflexivity.
  - vm_compute. reflexivity.
Defined.

Lemma scheduled_alarm_delivered_witness :
  exists st'' before after, run_event (pass 31000) clearing = Some st'' /\
    (exists traps, send_trap (_trap_sender clearing) (get_definition (_alarm_table_defs clearing) 1000 1) =
       Some traps /\ sent_traps st'' = sent_traps clearing ++ before ++ traps ++ after) /\
    view st'' 1000 = Some (mkView 1 Idle).
Proof.
  apply (scheduled_alarm_delivered clearing [] clearing 1000 3 1 31000 3 31000 (fun _ => env)).
  - apply fit_clearing.
  - apply fit_clearing.
  - destruct fit_clearing as (_ & _ & Hl & Hc). unfold room_for. rewrite Hl.
    cbn [List.filter length]. unfold_ints. lia.
  - vm_compute. reflexivity.
  - constructor.
  - by intros e ?%not_elem_of_nil.
  - unfold event_ok. destruct fit_clearing as (_ & _ & -> & _). lia.
  - lia.
Defined.

(** The clearing asked for at 40 seconds is due at once: its 30 seconds count
    from the one asked for at 1 second and cancelled at 2 seconds. *)
Lemma cancelled_timer_keeps_pop_time_witness :
  exists st', issue_alarm "" "1000.1" 40000 cancelled = Some st' /\
    view st' 1000 = Some (mkView 3 (Scheduled 1 31000)) /\ pop_times st' 1000 = 31000.
Proof.
  apply (cancelled_timer_keeps_pop_time cancelled "" "1000.1" 1000 1 40000 3 31000).
  - apply fit_cancelled.
  - vm_compute. reflexivity.
  - vm_compute. reflexivity.
  - vm_compute. reflexivity.
Defined.

(** A resync at 5 seconds replaces the clearing pending for 31 seconds. *)
Lemma sync_alarms_schedules_witness :
  exists st', sync_alarms (fun _ => 5000) clearing = Some st' /\
    view st' 1000 = Some (mkView 3 (Scheduled 3 5000)).
Proof.
  destruct (sync_alarms_schedules clearing (fun _ => 5000)) as (st' & He & _ & Hv).
  - apply fit_clearing.
  - intros _. unfold_ints. lia.
  - exists st'. split; [exact He|]. rewrite (Hv 1000 (mkView 3 (Scheduled 1 31000))); vm_compute; reflexivity.
Defined.

Lemma failed_inform_retried_witness :
  exists t st', t ∈ sent_traps raised /\
    alarm_trap_send_callback NETSNMP_CALLBACK_OP_TIMED_OUT (trap_correlator t) 15000 raised = Some st' /\
    view st' 1000 = Some (mkView 3 (Scheduled 3 45000)).
Proof.
  assert (exists t l, sent_traps raised = t :: l /\
            (alarm_index (trap_correlator t), severity (trap_correlator t)) = (1000, 3)) as (t & l & Hl & Hd).
  { destruct (sent_traps raised) as [|t l] eqn:Hs; [vm_compute in Hs; discriminate Hs|].
    exists t, l. split; [reflexivity|].
    assert ((fun t => (alarm_index (trap_correlator t), severity (trap_correlator t))) <$>
      head (sent_traps raised) = Some (1000, 3)) as Hh by (vm_compute; reflexivity).
    rewrite Hs in Hh. by injection Hh as -> ->. }
  injection Hd as Hi Hsev.
  destruct (failed_inform_retried raised t NETSNMP_CALLBACK_OP_TIMED_OUT 15000 (mkView 3 Idle))
    as (st' & He & _ & _ & Hv).
  - apply fit_raised.
  - apply fit_raised.
  - rewrite Hl. by left.
  - lia.
  - unfold ALARM_RETRY_DELAY. unfold_ints. lia.
  - rewrite Hi. vm_compute. reflexivity.
  - exists t, st'. split_and!; [rewrite Hl; by left|exact He|].
    rewrite Hi, Hsev in Hv. rewrite Hv. reflexivity.
Defined.

Lemma heap_sender_loop_terminates_witness :
  heap_size clearing = 1%nat /\
  exists st', forall fuel, (1 <= fuel)%nat -> pop_due fuel 31000 (fun _ => env) clearing = Some st'.
Proof.
  assert (heap_size clearing = 1%nat) as Hs by (vm_compute; reflexivity). split; [exact Hs|].
  rewrite <- Hs. apply heap_sender_loop_terminates; [apply fit_clearing|].
  destruct fit_clearing as (_ & _ & _ & Hc). rewrite Hs. unfold_ints. lia.
Defined.

Lemma active_table_shows_last_sent_witness :
  active_view (_active_table raised) 1000 = Some (get_definition Sample.defs 1000 3) /\
  active_view (_active_table raised) 2000 = None.
Proof.
  destruct (fit_event 0 start (Issue "" "1000.3" 0) fit_start) as [He1 H1]; [lia|exact I|].
  assert (event_ok (after (Issue "" "1000.3" 0) start) (pass 0)) as Hok
    by (unfold event_ok, pass; destruct H1 as (_ & _ & -> & _); lia).
  destruct (fit_event _ _ (pass 0) H1) as [He2 _]; [lia|exact Hok|].
  assert (reachable event_env_ok start 1 raised) as Hr.
  { eapply (reachable_step _ _ 0 _ (pass 0)); [|exact Hok| |exact He2].
    - eapply (reachable_step _ _ 0 _ (Issue "" "1000.3" 0)); [constructor|exact I|exact I|exact He1].
    - intros n. split; [reflexivity|]. intros c. eexists. reflexivity. }
  assert (forall i m, manager i raised = Some m -> active_view (_active_table raised) i =
    if (manager_severity m =? UNDEFINED_SEVERITY) || (manager_severity m =? CLEARED) then None
    else Some (get_definition Sample.defs i (manager_severity m))) as Hshow.
  { intros i m Hm.
    apply (active_table_shows_last_sent Sample.defs [(RFC3877, tt); (ENTERPRISE, tt)] "host" "10.0.0.1" 1);
      [exact defs_ok_sample|exact Hr|vm_compute; reflexivity|exact Hm]. }
  assert (manager_severity <$> manager 1000 raised = Some 3) as H1000 by (vm_compute; reflexivity).
  assert (manager_severity <$> manager 2000 raised = Some 0) as H2000 by (vm_compute; reflexivity).
  apply fmap_Some in H1000 as (m1 & Hm1 & Hs1), H2000 as (m2 & Hm2 & Hs2).
  rewrite (Hshow _ _ Hm1), (Hshow _ _ Hm2), <- Hs1, <- Hs2. split; reflexivity.
Defined.
