(* ===== verification/Oid.v ===== *)
(** Object identifiers and address indexes: [src/oid.cpp], [src/oid_inet_addr.cpp]
    and their headers.

    An [OID] is a vector of [oid]s ([unsigned long]); the constructors and
    [append]s build one from numbers, dotted strings and internet addresses.
    [inet_pton] is a parameter: the bytes of an address in network order. *)

From S2P Require Export CLib NetSnmp.

(** ** Internet addresses *)

(** [inet_pton(AF_INET, ..)] and [inet_pton(AF_INET6, ..)]: the bytes written
    when the result is 1. *)
Class InetPton := {
  inet_pton4 : string -> option (list Z);
  inet_pton6 : string -> option (list Z);
}.

(** They write a [struct in_addr] and a [struct in6_addr]. *)
Class InetPtonSpec `{InetPton} := {
  inet_pton4_bytes : forall s b, inet_pton4 s = Some b -> length b = 4%nat /\ Forall (fun x => 0 <= x < 256) b;
  inet_pton6_bytes : forall s b, inet_pton6 s = Some b -> length b = 16%nat /\ Forall (fun x => 0 <= x < 256) b;
}.

Inductive addr_type := unknown | ipv4 | ipv6.

Definition addr_type_value (t : addr_type) : Z :=
  match t with unknown => 0 | ipv4 => 1 | ipv6 => 2 end.

(** [_addr] holds the bytes of the member of the union last written. *)
Record OIDInetAddr := mkOIDInetAddr {
  _type : addr_type;
  _addr : list Z;
}.

(** [OIDInetAddr::setAddr] on a new object. *)
Definition setAddr `{InetPton} (addrStr : string) : OIDInetAddr :=
  match inet_pton4 (c_str addrStr) with
  | Some b => mkOIDInetAddr ipv4 b
  | None =>
    match inet_pton6 (c_str addrStr) with
    | Some b => mkOIDInetAddr ipv6 b
    | None => mkOIDInetAddr unknown []
    end
  end.

Definition isValid (a : OIDInetAddr) : bool :=
  match _type a with unknown => false | _ => true end.

(** [OIDInetAddr::toOIDBytes]: type, length, and that many bytes of the union. *)
Definition toOIDBytes (a : OIDInetAddr) : list Z :=
  if isValid a then
    let addrLen := match _type a with ipv4 => 4 | _ => 16 end in
    addr_type_value (_type a) :: addrLen :: take (Z.to_nat addrLen) (_addr a)
  else [].

(** ** Object identifiers *)

Record OID := mkOID { _oids : oids }.

#[export] Instance OID_eq_dec : EqDecision OID.
Proof. solve_decision. Defined.

Definition OID_empty : OID := mkOID [].

(** [append(oid)]: the argument converted to [unsigned long]. *)
Definition append_oid (o : OID) (x : Z) : OID := mkOID (_oids o ++ [u64 x]).

(** [append(oid*, int)] *)
Definition append_oids (o : OID) (xs : list Z) : OID := fold_left append_oid xs o.

(** [append(std::string)]: the non-empty tokens between dots, read by [atoi]. *)
Definition append_string (o : OID) (oidstr : string) : OID :=
  fold_left (fun o tok => match tok with
                          | EmptyString => o
                          | _ => append_oid o (atoi (c_str tok))
                          end) (split_on "."%char oidstr) o.

(** [append(OIDInetAddr)] *)
Definition append_addr (o : OID) (a : OIDInetAddr) : OID := mkOID (_oids o ++ toOIDBytes a).

(** The constructors: from a number, an array, a string or an address, and from a
    parent and one of these. *)
Definition OID_of_oid (x : Z) : OID := append_oid OID_empty x.
Definition OID_child (parent_oid : OID) (x : Z) : OID := append_oid parent_oid x.
Definition OID_of_oids (xs : list Z) : OID := append_oids OID_empty xs.
Definition OID_descendant_oids (parent_oid : OID) (xs : list Z) : OID := append_oids parent_oid xs.
Definition OID_of_string (oidstr : string) : OID := append_string OID_empty oidstr.
Definition OID_descendant (parent_oid : OID) (oidstr : string) : OID := append_string parent_oid oidstr.
Definition OID_of_addr (oid_addr : OIDInetAddr) : OID := append_addr OID_empty oid_addr.
Definition OID_descendant_addr (parent_oid : OID) (oid_addr : OIDInetAddr) : OID := append_addr parent_oid oid_addr.

(** [get_ptr], the array it points to, and [get_len], its length as an [int]. *)
Definition get_ptr (o : OID) : oids := _oids o.
Definition get_len (o : OID) : Z := s32 (Z.of_nat (length (_oids o))).

(** [to_string] *)
Definition OID_to_string (o : OID) : string :=
  fold_right (fun x s => "." +:+ dec x +:+ s) "" (_oids o).

(** [dump]: what it prints to [stderr]. *)
Definition OID_dump (o : OID) : string := OID_to_string o.

Section comparisons.
Context `{NetSnmpOids}.

(** [equals] *)
Definition OID_equals (a b : OID) : bool := netsnmp_oid_equals (_oids a) (_oids b) =? 0.

(** [subtree_contains] *)
Definition subtree_contains (a b : OID) : bool := snmp_oidtree_compare (_oids a) (_oids b) =? 0.
End comparisons.

(** ** Lemmas *)

Lemma append_oids_app o xs : Forall (fun x => 0 <= x <= ULONG_MAX) xs ->
  append_oids o xs = mkOID (_oids o ++ xs).
Proof.
  revert o. unfold append_oids. induction xs as [|x xs IH]; intros o Hx; simpl.
  { destruct o. by rewrite app_nil_r. }
  apply Forall_cons in Hx as [Hx Hxs]. rewrite IH by done. unfold append_oid. simpl.
  unfold u64. rewrite wrap_id by (unfold_ints; lia). by rewrite <- app_assoc.
Qed.

(** The arcs a dotted string denotes. *)
Definition string_arcs (s : string) : oids :=
  (fun tok => u64 (atoi (c_str tok))) <$> List.filter (fun tok => negb (String.eqb tok "")) (split_on "."%char s).

Lemma append_string_arcs o s : append_string o s = mkOID (_oids o ++ string_arcs s).
Proof.
  unfold append_string, string_arcs. revert o. induction (split_on "."%char s) as [|tok l IH]; intros o; simpl.
  { destruct o. by rewrite app_nil_r. }
  destruct tok as [|c tok]; simpl; [apply IH|]. rewrite IH. simpl. by rewrite <- app_assoc.
Qed.

Lemma split_on_app sep s t :
  split_on sep (s +:+ String sep t) = split_on sep s ++ split_on sep t.
Proof.
  induction s as [|c s IH].
  { change ("" +:+ String sep t) with (String sep t). simpl. by case_bool_decide. }
  change (String c s +:+ String sep t) with (String c (s +:+ String sep t)). simpl. rewrite IH.
  case_bool_decide; [done|].
  destruct (split_on sep s) as [|tok l] eqn:Hs; [|done].
  destruct s as [|c' s]; simpl in Hs; [done|]. case_bool_decide; [done|]. by destruct (split_on sep s).
Qed.

Lemma string_arcs_app s t : string_arcs (s +:+ String "." t) = string_arcs s ++ string_arcs t.
Proof. unfold string_arcs. by rewrite split_on_app, List.filter_app, fmap_app. Qed.

(** The decimal digits of a number are one token without a dot or a NUL. *)
Definition plain_token (s : string) : Prop := split_on "."%char s = [s] /\ c_str s = s.

Lemma plain_cons c s : c <> "."%char -> code c <> 0 -> plain_token s -> plain_token (String c s).
Proof.
  intros Hdot Hnul [Hsp Hc]. split; simpl.
  - rewrite bool_decide_eq_false_2 by done. by rewrite Hsp.
  - by rewrite (proj2 (Z.eqb_neq _ _) Hnul), Hc.
Qed.

Lemma digit_char_plain d : 0 <= d < 10 -> digit_char d <> "."%char /\ code (digit_char d) <> 0.
Proof.
  intros Hd. assert (d = 0 \/ d = 1 \/ d = 2 \/ d = 3 \/ d = 4 \/ d = 5 \/ d = 6 \/ d = 7 \/ d = 8 \/ d = 9)
    as [->|[->|[->|[->|[->|[->|[->|[->|[->| ->]]]]]]]]] by lia; done.
Qed.

Lemma dec_go_plain fuel n acc : 0 <= n -> plain_token acc -> plain_token (dec_go fuel n acc).
Proof.
  revert n acc. induction fuel as [|fuel IH]; intros n acc Hn Hacc; simpl; [done|].
  assert (plain_token (String (digit_char (n mod 10)) acc)) as Hp.
  { destruct (digit_char_plain (n mod 10)); [apply Z.mod_pos_bound; lia|]. by apply plain_cons. }
  destruct (n <? 10); [done|]. apply IH; [apply Z.div_pos; lia|done].
Qed.

Lemma string_arcs_dec n : 0 <= n <= ULONG_MAX -> string_arcs (dec n) = [u64 (atoi (dec n))].
Proof.
  intros Hn. unfold string_arcs.
  destruct (dec_go_plain 20 n "" (proj1 Hn)) as [Hs Hc]; [done|].
  change (dec_go 20 n "") with (dec n) in *. rewrite Hs.
  destruct (dec_go_head 19 n "") as (c & s' & Heq & _); [lia|].
  change (dec_go 20 n "") with (dec n) in Heq. rewrite Heq in *. simpl. simpl in Hc. by rewrite Hc.
Qed.

Lemma string_arcs_after xs s :
  string_arcs (s +:+ OID_to_string (mkOID xs)) = string_arcs s ++ string_arcs (OID_to_string (mkOID xs)).
Proof.
  unfold OID_to_string. simpl. destruct xs as [|x xs]; simpl.
  - rewrite app_nil_r. f_equal. induction s as [|c s IH]; [done|].
    change (String c s +:+ "") with (String c (s +:+ "")). by rewrite IH.
  - set (t := dec x +:+ _).
    change ("." +:+ t) with (String "." t). rewrite string_arcs_app.
    change (String "." t) with ("" +:+ String "." t). by rewrite string_arcs_app.
Qed.

Lemma atoi_dec_wide n : 0 <= n <= UINT_MAX -> atoi (dec n) = s32 n.
Proof.
  intros Hn. unfold atoi, dec. rewrite scan_int_dec by (unfold_ints; done || lia).
  unfold clamp. by rewrite Z.min_r, Z.max_r by (unfold_ints; lia).
Qed.

(** ** Theorems *)

(** An object identifier printed by [to_string] is read back by the string
    constructor, whenever its arcs fit an [int]. *)
Theorem oid_string_roundtrip o :
  Forall (fun x => 0 <= x <= INT_MAX) (_oids o) -> OID_of_string (OID_to_string o) = o.
Proof.
  intros Ho. unfold OID_of_string. rewrite append_string_arcs. destruct o as [xs]. simpl in *.
  f_equal. induction Ho as [|x xs Hx Hxs IH]; [done|].
  change (OID_to_string (mkOID (x :: xs))) with ("" +:+ String "." (dec x +:+ OID_to_string (mkOID xs))).
  rewrite string_arcs_app, string_arcs_after, IH, string_arcs_dec by (unfold_ints; lia).
  rewrite atoi_dec by done. unfold u64. by rewrite wrap_id by (unfold_ints; lia).
Qed.

(** A dotted string is appended arc by arc: appending a longer string is
    appending its two halves in turn, and a leading dot changes nothing. *)
Theorem append_string_concat o s t :
  append_string o (s +:+ "." +:+ t) = append_string (append_string o s) t /\
  append_string o ("." +:+ s) = append_string o s.
Proof.
  rewrite !append_string_arcs. change ("." +:+ t) with (String "." t).
  rewrite string_arcs_app, app_assoc. split; [done|].
  change ("." +:+ s) with ("" +:+ String "." s). by rewrite string_arcs_app.
Qed.

(** C40: an arc of the 32-bit range SNMP allows is read exactly from a string
    only up to [INT_MAX]; [atoi] makes a larger one negative and its conversion to [oid] a
    number near 2^64. *)
Theorem append_string_arc_range o n :
  0 <= n <= UINT_MAX ->
  append_string o (dec n) = append_oid o (if n <=? INT_MAX then n else n - 2 ^ 32) /\
  (append_string o (dec n) = append_oid o n <-> n <= INT_MAX).
Proof.
  intros Hn. rewrite append_string_arcs, string_arcs_dec by (unfold_ints; lia).
  rewrite atoi_dec_wide by done. unfold append_oid.
  assert (s32 n = if n <=? INT_MAX then n else n - 2 ^ 32) as ->.
  { unfold s32, swrap. destruct (n <=? INT_MAX) eqn:Hle; split_bools; unfold_ints.
    - rewrite Z.mod_small; lia.
    - replace (n + 2 ^ (32 - 1)) with (n - 2 ^ 31 + 1 * 2 ^ 32) by lia.
      rewrite Z.mod_add by lia. rewrite Z.mod_small; lia. }
  split; [done|]. destruct (n <=? INT_MAX) eqn:Hle; split_bools; [done|].
  split; [|lia]. intros [= Heq%app_inj_tail]. destruct Heq as [_ Heq]. exfalso.
  unfold u64 in Heq. rewrite (wrap_id 64 n) in Heq by (unfold_ints; lia).
  unfold wrap in Heq. replace (n - 2 ^ 32) with (n - 2 ^ 32 + 2 ^ 64 + (-1) * 2 ^ 64) in Heq by lia.
  rewrite Z.mod_add in Heq by lia. rewrite Z.mod_small in Heq; unfold_ints; lia.
Qed.

Section addresses.
Context `{InetPtonSpec}.

Lemma setAddr_bytes s :
  isValid (setAddr s) = true ->
  toOIDBytes (setAddr s) =
    addr_type_value (_type (setAddr s)) :: Z.of_nat (length (_addr (setAddr s))) :: _addr (setAddr s) /\
  Forall (fun x => 0 <= x < 256) (toOIDBytes (setAddr s)).
Proof.
  unfold setAddr, toOIDBytes.
  destruct (inet_pton4 (c_str s)) as [b|] eqn:H4; [|destruct (inet_pton6 (c_str s)) as [b|] eqn:H6; [|done]];
    intros _; simpl;
    [destruct (inet_pton4_bytes _ _ H4) as [Hl Hb]|destruct (inet_pton6_bytes _ _ H6) as [Hl Hb]];
    rewrite Hl, take_ge by lia; (split; [done|]); repeat constructor; done || lia.
Qed.

(** The index RFC 4001 gives an address: InetAddressType, the length of InetAddress and its
    octets. *)
Definition address_index (text : string) : option (list Z) :=
  match inet_pton4 text, inet_pton6 text with
  | Some octets, _ => Some (1 :: 4 :: octets)
  | None, Some octets => Some (2 :: 16 :: octets)
  | None, None => None
  end.

Lemma toOIDBytes_index s : toOIDBytes (setAddr s) = default [] (address_index (c_str s)).
Proof.
  unfold setAddr, toOIDBytes, address_index.
  destruct (inet_pton4 (c_str s)) as [b|] eqn:H4; [|destruct (inet_pton6 (c_str s)) as [b|] eqn:H6; [|done]]; cbn;
    [destruct (inet_pton4_bytes _ _ H4) as [Hl _]|destruct (inet_pton6_bytes _ _ H6) as [Hl _]].
  - destruct b as [|? [|? [|? [|? [|? ?]]]]]; try discriminate Hl. done.
  - by rewrite (take_ge b) by (change (Pos.to_nat 16) with 16%nat; lia).
Qed.

Lemma isValid_index s : isValid (setAddr s) = true <-> is_Some (address_index (c_str s)).
Proof.
  unfold setAddr, address_index. destruct (inet_pton4 (c_str s)); [by split; [eexists|]|].
  destruct (inet_pton6 (c_str s)); [by split; [eexists|]|]. by split; [|intros []].
Qed.

(** C39: the index of an address is what RFC 4001 prescribes for InetAddressType and InetAddress:
    1, 4 and the four octets of an IPv4 address, 2, 16 and the sixteen of an IPv6 address,
    and for what is neither the address is not valid and nothing is appended. It delimits
    itself: when the indexes of two valid addresses are continued to the same identifier,
    the addresses and the continuations are the same. *)
Theorem address_index_self_delimiting a b xs ys :
  toOIDBytes (setAddr a) = default [] (address_index (c_str a)) /\
  (isValid (setAddr a) = true <-> is_Some (address_index (c_str a))) /\
  Forall (fun x => 0 <= x < 256) (toOIDBytes (setAddr a)) /\
  (isValid (setAddr a) = true -> isValid (setAddr b) = true ->
   toOIDBytes (setAddr a) ++ xs = toOIDBytes (setAddr b) ++ ys ->
   setAddr a = setAddr b /\ xs = ys).
Proof.
  split_and!; [apply toOIDBytes_index|apply isValid_index| |].
  - destruct (isValid (setAddr a)) eqn:Ha; [by apply setAddr_bytes|]. unfold toOIDBytes. by rewrite Ha.
  - intros Ha Hb Heq. destruct (setAddr_bytes a Ha) as [Ea _], (setAddr_bytes b Hb) as [Eb _]. rewrite Ea, Eb in Heq.
    destruct (setAddr a) as [ta la], (setAddr b) as [tb lb]. simpl in *. injection Heq as Ht Hl Hrest.
    apply app_inj_1 in Hrest as [-> ->]; [|lia]. split; [|done]. f_equal. by destruct ta, tb.
Qed.
End addresses.

(** ** Witnesses *)

(** An [inet_pton] of dotted quads in canonical form and of one IPv6 address. *)
Module InetReference.
Definition quad_byte (tok : string) : option Z :=
  let n := atoi tok in if (0 <=? n) && (n <? 256) && String.eqb (dec n) tok then Some n else None.

#[export] Instance inet_impl : InetPton := {
  inet_pton4 s := l ← mapM quad_byte (split_on "."%char s);
                  if Nat.eqb (length l) 4 then Some l else None;
  inet_pton6 s := if String.eqb s "::1" then Some (replicate 15 0 ++ [1]) else None;
}.

#[export] Instance inet_spec : InetPtonSpec.
Proof.
  split; simpl; intros s b.
  - intros (l & Hl & Hb)%bind_Some. destruct (Nat.eqb_spec (length l) 4); simplify_eq. split; [done|].
    apply mapM_Some in Hl. clear -Hl. induction Hl as [|x y l k Hxy Hl IH]; constructor; [|done].
    unfold quad_byte in Hxy. case_match; simplify_eq. split_bools. lia.
  - case_match; intros; simplify_eq. split; [done|]. repeat constructor; lia.
Qed.
End InetReference.

Lemma oid_string_roundtrip_witness :
  OID_to_string (mkOID [1; 2; 826; INT_MAX]) = ".1.2.826.2147483647" /\
  OID_of_string (OID_to_string (mkOID [1; 2; 826; INT_MAX])) = mkOID [1; 2; 826; INT_MAX].
Proof.
  split; [reflexivity|]. apply oid_string_roundtrip. simpl. unfold INT_MAX. repeat constructor; lia.
Defined.

Lemma append_string_arc_range_witness :
  append_string OID_empty (dec (INT_MAX + 1)) =
    append_oid OID_empty (if INT_MAX + 1 <=? INT_MAX then INT_MAX + 1 else INT_MAX + 1 - 2 ^ 32) /\
  (append_string OID_empty (dec (INT_MAX + 1)) = append_oid OID_empty (INT_MAX + 1) <-> INT_MAX + 1 <= INT_MAX).
Proof. apply append_string_arc_range. unfold INT_MAX, UINT_MAX. lia. Defined.

Import InetReference.

Lemma address_index_self_delimiting_witness :
  toOIDBytes (setAddr "10.0.0.1") = [1; 4; 10; 0; 0; 1] /\
  toOIDBytes (setAddr "::1") = [2; 16; 0; 0; 0; 0; 0; 0; 0; 0; 0; 0; 0; 0; 0; 0; 0; 1] /\
  setAddr "10.0.0.1" = setAddr "10.0.0.1" /\ [7] = [7].
Proof.
  destruct (address_index_self_delimiting "10.0.0.1" "10.0.0.1" [7] [7]) as (H4 & _ & _ & Hd).
  destruct (address_index_self_delimiting "::1" "::1" [] []) as (H6 & _).
  split; [exact H4|]. split; [exact H6|]. apply Hd; reflexivity.
Defined.
