(* ===== verification/OidTree.v ===== *)
(** The statistics tree: [src/oidtree.cpp] and its header.

    [OIDTree] is a [std::map] from object identifiers to [int]s, ordered by
    [OIDCompare]; its operations run under a recursive mutex, so each is one
    step. The specification is a finite map with the order of object
    identifiers; [walk] is what a manager sees by repeated GETNEXT. *)

From S2P Require Export StdMap Oid.

Section tree.
Context `{NetSnmpOids}.

(** [OIDCompare] *)
#[export] Instance OIDCompare : Comparator OID := fun a b =>
  snmp_oid_compare (_oids a) (_oids b) =? -1.

(** [OIDMap] *)
Definition OIDMap : Type := smap OID Z.

(** [get]: the result, when there is one. *)
Definition tree_get (requested_oid : OID) (t : OIDMap) : option Z := find_key requested_oid t.

(** [get_next] *)
Definition tree_get_next (requested_oid : OID) (t : OIDMap) : option (OID * Z) :=
  upper_bound requested_oid t.

(** [set] *)
Definition tree_set (key : OID) (value : Z) (t : OIDMap) : OIDMap := assign key value t.

(** [remove] *)
Definition tree_remove (key : OID) (t : OIDMap) : OIDMap := erase key t.

(** [remove_subtree]: the loop runs over a copy of the map. *)
Definition remove_subtree (root_oid : OID) (t : OIDMap) : OIDMap :=
  erase_if (subtree_contains root_oid) t.

(** [replace_subtree] *)
Definition replace_subtree (root_oid : OID) (update t : OIDMap) : OIDMap :=
  insert_range update (remove_subtree root_oid t).

(** [dump_oidmap] and [dump]: the lines printed to [stderr], which nothing locks. *)
Definition dump_oidmap (m : OIDMap) : list string :=
  (fun kv => OID_to_string kv.1 +:+ " " +:+ dec_signed kv.2 +:+ newline) <$> m.
Definition OIDTree_dump (t : OIDMap) : list string := dump_oidmap t.

(** Repeated GETNEXT from an identifier. *)
Fixpoint walk (fuel : nat) (from : OID) (t : OIDMap) : list (OID * Z) :=
  match fuel with
  | O => []
  | S fuel' =>
    match tree_get_next from t with
    | Some (o, v) => (o, v) :: walk fuel' o t
    | None => []
    end
  end.
End tree.

#[export] Instance OID_countable : Countable OID.
Proof. apply (inj_countable' _oids mkOID). by intros []. Defined.

(** ** Lemmas *)

Section tree_laws.
Context `{NetSnmpOidsSpec}.

Lemma OIDCompare_lt a b : a ≺ b <-> oid_lex_lt (_oids a) (_oids b) = true.
Proof. unfold cmp_lt, OIDCompare. rewrite Z.eqb_eq. apply snmp_oid_compare_lt. Qed.

Lemma OIDCompare_not a b : a ⊀ b <-> oid_lex_lt (_oids a) (_oids b) = false.
Proof. rewrite <- !not_true_iff_false. by rewrite OIDCompare_lt. Qed.

#[export] Instance OIDCompare_order : StrictOrderLaws OID.
Proof.
  split.
  - intros a. apply OIDCompare_not, oid_lex_lt_irrefl.
  - intros a b c. rewrite !OIDCompare_lt. apply oid_lex_lt_trans.
  - intros [a] [b]. rewrite !OIDCompare_not. intros Hab Hba. f_equal. by apply oid_lex_lt_total.
Qed.

(** Two identifiers on one branch: one extends the other. *)
Definition on_branch (root o : OID) : Prop :=
  _oids root `prefix_of` _oids o \/ _oids o `prefix_of` _oids root.

Lemma subtree_contains_spec root o : subtree_contains root o = true <-> on_branch root o.
Proof.
  unfold subtree_contains. rewrite Z.eqb_eq, snmp_oidtree_compare_0. apply oid_same_branch_spec.
Qed.

Lemma subtree_contains_not root o : subtree_contains root o = false <-> ~ on_branch root o.
Proof. rewrite <- not_true_iff_false. by rewrite subtree_contains_spec. Qed.

Lemma remove_subtree_sorted root t : sorted t -> sorted (remove_subtree root t).
Proof. apply erase_if_sorted. Qed.

Lemma replace_subtree_sorted root u t : sorted t -> sorted (replace_subtree root u t).
Proof. intros. by apply insert_range_sorted, remove_subtree_sorted. Qed.

Lemma find_remove_subtree root t o :
  sorted t -> find_key o (remove_subtree root t) =
    if subtree_contains root o then None else find_key o t.
Proof. apply find_erase_if. Qed.

Lemma find_replace_subtree root u t o :
  sorted t -> sorted u -> find_key o (replace_subtree root u t) =
    (if subtree_contains root o then None else find_key o t) ∪ find_key o u.
Proof.
  intros Ht Hu. unfold replace_subtree. rewrite find_insert_range by done.
  by rewrite find_remove_subtree.
Qed.
End tree_laws.

(** ** Theorems *)

Section tree_theorems.
Context `{NetSnmpOidsSpec}.

#[export] Instance on_branch_dec root o : Decision (on_branch root o).
Proof. unfold on_branch. apply _. Defined.

Lemma as_gmap_remove_subtree root t :
  sorted t -> as_gmap (remove_subtree root t) = filter (fun kv => ~ on_branch root kv.1) (as_gmap t).
Proof.
  intros Ht. apply map_eq. intros o. rewrite as_gmap_lookup by by apply remove_subtree_sorted.
  rewrite find_remove_subtree by done.
  destruct (subtree_contains root o) eqn:Hc.
  - symmetry. apply map_lookup_filter_None. right. intros v _. simpl.
    intros Hn. by apply Hn, subtree_contains_spec.
  - symmetry. apply subtree_contains_not in Hc. apply option_eq. intros v.
    rewrite map_lookup_filter_Some, as_gmap_lookup by done. simpl. tauto.
Qed.

(** C31: the tree is a finite map from identifiers to values. Its invariant, the
    order of the underlying map, is kept by every operation; [set] and [remove] are update and
    deletion; [remove_subtree] removes exactly the entries on a branch with the
    root, those above the root included; [replace_subtree] then adds the new
    entries that do not collide with one that stayed. *)
Theorem oid_tree_refines_map root key value (update t : OIDMap) :
  sorted t -> sorted update ->
  tree_get key t = as_gmap t !! key /\
  sorted (tree_set key value t) /\ as_gmap (tree_set key value t) = <[key := value]> (as_gmap t) /\
  sorted (tree_remove key t) /\ as_gmap (tree_remove key t) = delete key (as_gmap t) /\
  sorted (remove_subtree root t) /\
  as_gmap (remove_subtree root t) = filter (fun kv => ~ on_branch root kv.1) (as_gmap t) /\
  sorted (replace_subtree root update t) /\
  as_gmap (replace_subtree root update t) =
    filter (fun kv => ~ on_branch root kv.1) (as_gmap t) ∪ as_gmap update.
Proof.
  intros Ht Hu. split_and!.
  - by rewrite as_gmap_lookup.
  - by apply assign_sorted.
  - by apply as_gmap_assign.
  - by apply erase_sorted.
  - by apply as_gmap_erase.
  - by apply remove_subtree_sorted.
  - by apply as_gmap_remove_subtree.
  - by apply replace_subtree_sorted.
  - unfold replace_subtree. rewrite as_gmap_insert_range by (done || by apply remove_subtree_sorted).
    by rewrite as_gmap_remove_subtree.
Qed.

(** GETNEXT answers the least entry above the identifier asked for, and
    fails exactly when there is none. *)
Theorem get_next_least o (t : OIDMap) :
  sorted t ->
  match tree_get_next o t with
  | Some (o', v) =>
    tree_get o' t = Some v /\ oid_lex_lt (_oids o) (_oids o') = true /\
    forall o'', is_Some (tree_get o'' t) -> oid_lex_lt (_oids o) (_oids o'') = true ->
                o'' = o' \/ oid_lex_lt (_oids o') (_oids o'') = true
  | None => forall o'', is_Some (tree_get o'' t) -> oid_lex_lt (_oids o) (_oids o'') = false
  end.
Proof.
  intros Ht. unfold tree_get_next. destruct (upper_bound o t) as [[o' v]|] eqn:Hu.
  - destruct (upper_bound_Some _ _ _ _ Ht Hu) as (Hlt & Hf & Hleast).
    split_and!; [done|by apply OIDCompare_lt|]. intros o'' Ho'' Hlt'.
    destruct (Hleast o'' Ho'') as [?|Hl]; [by apply OIDCompare_lt|by left|right; by apply OIDCompare_lt].
  - intros o'' Ho''. apply OIDCompare_not. by eapply upper_bound_None.
Qed.

Lemma filter_above_next o (t : OIDMap) :
  sorted t ->
  List.filter (fun kv => cmp_lt o kv.1) t =
    match upper_bound o t with
    | Some (o', v) => (o', v) :: List.filter (fun kv => cmp_lt o' kv.1) t
    | None => []
    end.
Proof.
  induction t as [|[k v] t IH]; intros Hs; simpl; [done|].
  apply sorted_cons in Hs as [Hs Hb]. specialize (IH Hs).
  destruct (cmp_lt o k) eqn:Hok.
  - rewrite cmp_irrefl. f_equal.
    assert (forall (p : OID * Z -> bool) l, Forall (fun q => p q = true) l -> List.filter p l = l) as Hall.
    { clear. intros p l. induction 1 as [|q l Hq Hl IH]; simpl; [done|]. by rewrite Hq, IH. }
    rewrite !Hall; [done|done|]. eapply Forall_impl; [exact Hb|]. simpl. intros q Hq. by eapply cmp_trans.
  - rewrite IH. destruct (upper_bound o t) as [[o' v']|] eqn:Hu; [|done].
    destruct (upper_bound_Some _ _ _ _ Hs Hu) as (_ & Hf & _). apply find_Some_elem in Hf; [|done].
    rewrite Forall_forall in Hb. specialize (Hb _ Hf). simpl in Hb. by rewrite (cmp_asym k o').
Qed.

(** A walk by repeated GETNEXT, from any identifier, returns every entry
    above it exactly once and in order, and ends. *)
Theorem walk_complete fuel o (t : OIDMap) :
  sorted t -> (length t <= fuel)%nat ->
  walk fuel o t = List.filter (fun kv => oid_lex_lt (_oids o) (_oids kv.1)) t /\ NoDup (walk fuel o t).
Proof.
  intros Ht Hf.
  assert (walk fuel o t = List.filter (fun kv => cmp_lt o kv.1) t) as ->.
  { assert (length (List.filter (fun kv => cmp_lt o kv.1) t) <= fuel)%nat as Hl
      by (etransitivity; [apply List.filter_length_le|done]). clear Hf.
    revert o Hl. induction fuel as [|fuel IH]; intros o Hl; simpl.
    - destruct (List.filter _ t); simpl in Hl; [done|lia].
    - unfold tree_get_next. rewrite filter_above_next in Hl |- * by done.
      destruct (upper_bound o t) as [[o' v]|]; [|done]. simpl in Hl. rewrite IH by lia. done. }
  split.
  - apply List.filter_ext. intros [k v]. simpl. destruct (cmp_lt o k) eqn:Hk; symmetry.
    + by apply OIDCompare_lt.
    + by apply OIDCompare_not.
  - apply NoDup_ListNoDup, List.NoDup_filter, NoDup_ListNoDup, (NoDup_fmap_1 fst), sorted_NoDup_keys, Ht.
Qed.
End tree_theorems.

(** ** Witnesses *)

Module TreeSample.
Import Reference.

Definition sample_tree : OIDMap :=
  [(mkOID [1; 2], 5); (mkOID [1; 2; 3], 6); (mkOID [1; 2; 3; 1], 7); (mkOID [1; 3], 8)].

Lemma sample_tree_sorted : sorted sample_tree.
Proof. unfold sample_tree. repeat constructor. Qed.
End TreeSample.

Import Reference TreeSample.

Lemma oid_tree_refines_map_witness :
  tree_get (mkOID [1; 3]) sample_tree = as_gmap sample_tree !! mkOID [1; 3] /\
  sorted (tree_set (mkOID [1; 3]) 9 sample_tree) /\
  as_gmap (tree_set (mkOID [1; 3]) 9 sample_tree) = <[mkOID [1; 3] := 9]> (as_gmap sample_tree) /\
  sorted (tree_remove (mkOID [1; 3]) sample_tree) /\
  as_gmap (tree_remove (mkOID [1; 3]) sample_tree) = delete (mkOID [1; 3]) (as_gmap sample_tree) /\
  sorted (remove_subtree (mkOID [1; 2; 3]) sample_tree) /\
  as_gmap (remove_subtree (mkOID [1; 2; 3]) sample_tree) =
    filter (fun kv => ~ on_branch (mkOID [1; 2; 3]) kv.1) (as_gmap sample_tree) /\
  sorted (replace_subtree (mkOID [1; 2; 3]) [(mkOID [1; 2; 3; 2], 1)] sample_tree) /\
  as_gmap (replace_subtree (mkOID [1; 2; 3]) [(mkOID [1; 2; 3; 2], 1)] sample_tree) =
    filter (fun kv => ~ on_branch (mkOID [1; 2; 3]) kv.1) (as_gmap sample_tree) ∪
    as_gmap [(mkOID [1; 2; 3; 2], 1)].
Proof.
  apply (oid_tree_refines_map (mkOID [1; 2; 3]) (mkOID [1; 3]) 9 [(mkOID [1; 2; 3; 2], 1)] sample_tree).
  - apply sample_tree_sorted.
  - repeat constructor.
Defined.

Lemma get_next_least_witness :
  tree_get_next (mkOID [1; 2; 3]) sample_tree = Some (mkOID [1; 2; 3; 1], 7) /\
  match tree_get_next (mkOID [1; 2; 3]) sample_tree with
  | Some (o', v) =>
    tree_get o' sample_tree = Some v /\ oid_lex_lt [1; 2; 3] (_oids o') = true /\
    forall o'', is_Some (tree_get o'' sample_tree) -> oid_lex_lt [1; 2; 3] (_oids o'') = true ->
                o'' = o' \/ oid_lex_lt (_oids o') (_oids o'') = true
  | None => forall o'', is_Some (tree_get o'' sample_tree) -> oid_lex_lt [1; 2; 3] (_oids o'') = false
  end.
Proof.
  split; [reflexivity|]. apply (get_next_least (mkOID [1; 2; 3]) sample_tree), sample_tree_sorted.
Defined.

Lemma walk_complete_witness :
  walk 4 (mkOID [1; 2]) sample_tree = [(mkOID [1; 2; 3], 6); (mkOID [1; 2; 3; 1], 7); (mkOID [1; 3], 8)] /\
  walk 4 (mkOID [1; 2]) sample_tree =
    List.filter (fun kv => oid_lex_lt [1; 2] (_oids kv.1)) sample_tree /\
  NoDup (walk 4 (mkOID [1; 2]) sample_tree).
Proof.
  split; [reflexivity|].
  apply (walk_complete 4 (mkOID [1; 2]) sample_tree); [apply sample_tree_sorted|simpl; lia].
Defined.
