(* ===== verification/TreeLock.v ===== *)
(** The threads that share the statistics tree: [src/oidtree.cpp] with its
    [std::recursive_mutex].

    Each operation of [OIDTree] is a list of instructions, the calls to [lock] and
    [unlock] among them, run by any number of threads in any interleaving, one
    instruction or one iteration of a loop at a time. [replace_subtree] calls
    [remove_subtree], which takes the mutex again. The theorem is that the operations
    are atomic: OidTree.v and the files over it may treat each as one step. *)

From S2P Require Export OidTree.

(** ** Operations and their instructions *)

Section tree_lock.
Context `{NetSnmpOids}.

(** The public operations of [OIDTree]. *)
Inductive tree_op :=
| Op_get (requested_oid : OID)
| Op_get_next (requested_oid : OID)
| Op_set (key : OID) (value : Z)
| Op_remove (key : OID)
| Op_remove_subtree (root_oid : OID)
| Op_replace_subtree (root_oid : OID) (update : OIDMap).

(** What an operation gives its caller: [output_oid], for [get_next], and
    [output_result]; [None] when it returns false or nothing. *)
Definition op_result : Type := option (option OID * Z).

(** The operations as OidTree.v has them, in one step. *)
Definition apply_op (op : tree_op) (t : OIDMap) : OIDMap * op_result :=
  match op with
  | Op_get o => (t, pair None <$> tree_get o t)
  | Op_get_next o => (t, (fun ov => (Some ov.1, ov.2)) <$> tree_get_next o t)
  | Op_set k v => (tree_set k v t, None)
  | Op_remove k => (tree_remove k t, None)
  | Op_remove_subtree root => (remove_subtree root t, None)
  | Op_replace_subtree root u => (replace_subtree root u t, None)
  end.

(** [I_copy] takes the temporary copy of the map, [I_loop] is the loop over it. *)
Inductive instr :=
| I_lock
| I_unlock
| I_find (o : OID)
| I_upper_bound (o : OID)
| I_assign (k : OID) (v : Z)
| I_erase (k : OID)
| I_copy
| I_loop (root : OID)
| I_insert (u : OIDMap).

#[export] Instance instr_eq_dec : EqDecision instr.
Proof. solve_decision. Defined.

Definition remove_subtree_code (root : OID) : list instr := [I_lock; I_copy; I_loop root; I_unlock].

Definition op_code (op : tree_op) : list instr :=
  match op with
  | Op_get o => [I_lock; I_find o; I_unlock]
  | Op_get_next o => [I_lock; I_upper_bound o; I_unlock]
  | Op_set k v => [I_lock; I_assign k v; I_unlock]
  | Op_remove k => [I_lock; I_erase k; I_unlock]
  | Op_remove_subtree root => remove_subtree_code root
  | Op_replace_subtree root u => [I_lock] ++ remove_subtree_code root ++ [I_insert u; I_unlock]
  end.

(** The locals of an operation under way, and the instructions left. *)
Record frame := mkFrame {
  fr_op : tree_op;
  fr_code : list instr;
  fr_tmp : OIDMap;
  fr_result : op_result;
}.

(** A thread: the operation under way, those it will call, the results it had. *)
Record tree_thread := mkTreeThread {
  current : option frame;
  calls : list tree_op;
}.

(** The tree, the owner of [_map_lock] with the number of times it holds it, the
    threads, and the operations completed: their thread, call and result, in the
    order in which they released the mutex. *)
Record tree_threads := mkTreeThreads {
  _oidmap : OIDMap;
  _map_lock : option (nat * nat);
  tthreads : list tree_thread;
  completed : list (nat * tree_op * op_result);
}.

(** *** Steps *)

(** [lock] by thread [k]: [None] while another thread holds the mutex. *)
Definition mutex_lock (k : nat) (m : option (nat * nat)) : option (option (nat * nat)) :=
  match m with
  | None => Some (Some (k, 1%nat))
  | Some (k', d) => if Nat.eqb k k' then Some (Some (k, S d)) else None
  end.

(** [unlock] by thread [k], which must hold the mutex. *)
Definition mutex_unlock (k : nat) (m : option (nat * nat)) : option (option (nat * nat)) :=
  match m with
  | Some (k', S d) =>
    if Nat.eqb k k' then Some (match d with O => None | S _ => Some (k, d) end) else None
  | _ => None
  end.

(** An instruction other than [lock] and [unlock]: the tree, the copy and the
    result after it, and whether it is done or stays for another iteration. *)
Definition run_instr (i : instr) (t tmp : OIDMap) (r : op_result) : OIDMap * OIDMap * op_result * bool :=
  match i with
  | I_lock | I_unlock => (t, tmp, r, true)
  | I_find o => (t, tmp, pair None <$> find_key o t, true)
  | I_upper_bound o => (t, tmp, (fun ov => (Some ov.1, ov.2)) <$> upper_bound o t, true)
  | I_assign k v => (assign k v t, tmp, r, true)
  | I_erase k => (erase k t, tmp, r, true)
  | I_copy => (t, t, r, true)
  | I_loop root =>
    match tmp with
    | [] => (t, [], r, true)
    | (o, _) :: tmp' => (if subtree_contains root o then erase o t else t, tmp', r, false)
    end
  | I_insert u => (insert_range u t, tmp, r, true)
  end.

(** The thread [k] runs one instruction of its operation, calls the next, or
    returns from one; [None] when it cannot: nothing is left, or it waits for the mutex. *)
Definition tree_step (k : nat) (s : tree_threads) : option tree_threads :=
  th ← tthreads s !! k;
  match current th with
  | None =>
    match calls th with
    | [] => None
    | op :: ops =>
      Some (mkTreeThreads (_oidmap s) (_map_lock s)
              (<[k := mkTreeThread (Some (mkFrame op (op_code op) [] None)) ops]> (tthreads s)) (completed s))
    end
  | Some fr =>
    match fr_code fr with
    | [] =>
      Some (mkTreeThreads (_oidmap s) (_map_lock s) (<[k := mkTreeThread None (calls th)]> (tthreads s)) (completed s))
    | I_lock :: code =>
      m ← mutex_lock k (_map_lock s);
      Some (mkTreeThreads (_oidmap s) m
              (<[k := mkTreeThread (Some (mkFrame (fr_op fr) code (fr_tmp fr) (fr_result fr))) (calls th)]> (tthreads s))
              (completed s))
    | I_unlock :: code =>
      m ← mutex_unlock k (_map_lock s);
      Some (mkTreeThreads (_oidmap s) m
              (<[k := mkTreeThread (Some (mkFrame (fr_op fr) code (fr_tmp fr) (fr_result fr))) (calls th)]> (tthreads s))
              (match m with
               | None => completed s ++ [(k, fr_op fr, fr_result fr)]
               | Some _ => completed s
               end))
    | i :: code =>
      let '(t, tmp, r, finished) := run_instr i (_oidmap s) (fr_tmp fr) (fr_result fr) in
      Some (mkTreeThreads t (_map_lock s)
              (<[k := mkTreeThread (Some (mkFrame (fr_op fr) (if finished : bool then code else i :: code) tmp r)) (calls th)]>
                 (tthreads s))
              (completed s))
    end
  end.

(** Threads that will make these calls, on the tree [t]. *)
Definition tree_start (t : OIDMap) (programs : list (list tree_op)) : tree_threads :=
  mkTreeThreads t None (mkTreeThread None <$> programs) [].

(** The threads step in the order of a schedule; one that cannot step is passed over. *)
Fixpoint tree_run (schedule : list nat) (s : tree_threads) : tree_threads :=
  match schedule with
  | [] => s
  | k :: schedule' => tree_run schedule' (default s (tree_step k s))
  end.

(** The completed operations made one at a time on [t]: the tree, if every result
    is the one the operation then gives. *)
Fixpoint replay (log : list (nat * tree_op * op_result)) (t : OIDMap) : option OIDMap :=
  match log with
  | [] => Some t
  | (_, op, r) :: log' =>
    if decide ((apply_op op t).2 = r) then replay log' (apply_op op t).1 else None
  end.

(** The calls thread [k] has completed. *)
Definition calls_of (k : nat) (log : list (nat * tree_op * op_result)) : list tree_op :=
  (fun e => e.1.2) <$> List.filter (fun e => Nat.eqb e.1.1 k) log.
End tree_lock.

(** ** Proof *)

Section atomicity.
Context `{NetSnmpOids}.
Implicit Types (s : tree_threads) (t : OIDMap).

(** Code that releases the mutex it holds [d] times with its last instruction, and
    touches the tree only while it holds it. *)
Fixpoint balanced (d : nat) (code : list instr) : bool :=
  match code with
  | [] => Nat.eqb d 0
  | I_lock :: c => balanced (S d) c
  | I_unlock :: c =>
    match d with
    | O => false
    | S O => match c with [] => true | _ => false end
    | S d' => balanced d' c
    end
  | _ :: c => Nat.ltb 0 d && balanced d c
  end.

(** The rest of an operation run without interruption. *)
Fixpoint finish (code : list instr) (t tmp : OIDMap) (r : op_result) : OIDMap * op_result :=
  match code with
  | [] => (t, r)
  | I_loop root :: c =>
    finish c (fold_left (fun acc kv => if subtree_contains root kv.1 then erase kv.1 acc else acc) tmp t) [] r
  | i :: c => let '(t', tmp', r', _) := run_instr i t tmp r in finish c t' tmp' r'
  end.

Lemma op_code_balanced op : balanced 0 (op_code op) = true.
Proof. by destruct op. Qed.

Lemma op_code_finish op t : finish (op_code op) t [] None = apply_op op t.
Proof. by destruct op. Qed.

Lemma op_code_locks op : exists c, op_code op = I_lock :: c.
Proof. destruct op; by eexists. Qed.

(** One instruction, or iteration, of an uninterrupted run. *)
Lemma run_instr_finish i c t tmp r t' tmp' r' b :
  run_instr i t tmp r = (t', tmp', r', b) ->
  finish (i :: c) t tmp r = finish (if b then c else i :: c) t' tmp' r'.
Proof.
  destruct i; simpl; intros Hr; simplify_eq; try done.
  destruct tmp as [|[o v] tmp]; by simplify_eq/=.
Qed.

Lemma run_instr_balanced i c d t tmp r :
  i <> I_lock -> i <> I_unlock -> balanced d (i :: c) = true -> (0 < d)%nat ->
  balanced d (if (run_instr i t tmp r).2 then c else i :: c) = true.
Proof.
  intros Hl Hu Hb Hd. destruct i; try done; simpl in *; try (by apply andb_true_iff in Hb as []).
  destruct tmp as [|[]]; simpl; [by apply andb_true_iff in Hb as []|done].
Qed.

Lemma replay_snoc log k op r t t1 :
  replay log t = Some t1 -> (apply_op op t1).2 = r ->
  replay (log ++ [(k, op, r)]) t = Some (apply_op op t1).1.
Proof.
  revert t. induction log as [|[[k' op'] r'] log IH]; intros t; simpl.
  - intros [= ->] Hr. by rewrite decide_True.
  - case_decide; [apply IH|done].
Qed.

Lemma calls_of_snoc k log k' op r :
  calls_of k (log ++ [(k', op, r)]) = calls_of k log ++ (if Nat.eqb k' k then [op] else []).
Proof. unfold calls_of. rewrite List.filter_app, fmap_app. simpl. by destruct (Nat.eqb k' k). Qed.

(** The call of a thread that is not completed yet. *)
Definition under_way (th : tree_thread) : list tree_op :=
  match current th with
  | Some (mkFrame op (_ :: _) _ _) => [op]
  | _ => []
  end.

(** A frame of a thread without the mutex: not begun, or at its return. *)
Definition frame_idle (fr : frame) : Prop :=
  fr_code fr = [] \/ fr = mkFrame (fr_op fr) (op_code (fr_op fr)) [] None.

Definition owns s (k : nat) : Prop := exists d, _map_lock s = Some (k, d).

(** The owner's operation, if run on, ends as if made at once on the tree [t1] the last
    release left. *)
Definition owner_ok t1 s : Prop :=
  match _map_lock s with
  | None => _oidmap s = t1
  | Some (h, d) =>
    (0 < d)%nat /\
    exists fr cs, tthreads s !! h = Some (mkTreeThread (Some fr) cs) /\ balanced d (fr_code fr) = true /\
      finish (fr_code fr) (_oidmap s) (fr_tmp fr) (fr_result fr) = apply_op (fr_op fr) t1
  end.

Definition tree_inv t0 (programs : list (list tree_op)) s : Prop :=
  length (tthreads s) = length programs /\
  (exists t1, replay (completed s) t0 = Some t1 /\ owner_ok t1 s) /\
  forall k th, tthreads s !! k = Some th ->
    programs !! k = Some (calls_of k (completed s) ++ under_way th ++ calls th) /\
    (forall fr, current th = Some fr -> owns s k \/ frame_idle fr).

Lemma tree_start_inv t0 programs : tree_inv t0 programs (tree_start t0 programs).
Proof.
  unfold tree_start. split_and!; [cbn; by rewrite length_fmap|by exists t0|]. intros k th. cbn. rewrite list_lookup_fmap.
  destruct (programs !! k); intros [= <-]. by split.
Qed.

(** A step that replaces thread [k] by [th'] and keeps what the others rely on. *)
Lemma tree_inv_update t0 programs s k th th' t1 t' m' log' :
  tree_inv t0 programs s -> tthreads s !! k = Some th ->
  let s' := mkTreeThreads t' m' (<[k := th']> (tthreads s)) log' in
  replay log' t0 = Some t1 -> owner_ok t1 s' ->
  (forall k', k' <> k -> calls_of k' log' = calls_of k' (completed s)) ->
  calls_of k log' ++ under_way th' ++ calls th' = calls_of k (completed s) ++ under_way th ++ calls th ->
  (forall fr, current th' = Some fr -> owns s' k \/ frame_idle fr) ->
  (forall k', k' <> k -> owns s k' -> owns s' k') ->
  tree_inv t0 programs s'.
Proof.
  intros (Hl & _ & Hth) Hk s' Hrep Hown Hlog Hcalls Hfr Howns. split_and!.
  - cbn. by rewrite length_insert.
  - by exists t1.
  - intros k' th0. cbn. destruct (decide (k' = k)) as [->|Hne].
    + rewrite list_lookup_insert_eq by by eapply lookup_lt_Some. intros [= <-].
      destruct (Hth k th Hk) as [Hp _]. split; [|done]. rewrite Hp. f_equal. symmetry. exact Hcalls.
    + rewrite list_lookup_insert_ne by done. intros Ht0. destruct (Hth _ _ Ht0) as [Hp Hf].
      split.
      { rewrite Hp. f_equal. f_equal. symmetry. by apply Hlog. }
      intros fr Hc. destruct (Hf _ Hc); [left; by apply Howns|by right].
Qed.

(** The frame of the thread that holds the mutex. *)
Lemma owner_frame t1 s k d fr cs :
  owner_ok t1 s -> _map_lock s = Some (k, d) -> tthreads s !! k = Some (mkTreeThread (Some fr) cs) ->
  (0 < d)%nat /\ balanced d (fr_code fr) = true /\
  finish (fr_code fr) (_oidmap s) (fr_tmp fr) (fr_result fr) = apply_op (fr_op fr) t1.
Proof.
  unfold owner_ok. intros Ho Hm Hk. rewrite Hm in Ho. destruct Ho as (Hd & fr' & cs' & Hk' & Hb & Hf).
  by simplify_eq.
Qed.

(** The owner of the mutex is unchanged by a step of a thread that is not it. *)
Lemma owner_ok_other t1 s k th :
  owner_ok t1 s -> ~ owns s k -> owner_ok t1 (mkTreeThreads (_oidmap s) (_map_lock s) (<[k := th]> (tthreads s)) (completed s)).
Proof.
  unfold owner_ok, owns. cbn. destruct (_map_lock s) as [[h d]|]; [|done].
  intros (Hd & fr & cs & Hh & Hrest) Hno. split; [done|]. exists fr, cs. split; [|done].
  rewrite list_lookup_insert_ne; [done|]. intros ->. apply Hno. by exists d.
Qed.

Lemma call_step_ok t0 programs s k op ops :
  tree_inv t0 programs s -> tthreads s !! k = Some (mkTreeThread None (op :: ops)) ->
  tree_inv t0 programs (mkTreeThreads (_oidmap s) (_map_lock s)
    (<[k := mkTreeThread (Some (mkFrame op (op_code op) [] None)) ops]> (tthreads s)) (completed s)).
Proof.
  intros Hinv Hk. pose proof Hinv as (_ & (t1 & Hrep & Hown) & _).
  assert (~ owns s k) as Hno.
  { intros [d Hd]. unfold owner_ok in Hown. rewrite Hd in Hown. destruct Hown as (_ & fr & cs & Hk' & _). by simplify_eq. }
  eapply (tree_inv_update t0 programs s k _ _ t1); try done.
  - by apply owner_ok_other.
  - destruct (op_code_locks op) as [c Hc]. unfold under_way. cbn. by rewrite Hc.
  - intros fr [= <-]. right. by right.
Qed.

Lemma return_step_ok t0 programs s k op tmp r ops :
  tree_inv t0 programs s -> tthreads s !! k = Some (mkTreeThread (Some (mkFrame op [] tmp r)) ops) ->
  tree_inv t0 programs (mkTreeThreads (_oidmap s) (_map_lock s)
    (<[k := mkTreeThread None ops]> (tthreads s)) (completed s)).
Proof.
  intros Hinv Hk. pose proof Hinv as (_ & (t1 & Hrep & Hown) & _).
  assert (~ owns s k) as Hno.
  { intros [d Hd]. destruct (owner_frame _ _ _ _ _ _ Hown Hd Hk) as (Hpos & Hb & _). cbn in Hb.
    apply Nat.eqb_eq in Hb. lia. }
  eapply (tree_inv_update t0 programs s k _ _ t1); try done. by apply owner_ok_other.
Qed.
Lemma balanced_under_way d op code tmp r ops :
  balanced d code = true -> (0 < d)%nat -> under_way (mkTreeThread (Some (mkFrame op code tmp r)) ops) = [op].
Proof. destruct code; [|done]. cbn. intros ->%Nat.eqb_eq. lia. Qed.

(** The thread that holds the mutex takes a step that keeps it. *)
Lemma owner_step_ok t0 programs s k d d' op code code' tmp tmp' r r' ops t' :
  tree_inv t0 programs s ->
  tthreads s !! k = Some (mkTreeThread (Some (mkFrame op code tmp r)) ops) -> _map_lock s = Some (k, d) ->
  (0 < d')%nat -> balanced d' code' = true ->
  finish code' t' tmp' r' = finish code (_oidmap s) tmp r ->
  tree_inv t0 programs (mkTreeThreads t' (Some (k, d'))
    (<[k := mkTreeThread (Some (mkFrame op code' tmp' r')) ops]> (tthreads s)) (completed s)).
Proof.
  intros Hinv Hk Hm Hd Hb Hf. pose proof Hinv as (_ & (t1 & Hrep & Hown) & _).
  destruct (owner_frame _ _ _ _ _ _ Hown Hm Hk) as (Hpos & Hb0 & Hf0).
  eapply (tree_inv_update t0 programs s k _ _ t1); try done.
  - unfold owner_ok. cbn [_map_lock tthreads]. split; [done|]. eexists _, ops.
    rewrite list_lookup_insert_eq by by eapply lookup_lt_Some. split_and!; [done..|]. cbn. rewrite Hf. exact Hf0.
  - by rewrite (balanced_under_way d'), (balanced_under_way d).
  - intros fr _. left. by exists d'.
  - intros k' Hne [d0 Hd0]. rewrite Hm in Hd0. by simplify_eq.
Qed.

Lemma not_idle_owns t0 programs s k op i c tmp r ops :
  tree_inv t0 programs s ->
  tthreads s !! k = Some (mkTreeThread (Some (mkFrame op (i :: c) tmp r)) ops) -> i <> I_lock -> owns s k.
Proof.
  intros (_ & _ & Hth) Hk Hi. destruct (Hth _ _ Hk) as [_ Hf].
  destruct (Hf _ eq_refl) as [?|[[=]|Heq]]; [done|]. cbn in Heq.
  destruct (op_code_locks op) as [c' Hc']. rewrite Hc' in Heq. by injection Heq.
Qed.

Lemma lock_step_ok t0 programs s k op c tmp r ops m :
  tree_inv t0 programs s ->
  tthreads s !! k = Some (mkTreeThread (Some (mkFrame op (I_lock :: c) tmp r)) ops) ->
  mutex_lock k (_map_lock s) = Some m ->
  tree_inv t0 programs (mkTreeThreads (_oidmap s) m
    (<[k := mkTreeThread (Some (mkFrame op c tmp r)) ops]> (tthreads s)) (completed s)).
Proof.
  intros Hinv Hk Hl. pose proof Hinv as (_ & (t1 & Hrep & Hown) & Hth).
  destruct (_map_lock s) as [[h d]|] eqn:Hm; cbn in Hl.
  - destruct (Nat.eqb_spec k h) as [<-|]; [|done]. injection Hl as <-.
    destruct (owner_frame _ _ _ _ _ _ Hown Hm Hk) as (Hpos & Hb & Hf).
    eapply owner_step_ok; try done. lia.
  - injection Hl as <-. destruct (Hth _ _ Hk) as [_ Hfr].
    destruct (Hfr _ eq_refl) as [[d Hd]|[[=]|Heq]]; [congruence|]. cbn in Heq. injection Heq as Hc -> ->.
    unfold owner_ok in Hown. rewrite Hm in Hown.
    pose proof (op_code_balanced op) as Hb. pose proof (op_code_finish op (_oidmap s)) as Hf.
    rewrite <- Hc in Hb, Hf. cbn in Hb, Hf.
    eapply (tree_inv_update t0 programs s k _ _ t1); try done.
    + unfold owner_ok. cbn [_map_lock tthreads]. split; [lia|]. eexists _, ops.
      rewrite list_lookup_insert_eq by by eapply lookup_lt_Some. split_and!; [done..|]. cbn. by rewrite Hf, Hown.
    + rewrite (balanced_under_way 1) by (done || lia). done.
    + intros fr _. left. by exists 1%nat.
    + intros k' Hne [d0 Hd0]. congruence.
Qed.

Lemma unlock_step_ok t0 programs s k op c tmp r ops m :
  tree_inv t0 programs s ->
  tthreads s !! k = Some (mkTreeThread (Some (mkFrame op (I_unlock :: c) tmp r)) ops) ->
  mutex_unlock k (_map_lock s) = Some m ->
  tree_inv t0 programs (mkTreeThreads (_oidmap s) m
    (<[k := mkTreeThread (Some (mkFrame op c tmp r)) ops]> (tthreads s))
    (match m with None => completed s ++ [(k, op, r)] | Some _ => completed s end)).
Proof.
  intros Hinv Hk Hl. pose proof Hinv as (_ & (t1 & Hrep & Hown) & _).
  destruct (_map_lock s) as [[h [|d]]|] eqn:Hm; cbn in Hl; try done.
  destruct (Nat.eqb_spec k h) as [<-|]; [|done].
  destruct (owner_frame _ _ _ _ _ _ Hown Hm Hk) as (Hpos & Hb & Hf). cbn in Hb, Hf. injection Hl as <-.
  destruct d as [|d]; [|eapply owner_step_ok; try done; lia].
  destruct c; [|done]. cbn in Hf.
  eapply (tree_inv_update t0 programs s k _ _ (apply_op op t1).1); try done.
  - apply replay_snoc; [done|]. by rewrite <- Hf.
  - unfold owner_ok. cbn. by rewrite <- Hf.
  - intros k' Hne. rewrite calls_of_snoc. apply Nat.eqb_neq in Hne. rewrite Nat.eqb_sym, Hne. by rewrite app_nil_r.
  - rewrite calls_of_snoc, Nat.eqb_refl. cbn. by rewrite <- app_assoc.
  - intros fr [= <-]. right. by left.
  - intros k' Hne [d0 Hd0]. congruence.
Qed.

Lemma instr_step_ok t0 programs s k op i c tmp r ops t' tmp' r' b :
  tree_inv t0 programs s ->
  tthreads s !! k = Some (mkTreeThread (Some (mkFrame op (i :: c) tmp r)) ops) ->
  i <> I_lock -> i <> I_unlock -> run_instr i (_oidmap s) tmp r = (t', tmp', r', b) ->
  tree_inv t0 programs (mkTreeThreads t' (_map_lock s)
    (<[k := mkTreeThread (Some (mkFrame op (if b then c else i :: c) tmp' r')) ops]> (tthreads s)) (completed s)).
Proof.
  intros Hinv Hk Hi Hu Hrun. destruct (not_idle_owns _ _ _ _ _ _ _ _ _ _ Hinv Hk Hi) as [d Hm].
  pose proof Hinv as (_ & (t1 & Hrep & Hown) & _).
  destruct (owner_frame _ _ _ _ _ _ Hown Hm Hk) as (Hpos & Hb & _).
  pose proof (run_instr_balanced i c d (_oidmap s) tmp r Hi Hu Hb Hpos) as Hb'. rewrite Hrun in Hb'.
  rewrite Hm. eapply owner_step_ok; try done. symmetry. by apply run_instr_finish.
Qed.

Lemma tree_step_ok t0 programs s k s' :
  tree_inv t0 programs s -> tree_step k s = Some s' -> tree_inv t0 programs s'.
Proof.
  intros Hinv (th & Hk & Hst)%bind_Some. destruct th as [[[op code tmp r]|] ops]; cbn in Hst.
  - destruct code as [|i c]; [injection Hst as <-; by eapply return_step_ok|].
    destruct (decide (i = I_lock)) as [->|Hi].
    { apply bind_Some in Hst as (m & Hm & [= <-]). by eapply lock_step_ok. }
    destruct (decide (i = I_unlock)) as [->|Hu].
    { apply bind_Some in Hst as (m & Hm & [= <-]). by eapply unlock_step_ok. }
    destruct (run_instr i (_oidmap s) tmp r) as [[[t' tmp'] r'] b] eqn:Hrun.
    pose proof (instr_step_ok _ _ _ _ _ _ _ _ _ _ _ _ _ _ Hinv Hk Hi Hu Hrun) as Hok.
    assert (s' = mkTreeThreads t' (_map_lock s)
      (<[k := mkTreeThread (Some (mkFrame op (if b then c else i :: c) tmp' r')) ops]> (tthreads s)) (completed s))
      as -> by (destruct i; by rewrite ?Hrun in Hst; simplify_eq/=). done.
  - destruct ops as [|op ops]; [done|]. injection Hst as <-. by apply call_step_ok.
Qed.
End atomicity.

(** ** Theorems *)

Section theorems.
Context `{NetSnmpOids}.
Implicit Types (s : tree_threads).

Lemma tree_run_ok t0 programs schedule s : tree_inv t0 programs s -> tree_inv t0 programs (tree_run schedule s).
Proof.
  revert s. induction schedule as [|k schedule IH]; intros s Hs; [done|]. cbn. apply IH.
  destruct (tree_step k s) as [s'|] eqn:Hst; [by eapply tree_step_ok|done].
Qed.

(** The thread has returned from every call it will make. *)
Definition thread_done (th : tree_thread) : Prop := current th = None /\ calls th = [].

Lemma thread_steps t0 programs s k th :
  tree_inv t0 programs s -> tthreads s !! k = Some th -> ~ thread_done th ->
  (_map_lock s = None \/ owns s k) -> is_Some (tree_step k s).
Proof.
  intros Hinv Hk Hnd Hm. unfold tree_step. rewrite Hk. cbn. destruct th as [[[op code tmp r]|] ops]; cbn.
  2: { destruct ops; [exfalso; by apply Hnd|by eexists]. }
  destruct code as [|i c]; [by eexists|]. destruct i; try (by eexists).
  - destruct Hm as [-> | [d ->]]; cbn; rewrite ?Nat.eqb_refl; by eexists.
  - destruct (not_idle_owns _ _ _ _ _ _ _ _ _ _ Hinv Hk ltac:(done)) as [d Hd].
    destruct Hinv as (_ & (t1 & _ & Hown) & _).
    destruct (owner_frame _ _ _ _ _ _ Hown Hd Hk) as (Hpos & _). rewrite Hd.
    destruct d; [lia|]. cbn. rewrite Nat.eqb_refl. by eexists.
  - cbn. destruct tmp as [|[]]; by eexists.
Qed.

(** C13: the operations of the tree are atomic. Whatever calls any number of threads make
    and however their instructions interleave, whenever the mutex is free the tree is
    what the completed operations make of the initial one when run one at a time, in the
    order in which they released the mutex, and each returned what it then returns;
    every thread's calls complete in its order, and no thread waits for ever:
    until all have returned from all their calls, some thread can step. *)
Theorem tree_operations_atomic t0 programs schedule :
  let s := tree_run schedule (tree_start t0 programs) in
  (_map_lock s = None -> replay (completed s) t0 = Some (_oidmap s)) /\
  (forall k calls, programs !! k = Some calls ->
     calls_of k (completed s) `prefix_of` calls /\
     (forall th, tthreads s !! k = Some th -> thread_done th -> calls_of k (completed s) = calls)) /\
  (Forall thread_done (tthreads s) \/ exists k, is_Some (tree_step k s)).
Proof.
  intros s. assert (tree_inv t0 programs s) as Hinv by apply tree_run_ok, tree_start_inv.
  pose proof Hinv as (Hl & (t1 & Hrep & Hown) & Hth). split_and!.
  - intros Hm. unfold owner_ok in Hown. rewrite Hm in Hown. by subst.
  - intros k calls Hk. assert (exists th, tthreads s !! k = Some th) as [th Hkt].
    { apply lookup_lt_is_Some_2. rewrite Hl. by eapply lookup_lt_Some. }
    destruct (Hth k th Hkt) as [Hp _]. rewrite Hk in Hp. injection Hp as ->. split; [by eexists|].
    intros th' Hk' [Hc Hcs]. rewrite Hkt in Hk'. injection Hk' as <-. unfold under_way. rewrite Hc, Hcs.
    by rewrite app_nil_r.
  - destruct (_map_lock s) as [[h d]|] eqn:Hm.
    + right. exists h. unfold owner_ok in Hown. rewrite Hm in Hown. destruct Hown as (_ & fr & cs & Hh & _).
      eapply thread_steps; [done..| |right; by exists d]. by intros [Hc _].
    + destruct (decide (Forall thread_done (tthreads s))) as [|Hn]; [by left|right].
      apply not_Forall_Exists in Hn; [|apply _]. apply Exists_exists in Hn as (th & Hin & Hnd).
      apply list_elem_of_lookup_1 in Hin as [k Hk]. exists k. eapply thread_steps; eauto.
Qed.
End theorems.

(** ** A concrete run *)

Import Reference TreeSample.

(** A GET between the two halves of a [replace_subtree] waits, and sees its result:
    thread 1 is passed over while thread 0 holds the mutex. *)
Example get_waits_for_replace :
  let s := tree_run (concat (repeat [0; 1; 0] 12))%nat
             (tree_start sample_tree [[Op_replace_subtree (mkOID [1; 2; 3]) [(mkOID [1; 2; 3; 2], 1)]];
                                      [Op_get (mkOID [1; 2; 3; 2])]]) in
  completed s = [(0%nat, Op_replace_subtree (mkOID [1; 2; 3]) [(mkOID [1; 2; 3; 2], 1)], None);
                 (1%nat, Op_get (mkOID [1; 2; 3; 2]), Some (None, 1))] /\
  _map_lock s = None.
Proof. vm_compute. split; reflexivity. Qed.
