(* ===== verification/StatHandlers.v ===== *)
(** The handlers of statistics messages: [src/zmq_message_handler.cpp] with its
    header, and the two handlers of [src/astairedata.cpp].

    A message is the list of its frames: the statistic's name, the string "OK"
    and the values. A handler turns it into changes of the statistics tree under
    its root. [None] is a read out of range, or an [int] overflow. *)

From S2P Require Export OidTree.

(** ** Data *)

(** The subclasses of [ZMQMessageHandler]. *)
Inductive handler_class :=
| IPCountStatHandler
| BareStatHandler
| SingleNumberStatHandler
| SingleNumberWithScopeStatHandler
| AccumulatedWithCountStatHandler
| AstaireGlobalStatHandler
| AstaireConnectionStatHandler.

Record ZMQMessageHandler := mkZMQMessageHandler {
  handler_type : handler_class;
  _root_oid : OID;
}.

(** The three maps [AstaireConnectionStatHandler] fills. *)
Record astaire_trees := mkAstaireTrees {
  connection_tree : smap OID Z;
  bucket_tree : smap OID Z;
  bucket_bandwidth_tree : smap OID Z;
}.

(** [msgs[i]], and [(int)msgs.size()]. *)
Definition frame (msgs : list string) (i : Z) : option string :=
  if i <? 0 then None else msgs !! Z.to_nat i.
Definition msgs_size (msgs : list string) : Z := s32 (Z.of_nat (length msgs)).

(** [atoi(msgs[i].c_str())] *)
Definition frame_int (msgs : list string) (i : Z) : option Z := atoi <$> (c_str <$> frame msgs i).

Section handlers.
Context `{NetSnmpOids} `{InetPton}.

(** ** Handlers of the statistics of every node *)

(** The loop of [IPCountStatHandler::handle]. [it_ip] and [it_val] point to
    adjacent frames; the step [it_ip++++] increments the iterator once and a
    temporary copy of it once, so each turn advances by one frame. *)
Fixpoint ip_count_loop (root : OID) (frames : list string) (new_subtree : OIDMap) : OIDMap :=
  match frames with
  | ip :: ((val :: _) as frames') =>
    let oid_addr := setAddr ip in
    ip_count_loop root frames'
      (if isValid oid_addr then
         assign (append_addr (append_string root "1.3") oid_addr) (atoi (c_str val)) new_subtree
       else new_subtree)
  | _ => new_subtree
  end.

(** [IPCountStatHandler::handle]; with less than two frames the iterators
    start beyond the end and never meet it. *)
Definition handle_ip_count (root : OID) (msgs : list string) (tree : OIDMap) : option OIDMap :=
  match msgs with
  | _ :: _ :: frames => Some (replace_subtree root (ip_count_loop root frames []) tree)
  | _ => None
  end.

(** [BareStatHandler::handle] *)
Definition handle_bare (root : OID) (msgs : list string) (tree : OIDMap) : option OIDMap :=
  if 3 <=? msgs_size msgs then
    v ← frame_int msgs 2;
    Some (tree_set root v tree)
  else Some tree.

(** [SingleNumberStatHandler::handle] *)
Definition handle_single (root : OID) (msgs : list string) (tree : OIDMap) : option OIDMap :=
  if 3 <=? msgs_size msgs then
    v ← frame_int msgs 2;
    Some (replace_subtree root (assign (append_string root "0") v []) tree)
  else Some (remove_subtree root tree).

(** [SingleNumberWithScopeStatHandler::handle] *)
Definition handle_single_scope (root : OID) (msgs : list string) (tree : OIDMap) : option OIDMap :=
  if 3 <=? msgs_size msgs then
    v ← frame_int msgs 2;
    Some (replace_subtree root (assign (append_string root "1.2") v []) tree)
  else Some (remove_subtree root tree).

(** [AccumulatedWithCountStatHandler::handle]; the map is built from an
    initializer list, in order. *)
Definition handle_accumulated (root : OID) (msgs : list string) (tree : OIDMap) : option OIDMap :=
  if 7 <=? msgs_size msgs then
    average ← frame_int msgs 2;
    variance ← frame_int msgs 3;
    hwm ← frame_int msgs 5;
    lwm ← frame_int msgs 4;
    count ← frame_int msgs 6;
    Some (replace_subtree root
      (insert_range [(append_string root "1.2", average); (append_string root "1.3", variance);
                     (append_string root "1.4", hwm); (append_string root "1.5", lwm);
                     (append_string root "1.6", count)] []) tree)
  else Some (remove_subtree root tree).

(** ** Astaire's handlers *)

(** [AstaireGlobalStatHandler::handle] *)
Definition handle_astaire_global (root : OID) (msgs : list string) (tree : OIDMap) : option OIDMap :=
  let buckets_needing_resync_oid := OID_descendant root "1.0" in
  let buckets_resynchronized_oid := OID_descendant root "2.0" in
  let entries_resynchronized_oid := OID_descendant root "3.0" in
  let data_resynchronized_oid := OID_descendant root "4.0" in
  let bandwidth_oid := OID_descendant root "5.1.2.1" in
  if 7 <=? msgs_size msgs then
    v2 ← frame_int msgs 2;
    v3 ← frame_int msgs 3;
    v4 ← frame_int msgs 4;
    v5 ← frame_int msgs 5;
    v6 ← frame_int msgs 6;
    Some (tree_set bandwidth_oid v6 (tree_set data_resynchronized_oid v5
           (tree_set entries_resynchronized_oid v4 (tree_set buckets_resynchronized_oid v3
             (tree_set buckets_needing_resync_oid v2 tree)))))
  else
    Some (tree_remove bandwidth_oid (tree_remove data_resynchronized_oid
           (tree_remove entries_resynchronized_oid (tree_remove buckets_resynchronized_oid
             (tree_remove buckets_needing_resync_oid tree))))).

(** The fields of one bucket. *)
Definition bucket_oid (base : OID) (column : Z) (oid_addr : OIDInetAddr) (port bucket_id : Z) : OID :=
  append_oid (append_oid (append_addr (OID_child base column) oid_addr) port) bucket_id.

Definition set_bucket (root : OID) (oid_addr : OIDInetAddr) (port bucket_id entries data bandwidth : Z)
    (trees : astaire_trees) : astaire_trees :=
  let bucket_base_oid := OID_descendant root "7.1" in
  let bucket_bandwidth_base_oid := OID_descendant root "8.1" in
  mkAstaireTrees (connection_tree trees)
    (assign (bucket_oid bucket_base_oid 6 oid_addr port bucket_id) data
       (assign (bucket_oid bucket_base_oid 5 oid_addr port bucket_id) entries (bucket_tree trees)))
    (assign (append_oid (bucket_oid bucket_bandwidth_base_oid 6 oid_addr port bucket_id) 1) bandwidth
       (bucket_bandwidth_tree trees)).

(** The loop over the buckets of a connection, from [ii] to [end_buckets]. *)
Fixpoint bucket_loop (fuel : nat) (root : OID) (oid_addr : OIDInetAddr) (port : Z)
    (msgs : list string) (ii end_buckets : Z) (trees : astaire_trees) : option (Z * astaire_trees) :=
  if ii <? end_buckets then
    match fuel with
    | O => None
    | S fuel' =>
      bucket_id ← frame_int msgs ii;
      entries ← frame_int msgs (ii + 1);
      data ← frame_int msgs (ii + 2);
      bandwidth ← frame_int msgs (ii + 3);
      ii' ← checked_int (ii + 4);
      bucket_loop fuel' root oid_addr port msgs ii' end_buckets
        (set_bucket root oid_addr port bucket_id entries data bandwidth trees)
    end
  else Some (ii, trees).

(** The fields of one connection. *)
Definition set_connection (root : OID) (oid_addr : OIDInetAddr) (port needing resynchronized : Z)
    (trees : astaire_trees) : astaire_trees :=
  let connection_base_oid := OID_descendant root "6.1" in
  mkAstaireTrees
    (assign (append_oid (append_addr (OID_child connection_base_oid 5) oid_addr) port) resynchronized
       (assign (append_oid (append_addr (OID_child connection_base_oid 4) oid_addr) port) needing
          (connection_tree trees)))
    (bucket_tree trees) (bucket_bandwidth_tree trees).

(** The loop over the connections; a [break] ends it with what was read. *)
Fixpoint connection_loop (fuel : nat) (root : OID) (msgs : list string) (ii : Z)
    (trees : astaire_trees) : option astaire_trees :=
  if ii <? msgs_size msgs then
    match fuel with
    | O => None
    | S fuel' =>
      limit ← checked_int (ii + 5);
      if limit <=? msgs_size msgs then
        addr ← frame msgs ii;
        port ← frame_int msgs (ii + 1);
        let oid_addr := setAddr (c_str addr) in
        if isValid oid_addr then
          needing ← frame_int msgs (ii + 2);
          resynchronized ← frame_int msgs (ii + 3);
          num_buckets ← frame_int msgs (ii + 4);
          let trees := set_connection root oid_addr port needing resynchronized trees in
          fields ← checked_int (num_buckets * 4);
          end_buckets ← checked_int (limit + fields);
          if end_buckets <=? msgs_size msgs then
            '(ii', trees') ← bucket_loop (length msgs) root oid_addr port msgs limit end_buckets trees;
            connection_loop fuel' root msgs ii' trees'
          else Some trees
        else Some trees
      else Some trees
    end
  else Some trees.

(** [AstaireConnectionStatHandler::handle] *)
Definition handle_astaire_connections (root : OID) (msgs : list string) (tree : OIDMap)
    : option OIDMap :=
  trees ← connection_loop (length msgs) root msgs 2 (mkAstaireTrees [] [] []);
  Some (replace_subtree (OID_descendant root "8.1") (bucket_bandwidth_tree trees)
         (replace_subtree (OID_descendant root "7.1") (bucket_tree trees)
           (replace_subtree (OID_descendant root "6.1") (connection_tree trees) tree))).

(** [handler->handle(msgs)], the virtual call. *)
Definition handle (h : ZMQMessageHandler) (msgs : list string) (tree : OIDMap) : option OIDMap :=
  match handler_type h with
  | IPCountStatHandler => handle_ip_count (_root_oid h) msgs tree
  | BareStatHandler => handle_bare (_root_oid h) msgs tree
  | SingleNumberStatHandler => handle_single (_root_oid h) msgs tree
  | SingleNumberWithScopeStatHandler => handle_single_scope (_root_oid h) msgs tree
  | AccumulatedWithCountStatHandler => handle_accumulated (_root_oid h) msgs tree
  | AstaireGlobalStatHandler => handle_astaire_global (_root_oid h) msgs tree
  | AstaireConnectionStatHandler => handle_astaire_connections (_root_oid h) msgs tree
  end.
End handlers.

(** ** Lemmas *)

Section handler_laws.
Context `{NetSnmpOidsSpec} `{InetPton}.
Implicit Types (root : OID) (tree m : OIDMap) (msgs : list string).

Lemma msgs_size_length msgs :
  Z.of_nat (length msgs) <= INT_MAX -> msgs_size msgs = Z.of_nat (length msgs).
Proof. intros Hl. apply swrap_id; unfold_ints; lia. Qed.

Lemma frame_Some msgs i : 0 <= i < Z.of_nat (length msgs) -> is_Some (frame msgs i).
Proof.
  intros Hi. unfold frame. rewrite (proj2 (Z.ltb_ge _ _)) by lia.
  apply lookup_lt_is_Some. lia.
Qed.

Lemma frame_int_Some msgs i : 0 <= i < Z.of_nat (length msgs) -> is_Some (frame_int msgs i).
Proof. intros Hi. unfold frame_int. destruct (frame_Some msgs i Hi) as [s ->]. by eexists. Qed.

(** Every entry of [m] extends [root]. *)
Definition below root m : Prop := forall o, is_Some (find_key o m) -> _oids root `prefix_of` _oids o.

Lemma below_nil root : below root [].
Proof. intros o [v Hv]. done. Qed.

Lemma below_assign root o v m : _oids root `prefix_of` _oids o -> below root m -> below root (assign o v m).
Proof.
  intros Ho Hm o'. destruct (decide (o' = o)) as [->|]; [done|].
  rewrite find_assign_ne by done. apply Hm.
Qed.

Lemma below_emplace root o v m : _oids root `prefix_of` _oids o -> below root m -> below root (emplace o v m).
Proof.
  intros Ho Hm o'. destruct (decide (o' = o)) as [->|]; [done|].
  rewrite find_emplace_ne by done. apply Hm.
Qed.

Lemma prefix_append_oid root o x : _oids root `prefix_of` _oids o -> _oids root `prefix_of` _oids (append_oid o x).
Proof. intros. by apply prefix_app_r. Qed.

Lemma prefix_append_addr root o a : _oids root `prefix_of` _oids o -> _oids root `prefix_of` _oids (append_addr o a).
Proof. intros. by apply prefix_app_r. Qed.

Lemma prefix_append_string root o s : _oids root `prefix_of` _oids o -> _oids root `prefix_of` _oids (append_string o s).
Proof. intros. rewrite append_string_arcs. by apply prefix_app_r. Qed.

Lemma prefix_descendant root o s : _oids root `prefix_of` _oids o -> _oids root `prefix_of` _oids (OID_descendant o s).
Proof. apply prefix_append_string. Qed.

Lemma prefix_child root o x : _oids root `prefix_of` _oids o -> _oids root `prefix_of` _oids (OID_child o x).
Proof. apply prefix_append_oid. Qed.

(** What a handler of [root] may do: keep the order, change only entries on the
    branch of [root], and add entries only under [root]. *)
Definition confined root tree tree' : Prop :=
  sorted tree' /\
  (forall o, ~ on_branch root o -> find_key o tree' = find_key o tree) /\
  (forall o, is_Some (find_key o tree') -> is_Some (find_key o tree) \/ _oids root `prefix_of` _oids o).

Lemma confined_refl root tree : sorted tree -> confined root tree tree.
Proof. intros Ht. split_and!; [done..|]. intros o Ho. by left. Qed.

Lemma confined_trans root t1 t2 t3 : confined root t1 t2 -> confined root t2 t3 -> confined root t1 t3.
Proof.
  intros (_ & H12 & H12') (Hs & H23 & H23'). split_and!; [done| |].
  - intros o Ho. by rewrite H23, H12.
  - intros o Ho. destruct (H23' o Ho) as [Ho'|?]; [by apply H12'|by right].
Qed.

Lemma below_off_branch root m o : below root m -> ~ on_branch root o -> find_key o m = None.
Proof.
  intros Hm Ho. destruct (find_key o m) eqn:Hf; [|done]. exfalso. apply Ho. left. apply Hm. by eexists.
Qed.

(** [root'] is [root] or an extension of it. *)
Lemma on_branch_ext root root' o :
  _oids root `prefix_of` _oids root' -> on_branch root' o -> on_branch root o.
Proof.
  intros Hr [Hp|Hp].
  - left. by etransitivity.
  - destruct (prefix_weak_total (_oids root) (_oids o) (_oids root')); [done|done|by left|by right].
Qed.

Lemma confined_replace root root' u tree :
  sorted tree -> sorted u -> _oids root `prefix_of` _oids root' -> below root u ->
  confined root tree (replace_subtree root' u tree).
Proof.
  intros Ht Hu Hr Hb. split_and!; [by apply replace_subtree_sorted| |].
  - intros o Ho. rewrite find_replace_subtree by done. rewrite (below_off_branch root u o) by done.
    assert (subtree_contains root' o = false) as ->
      by (apply subtree_contains_not; intros Hc; by apply Ho, (on_branch_ext root root')).
    by destruct (find_key o tree).
  - intros o. rewrite find_replace_subtree by done.
    destruct (find_key o u) eqn:Hf; [right; apply Hb; by eexists|].
    destruct (subtree_contains root' o); [by intros [? [=]]|].
    destruct (find_key o tree); [intros _; left; by eexists|by intros [? [=]]].
Qed.

Lemma confined_remove_subtree root tree : sorted tree -> confined root tree (remove_subtree root tree).
Proof.
  intros Ht. split_and!; [by apply remove_subtree_sorted| |]; intros o Ho;
    rewrite find_remove_subtree in * by done.
  - by apply subtree_contains_not in Ho as ->.
  - left. destruct (subtree_contains root o); [by destruct Ho|done].
Qed.

Lemma confined_set root o v tree :
  sorted tree -> _oids root `prefix_of` _oids o -> confined root tree (tree_set o v tree).
Proof.
  intros Ht Hr. split_and!; [by apply assign_sorted| |].
  - intros o' Ho. apply find_assign_ne. intros ->. apply Ho. by left.
  - intros o' Ho. destruct (decide (o' = o)) as [->|]; [by right|left].
    unfold tree_set in Ho. by rewrite find_assign_ne in Ho.
Qed.

Lemma confined_remove root o tree :
  sorted tree -> _oids root `prefix_of` _oids o -> confined root tree (tree_remove o tree).
Proof.
  intros Ht Hr. split_and!; [by apply erase_sorted| |].
  - intros o' Ho. apply find_erase_ne; [done|]. intros ->. apply Ho. by left.
  - unfold tree_remove. intros o' [v Hv]. left. destruct (decide (o' = o)) as [->|].
    + by rewrite find_erase_eq in Hv.
    + rewrite find_erase_ne in Hv by done. by eexists.
Qed.
End handler_laws.

#[export] Hint Resolve below_nil below_assign below_emplace prefix_append_oid prefix_append_addr
  prefix_append_string prefix_descendant prefix_child : snmp.

(** ** Every handler stays under its root *)

Section confinement.
Context `{NetSnmpOidsSpec} `{InetPton}.
Implicit Types (root : OID) (tree m : OIDMap) (msgs : list string).

(** Maps built by a handler. *)
Definition built root m : Prop := sorted m /\ below root m.

Lemma built_nil root : built root [].
Proof. split; [apply sorted_nil|apply below_nil]. Qed.

Lemma built_assign root o v m : _oids root `prefix_of` _oids o -> built root m -> built root (assign o v m).
Proof. intros Ho [Hs Hb]. split; [by apply assign_sorted|by apply below_assign]. Qed.

Lemma built_insert_range root kvs m :
  Forall (fun kv => _oids root `prefix_of` _oids kv.1) kvs -> built root m -> built root (insert_range kvs m).
Proof.
  intros Hk. revert m. unfold insert_range. induction Hk as [|kv kvs Hkv Hk IH]; intros m Hm; simpl; [done|].
  apply IH. destruct Hm as [Hs Hb]. split; [by apply emplace_sorted|by apply below_emplace].
Qed.

Lemma built_replace root root' u tree :
  sorted tree -> built root u -> _oids root `prefix_of` _oids root' ->
  confined root tree (replace_subtree root' u tree).
Proof. intros Ht [Hs Hb] Hr. by apply confined_replace. Qed.

Hint Resolve built_nil built_assign built_insert_range : snmp.

Lemma ip_count_built root frames m : built root m -> built root (ip_count_loop root frames m).
Proof.
  revert m. induction frames as [|ip [|val frames] IH]; intros m Hm; simpl; [done..|].
  apply IH. destruct (isValid (setAddr ip)); [|done]. auto with snmp.
Qed.

Definition trees_built root (t : astaire_trees) : Prop :=
  built root (connection_tree t) /\ built root (bucket_tree t) /\ built root (bucket_bandwidth_tree t).

Lemma bucket_loop_built fuel root addr port msgs ii end_buckets t ii' t' :
  trees_built root t -> bucket_loop fuel root addr port msgs ii end_buckets t = Some (ii', t') ->
  trees_built root t'.
Proof.
  revert ii t. induction fuel as [|fuel IH]; intros ii t Ht; simpl; destruct (ii <? end_buckets);
    try (intros; by simplify_eq).
  intros Hb. repeat (apply bind_Some in Hb as (? & ? & Hb)). eapply IH; [|exact Hb].
  destruct Ht as (Hc & Hk & Hw). unfold set_bucket, bucket_oid. split_and!; simpl; auto 12 with snmp.
Qed.

Lemma connection_loop_built fuel root msgs ii t t' :
  trees_built root t -> connection_loop fuel root msgs ii t = Some t' -> trees_built root t'.
Proof.
  revert ii t. induction fuel as [|fuel IH]; intros ii t Ht; simpl; destruct (ii <? msgs_size msgs);
    try (intros; by simplify_eq).
  intros Hb. apply bind_Some in Hb as (limit & _ & Hb).
  destruct (limit <=? msgs_size msgs); [|by simplify_eq].
  apply bind_Some in Hb as (addr & _ & Hb). apply bind_Some in Hb as (port & _ & Hb).
  destruct (isValid _); [|by simplify_eq].
  repeat (apply bind_Some in Hb as (? & _ & Hb)).
  set (t1 := set_connection _ _ _ _ _ t) in Hb.
  assert (trees_built root t1) as Ht1.
  { destruct Ht as (Hc & Hk & Hw). unfold t1, set_connection. split_and!; simpl; auto 12 with snmp. }
  case_match; [|by simplify_eq].
  apply bind_Some in Hb as ([ii' t2] & Hbl & Hb). eapply IH; [|exact Hb].
  by eapply bucket_loop_built.
Qed.

Lemma confined_then_set root t0 o v tree :
  confined root t0 tree -> _oids root `prefix_of` _oids o -> confined root t0 (tree_set o v tree).
Proof. intros Hc Hr. eapply confined_trans; [exact Hc|]. by apply confined_set; [apply Hc|]. Qed.

Lemma confined_then_remove root t0 o tree :
  confined root t0 tree -> _oids root `prefix_of` _oids o -> confined root t0 (tree_remove o tree).
Proof. intros Hc Hr. eapply confined_trans; [exact Hc|]. by apply confined_remove; [apply Hc|]. Qed.

Lemma built_then_replace root root' u t0 tree :
  confined root t0 tree -> built root u -> _oids root `prefix_of` _oids root' ->
  confined root t0 (replace_subtree root' u tree).
Proof. intros Hc Hu Hr. eapply confined_trans; [exact Hc|]. by apply built_replace; [apply Hc| |]. Qed.

Lemma handle_stays h msgs tree tree' :
  sorted tree -> handle h msgs tree = Some tree' -> confined (_root_oid h) tree tree'.
Proof.
  intros Ht Hh.
  destruct h as [[] root]; unfold handle in Hh; cbn [handler_type _root_oid] in *;
    assert (_oids root `prefix_of` _oids root) as Hr by done;
    unfold handle_ip_count, handle_astaire_connections, handle_bare, handle_single, handle_single_scope, handle_accumulated, handle_astaire_global in Hh.
  - destruct msgs as [|? [|? frames]]; simplify_eq. apply built_replace; [done| |done]. apply ip_count_built. auto with snmp.
  - destruct (3 <=? _); [|simplify_eq; by apply confined_refl]. apply bind_Some in Hh as (v & _ & [= <-]). by apply confined_set.
  - destruct (3 <=? _); [|by simplify_eq; apply confined_remove_subtree].
    apply bind_Some in Hh as (v & _ & [= <-]). apply built_replace; [done| |done].
    apply (built_assign root (append_string root "0") v []); auto with snmp.
  - destruct (3 <=? _); [|by simplify_eq; apply confined_remove_subtree].
    apply bind_Some in Hh as (v & _ & [= <-]). apply built_replace; [done| |done].
    apply (built_assign root (append_string root "1.2") v []); auto with snmp.
  - destruct (7 <=? _); [|by simplify_eq; apply confined_remove_subtree].
    repeat (apply bind_Some in Hh as (? & _ & Hh)). simplify_eq.
    apply built_replace; [done| |done]. apply built_insert_range; [|auto with snmp].
    repeat (apply Forall_cons_2; [cbn [fst]; by auto with snmp|]). apply Forall_nil_2.
  - destruct (7 <=? _).
    + repeat (apply bind_Some in Hh as (? & _ & Hh)). simplify_eq.
      repeat (apply confined_then_set; [|by auto with snmp]). by apply confined_refl.
    + simplify_eq. repeat (apply confined_then_remove; [|by auto with snmp]). by apply confined_refl.
  - apply bind_Some in Hh as (t & Hl & [= <-]).
    apply connection_loop_built in Hl as (H1' & H2' & H3'); [|split_and!; auto with snmp].
    repeat (apply built_then_replace; [|done|by auto with snmp]). by apply confined_refl.
Qed.

(** A statistics message touches nothing outside the branch of its handler: whatever
    the frames, every handler keeps the order of the tree, keeps every entry
    that neither extends nor is a prefix of the handler's root, and adds entries
    only under that root. *)
Theorem handle_confined h msgs tree tree' :
  sorted tree -> handle h msgs tree = Some tree' ->
  sorted tree' /\
  (forall o, ~ on_branch (_root_oid h) o -> tree_get o tree' = tree_get o tree) /\
  (forall o, is_Some (tree_get o tree') ->
             is_Some (tree_get o tree) \/ _oids (_root_oid h) `prefix_of` _oids o).
Proof. apply handle_stays. Qed.
End confinement.

#[export] Hint Resolve built_nil built_assign built_insert_range : snmp.

(** ** What the handlers of single values write *)

Section values.
Context `{NetSnmpOidsSpec} `{InetPton}.
Implicit Types (root : OID) (tree m : OIDMap) (msgs : list string).

(** The value a list of entries gives an identifier: the first, as an
    initializer list does. *)
Definition entry_of (entries : list (OID * Z)) (o : OID) : option Z :=
  snd <$> List.find (fun kv => bool_decide (kv.1 = o)) entries.

Lemma find_emplace_fold kvs m o :
  find_key o (insert_range kvs m) = find_key o m ∪ entry_of kvs o.
Proof.
  unfold insert_range, entry_of. revert m. induction kvs as [|[k v] kvs IH]; intros m; cbn.
  { by destruct (find_key o m). }
  rewrite IH. case_bool_decide as Hk.
  - subst. rewrite find_emplace_eq. by destruct (find_key _ m), (List.find _ kvs).
  - by rewrite find_emplace_ne.
Qed.

Lemma get_replaced root u tree o :
  sorted tree -> built root u ->
  tree_get o (replace_subtree root u tree) =
    if bool_decide (on_branch root o) then find_key o u else tree_get o tree.
Proof.
  intros Ht [Hs Hb]. unfold tree_get. rewrite find_replace_subtree by done. case_bool_decide as Ho.
  - apply subtree_contains_spec in Ho as ->. by destruct (find_key o u).
  - rewrite (below_off_branch root u o) by done. apply subtree_contains_not in Ho as ->.
    by destruct (find_key o tree).
Qed.

Lemma get_removed root tree o :
  sorted tree ->
  tree_get o (remove_subtree root tree) = if bool_decide (on_branch root o) then None else tree_get o tree.
Proof.
  intros Ht. unfold tree_get. rewrite find_remove_subtree by done. case_bool_decide as Ho.
  - by apply subtree_contains_spec in Ho as ->.
  - by apply subtree_contains_not in Ho as ->.
Qed.

(** The entries a handler class writes for a message, after the two header frames. *)
Definition message_entries (c : handler_class) root (values : list Z) : option (list (OID * Z)) :=
  match c, values with
  | BareStatHandler, v :: _ => Some [(root, v)]
  | SingleNumberStatHandler, v :: _ => Some [(append_string root "0", v)]
  | SingleNumberWithScopeStatHandler, v :: _ => Some [(append_string root "1.2", v)]
  | AccumulatedWithCountStatHandler, average :: variance :: lwm :: hwm :: count :: _ =>
    Some [(append_string root "1.2", average); (append_string root "1.3", variance);
          (append_string root "1.4", hwm); (append_string root "1.5", lwm);
          (append_string root "1.6", count)]
  | _, _ => None
  end.

(** The classes above; [BareStatHandler] keeps what it does not write. *)
Definition value_class (c : handler_class) : bool :=
  match c with
  | BareStatHandler | SingleNumberStatHandler | SingleNumberWithScopeStatHandler
  | AccumulatedWithCountStatHandler => true
  | _ => false
  end.

Definition replaces (c : handler_class) : bool :=
  match c with BareStatHandler => false | _ => true end.

Lemma frame_int_nth (a b : string) (l : list string) (i : nat) (s : string) :
  l !! i = Some s -> frame_int (a :: b :: l) (Z.of_nat i + 2) = Some (atoi (c_str s)).
Proof.
  intros Hl. unfold frame_int, frame. rewrite (proj2 (Z.ltb_ge _ _)) by lia.
  replace (Z.to_nat (Z.of_nat i + 2)) with (S (S i)) by lia. simpl. by rewrite Hl.
Qed.

Lemma get_replaced_entries root entries tree o :
  sorted tree -> Forall (fun kv => _oids root `prefix_of` _oids kv.1) entries ->
  tree_get o (replace_subtree root (insert_range entries []) tree) =
    entry_of entries o ∪ (if bool_decide (on_branch root o) then None else tree_get o tree).
Proof.
  intros Ht He.
  assert (built root (insert_range entries [])) as Hb by by apply built_insert_range; [|apply built_nil].
  rewrite get_replaced by done. destruct Hb as [_ Hb]. case_bool_decide as Ho.
  - rewrite find_emplace_fold. cbn. by destruct (entry_of entries o).
  - pose proof (below_off_branch _ _ _ Hb Ho) as Hn. rewrite find_emplace_fold in Hn. cbn in Hn.
    destruct (entry_of entries o); [done|]. by destruct (tree_get o tree).
Qed.

Lemma value_message_writes h name status frames tree o :
  sorted tree -> Z.of_nat (length frames) + 2 <= INT_MAX -> value_class (handler_type h) = true ->
  exists tree', handle h (name :: status :: frames) tree = Some tree' /\
    tree_get o tree' =
      match message_entries (handler_type h) (_root_oid h) (atoi <$> (c_str <$> frames)) with
      | Some entries =>
        entry_of entries o ∪
        (if replaces (handler_type h) && bool_decide (on_branch (_root_oid h) o)
         then None else tree_get o tree)
      | None =>
        if replaces (handler_type h) && bool_decide (on_branch (_root_oid h) o)
        then None else tree_get o tree
      end.
Proof.
  intros Ht Hl Hc.
  assert (msgs_size (name :: status :: frames) = Z.of_nat (length frames) + 2) as Hsize
    by (rewrite msgs_size_length; simpl; lia).
  assert (forall (i : nat) s, frames !! i = Some s ->
            frame_int (name :: status :: frames) (Z.of_nat i + 2) = Some (atoi (c_str s))) as Hf
    by (intros; by apply frame_int_nth).
  destruct h as [[] root]; try done; unfold handle, handle_bare, handle_single, handle_single_scope,
    handle_accumulated; cbn [handler_type _root_oid]; rewrite Hsize.
  - destruct frames as [|v frames]; [exists tree; split; [done|by destruct (tree_get o tree)]|].
    rewrite (proj2 (Z.leb_le _ _)) by (simpl; lia). rewrite (Hf 0%nat v eq_refl : frame_int _ 2 = _).
    eexists. split; [done|]. cbn [message_entries replaces andb fmap list_fmap].
    unfold tree_get, tree_set, entry_of. cbn. case_bool_decide as Ho.
    + subst o. rewrite find_assign_eq. by destruct (find_key root tree).
    + rewrite find_assign_ne by done. by destruct (find_key o tree).
  - destruct frames as [|v frames]; [exists (remove_subtree root tree); split; [done|by apply get_removed]|].
    rewrite (proj2 (Z.leb_le _ _)) by (simpl; lia). rewrite (Hf 0%nat v eq_refl : frame_int _ 2 = _).
    eexists. split; [done|].
    apply (get_replaced_entries root [(append_string root "0", atoi (c_str v))]); [done|].
    apply Forall_singleton. cbn [fst]. auto with snmp.
  - destruct frames as [|v frames]; [exists (remove_subtree root tree); split; [done|by apply get_removed]|].
    rewrite (proj2 (Z.leb_le _ _)) by (simpl; lia). rewrite (Hf 0%nat v eq_refl : frame_int _ 2 = _).
    eexists. split; [done|].
    apply (get_replaced_entries root [(append_string root "1.2", atoi (c_str v))]); [done|].
    apply Forall_singleton. cbn [fst]. auto with snmp.
  - destruct frames as [|a [|b [|c [|d [|e frames]]]]];
      try (exists (remove_subtree root tree); split; [done|by apply get_removed]).
    rewrite (proj2 (Z.leb_le _ _)) by (simpl; lia).
    rewrite (Hf 0%nat a eq_refl : frame_int _ 2 = _), (Hf 1%nat b eq_refl : frame_int _ 3 = _),
      (Hf 2%nat c eq_refl : frame_int _ 4 = _), (Hf 3%nat d eq_refl : frame_int _ 5 = _),
      (Hf 4%nat e eq_refl : frame_int _ 6 = _).
    eexists. split; [done|]. apply get_replaced_entries; [done|].
    repeat (apply Forall_cons_2; [cbn [fst]; by auto with snmp|]). apply Forall_nil_2.
Qed.
(** The handlers of single values and of averages write exactly the
    entries of the message ([AccumulatedWithCount] swapping the two water
    marks); all but the bare one also drop every other entry of their branch,
    and the whole branch when the message is too short. *)
Theorem value_message_handled h name status frames tree o :
  sorted tree -> Z.of_nat (length frames) + 2 <= INT_MAX -> value_class (handler_type h) = true ->
  exists tree', handle h (name :: status :: frames) tree = Some tree' /\
    tree_get o tree' =
      match message_entries (handler_type h) (_root_oid h) (atoi <$> (c_str <$> frames)) with
      | Some entries =>
        entry_of entries o ∪
        (if replaces (handler_type h) && bool_decide (on_branch (_root_oid h) o)
         then None else tree_get o tree)
      | None =>
        if replaces (handler_type h) && bool_decide (on_branch (_root_oid h) o)
        then None else tree_get o tree
      end.
Proof. apply value_message_writes. Qed.

Lemma message_entries_under c root values entries :
  message_entries c root values = Some entries ->
  Forall (fun kv => _oids root `prefix_of` _oids kv.1) entries.
Proof.
  intros He. destruct c, values as [|? [|? [|? [|? [|? ?]]]]]; simpl in He; simplify_eq;
    repeat (apply Forall_cons_2; [cbn [fst]; by auto with snmp|]); apply Forall_nil_2.
Qed.

Lemma entry_of_elem entries o v : entry_of entries o = Some v -> (o, v) ∈ entries.
Proof.
  unfold entry_of. intros ([k w] & Hf & [= <-])%fmap_Some. apply List.find_some in Hf as [Hin Hk].
  apply bool_decide_eq_true in Hk as <-. by apply list_elem_of_In.
Qed.
End values.

(** ** Lists of addresses *)

Section lists.
Context `{NetSnmpOidsSpec} `{InetPton}.
Implicit Types (root : OID) (tree m : OIDMap) (msgs : list string).

(** The identifier a count is stored at. *)
Definition ip_count_oid root (ip : string) : OID :=
  append_addr (append_string root "1.3") (setAddr ip).

(** The map of counts by address, later ones replacing earlier ones. *)
Definition ip_counts root (pairs : list (string * string)) : OIDMap :=
  fold_left (fun (m : OIDMap) p => if isValid (setAddr p.1)
                        then assign (ip_count_oid root p.1) (atoi (c_str p.2)) m else m) pairs [].

Lemma ip_count_loop_pairs root pairs m :
  Forall (fun p => isValid (setAddr p.2) = false) pairs ->
  ip_count_loop root (pairs ≫= fun p => [p.1; p.2]) m =
    fold_left (fun m p => if isValid (setAddr p.1)
                          then assign (ip_count_oid root p.1) (atoi (c_str p.2)) m else m) pairs m.
Proof.
  intros Hp. revert m. induction Hp as [|[ip val] pairs Hv Hp IH]; intros m; [done|].
  change (((ip, val) :: pairs) ≫= fun p => [p.1; p.2]) with (ip :: val :: (pairs ≫= fun p => [p.1; p.2])).
  simpl in Hv. cbn [fold_left fst snd]. rewrite <- IH.
  destruct pairs as [|[ip' val'] pairs]; [done|].
  change (((ip', val') :: pairs) ≫= fun p => [p.1; p.2]) with (ip' :: val' :: (pairs ≫= fun p => [p.1; p.2])).
  cbn [ip_count_loop]. by rewrite Hv.
Qed.

(** A message of address and count pairs replaces the handler's branch
    with one entry per valid address, its last count, and drops the pairs whose
    address does not parse. The loop advances by one frame, not by a pair, so
    this takes that no count parses as an address, which a decimal number does not. *)
Theorem ip_count_message_handled h name status pairs tree o :
  handler_type h = IPCountStatHandler -> sorted tree ->
  Forall (fun p => isValid (setAddr p.2) = false) pairs ->
  exists tree', handle h (name :: status :: (pairs ≫= fun p => [p.1; p.2])) tree = Some tree' /\
    tree_get o tree' =
      if bool_decide (on_branch (_root_oid h) o) then find_key o (ip_counts (_root_oid h) pairs)
      else tree_get o tree.
Proof.
  destruct h as [c root]. cbn [handler_type _root_oid]. intros -> Ht Hp.
  exists (replace_subtree root (ip_count_loop root (pairs ≫= fun p => [p.1; p.2]) []) tree).
  split; [done|].
  rewrite get_replaced; [|done|apply ip_count_built, built_nil].
  case_bool_decide; [|done]. by rewrite ip_count_loop_pairs.
Qed.

End lists.

(** ** Witnesses *)

Import Reference InetReference.

(** The entries of other statistics around a handler's root. *)
Module MessageSample.
Definition root : OID := mkOID [1; 2].
Definition other : OID := mkOID [1; 3; 1].
Definition stat_tree : OIDMap := [(mkOID [1; 2; 1; 2], 5); (other, 6)].

Lemma stat_tree_sorted : sorted stat_tree.
Proof. unfold stat_tree. repeat constructor. Qed.

Definition accumulated : ZMQMessageHandler := mkZMQMessageHandler AccumulatedWithCountStatHandler root.
Definition ip_count : ZMQMessageHandler := mkZMQMessageHandler IPCountStatHandler root.
Definition connections : ZMQMessageHandler := mkZMQMessageHandler AstaireConnectionStatHandler root.
End MessageSample.
Import MessageSample.

Lemma handle_confined_witness :
  let tree' := replace_subtree root (insert_range [(mkOID [1; 2; 1; 2], 1); (mkOID [1; 2; 1; 3], 2);
                 (mkOID [1; 2; 1; 4], 4); (mkOID [1; 2; 1; 5], 3); (mkOID [1; 2; 1; 6], 5)] []) stat_tree in
  handle accumulated ["stat"; "OK"; "1"; "2"; "3"; "4"; "5"] stat_tree = Some tree' /\
  sorted tree' /\
  (forall o, ~ on_branch root o -> tree_get o tree' = tree_get o stat_tree) /\
  (forall o, is_Some (tree_get o tree') ->
             is_Some (tree_get o stat_tree) \/ _oids root `prefix_of` _oids o).
Proof.
  intros tree'. split; [vm_compute; reflexivity|].
  apply (handle_confined accumulated ["stat"; "OK"; "1"; "2"; "3"; "4"; "5"] stat_tree tree').
  - apply stat_tree_sorted.
  - vm_compute. reflexivity.
Defined.

Lemma value_message_handled_witness :
  exists tree', handle accumulated ["stat"; "OK"; "1"; "2"; "3"; "4"; "5"] stat_tree = Some tree' /\
    tree_get (mkOID [1; 2; 1; 4]) tree' = Some 4.
Proof.
  destruct (value_message_handled accumulated "stat" "OK" ["1"; "2"; "3"; "4"; "5"] stat_tree
    (mkOID [1; 2; 1; 4])) as (tree' & Hh & Hg).
  - apply stat_tree_sorted.
  - vm_compute. discriminate.
  - reflexivity.
  - exists tree'. split; [exact Hh|]. rewrite Hg. vm_compute. reflexivity.
Defined.

Lemma ip_count_message_handled_witness :
  exists tree', handle ip_count ["stat"; "OK"; "10.0.0.1"; "3"; "bad"; "4"; "10.0.0.1"; "5"] stat_tree = Some tree' /\
    tree_get (mkOID [1; 2; 1; 3; 1; 4; 10; 0; 0; 1]) tree' = Some 5.
Proof.
  destruct (ip_count_message_handled ip_count "stat" "OK" [("10.0.0.1", "3"); ("bad", "4"); ("10.0.0.1", "5")]
    stat_tree (mkOID [1; 2; 1; 3; 1; 4; 10; 0; 0; 1])) as (tree' & Hh & Hg).
  - reflexivity.
  - apply stat_tree_sorted.
  - repeat constructor.
  - exists tree'. split; [exact Hh|]. rewrite Hg. vm_compute. reflexivity.
Defined.
