(* ===== verification/AstaireParser.v ===== *)
(** What [AstaireConnectionStatHandler] of [src/astairedata.cpp] reads: the connections of a
    message, by a parser that works on the list of frames by pattern matching, the equality of the
    handler's loops with it, and the round trip of printed connections. The messages for
    which every handler succeeds follow: their size, and for Astaire the
    bucket counts the parser meets, must leave the handlers' [int] arithmetic in range. *)

From S2P Require Export StatHandlers.

(** ** Connections and their frames *)

Section connections.
Context `{NetSnmpOidsSpec} `{InetPton}.
Implicit Types (root : OID) (msgs : list string).

Record bucket_stat := mkBucketStat { b_id : Z; b_entries : Z; b_data : Z; b_bandwidth : Z }.

Record connection_stat := mkConnectionStat {
  c_addr : string; c_port : Z; c_needing : Z; c_resynchronized : Z; c_buckets : list bucket_stat;
}.

(** The frames Astaire publishes for a bucket and for a connection. *)
Definition bucket_frames (b : bucket_stat) : list string :=
  [dec (b_id b); dec (b_entries b); dec (b_data b); dec (b_bandwidth b)].

Definition connection_header (c : connection_stat) : list string :=
  [c_addr c; dec (c_port c); dec (c_needing c); dec (c_resynchronized c);
   dec (Z.of_nat (length (c_buckets c)))].

Definition connection_frames (c : connection_stat) : list string :=
  connection_header c ++ (c_buckets c ≫= bucket_frames).

Definition int_value (x : Z) : Prop := 0 <= x <= INT_MAX.

Definition bucket_printable (b : bucket_stat) : Prop :=
  int_value (b_id b) /\ int_value (b_entries b) /\ int_value (b_data b) /\ int_value (b_bandwidth b).

Definition connection_printable (c : connection_stat) : Prop :=
  c_str (c_addr c) = c_addr c /\ isValid (setAddr (c_addr c)) = true /\
  int_value (c_port c) /\ int_value (c_needing c) /\ int_value (c_resynchronized c) /\
  Forall bucket_printable (c_buckets c).

(** What a bucket and a connection add to the maps. *)
Definition add_bucket root (addr : OIDInetAddr) (port : Z) (t : astaire_trees) (b : bucket_stat) : astaire_trees :=
  set_bucket root addr port (b_id b) (b_entries b) (b_data b) (b_bandwidth b) t.

Definition add_connection root (t : astaire_trees) (c : connection_stat) : astaire_trees :=
  fold_left (add_bucket root (setAddr (c_addr c)) (c_port c)) (c_buckets c)
    (set_connection root (setAddr (c_addr c)) (c_port c) (c_needing c) (c_resynchronized c) t).

Lemma frame_app pre l (i : nat) k s :
  l !! i = Some s -> k = Z.of_nat (length pre + i) -> frame (pre ++ l) k = Some s.
Proof.
  intros Hl ->. unfold frame. rewrite (proj2 (Z.ltb_ge _ _)) by lia. rewrite Nat2Z.id.
  rewrite lookup_app_r by lia. by replace (length pre + i - length pre)%nat with i by lia.
Qed.

Lemma checked_int_ok x : INT_MIN <= x <= INT_MAX -> checked_int x = Some x.
Proof. intros. by apply checked_int_Some. Qed.

Lemma bucket_frames_length bs : length (bs ≫= bucket_frames) = (4 * length bs)%nat.
Proof. induction bs as [|b bs IH]; [done|]. rewrite bind_cons, length_app, IH. simpl. lia. Qed.

Lemma connection_frames_length c :
  length (connection_frames c) = (5 + 4 * length (c_buckets c))%nat.
Proof. unfold connection_frames. by rewrite length_app, bucket_frames_length. Qed.

(** The three maps stay under their tables. *)
Definition tables_built root (t : astaire_trees) : Prop :=
  built (OID_descendant root "6.1") (connection_tree t) /\
  built (OID_descendant root "7.1") (bucket_tree t) /\
  built (OID_descendant root "8.1") (bucket_bandwidth_tree t).

Lemma add_buckets_built root addr port bs t :
  tables_built root t -> tables_built root (fold_left (add_bucket root addr port) bs t).
Proof.
  revert t. induction bs as [|b bs IH]; intros t Ht; [done|]. apply IH. destruct Ht as (Hc & Hb & Hw).
  unfold add_bucket, set_bucket, bucket_oid. split_and!; cbn; auto 8 with snmp.
Qed.

Lemma set_connection_built root addr port needing resync t :
  tables_built root t -> tables_built root (set_connection root addr port needing resync t).
Proof. intros (Hc & Hb & Hw). unfold set_connection. split_and!; cbn; auto 8 with snmp. Qed.

Lemma add_connections_built root cs t :
  tables_built root t -> tables_built root (fold_left (add_connection root) cs t).
Proof.
  revert t. induction cs as [|c cs IH]; intros t Ht; [done|]. by apply IH, add_buckets_built, set_connection_built.
Qed.
End connections.

(** ** The parser *)

Definition frame_value (f : string) : Z := atoi (c_str f).

(** The first [n] buckets of some frames. *)
Fixpoint parse_buckets (n : nat) (frames : list string) : list bucket_stat :=
  match n, frames with
  | S n', id :: entries :: data :: bandwidth :: rest =>
    mkBucketStat (frame_value id) (frame_value entries) (frame_value data) (frame_value bandwidth) ::
    parse_buckets n' rest
  | _, _ => []
  end.

Section parser.
Context `{InetPton}.

(** The connections of some frames: up to the first whose five fields are not there or whose
    address does not parse; one that lacks buckets is the last, without any. *)
Fixpoint parse_connections (fuel : nat) (frames : list string) : list connection_stat :=
  match fuel, frames with
  | S fuel', addr :: port :: needing :: resync :: count :: rest =>
    if isValid (setAddr (c_str addr)) then
      let connection := mkConnectionStat (c_str addr) (frame_value port) (frame_value needing) (frame_value resync) in
      let n := Z.to_nat (frame_value count) in
      if (4 * n <=? length rest)%nat then
        connection (parse_buckets n rest) :: parse_connections fuel' (drop (4 * n) rest)
      else [connection []]
    else []
  | _, _ => []
  end.

(** Each turn takes at least five frames. *)
Definition connections_of (frames : list string) : list connection_stat :=
  parse_connections (length frames) frames.
End parser.

(** ** The messages within bounds *)

(** The size of messages, and of the bucket counts in them, for which the
    handlers' [int] arithmetic stays in range. *)
Definition message_bound : Z := 2 ^ 28.

Definition sized_message (msgs : list string) : Prop := 2 <= Z.of_nat (length msgs) <= message_bound.

Section bounds.
Context `{InetPton}.

(** The bucket counts that the loop over the connections meets are within the bound. *)
Fixpoint counts_bounded_loop (fuel : nat) (frames : list string) : bool :=
  match fuel, frames with
  | S fuel', addr :: port :: needing :: resync :: count :: rest =>
    if isValid (setAddr (c_str addr)) then
      (Z.abs (frame_value count) <=? message_bound) &&
      counts_bounded_loop fuel' (drop (4 * Z.to_nat (frame_value count)) rest)
    else true
  | _, _ => true
  end.

Definition counts_bounded (frames : list string) : bool := counts_bounded_loop (length frames) frames.

Definition bounded_message (msgs : list string) : Prop :=
  sized_message msgs /\ counts_bounded (drop 2 msgs) = true.

Lemma counts_bounded_fuel fuel fuel' frames :
  (length frames <= fuel)%nat -> (length frames <= fuel')%nat ->
  counts_bounded_loop fuel frames = counts_bounded_loop fuel' frames.
Proof.
  revert fuel' frames. induction fuel as [|fuel IH]; intros [|fuel'] frames Hf Hf';
    try (destruct frames; [done|cbn in *; lia]).
  destruct frames as [|addr [|port [|needing [|resync [|count rest]]]]]; try done. cbn [counts_bounded_loop].
  destruct (isValid _); [|done]. f_equal. cbn [length] in *. apply IH; rewrite length_drop; lia.
Qed.
End bounds.

Lemma message_bound_val : message_bound = 268435456.
Proof. reflexivity. Qed.

Lemma sized_size msgs : sized_message msgs -> msgs_size msgs = Z.of_nat (length msgs).
Proof. intros Hl. unfold sized_message in Hl. rewrite message_bound_val in Hl. apply msgs_size_length. unfold_ints; lia. Qed.

(** ** The handler reads what the parser reads *)

Section equivalence.
Context `{NetSnmpOids} `{InetPton}.
Implicit Types (root : OID) (msgs pre frames : list string).

Lemma frame_int_at pre frames (i : nat) k s :
  frames !! i = Some s -> k = Z.of_nat (length pre + i) -> frame_int (pre ++ frames) k = Some (frame_value s).
Proof. intros Hs Hk. unfold frame_int. by rewrite (frame_app pre frames i k s Hs Hk). Qed.

(** Reads the [i]th of the frames after [pre]. *)
Ltac read_at pre i k :=
  erewrite (frame_int_at pre _ i k); [|reflexivity|lia]; cbn [mbind option_bind].

Lemma bucket_loop_none fuel root addr port msgs ii end_buckets t :
  end_buckets <= ii -> bucket_loop fuel root addr port msgs ii end_buckets t = Some (ii, t).
Proof. intros Hi. destruct fuel; cbn [bucket_loop]; by rewrite (proj2 (Z.ltb_ge _ _)). Qed.

Lemma bucket_loop_parses fuel root addr port pre frames n t :
  sized_message (pre ++ frames) -> (4 * n <= length frames)%nat -> (n <= fuel)%nat ->
  bucket_loop fuel root addr port (pre ++ frames) (Z.of_nat (length pre)) (Z.of_nat (length pre + 4 * n)) t =
    Some (Z.of_nat (length pre + 4 * n), fold_left (add_bucket root addr port) (parse_buckets n frames) t).
Proof.
  revert fuel pre frames t. induction n as [|n IH]; intros fuel pre frames t Hm Hl Hf.
  { replace (length pre + 4 * 0)%nat with (length pre) by lia. by rewrite bucket_loop_none by lia. }
  pose proof Hm as Hb. unfold sized_message in Hb. rewrite message_bound_val, length_app in Hb.
  destruct fuel as [|fuel]; [lia|]. destruct frames as [|f0 [|f1 [|f2 [|f3 rest]]]]; cbn [length] in Hl, Hb; try lia.
  cbn [bucket_loop]. rewrite (proj2 (Z.ltb_lt _ _)) by lia.
  read_at pre 0%nat (Z.of_nat (length pre)). read_at pre 1%nat (Z.of_nat (length pre) + 1).
  read_at pre 2%nat (Z.of_nat (length pre) + 2). read_at pre 3%nat (Z.of_nat (length pre) + 3).
  rewrite checked_int_ok by (unfold_ints; lia). cbn [mbind option_bind parse_buckets fold_left].
  change (f0 :: f1 :: f2 :: f3 :: rest) with ([f0; f1; f2; f3] ++ rest) in *. rewrite app_assoc in *.
  specialize (IH fuel (pre ++ [f0; f1; f2; f3]) rest). rewrite length_app in IH. cbn [length] in IH.
  replace (Z.of_nat (length pre) + 4) with (Z.of_nat (length pre + 4)) by lia.
  replace (length pre + 4 * S n)%nat with (length pre + 4 + 4 * n)%nat by lia. apply IH; [done|lia..].
Qed.

Lemma connection_loop_parses fuel root pre frames t :
  sized_message (pre ++ frames) -> counts_bounded_loop fuel frames = true -> (length frames <= fuel)%nat ->
  connection_loop fuel root (pre ++ frames) (Z.of_nat (length pre)) t =
    Some (fold_left (add_connection root) (parse_connections fuel frames) t).
Proof.
  revert pre frames t. induction fuel as [|fuel IH]; intros pre frames t Hm Hvals Hf; cbn [connection_loop].
  { destruct frames; [|cbn in Hf; lia]. rewrite sized_size by done. rewrite app_nil_r, Z.ltb_irrefl. done. }
  pose proof Hm as Hb. unfold sized_message in Hb. rewrite message_bound_val in Hb. rewrite sized_size by done.
  rewrite length_app in Hb |- *.
  destruct (Z.ltb_spec (Z.of_nat (length pre)) (Z.of_nat (length pre + length frames)));
    [|destruct frames; [done|cbn in *; lia]].
  rewrite checked_int_ok by (unfold_ints; lia). cbn [mbind option_bind].
  destruct frames as [|addr [|port [|needing [|resync [|count rest]]]]]; cbn [length] in *;
    try (rewrite (proj2 (Z.leb_gt _ _)) by lia; done).
  rewrite (proj2 (Z.leb_le _ _)) by lia. cbn [parse_connections]. cbn [counts_bounded_loop] in Hvals.
  rewrite (frame_app pre _ 0 (Z.of_nat (length pre)) addr) by (reflexivity || lia). cbn [mbind option_bind].
  read_at pre 1%nat (Z.of_nat (length pre) + 1). destruct (isValid (setAddr (c_str addr))); [|done].
  read_at pre 2%nat (Z.of_nat (length pre) + 2). read_at pre 3%nat (Z.of_nat (length pre) + 3).
  read_at pre 4%nat (Z.of_nat (length pre) + 4).
  apply andb_prop in Hvals as [Hc%Z.leb_le Hvals]. rewrite message_bound_val in Hc.
  rewrite !checked_int_ok by (unfold_ints; lia). cbn [mbind option_bind].
  rewrite checked_int_ok by (unfold_ints; lia). cbn [mbind option_bind].
  set (n := Z.to_nat (frame_value count)).
  destruct (Nat.leb_spec (4 * n) (length rest)); [|rewrite (proj2 (Z.leb_gt _ _)) by lia; done].
  rewrite (proj2 (Z.leb_le _ _)) by lia.
  set (header := [addr; port; needing; resync; count]).
  change (addr :: port :: needing :: resync :: count :: rest) with (header ++ rest) in *.
  rewrite (app_assoc pre) in *. set (pre' := pre ++ header) in *.
  assert (Z.of_nat (length pre) + 5 = Z.of_nat (length pre')) as -> by (unfold pre'; rewrite length_app; cbn; lia).
  set (t1 := set_connection _ _ _ _ _ t).
  assert (forall F, (length rest <= F)%nat -> bucket_loop F root (setAddr (c_str addr)) (frame_value port) (pre' ++ rest)
    (Z.of_nat (length pre')) (Z.of_nat (length pre') + frame_value count * 4) t1 =
    Some (Z.of_nat (length pre' + 4 * n),
      fold_left (add_bucket root (setAddr (c_str addr)) (frame_value port)) (parse_buckets n rest) t1)) as Hbl.
  { intros F HF. destruct (Z.le_gt_cases (frame_value count) 0).
    - rewrite bucket_loop_none by lia. assert (n = 0%nat) as -> by lia. by rewrite Nat.mul_0_r, Nat.add_0_r.
    - replace (Z.of_nat (length pre') + frame_value count * 4) with (Z.of_nat (length pre' + 4 * n)) by lia.
      apply bucket_loop_parses; [done|done|lia]. }
  rewrite Hbl by lia. cbn [mbind option_bind fold_left]. rewrite <- (take_drop (4 * n) rest) at 1. rewrite app_assoc.
  assert (length pre' + 4 * n = length (pre' ++ take (4 * n) rest))%nat as -> by (rewrite length_app, length_take; lia).
  apply IH.
  - by rewrite <- app_assoc, take_drop.
  - exact Hvals.
  - rewrite length_drop. lia.
Qed.

(** More fuel than frames reads no more. *)
Lemma parse_connections_fuel fuel fuel' frames :
  (length frames <= fuel)%nat -> (length frames <= fuel')%nat ->
  parse_connections fuel frames = parse_connections fuel' frames.
Proof.
  revert fuel' frames. induction fuel as [|fuel IH]; intros [|fuel'] frames Hf Hf';
    try (destruct frames; [done|cbn in *; lia]).
  destruct frames as [|addr [|port [|needing [|resync [|count rest]]]]]; try done. cbn [parse_connections].
  destruct (isValid _); [|done]. destruct (_ <=? _)%nat; [|done]. f_equal.
  cbn [length] in *. apply IH; rewrite length_drop; lia.
Qed.
End equivalence.

(** ** Printed connections are parsed back *)

Section roundtrip.
Context `{InetPton}.

Lemma frame_value_dec n : int_value n -> frame_value (dec n) = n.
Proof.
  intros Hn. unfold frame_value. destruct (dec_go_plain 20 n "") as [_ Hc]; [apply Hn|done|].
  change (dec_go 20 n "") with (dec n) in Hc. by rewrite Hc, atoi_dec.
Qed.

Lemma parse_printed_buckets bs rest :
  Forall bucket_printable bs -> parse_buckets (length bs) ((bs ≫= bucket_frames) ++ rest) = bs.
Proof.
  induction 1 as [|b bs (Hi & He & Hd & Hw) Hbs IH]; [done|]. rewrite bind_cons.
  unfold bucket_frames at 1. cbn [length parse_buckets app]. rewrite !frame_value_dec by done. rewrite IH. by destruct b.
Qed.

Lemma parse_printed fuel cs :
  Forall connection_printable cs -> (length (cs ≫= connection_frames) <= fuel)%nat ->
  Z.of_nat (length (cs ≫= connection_frames)) <= INT_MAX -> parse_connections fuel (cs ≫= connection_frames) = cs.
Proof.
  intros Hcs. revert fuel. induction Hcs as [|c cs (Hs & Hv & Hp & Hn & Hr & Hb) Hcs IH]; intros fuel; [by destruct fuel|].
  rewrite bind_cons, length_app, connection_frames_length. intros Hf Hl. destruct fuel as [|fuel]; [lia|].
  unfold connection_frames at 1, connection_header at 1. cbn [app parse_connections].
  rewrite Hs, Hv, !frame_value_dec, Nat2Z.id by (done || unfold int_value; lia).
  rewrite (proj2 (Nat.leb_le _ _)) by (rewrite length_app, bucket_frames_length; lia).
  rewrite parse_printed_buckets by done.
  rewrite drop_app_length' by (by rewrite bucket_frames_length).
  rewrite IH by lia. by destruct c.
Qed.
End roundtrip.

(** ** No handler reads out of range *)

Section totality.
Context `{NetSnmpOids} `{InetPton}.
Implicit Types (root : OID) (tree : OIDMap) (msgs frames : list string).

(** The tables the handler fills, by what the parser reads. *)
Lemma connection_loop_frames root name status frames t :
  bounded_message (name :: status :: frames) ->
  connection_loop (length (name :: status :: frames)) root (name :: status :: frames) 2 t =
    Some (fold_left (add_connection root) (connections_of frames) t).
Proof.
  intros [Hs Hc]. cbn [drop] in Hc. change (name :: status :: frames) with ([name; status] ++ frames) in *.
  change 2 with (Z.of_nat (length [name; status])). unfold connections_of.
  rewrite connection_loop_parses; [|done| |rewrite length_app; lia].
  - by rewrite (parse_connections_fuel _ (length frames)) by (rewrite ?length_app; lia).
  - unfold counts_bounded in Hc. by rewrite (counts_bounded_fuel _ (length frames)) by (rewrite ?length_app; lia).
Qed.

(** Reads a frame whose index is in range. *)
Ltac read_in_range msgs i x :=
  destruct (frame_int_Some msgs i) as [x ->]; [lia|]; cbn [mbind option_bind].

(** Every handler accepts every message within bounds: when it has at most [message_bound] frames
    and, for the handler of Astaire's connections, the bucket counts are within that bound,
    then however malformed the message, no handler reads beyond its frames or overflows an
    [int], and its loops end. *)
Lemma handle_succeeds h msgs tree :
  sized_message msgs ->
  (handler_type h = AstaireConnectionStatHandler -> counts_bounded (drop 2 msgs) = true) ->
  is_Some (handle h msgs tree).
Proof.
  intros Hm Hc. pose proof Hm as Hl. unfold sized_message in Hl. rewrite message_bound_val in Hl.
  destruct h as [[] root]; unfold handle, handle_ip_count, handle_astaire_connections, handle_bare,
    handle_single, handle_single_scope, handle_accumulated, handle_astaire_global; cbn [handler_type _root_oid] in *;
    rewrite ?sized_size by done.
  - destruct msgs as [|? [|? frames]]; [simpl in Hl; lia..|]. by eexists.
  - case_match; split_bools; [|by eexists]. read_in_range msgs 2 v. by eexists.
  - case_match; split_bools; [|by eexists]. read_in_range msgs 2 v. by eexists.
  - case_match; split_bools; [|by eexists]. read_in_range msgs 2 v. by eexists.
  - case_match; split_bools; [|by eexists]. read_in_range msgs 2 v2. read_in_range msgs 3 v3. read_in_range msgs 5 v5.
    read_in_range msgs 4 v4. read_in_range msgs 6 v6. by eexists.
  - case_match; split_bools; [|by eexists]. read_in_range msgs 2 v2. read_in_range msgs 3 v3. read_in_range msgs 4 v4.
    read_in_range msgs 5 v5. read_in_range msgs 6 v6. by eexists.
  - destruct msgs as [|name [|status frames]]; [simpl in Hl; lia..|].
    rewrite connection_loop_frames by (split; [done|by apply Hc]). by eexists.
Qed.

(** A bucket count near [INT_MAX] breaks the connection handler: the [int]
    product [num_buckets * 4] overflows before the count is compared with the
    size of the message. *)
Theorem bucket_count_overflow root name status addr port needing resync count rest tree :
  Z.of_nat (length rest) + 7 <= message_bound ->
  isValid (setAddr (c_str addr)) = true -> INT_MAX < atoi (c_str count) * 4 ->
  handle (mkZMQMessageHandler AstaireConnectionStatHandler root)
    (name :: status :: addr :: port :: needing :: resync :: count :: rest) tree = None.
Proof.
  intros Hl Hv Hc. rewrite message_bound_val in Hl.
  set (msgs := _ :: _). assert (msgs_size msgs = Z.of_nat (length rest) + 7) as Hs
    by (rewrite msgs_size_length; unfold_ints; simpl; lia).
  unfold handle, handle_astaire_connections. cbn [handler_type _root_oid].
  change (length msgs) with (S (6 + length rest)). cbn [connection_loop]. rewrite Hs.
  rewrite (proj2 (Z.ltb_lt _ _)) by lia. rewrite checked_int_ok by (unfold_ints; lia). cbn [mbind option_bind].
  rewrite (proj2 (Z.leb_le _ _)) by lia.
  change (frame msgs 2) with (Some addr). cbn [mbind option_bind].
  change (frame_int msgs (2 + 1)) with (Some (atoi (c_str port))). cbn [mbind option_bind]. rewrite Hv.
  change (frame_int msgs (2 + 2)) with (Some (atoi (c_str needing))).
  change (frame_int msgs (2 + 3)) with (Some (atoi (c_str resync))).
  change (frame_int msgs (2 + 4)) with (Some (atoi (c_str count))). cbn [mbind option_bind].
  destruct (checked_int (atoi (c_str count) * 4)) as [x|] eqn:Hx; [|done].
  apply checked_int_Some in Hx as [-> Hx]. unfold in_s32 in Hx. lia.
Qed.
End totality.

(** ** Samples *)

Import Reference InetReference MessageSample.

Module ConnectionSample.
Definition sample_connections : list connection_stat :=
  [mkConnectionStat "10.0.0.1" 7000 3 4 [mkBucketStat 0 1 2 3; mkBucketStat 5 6 7 8];
   mkConnectionStat "10.0.0.2" 7000 0 0 []].

Lemma sample_connections_printable : Forall connection_printable sample_connections.
Proof.
  repeat apply Forall_cons_2; [..|apply Forall_nil_2];
    (split; [reflexivity|]); (split; [reflexivity|]); unfold int_value, INT_MAX; cbn -[Z.le];
    split_and!; try lia; repeat apply Forall_cons_2; try apply Forall_nil_2;
    unfold bucket_printable, int_value, INT_MAX; cbn -[Z.le]; lia.
Qed.
End ConnectionSample.

Lemma sample_bucket_count_overflow :
  handle connections ["stat"; "OK"; "10.0.0.1"; "70"; "1"; "2"; "600000000"] stat_tree = None.
Proof.
  apply (bucket_count_overflow root "stat" "OK" "10.0.0.1" "70" "1" "2" "600000000" [] stat_tree);
    [vm_compute; discriminate|reflexivity|vm_compute; reflexivity].
Defined.
