(* ===== verification/NodeData.v ===== *)
(** The statistics each node type publishes: [src/cdivdata.cpp],
    [src/mementodata.cpp], [src/mementoasdata.cpp] and the data of
    [src/astairedata.cpp], with [nodedata.hpp].

    A [NodeData] names the socket a node publishes on, the statistics to subscribe
    to and the handler of each. Each file is one library that registers its
    [NodeData]s with the handler of ClearwaterHandler.v. *)

From S2P Require Export StatHandlers.

(** [stat_to_handler] holds pointers to handlers that are never changed. *)
Record NodeData := mkNodeData {
  node_name : string;
  root_oid : OID;
  stats : list string;
  stat_to_handler : gmap string ZMQMessageHandler;
}.

Definition cdiv_total_oid : OID := OID_of_string "1.2.826.0.1.1578918.9.7.1.1.2".
Definition cdiv_unconditional_oid : OID := OID_of_string "1.2.826.0.1.1578918.9.7.1.1.3".
Definition cdiv_busy_oid : OID := OID_of_string "1.2.826.0.1.1578918.9.7.1.1.4".
Definition cdiv_not_registered_oid : OID := OID_of_string "1.2.826.0.1.1578918.9.7.1.1.5".
Definition cdiv_no_answer_oid : OID := OID_of_string "1.2.826.0.1.1578918.9.7.1.1.6".
Definition cdiv_not_reachable_oid : OID := OID_of_string "1.2.826.0.1.1578918.9.7.1.1.7".

Definition cdiv_node_data : NodeData := mkNodeData "sprout" (OID_of_string "1.2.826.0.1.1578918.9.7")
  ["cdiv_total"; "cdiv_unconditional"; "cdiv_busy"; "cdiv_not_registered"; "cdiv_no_answer";
   "cdiv_not_reachable"]
  (list_to_map
    [("cdiv_total", mkZMQMessageHandler BareStatHandler cdiv_total_oid);
     ("cdiv_unconditional", mkZMQMessageHandler BareStatHandler cdiv_unconditional_oid);
     ("cdiv_busy", mkZMQMessageHandler BareStatHandler cdiv_busy_oid);
     ("cdiv_not_registered", mkZMQMessageHandler BareStatHandler cdiv_not_registered_oid);
     ("cdiv_no_answer", mkZMQMessageHandler BareStatHandler cdiv_no_answer_oid);
     ("cdiv_not_reachable", mkZMQMessageHandler BareStatHandler cdiv_not_reachable_oid)]).

Definition memento_incoming_request_oid : OID := OID_of_string "1.2.826.0.1.1578918.9.8.2.1.1.2".
Definition memento_rejected_overload_oid : OID := OID_of_string "1.2.826.0.1.1578918.9.8.2.1.1.3".
Definition memento_http_latency_oid : OID := OID_of_string "1.2.826.0.1.1578918.9.8.2.2".
Definition memento_cassandra_read_latency_oid : OID := OID_of_string "1.2.826.0.1.1578918.9.8.2.3".
Definition memento_record_size_oid : OID := OID_of_string "1.2.826.0.1.1578918.9.8.2.4".
Definition memento_record_length_oid : OID := OID_of_string "1.2.826.0.1.1578918.9.8.2.5".

Definition memento_http_node_data : NodeData := mkNodeData "memento" (OID_of_string "1.2.826.0.1.1578918.9.8.2")
  ["http_incoming_requests"; "http_rejected_overload"; "http_latency_us"; "cassandra_read_latency";
   "record_size"; "record_length"]
  (list_to_map
    [("http_incoming_requests", mkZMQMessageHandler BareStatHandler memento_incoming_request_oid);
     ("http_rejected_overload", mkZMQMessageHandler BareStatHandler memento_rejected_overload_oid);
     ("http_latency_us", mkZMQMessageHandler AccumulatedWithCountStatHandler memento_http_latency_oid);
     ("cassandra_read_latency",
       mkZMQMessageHandler AccumulatedWithCountStatHandler memento_cassandra_read_latency_oid);
     ("record_size", mkZMQMessageHandler AccumulatedWithCountStatHandler memento_record_size_oid);
     ("record_length", mkZMQMessageHandler AccumulatedWithCountStatHandler memento_record_length_oid)]).

Definition memento_auth_challenges_oid : OID := OID_of_string "1.2.826.0.1.1578918.9.8.3.2.1.2".
Definition memento_auth_attempts_oid : OID := OID_of_string "1.2.826.0.1.1578918.9.8.3.2.1.3".
Definition memento_auth_successes_oid : OID := OID_of_string "1.2.826.0.1.1578918.9.8.3.2.1.4".
Definition memento_auth_failures_oid : OID := OID_of_string "1.2.826.0.1.1578918.9.8.3.2.1.5".
Definition memento_auth_stales_oid : OID := OID_of_string "1.2.826.0.1.1578918.9.8.3.2.1.6".

Definition memento_auth_node_data : NodeData := mkNodeData "memento" (OID_of_string "1.2.826.0.1.1578918.9.8.3")
  ["auth_challenges"; "auth_attempts"; "auth_successes"; "auth_failures"; "auth_stales"]
  (list_to_map
    [("auth_challenges", mkZMQMessageHandler BareStatHandler memento_auth_challenges_oid);
     ("auth_attempts", mkZMQMessageHandler BareStatHandler memento_auth_attempts_oid);
     ("auth_successes", mkZMQMessageHandler BareStatHandler memento_auth_successes_oid);
     ("auth_failures", mkZMQMessageHandler BareStatHandler memento_auth_failures_oid);
     ("auth_stales", mkZMQMessageHandler BareStatHandler memento_auth_stales_oid)]).

(** [src/mementoasdata.cpp], a library of its own. *)
Module MementoAs.
Definition memento_completed_calls_oid : OID := OID_of_string "1.2.826.0.1.1578918.9.8.1.1.1.2".
Definition memento_failed_calls_oid : OID := OID_of_string "1.2.826.0.1.1578918.9.8.1.1.1.3".
Definition memento_not_recorded_overload_oid : OID := OID_of_string "1.2.826.0.1.1578918.9.8.1.1.1.4".
Definition as_cassandra_read_latency_oid : OID := OID_of_string "1.2.826.0.1.1578918.9.8.1.2".
Definition as_cassandra_write_latency_oid : OID := OID_of_string "1.2.826.0.1.1578918.9.8.1.3".

Definition memento_as_node_data : NodeData := mkNodeData "sprout" (OID_of_string "1.2.826.0.1.1578918.9.8.1")
  ["memento_completed_calls"; "memento_failed_calls"; "memento_not_recorded_overload";
   "memento_cassandra_read_latency"; "memento_cassandra_write_latency"]
  (list_to_map
    [("memento_completed_calls", mkZMQMessageHandler BareStatHandler memento_completed_calls_oid);
     ("memento_failed_calls", mkZMQMessageHandler BareStatHandler memento_failed_calls_oid);
     ("memento_not_recorded_overload", mkZMQMessageHandler BareStatHandler memento_not_recorded_overload_oid);
     ("memento_cassandra_read_latency",
       mkZMQMessageHandler AccumulatedWithCountStatHandler as_cassandra_read_latency_oid);
     ("memento_cassandra_write_latency",
       mkZMQMessageHandler AccumulatedWithCountStatHandler as_cassandra_write_latency_oid)]).
End MementoAs.

Definition astaire_oid : OID := OID_of_string "1.2.826.0.1.1578918.9.9".

Definition astaire_node_data : NodeData := mkNodeData "astaire" astaire_oid
  ["astaire_global"; "astaire_connections"]
  (list_to_map
    [("astaire_global", mkZMQMessageHandler AstaireGlobalStatHandler astaire_oid);
     ("astaire_connections", mkZMQMessageHandler AstaireConnectionStatHandler astaire_oid)]).

(** ** Consistency *)

(** Every statistic subscribed to has a handler, and every handler writes under
    the root the node data is registered for. *)
Definition node_data_ok (nd : NodeData) : Prop :=
  Forall (fun stat => is_Some (stat_to_handler nd !! stat)) (stats nd) /\
  map_Forall (fun _ h => _oids (root_oid nd) `prefix_of` _oids (_root_oid h)) (stat_to_handler nd).

Definition all_node_data : list NodeData :=
  [cdiv_node_data; memento_http_node_data; memento_auth_node_data; MementoAs.memento_as_node_data;
   astaire_node_data].

#[export] Instance node_data_ok_dec nd : Decision (node_data_ok nd).
Proof. unfold node_data_ok. apply _. Defined.

Lemma all_node_data_ok : Forall node_data_ok all_node_data.
Proof. apply (bool_decide_unpack (Forall node_data_ok all_node_data)). vm_compute. exact I. Qed.

(** The node types whose statistics are all single values or averages: their
    handlers are of those classes, and no two write on one branch. *)
Definition value_node_data : list NodeData :=
  [cdiv_node_data; memento_http_node_data; memento_auth_node_data; MementoAs.memento_as_node_data].

Definition handlers_apart (nd : NodeData) : Prop :=
  map_Forall (fun _ h => value_class (handler_type h) = true) (stat_to_handler nd) /\
  map_Forall (fun a ha => map_Forall (fun b hb => a = b \/ ~ on_branch (_root_oid hb) (_root_oid ha))
    (stat_to_handler nd)) (stat_to_handler nd).

#[export] Instance handlers_apart_dec nd : Decision (handlers_apart nd).
Proof. unfold handlers_apart. apply _. Defined.

Lemma value_node_data_apart : Forall handlers_apart value_node_data.
Proof. apply (bool_decide_unpack (Forall handlers_apart value_node_data)). vm_compute. exact I. Qed.

Lemma apart_off_branch ra rb o :
  ~ on_branch rb ra -> _oids ra `prefix_of` _oids o -> ~ on_branch rb o.
Proof.
  intros Hn Ho [Hb|Hb]; apply Hn.
  - destruct (prefix_weak_total (_oids ra) (_oids rb) (_oids o)); [done|done|by right|by left].
  - right. by etransitivity.
Qed.
