(* ===== verification/Zmq.v ===== *)
(** The ZeroMQ calls the two listeners make, as a script of their results.

    ZeroMQ is third-party code. A thread that calls it is a function of the list
    of results its calls return, in call order; a thread whose script is
    used up is waiting in its next call. Theorems quantify over all scripts, or over
    those that deliver given messages, interrupted by signals at any call. *)

From S2P Require Export CLib.

(** What a call returns: its result, [errno], and what it wrote ([zmq_msg_recv]
    the frame, [zmq_getsockopt] the option). *)
Record zmq_result := mkZmqResult {
  z_rc : Z;
  z_errno : Z;
  z_data : string;
  z_more : Z;
}.

Abbreviation script := (list zmq_result).

Definition EINTR : Z := 4.

(** [(rc == -1) && (errno == EINTR)] *)
Definition interrupted (r : zmq_result) : bool := (z_rc r =? -1) && (z_errno r =? EINTR).

(** [while (((rc = call()) == -1) && (errno == EINTR))]: the result that ends the
    loop, and the rest of the script. *)
Fixpoint retry_eintr (s : script) : option (zmq_result * script) :=
  match s with
  | [] => None
  | r :: s' => if interrupted r then retry_eintr s' else Some (r, s')
  end.

(** What reading a message comes to. *)
Inductive reading :=
| Received (msg : list string) (rest : script)
| Failed (rest : script)
| Waiting.

(** The loop that reads the frames of a message, the same in both listeners: init,
    receive, get ZMQ_RCVMORE, close. [close_failed] says which results of
    [zmq_msg_close] end it; [Waiting] also covers a lack of fuel. *)
Fixpoint receive_loop (close_failed : zmq_result -> bool) (fuel : nat) (msg : list string) (s : script) : reading :=
  match fuel with
  | O => Waiting
  | S fuel' =>
    match s with
    | [] => Waiting
    | init :: s =>
      if negb (z_rc init =? 0) then Failed s
      else
        match retry_eintr s with
        | None => Waiting
        | Some (recv, s) =>
          if z_rc recv =? -1 then Failed s
          else
            let msg := msg ++ [z_data recv] in
            match retry_eintr s with
            | None => Waiting
            | Some (opt, s) =>
              if z_rc opt =? -1 then Failed s
              else
                match s with
                | [] => Waiting
                | close :: s =>
                  if close_failed close then Failed s
                  else if negb (z_more opt =? 0) then receive_loop close_failed fuel' msg s
                  else Received msg s
                end
            end
        end
    end
  end.

(** Every turn of the loop makes a call, so the script bounds its turns. *)
Definition receive (close_failed : zmq_result -> bool) (s : script) : reading :=
  receive_loop close_failed (S (length s)) [] s.

(** ** Lemmas *)

Lemma retry_eintr_app ints r s :
  Forall (fun x => interrupted x = true) ints -> interrupted r = false ->
  retry_eintr (ints ++ r :: s) = Some (r, s).
Proof. intros Hi Hr. induction Hi as [|x ints Hx Hi IH]; simpl; [by rewrite Hr|by rewrite Hx]. Qed.

Lemma retry_eintr_Some s r s' :
  retry_eintr s = Some (r, s') -> interrupted r = false /\ (length s' < length s)%nat.
Proof.
  induction s as [|x s IH]; simpl; [done|]. destruct (interrupted x) eqn:Hx.
  - intros Hr. destruct (IH Hr) as [? ?]. split; [done|lia].
  - intros [= <- <-]. split; [done|lia].
Qed.

(** ** Scripts that deliver messages *)

(** The results of a call that succeeds after any number of interruptions. *)
Inductive succeeds (r : zmq_result) : script -> Prop :=
| succeeds_intro ints : Forall (fun x => interrupted x = true) ints -> z_rc r <> -1 -> succeeds r (ints ++ [r]).

(** The results of reading one frame: [zmq_msg_init], [zmq_msg_recv], [zmq_getsockopt] and
    [zmq_msg_close]. *)
Inductive delivers_frame (f : string) (more : bool) : script -> Prop :=
| delivers_frame_intro init recv opt close r o :
    z_rc init = 0 -> succeeds r recv -> z_data r = f -> succeeds o opt ->
    (z_more o =? 0) = negb more -> z_rc close <> -1 ->
    delivers_frame f more (init :: recv ++ opt ++ [close]).

(** The results of reading one message, its last frame without [ZMQ_RCVMORE]. *)
Inductive delivers : list string -> script -> Prop :=
| delivers_last f s : delivers_frame f false s -> delivers [f] s
| delivers_more f fs s s' : delivers_frame f true s -> delivers fs s' -> delivers (f :: fs) (s ++ s').

(** The results of a call that fails, after any number of interruptions. *)
Inductive fails : script -> Prop :=
| fails_intro ints r : Forall (fun x => interrupted x = true) ints -> interrupted r = false -> z_rc r = -1 -> fails (ints ++ [r]).

(** The results up to the one that ends the reading of a frame. *)
Inductive fails_frame : script -> Prop :=
| fails_init init : z_rc init <> 0 -> fails_frame [init]
| fails_recv init recv : z_rc init = 0 -> fails recv -> fails_frame (init :: recv)
| fails_opt init recv opt r :
    z_rc init = 0 -> succeeds r recv -> fails opt -> fails_frame (init :: recv ++ opt)
| fails_close init recv opt close r o :
    z_rc init = 0 -> succeeds r recv -> succeeds o opt -> z_rc close = -1 ->
    fails_frame (init :: recv ++ opt ++ [close]).

(** And of a message, in any of its frames. *)
Inductive breaks_off : script -> Prop :=
| breaks_here s : fails_frame s -> breaks_off s
| breaks_later f s s' : delivers_frame f true s -> breaks_off s' -> breaks_off (s ++ s').

Lemma succeeds_retry r s s' : succeeds r s -> retry_eintr (s ++ s') = Some (r, s').
Proof.
  intros [ints Hi Hr]. rewrite <- app_assoc. apply retry_eintr_app; [done|].
  unfold interrupted. by rewrite (proj2 (Z.eqb_neq _ _)).
Qed.

Lemma fails_retry s s' : fails s -> exists r, z_rc r = -1 /\ retry_eintr (s ++ s') = Some (r, s').
Proof. intros [ints r Hi Hr Hf]. exists r. split; [done|]. rewrite <- app_assoc. by apply retry_eintr_app. Qed.

(** What [retry_eintr] takes from a script. *)
Lemma retry_eintr_takes s r s' :
  retry_eintr s = Some (r, s') ->
  exists d, s = d ++ s' /\ (z_rc r <> -1 -> succeeds r d) /\ (z_rc r = -1 -> fails d).
Proof.
  intros Hr. assert (exists ints, Forall (fun x => interrupted x = true) ints /\ s = (ints ++ [r]) ++ s' /\ interrupted r = false)
    as (ints & Hi & -> & Hn).
  { induction s as [|x s IH]; [done|]. cbn in Hr. destruct (interrupted x) eqn:Hx.
    - destruct (IH Hr) as (ints & Hi & -> & Hn). exists (x :: ints). split_and!; [by constructor|done|done].
    - injection Hr as -> ->. by exists []. }
  exists (ints ++ [r]). split_and!; [done|by constructor|by constructor].
Qed.

Lemma succeeds_rc r s : succeeds r s -> (z_rc r =? -1) = false.
Proof. intros [ints Hi Hr]. by apply Z.eqb_neq. Qed.

Lemma delivers_nonempty fs s : delivers fs s -> fs <> [].
Proof. by intros []. Qed.

Lemma delivers_length fs s : delivers fs s -> (length fs <= length s)%nat.
Proof.
  induction 1 as [f s Hf|f fs s s' Hf Hfs IH]; destruct Hf as [init recv opt close r o]; simpl;
    rewrite ?length_app in *; simpl in *; lia.
Qed.

(** ** Reading *)

Section receiving.
Variable close_failed : zmq_result -> bool.
Hypothesis Hclose : forall c, z_rc c <> -1 -> close_failed c = false.

Lemma receive_loop_fuel fuel fuel' msg s :
  (length s < fuel)%nat -> (length s < fuel')%nat ->
  receive_loop close_failed fuel msg s = receive_loop close_failed fuel' msg s.
Proof.
  revert fuel' msg s. induction fuel as [|fuel IH]; intros [|fuel'] msg s Hf Hf'; try lia. simpl.
  destruct s as [|init s]; [done|]. destruct (negb _); [done|].
  destruct (retry_eintr s) as [[recv s1]|] eqn:H1; [|done]. apply retry_eintr_Some in H1 as [_ H1].
  destruct (_ =? -1); [done|].
  destruct (retry_eintr s1) as [[opt s2]|] eqn:H2; [|done]. apply retry_eintr_Some in H2 as [_ H2].
  destruct (_ =? -1); [done|]. destruct s2 as [|close s2]; [done|].
  destruct (close_failed close); [done|]. destruct (negb _); [|done]. simpl in *. apply IH; lia.
Qed.

(** A message that is read has a frame, and uses up some of the script. *)
Lemma receive_loop_received fuel msg s msg' s' :
  receive_loop close_failed fuel msg s = Received msg' s' -> msg' <> [] /\ (length s' < length s)%nat.
Proof.
  revert msg s. induction fuel as [|fuel IH]; intros msg s; [done|]. simpl.
  destruct s as [|init s]; [done|]. destruct (negb _); [done|].
  destruct (retry_eintr s) as [[recv s1]|] eqn:H1; [|done]. apply retry_eintr_Some in H1 as [_ H1].
  destruct (_ =? -1); [done|].
  destruct (retry_eintr s1) as [[opt s2]|] eqn:H2; [|done]. apply retry_eintr_Some in H2 as [_ H2].
  destruct (_ =? -1); [done|]. destruct s2 as [|close s2]; [done|].
  destruct (close_failed close); [done|]. destruct (negb _); simpl in *.
  - intros Hr. apply IH in Hr as [? ?]. split; [done|lia].
  - intros [= <- <-]. split; [by destruct msg|lia].
Qed.

Lemma receive_loop_frame fuel msg f more s rest :
  delivers_frame f more s -> (length (s ++ rest) < fuel)%nat ->
  receive_loop close_failed fuel msg (s ++ rest) =
    if more then receive_loop close_failed fuel (msg ++ [f]) rest else Received (msg ++ [f]) rest.
Proof.
  intros [init recv opt close r o Hi Hr <- Ho Hm Hc] Hl. destruct fuel as [|fuel]; [lia|].
  assert (length rest < fuel)%nat as Hl' by (simpl in Hl; rewrite !length_app in Hl; lia).
  transitivity (if more then receive_loop close_failed fuel (msg ++ [z_data r]) rest else Received (msg ++ [z_data r]) rest).
  - cbn [receive_loop app]. rewrite Hi, <- !app_assoc, (succeeds_retry r) by done. simpl.
    rewrite (succeeds_rc r recv) by done. rewrite (succeeds_retry o) by done.
    rewrite (succeeds_rc o opt) by done. simpl.
    rewrite Hclose by done. rewrite Hm. by destruct more.
  - destruct more; [|done]. apply receive_loop_fuel; lia.
Qed.

Lemma receive_delivers fs s rest : delivers fs s -> receive close_failed (s ++ rest) = Received fs rest.
Proof.
  intros Hd. unfold receive.
  enough (forall fuel msg, (length (s ++ rest) < fuel)%nat ->
            receive_loop close_failed fuel msg (s ++ rest) = Received (msg ++ fs) rest) as Hn by (apply (Hn _ []); lia).
  induction Hd as [f s Hf|f fs s s' Hf Hfs IH]; intros fuel msg Hl.
  - by rewrite (receive_loop_frame fuel msg f false).
  - rewrite <- app_assoc in Hl |- *. rewrite (receive_loop_frame fuel msg f true) by done.
    rewrite IH; [by rewrite <- app_assoc|]. rewrite length_app in Hl. lia.
Qed.

(** The hypothesis of the section for a caller that tests the result of [zmq_msg_close]. *)
Hypothesis Hclosed : forall c, z_rc c = -1 -> close_failed c = true.

Lemma receive_loop_fails fuel msg s rest :
  fails_frame s -> (0 < fuel)%nat -> receive_loop close_failed fuel msg (s ++ rest) = Failed rest.
Proof.
  intros Hf Hl. destruct fuel as [|fuel]; [lia|]. cbn [receive_loop].
  destruct Hf as [init Hi|init recv Hi Hr|init recv opt r Hi Hr Ho|init recv opt close r o Hi Hr Ho Hc]; cbn [app].
  - by rewrite (proj2 (Z.eqb_neq _ _) Hi).
  - rewrite Hi. cbn. destruct (fails_retry recv rest Hr) as (x & Hx & ->). by rewrite Hx.
  - rewrite Hi, <- app_assoc, (succeeds_retry r) by done. cbn. rewrite (succeeds_rc r recv) by done.
    destruct (fails_retry opt rest Ho) as (x & Hx & ->). by rewrite Hx.
  - rewrite Hi, <- !app_assoc, (succeeds_retry r) by done. cbn. rewrite (succeeds_rc r recv) by done.
    rewrite (succeeds_retry o) by done. rewrite (succeeds_rc o opt) by done. cbn. by rewrite Hclosed.
Qed.

Lemma receive_breaks_off s rest : breaks_off s -> receive close_failed (s ++ rest) = Failed rest.
Proof.
  intros Hd. unfold receive.
  enough (forall fuel msg, (length (s ++ rest) < fuel)%nat -> receive_loop close_failed fuel msg (s ++ rest) = Failed rest)
    as Hn by (apply Hn; lia).
  induction Hd as [s Hf|f s s' Hf Hfs IH]; intros fuel msg Hl; [apply receive_loop_fails; [done|lia]|].
  rewrite <- app_assoc in Hl |- *. rewrite (receive_loop_frame fuel msg f true) by done.
  apply IH. rewrite length_app in Hl. lia.
Qed.

(** Conversely, what is read of a script is a message delivered or broken off. *)
Lemma receive_loop_takes fuel msg s :
  match receive_loop close_failed fuel msg s with
  | Received msg' s' => exists fs d, msg' = msg ++ fs /\ delivers fs d /\ s = d ++ s'
  | Failed s' => exists d, breaks_off d /\ s = d ++ s'
  | Waiting => True
  end.
Proof.
  revert msg s. induction fuel as [|fuel IH]; intros msg s; [done|]. cbn [receive_loop].
  destruct s as [|init s]; [done|]. destruct (Z.eqb_spec (z_rc init) 0) as [Hi|Hi]; cbn [negb];
    [|exists [init]; split; [by apply breaks_here, fails_init|done]].
  destruct (retry_eintr s) as [[recv s1]|] eqn:H1; [|done]. destruct (retry_eintr_takes _ _ _ H1) as (d1 & -> & Hs1 & Hf1).
  destruct (Z.eqb_spec (z_rc recv) (-1)) as [Hr|Hr];
    [exists (init :: d1); split; [by apply breaks_here, fails_recv; [|apply Hf1]|done]|].
  destruct (retry_eintr s1) as [[opt s2]|] eqn:H2; [|done]. destruct (retry_eintr_takes _ _ _ H2) as (d2 & -> & Hs2 & Hf2).
  destruct (Z.eqb_spec (z_rc opt) (-1)) as [Ho|Ho].
  { exists (init :: d1 ++ d2). split; [by eapply breaks_here, fails_opt; [|apply Hs1|apply Hf2]|cbn; by rewrite <- app_assoc]. }
  specialize (Hs1 Hr). specialize (Hs2 Ho). destruct s2 as [|close s2]; [done|].
  assert (init :: d1 ++ d2 ++ close :: s2 = (init :: d1 ++ d2 ++ [close]) ++ s2) as Heq by (cbn; f_equal; rewrite <- app_assoc; f_equal; by rewrite <- app_assoc).
  rewrite Heq. destruct (close_failed close) eqn:Hc.
  { exists (init :: d1 ++ d2 ++ [close]). split; [|done]. eapply breaks_here, fails_close; try done.
    destruct (Z.eq_dec (z_rc close) (-1)) as [|Hn]; [done|]. by rewrite Hclose in Hc. }
  assert (z_rc close <> -1) as Hn by (intros Hn; by rewrite Hclosed in Hc).
  destruct (z_more opt =? 0) eqn:Hm; cbn [negb].
  - exists [z_data recv], (init :: d1 ++ d2 ++ [close]). split_and!; [done| |done].
    apply delivers_last. by eapply delivers_frame_intro.
  - assert (delivers_frame (z_data recv) true (init :: d1 ++ d2 ++ [close])) as Hfr by by eapply delivers_frame_intro.
    specialize (IH (msg ++ [z_data recv]) s2). destruct (receive_loop close_failed fuel _ s2) as [msg' s'|s'|]; [| |done].
    + destruct IH as (fs & d & -> & Hd & ->). exists (z_data recv :: fs), ((init :: d1 ++ d2 ++ [close]) ++ d).
      split_and!; [by rewrite <- app_assoc|by apply delivers_more|by rewrite <- app_assoc].
    + destruct IH as (d & Hd & ->). exists ((init :: d1 ++ d2 ++ [close]) ++ d).
      split; [by eapply breaks_later|by rewrite <- app_assoc].
Qed.

(** A reading is finished exactly when the script begins with a message delivered or broken off. *)
Lemma receive_takes s :
  match receive close_failed s with
  | Received msg s' => exists d, delivers msg d /\ s = d ++ s'
  | Failed s' => exists d, breaks_off d /\ s = d ++ s'
  | Waiting => forall d s', s = d ++ s' -> ~ breaks_off d /\ forall msg, ~ delivers msg d
  end.
Proof.
  pose proof (receive_loop_takes (S (length s)) [] s) as Ht. fold (receive close_failed s) in Ht.
  destruct (receive close_failed s) as [msg s'|s'|] eqn:Hr; [by destruct Ht as (fs & d & -> & Ht); exists d|done|].
  intros d s' ->. split; [intros Hd; by rewrite receive_breaks_off in Hr|].
  intros msg Hd. by rewrite (receive_delivers msg) in Hr.
Qed.

Lemma receive_received s msg s' :
  receive close_failed s = Received msg s' -> msg <> [] /\ (length s' < length s)%nat.
Proof. apply receive_loop_received. Qed.
End receiving.

(** Results for concrete runs. *)
Module ZmqSample.
Definition ok_result (data : string) (more : Z) : zmq_result := mkZmqResult 0 0 data more.
Definition signalled : zmq_result := mkZmqResult (-1) EINTR "" 0.

(** A frame whose receive is interrupted once. *)
Definition frame_script (f : string) (more : Z) : script :=
  [ok_result "" 0; signalled; ok_result f 0; ok_result "" more; ok_result "" 0].
Lemma frame_script_delivers f more : more = 0 \/ more = 1 -> delivers_frame f (more =? 1) (frame_script f more).
Proof.
  intros Hm. apply (delivers_frame_intro f (more =? 1) (ok_result "" 0) [signalled; ok_result f 0]
    [ok_result "" more] (ok_result "" 0) (ok_result f 0) (ok_result "" more)); try done.
  - apply (succeeds_intro _ [signalled]); [by repeat constructor|done].
  - apply (succeeds_intro _ []); [constructor|done].
  - by destruct Hm as [-> | ->].
Qed.
End ZmqSample.
