(* ===== verification/ZmqListener.v ===== *)
(** The statistics thread: [src/zmq_listener.cpp] and its header.

    It subscribes to the statistics of a [NodeData] and, for each message it
    reads, notes the time and lets the handler of the message's statistic
    change the tree. It is the only writer of the tree. *)

From S2P Require Export Zmq AstaireParser NodeData.

(** The globals the thread writes. *)
Record stats_state := mkStatsState {
  tree : OIDMap;
  last_seen_time : Z;
}.

(** The outcome of [connect_and_subscribe]: the socket's endpoint and the topics
    subscribed to. *)
Inductive connecting :=
| Connected (endpoint : string) (topics : list string) (rest : script)
| ConnectFailed
| ConnectWaiting.

(** The state of the thread when its script is used up, or when it returns; a
    crash is an exception it does not catch, or a handler's. *)
Inductive listening :=
| Listening (st : stats_state)
| Stopped (st : stats_state)
| Crashed.

(** The loop of subscriptions. *)
Fixpoint subscribe (endpoint : string) (done_topics todo : list string) (s : script) : connecting :=
  match todo with
  | [] => Connected endpoint done_topics s
  | topic :: todo' =>
    match s with
    | [] => ConnectWaiting
    | r :: s' =>
      if negb (z_rc r =? 0) then ConnectFailed
      else subscribe endpoint (done_topics ++ [c_str topic]) todo' s'
    end
  end.

(** [ZMQListener::connect_and_subscribe]; a pointer result is 0 for [NULL]. *)
Definition connect_and_subscribe (nd : NodeData) (s : script) : connecting :=
  match s with
  | [] => ConnectWaiting
  | ctx :: s =>
    if z_rc ctx =? 0 then ConnectFailed
    else
      match s with
      | [] => ConnectWaiting
      | sck :: s =>
        if z_rc sck =? 0 then ConnectFailed
        else
          let ep := "ipc:///var/run/clearwater/stats/" +:+ node_name nd in
          match s with
          | [] => ConnectWaiting
          | conn :: s =>
            if negb (z_rc conn =? 0) then ConnectFailed
            else subscribe (c_str ep) [] (stats nd) s
          end
      end
  end.

Section listener.
Context `{NetSnmpOids} `{InetPton}.

(** What the thread does with a message, read at [now]: [stat_to_handler.at]
    throws on a statistic it does not know. *)
Definition handle_block (nd : NodeData) (now : Z) (msgs : list string) (st : stats_state)
    : option stats_state :=
  if (2 <=? length msgs)%nat && bool_decide (msgs !! 1%nat = Some "OK") then
    message_type ← msgs !! 0%nat;
    handler ← stat_to_handler nd !! message_type;
    tree' ← handle handler msgs (tree st);
    Some (mkStatsState tree' now)
  else Some (mkStatsState (tree st) now).

(** The loop of [handle_requests_forever]: [zmq_msg_close] is not checked.
    [times n] is the clock when the [n]th message has been read. *)
Fixpoint listen_loop (fuel : nat) (nd : NodeData) (times : nat -> Z) (s : script) (st : stats_state)
    : listening :=
  match fuel with
  | O => Listening st
  | S fuel' =>
    match receive (fun _ => false) s with
    | Waiting => Listening st
    | Failed _ => Stopped st
    | Received msgs s' =>
      match handle_block nd (times O) msgs st with
      | Some st' => listen_loop fuel' nd (fun n => times (S n)) s' st'
      | None => Crashed
      end
    end
  end.

(** Every turn of the loop uses up some of the script. *)
Definition listen (nd : NodeData) (times : nat -> Z) (s : script) (st : stats_state) : listening :=
  listen_loop (S (length s)) nd times s st.

(** [ZMQListener::handle_requests_forever] *)
Definition handle_requests_forever (nd : NodeData) (times : nat -> Z) (s : script) (st : stats_state)
    : listening :=
  match connect_and_subscribe nd s with
  | Connected _ _ s' => listen nd times s' st
  | ConnectFailed => Stopped st
  | ConnectWaiting => Listening st
  end.

(** The effect of some messages. *)
Fixpoint handle_blocks (nd : NodeData) (times : nat -> Z) (msgss : list (list string)) (st : stats_state)
    : option stats_state :=
  match msgss with
  | [] => Some st
  | msgs :: msgss' =>
    st' ← handle_block nd (times O) msgs st;
    handle_blocks nd (fun n => times (S n)) msgss' st'
  end.
End listener.

(** The scripts that connect and that deliver some messages. *)
Definition connects (nd : NodeData) (s : script) : Prop :=
  exists ctx sck rest, s = ctx :: sck :: rest /\ z_rc ctx <> 0 /\ z_rc sck <> 0 /\
    length rest = S (length (stats nd)) /\ Forall (fun r => z_rc r = 0) rest.

Inductive delivers_blocks : list (list string) -> script -> Prop :=
| blocks_nil : delivers_blocks [] []
| blocks_cons msgs msgss s s' :
    delivers msgs s -> delivers_blocks msgss s' -> delivers_blocks (msgs :: msgss) (s ++ s').

(** ** Lemmas *)

Lemma subscribe_ok ep pre todo s rest :
  length s = length todo -> Forall (fun r => z_rc r = 0) s ->
  subscribe ep pre todo (s ++ rest) = Connected ep (pre ++ (c_str <$> todo)) rest.
Proof.
  revert pre s. induction todo as [|topic todo IH]; intros pre [|r s]; try done; intros Hl Hs; simpl.
  - by rewrite app_nil_r.
  - apply Forall_cons in Hs as [-> Hs]. simpl. rewrite IH by (done || (simpl in Hl; lia)).
    by rewrite <- app_assoc.
Qed.

Lemma connects_ok nd s rest :
  connects nd s -> connect_and_subscribe nd (s ++ rest) =
    Connected (c_str ("ipc:///var/run/clearwater/stats/" +:+ node_name nd)) (c_str <$> stats nd) rest.
Proof.
  intros (ctx & sck & s' & -> & Hc & Hs & Hl & Hz). destruct s' as [|conn s']; [done|].
  apply Forall_cons in Hz as [Hconn Hz]. unfold connect_and_subscribe. cbn [app].
  rewrite (proj2 (Z.eqb_neq _ _) Hc), (proj2 (Z.eqb_neq _ _) Hs), Hconn. cbn [negb Z.eqb].
  apply subscribe_ok; [simpl in Hl; lia|done].
Qed.

Section listener_laws.
Context `{NetSnmpOidsSpec} `{InetPton}.

Lemma listen_loop_fuel fuel fuel' nd times s st :
  (length s < fuel)%nat -> (length s < fuel')%nat ->
  listen_loop fuel nd times s st = listen_loop fuel' nd times s st.
Proof.
  revert fuel' times s st. induction fuel as [|fuel IH]; intros [|fuel'] times s st Hf Hf'; try lia. simpl.
  destruct (receive _ s) as [msgs s'|s'|] eqn:Hr; [|done..].
  apply receive_received in Hr as [_ Hr]. destruct (handle_block _ _ _ _); [|done]. apply IH; lia.
Qed.

(** Messages delivered are handled, and the loop goes on with the rest. *)
Lemma listen_delivers nd times msgss s rest st :
  delivers_blocks msgss s ->
  listen nd times (s ++ rest) st =
    match handle_blocks nd times msgss st with
    | Some st' => listen nd (fun n => times (length msgss + n)%nat) rest st'
    | None => Crashed
    end.
Proof.
  intros Hd. revert times st. induction Hd as [|msgs msgss s s' Hm Hms IH]; intros times st; [done|].
  rewrite <- app_assoc. unfold listen at 1. cbn [listen_loop].
  rewrite (receive_delivers _ (fun _ _ => eq_refl) msgs) by done. cbn [handle_blocks].
  destruct (handle_block nd (times 0%nat) msgs st) as [st'|]; [|done]. cbn [mbind option_bind].
  rewrite (listen_loop_fuel _ (S (length (s' ++ rest)))); [apply IH| |lia].
  pose proof (delivers_length _ _ Hm). pose proof (delivers_nonempty _ _ Hm).
  destruct msgs; [done|]. simpl in *. rewrite (length_app s). lia.
Qed.
(** A message the thread copes with: either it is not "OK", or it has at most [message_bound]
    frames, is of a statistic subscribed to and, if that is Astaire's connections, has
    bucket counts within the same bound. The values are not limited. *)
Definition ok_message (msgs : list string) : bool :=
  (2 <=? length msgs)%nat && bool_decide (msgs !! 1%nat = Some "OK").

Definition good_message (nd : NodeData) (msgs : list string) : Prop :=
  ok_message msgs = true ->
  sized_message msgs /\
  exists stat, msgs !! 0%nat = Some stat /\ stat ∈ stats nd /\
    forall h, stat_to_handler nd !! stat = Some h -> handler_type h = AstaireConnectionStatHandler ->
      counts_bounded (drop 2 msgs) = true.

(** The invariant of the tree: in order, and under the registered root. *)
Definition tree_under (nd : NodeData) (st : stats_state) : Prop :=
  sorted (tree st) /\
  forall o, is_Some (tree_get o (tree st)) -> _oids (root_oid nd) `prefix_of` _oids o.

Lemma handle_block_under nd now msgs st st' :
  node_data_ok nd -> tree_under nd st -> handle_block nd now msgs st = Some st' ->
  tree_under nd st' /\ last_seen_time st' = now.
Proof.
  intros [_ Hroots] [Ht Hu]. unfold handle_block. destruct (_ && _); [|by intros; simplify_eq].
  intros (stat & _ & Hh)%bind_Some. apply bind_Some in Hh as (h & Hh & Hb).
  apply bind_Some in Hb as (tree' & Hb & [= <-]). apply handle_stays in Hb as (Hs & _ & Hnew); [|done].
  split; [|done]. split; [done|]. intros o Ho. apply Hnew in Ho as [Ho|Ho]; [by apply Hu|].
  etransitivity; [|exact Ho]. by apply (Hroots stat).
Qed.

Lemma handle_block_good nd now msgs st :
  node_data_ok nd -> good_message nd msgs -> is_Some (handle_block nd now msgs st).
Proof.
  intros [Hstats _] Hg. unfold handle_block. unfold good_message, ok_message in Hg.
  destruct (_ && _); [|by eexists]. destruct (Hg eq_refl) as (Hb & stat & -> & Hs & Hc). cbn [mbind option_bind].
  rewrite Forall_forall in Hstats. destruct (Hstats _ Hs) as [h Hh]. rewrite Hh. cbn [mbind option_bind].
  destruct (handle_succeeds h msgs (tree st) Hb (Hc h Hh)) as [tree' ->]. by eexists.
Qed.
End listener_laws.

(** ** Theorems *)

Section listener_theorems.
Context `{NetSnmpOidsSpec} `{InetPton}.

(** Once connected, the thread is subscribed to every statistic of its node
    and handles every message in order, whichever calls are interrupted, and
    goes on reading. *)
Theorem listener_handles_messages nd times s0 msgss s rest st :
  connects nd s0 -> delivers_blocks msgss s ->
  (exists ep, connect_and_subscribe nd (s0 ++ s ++ rest) = Connected ep (c_str <$> stats nd) (s ++ rest)) /\
  handle_requests_forever nd times (s0 ++ s ++ rest) st =
    match handle_blocks nd times msgss st with
    | Some st' => listen nd (fun n => times (length msgss + n)%nat) rest st'
    | None => Crashed
    end.
Proof.
  intros Hc Hd. pose proof (connects_ok nd s0 (s ++ rest) Hc) as Hconn.
  split; [by eexists|]. unfold handle_requests_forever. rewrite Hconn. by apply listen_delivers.
Qed.

(** C28: the statistics thread of every node type survives any sequence of messages
    of its statistics, of at most 2^28 frames and (in Astaire's lists of connections) bucket counts
    of at most 2^28, with any values and any other status, and keeps the tree in order with entries only under the root the
    node type registers with SNMP. *)
Theorem stats_tree_invariant nd times msgss st :
  nd ∈ all_node_data -> Forall (good_message nd) msgss -> tree_under nd st ->
  exists st', handle_blocks nd times msgss st = Some st' /\ tree_under nd st'.
Proof.
  intros Hnd Hg. pose proof all_node_data_ok as Hok. rewrite Forall_forall in Hok. specialize (Hok nd Hnd).
  revert times st. induction Hg as [|msgs msgss Hm Hms IH]; intros times st Hu; [by exists st|].
  cbn [handle_blocks]. destruct (handle_block_good nd (times 0%nat) msgs st) as [st1 H1']; [done..|].
  rewrite H1'. cbn [mbind option_bind]. apply IH. by eapply handle_block_under.
Qed.

Lemma handle_block_other nd now msgs st st' stat h o :
  handlers_apart nd -> stat_to_handler nd !! stat = Some h -> _oids (_root_oid h) `prefix_of` _oids o ->
  msgs !! 0%nat <> Some stat -> sorted (tree st) -> handle_block nd now msgs st = Some st' ->
  sorted (tree st') /\ tree_get o (tree st') = tree_get o (tree st).
Proof.
  intros [_ Hapart] Hh Ho Hm Hs. unfold handle_block. destruct (_ && _); [|by intros; simplify_eq].
  intros (stat' & Hstat' & Hb)%bind_Some. apply bind_Some in Hb as (h' & Hh' & Hb).
  apply bind_Some in Hb as (tree' & Hb & [= <-]). apply handle_stays in Hb as (Hs' & Hoff & _); [|done].
  split; [done|]. apply Hoff. apply (apart_off_branch (_root_oid h)); [|done].
  destruct (Hapart stat h Hh stat' h' Hh') as [->|?]; [|done]. congruence.
Qed.

Lemma handle_blocks_app nd times before after st :
  handle_blocks nd times (before ++ after) st =
    st1 ← handle_blocks nd times before st;
    handle_blocks nd (fun n => times (length before + n)%nat) after st1.
Proof.
  revert times st. induction before as [|msgs before IH]; intros times st; [done|]. cbn [app handle_blocks].
  destruct (handle_block _ _ _ _); [|done]. cbn [mbind option_bind]. rewrite IH. done.
Qed.

Lemma handle_blocks_sorted nd times msgss st st' :
  sorted (tree st) -> handle_blocks nd times msgss st = Some st' -> sorted (tree st').
Proof.
  revert times st. induction msgss as [|msgs msgss IH]; intros times st Hs; cbn [handle_blocks];
    [by intros [= <-]|]. intros (st1 & H1' & H2')%bind_Some. eapply IH; [|exact H2'].
  unfold handle_block in H1'. destruct (_ && _); [|by simplify_eq].
  apply bind_Some in H1' as (? & _ & H1'). apply bind_Some in H1' as (h & _ & H1').
  apply bind_Some in H1' as (tree' & Hb & [= <-]). by apply handle_stays in Hb as [? _].
Qed.

Lemma handle_blocks_others nd times msgss st st' stat h o :
  handlers_apart nd -> stat_to_handler nd !! stat = Some h -> _oids (_root_oid h) `prefix_of` _oids o ->
  Forall (fun msgs => msgs !! 0%nat <> Some stat) msgss -> sorted (tree st) ->
  handle_blocks nd times msgss st = Some st' -> tree_get o (tree st') = tree_get o (tree st).
Proof.
  intros Ha Hh Ho Hm. revert times st. induction Hm as [|msgs msgss Hm Hms IH]; intros times st Hs;
    cbn [handle_blocks]; [by intros [= <-]|]. intros (st1 & H1' & H2')%bind_Some.
  eapply handle_block_other in H1' as [Hs1 <-]; [|done..]. by eapply IH.
Qed.

(** A manager sees the value last published. For node types of single
    values and averages, whatever messages come before and whatever messages of other
    statistics after, the tree holds each value of the last message of a statistic. *)
Theorem last_published_value nd times before stat frames after st st' h entries o v :
  nd ∈ value_node_data -> stat_to_handler nd !! stat = Some h ->
  message_entries (handler_type h) (_root_oid h) (atoi <$> (c_str <$> frames)) = Some entries ->
  entry_of entries o = Some v -> Z.of_nat (length frames) + 2 <= INT_MAX ->
  sorted (tree st) -> Forall (fun msgs => msgs !! 0%nat <> Some stat) after ->
  handle_blocks nd times (before ++ (stat :: "OK" :: frames) :: after) st = Some st' ->
  tree_get o (tree st') = Some v.
Proof.
  intros Hnd Hh He Hv Hl Hs Hafter.
  pose proof value_node_data_apart as Hap. rewrite Forall_forall in Hap. specialize (Hap nd Hnd).
  pose proof (message_entries_under _ _ _ _ He) as Hu. rewrite Forall_forall in Hu.
  specialize (Hu _ (entry_of_elem _ _ _ Hv)). cbn [fst] in Hu.
  rewrite handle_blocks_app. intros (st1 & Hb1 & Hb)%bind_Some.
  pose proof (handle_blocks_sorted _ _ _ _ _ Hs Hb1) as Hs1. cbn [handle_blocks] in Hb.
  apply bind_Some in Hb as (st2 & Hb2 & Hb3).
  unfold handle_block in Hb2. cbn in Hb2. rewrite Hh in Hb2. cbn in Hb2.
  apply bind_Some in Hb2 as (tree2 & Hb2 & [= <-]).
  destruct (value_message_writes h stat "OK" frames (tree st1) o Hs1 Hl) as (tree2' & Hw & Hg).
  { destruct Hap as [Hc _]. exact (Hc stat h Hh). }
  assert (tree2' = tree2) as -> by congruence.
  assert (sorted tree2) as Hs2 by by apply handle_stays in Hb2 as [? _].
  rewrite (handle_blocks_others _ _ _ (mkStatsState tree2 _) _ stat h o Hap Hh Hu Hafter Hs2 Hb3).
  cbn [tree]. rewrite Hg, He, Hv. by destruct (replaces _ && _), (tree_get o (tree st1)).
Qed.
End listener_theorems.


(** ** Witnesses *)

Import Reference InetReference ZmqSample.

Module ListenerSample.
Definition empty_state : stats_state := mkStatsState [] 0.
Definition clock (n : nat) : Z := 1000 + Z.of_nat n.
Definition block_script : script := frame_script "astaire_global" 1 ++ frame_script "OK" 0.
Definition connected (nd : NodeData) : script :=
  [mkZmqResult 1 0 "" 0; mkZmqResult 1 0 "" 0] ++ replicate (S (length (stats nd))) (ok_result "" 0).

Lemma connected_connects nd : connects nd (connected nd).
Proof.
  eexists _, _, _. split; [reflexivity|]. split_and!; [done..| |].
  - by rewrite length_replicate.
  - by apply Forall_replicate.
Qed.

Definition total_oid : OID := OID_of_string "1.2.826.0.1.1578918.9.7.1.1.2".
End ListenerSample.
Import ListenerSample.

Lemma listener_handles_messages_witness :
  (exists ep, connect_and_subscribe astaire_node_data (connected astaire_node_data ++ (block_script ++ []) ++ [])
     = Connected ep (c_str <$> ["astaire_global"; "astaire_connections"]) ((block_script ++ []) ++ [])) /\
  handle_requests_forever astaire_node_data clock (connected astaire_node_data ++ (block_script ++ []) ++ [])
    empty_state =
  match handle_blocks astaire_node_data clock [["astaire_global"; "OK"]] empty_state with
  | Some st' => listen astaire_node_data (fun n => clock (length [["astaire_global"; "OK"]] + n)%nat) [] st'
  | None => Crashed
  end.
Proof.
  apply (listener_handles_messages astaire_node_data clock (connected astaire_node_data)
           [["astaire_global"; "OK"]] (block_script ++ []) [] empty_state).
  - apply connected_connects.
  - apply blocks_cons; [|apply blocks_nil].
    apply delivers_more; [apply (frame_script_delivers _ 1); by right|].
    apply delivers_last, (frame_script_delivers _ 0). by left.
Defined.

Lemma stats_tree_invariant_witness :
  exists st', handle_blocks astaire_node_data clock
      [["astaire_global"; "OK"; "1"; "2"; "3"; "2000000000"; "5"]; ["unknown"; "FAIL"]] empty_state = Some st' /\
    tree_under astaire_node_data st'.
Proof.
  apply stats_tree_invariant.
  - unfold all_node_data. set_solver.
  - apply Forall_cons_2; [|apply Forall_cons_2; [|apply Forall_nil_2]]; intros Hok.
    + split; [vm_compute; split; discriminate|]. exists "astaire_global". split; [reflexivity|].
      split; [simpl; set_solver|]. intros h _ _. vm_compute. reflexivity.
    + vm_compute in Hok. discriminate Hok.
  - split; [apply sorted_nil|]. intros o [v Hv]. discriminate Hv.
Defined.

Lemma last_published_value_witness :
  exists st', handle_blocks cdiv_node_data clock
      ([["cdiv_total"; "OK"; "3"]] ++ ["cdiv_total"; "OK"; "4"] :: [["cdiv_busy"; "OK"; "1"]]) empty_state = Some st' /\
    tree_get total_oid (tree st') = Some 4.
Proof.
  destruct (handle_blocks cdiv_node_data clock
      ([["cdiv_total"; "OK"; "3"]] ++ ["cdiv_total"; "OK"; "4"] :: [["cdiv_busy"; "OK"; "1"]]) empty_state)
    as [st'|] eqn:Hb; [|vm_compute in Hb; discriminate Hb].
  exists st'. split; [reflexivity|].
  apply (last_published_value cdiv_node_data clock [["cdiv_total"; "OK"; "3"]] "cdiv_total" ["4"]
    [["cdiv_busy"; "OK"; "1"]] empty_state st' (mkZMQMessageHandler BareStatHandler total_oid)
    [(total_oid, 4)] total_oid 4).
  - unfold value_node_data. set_solver.
  - vm_compute. reflexivity.
  - vm_compute. reflexivity.
  - vm_compute. reflexivity.
  - vm_compute. discriminate.
  - apply sorted_nil.
  - apply Forall_cons_2; [discriminate|apply Forall_nil_2].
  - exact Hb.
Defined.
