(* ===== verification/ClearwaterHandler.v ===== *)
(** The SNMP side of the statistics: [src/custom_handler.cpp] and its header,
    and the [init_*_handler] functions of the node data files.

    A library registers a handler for the root of each of its [NodeData]s. The
    first request starts the statistics thread; requests are answered from the tree
    while it is fresh. *)

From S2P Require Export ZmqListener.

(** ** Data *)

(** The globals, the registrations made with Net-SNMP and the arguments of the
    statistics threads started. *)
Record handler_state := mkHandlerState {
  globals : stats_state;
  thread_created : bool;
  global_node_data : option NodeData;
  registrations : list (string * OID);
  threads : list (option NodeData);
}.

Definition TIMEOUT_THRESHOLD : Z := 15.

(** The modes of [netsnmp_agent_request_info]. *)
Definition MODE_GET : Z := 160.
Definition MODE_GETNEXT : Z := 161.

(** A [netsnmp_request_info]: the name asked for, and whether another handler has
    processed it. *)
Record request_info := mkRequestInfo {
  requestvb_name : oids;
  processed : Z;
}.

(** What is written to a request's variable: a name, if it is set, and an
    [ASN_UNSIGNED] value. *)
Record var_binding := mkVarBinding {
  objid : option OID;
  retval : Z;
}.

(** The state when a library is loaded. *)
Definition handler_zero : handler_state := mkHandlerState (mkStatsState [] 0) false None [] [].

Section handlers.
Context `{NetSnmpOids}.

(** [initialize_handler]; [created] is whether Net-SNMP creates the registration. *)
Definition initialize_handler (nd : NodeData) (created : bool) (g : handler_state) : handler_state :=
  let globals' := mkStatsState (tree (globals g)) 0 in
  if created then
    mkHandlerState globals' false (Some nd) (registrations g ++ [(c_str (node_name nd), root_oid nd)]) (threads g)
  else mkHandlerState globals' false (global_node_data g) (registrations g) (threads g).

(** The start of the thread by the first request, under [thread_creation_lock]. *)
Definition ensure_thread (g : handler_state) : handler_state :=
  if thread_created g then g
  else mkHandlerState (globals g) true (global_node_data g) (registrations g)
         (threads g ++ [global_node_data g]).

(** The body of the loop over the requests. *)
Definition answer_request (mode : Z) (t : OIDMap) (request : request_info) : option var_binding :=
  let this_oid := OID_of_oids (requestvb_name request) in
  if negb (processed request =? 0) then None
  else if mode =? MODE_GET then
    outval ← tree_get this_oid t;
    Some (mkVarBinding None (u32 outval))
  else if mode =? MODE_GETNEXT then
    '(outoid, outval) ← tree_get_next this_oid t;
    Some (mkVarBinding (Some outoid) (u32 outval))
  else None.

(** [clearwater_handler]: what is written for each request. It returns
    [SNMP_ERR_NOERROR] always. The tree is locked for one look-up at a time:
    [trees i] is the tree when request [i] is reached. *)
Definition clearwater_handler (mode : Z) (requests : list request_info) (now : Z) (trees : nat -> OIDMap)
    (g : handler_state) : list (option var_binding) * handler_state :=
  let g := ensure_thread g in
  let up_to_date := now - last_seen_time (globals g) <? TIMEOUT_THRESHOLD in
  if up_to_date then (imap (fun i => answer_request mode (trees i)) requests, g)
  else ((fun _ => None) <$> requests, g).
End handlers.

(** *** The libraries *)

Definition init_cdiv_handler (created : bool) : handler_state :=
  initialize_handler cdiv_node_data created handler_zero.
Definition init_memento_handler (created1 created2 : bool) : handler_state :=
  initialize_handler memento_auth_node_data created2
    (initialize_handler memento_http_node_data created1 handler_zero).
Definition init_memento_as_handler (created : bool) : handler_state :=
  initialize_handler MementoAs.memento_as_node_data created handler_zero.
Definition init_astaire_handler (created : bool) : handler_state :=
  initialize_handler astaire_node_data created handler_zero.

(** *** Runs *)

Section runs.
Context `{NetSnmpOids} `{InetPton}.

(** The steps of a library in use: a request of the agent, and a message read by
    the thread that was started. *)
Inductive library_event :=
| SnmpRequest (mode : Z) (requests : list request_info) (now : Z) (trees : nat -> OIDMap)
| ZmqMessage (msgs : list string) (now : Z).

Definition library_step (e : library_event) (g : handler_state) : option handler_state :=
  match e with
  | SnmpRequest mode requests now trees => Some (clearwater_handler mode requests now trees g).2
  | ZmqMessage msgs now =>
    match last (threads g) with
    | Some (Some nd) =>
      st ← handle_block nd now msgs (globals g);
      Some (mkHandlerState st (thread_created g) (global_node_data g) (registrations g) (threads g))
    | _ => Some g
    end
  end.

Fixpoint library_run (es : list library_event) (g : handler_state) : option handler_state :=
  match es with
  | [] => Some g
  | e :: es' => g' ← library_step e g; library_run es' g'
  end.
End runs.

(** ** Theorems *)

Section handler_theorems.
Context `{NetSnmpOidsSpec} `{InetPton}.

(** Requests are answered from the tree while the last message is less than
    15 seconds old, and left alone otherwise. GET gives the value of the
    entry asked for, GETNEXT the name and value of the next one, as unsigned
    32-bit numbers. The tree does not change, and a thread is started if none was. *)
Theorem clearwater_handler_answers mode requests now trees g i request :
  requests !! i = Some request -> processed request = 0 ->
  Forall (fun x => 0 <= x <= ULONG_MAX) (requestvb_name request) ->
  let (answers, g') := clearwater_handler mode requests now trees g in
  length answers = length requests /\
  globals g' = globals g /\ thread_created g' = true /\
  threads g' = threads g ++ (if thread_created g then [] else [global_node_data g]) /\
  answers !! i =
    Some (if now <? last_seen_time (globals g) + TIMEOUT_THRESHOLD then
            if mode =? MODE_GET then
              (fun v => mkVarBinding None (v mod 2 ^ 32)) <$> tree_get (mkOID (requestvb_name request)) (trees i)
            else if mode =? MODE_GETNEXT then
              (fun ov => mkVarBinding (Some ov.1) (ov.2 mod 2 ^ 32)) <$>
                tree_get_next (mkOID (requestvb_name request)) (trees i)
            else None
          else None).
Proof.
  intros Hi Hp Ho. unfold clearwater_handler.
  assert (globals (ensure_thread g) = globals g) as Hg by (unfold ensure_thread; by destruct (thread_created g)).
  rewrite Hg. assert (OID_of_oids (requestvb_name request) = mkOID (requestvb_name request)) as Hoid
    by (unfold OID_of_oids; by rewrite append_oids_app).
  replace (now - last_seen_time (globals g) <? TIMEOUT_THRESHOLD)
    with (now <? last_seen_time (globals g) + TIMEOUT_THRESHOLD)
    by (apply eq_true_iff_eq; rewrite !Z.ltb_lt; lia).
  destruct (now <? _).
  - split_and!; [by rewrite length_imap|done|unfold ensure_thread; by destruct (thread_created g) eqn:?| |].
    + unfold ensure_thread. destruct (thread_created g); [by rewrite app_nil_r|done].
    + rewrite list_lookup_imap, Hi. cbn [fmap option_fmap option_map]. f_equal.
      unfold answer_request. rewrite Hp, Hoid. cbn [Z.eqb negb]. destruct (mode =? MODE_GET).
      { by destruct (tree_get _ _). }
      destruct (mode =? MODE_GETNEXT); [|done]. by destruct (tree_get_next _ _) as [[? ?]|].
  - split_and!; [by rewrite length_fmap|done|unfold ensure_thread; by destruct (thread_created g) eqn:?| |].
    + unfold ensure_thread. destruct (thread_created g); [by rewrite app_nil_r|done].
    + by rewrite list_lookup_fmap, Hi.
Qed.

(** What holds of a library in use: at most one thread, for the node data
    registered last, and a tree with its statistics only. *)
Definition library_ok (nd : NodeData) (g : handler_state) : Prop :=
  global_node_data g = Some nd /\ tree_under nd (globals g) /\
  threads g = if thread_created g then [Some nd] else [].

Lemma library_run_ok nd es g g' :
  node_data_ok nd -> library_ok nd g -> library_run es g = Some g' ->
  library_ok nd g' /\ registrations g' = registrations g.
Proof.
  intros Hnd. revert g. induction es as [|e es IH]; intros g Hg; cbn [library_run]; [by intros [= <-]|].
  intros (g1 & He & Hr)%bind_Some.
  enough (library_ok nd g1 /\ registrations g1 = registrations g) as [Hg1 <-] by by apply IH.
  destruct Hg as (Hn & Hu & Ht). unfold library_ok. destruct e as [mode requests now trees|msgs now]; cbn [library_step] in He.
  - injection He as <-. assert ((clearwater_handler mode requests now trees g).2 = ensure_thread g) as ->
      by (unfold clearwater_handler; by destruct (_ <? _)).
    unfold ensure_thread. destruct (thread_created g) eqn:Hc; [by split_and!; rewrite ?Hc|].
    split_and!; simpl; try done. by rewrite Ht, Hn.
  - rewrite Ht in He. destruct (thread_created g) eqn:Hc; cbn [last] in He;
      [|simplify_eq; by split_and!; rewrite ?Hc].
    apply bind_Some in He as (st & Hb & [= <-]). apply handle_block_under in Hb as [Hu' _]; [|done..].
    by split_and!; simpl; rewrite ?Hc.
Qed.

Lemma initialize_handler_ok nd g :
  tree (globals g) = [] -> threads g = [] -> library_ok nd (initialize_handler nd true g).
Proof.
  intros Ht Hth. split_and!; [done| |done]. unfold tree_under. simpl. rewrite Ht.
  split; [apply sorted_nil|]. by intros o [v Hv].
Qed.

(** Each library starts one statistics thread, at the first request, for
    the node data it registered last, whatever requests and messages come: its tree only ever
    holds statistics under that root. *)
Theorem library_thread es g nd :
  In (g, nd) [(init_cdiv_handler true, cdiv_node_data);
              (init_memento_handler true true, memento_auth_node_data);
              (init_memento_as_handler true, MementoAs.memento_as_node_data);
              (init_astaire_handler true, astaire_node_data)] ->
  match library_run es g with
  | Some g' =>
    threads g' = (if thread_created g' then [Some nd] else []) /\
    sorted (tree (globals g')) /\
    forall o, is_Some (tree_get o (tree (globals g'))) -> _oids (root_oid nd) `prefix_of` _oids o
  | None => True
  end.
Proof.
  intros Hin. destruct (library_run es g) as [g'|] eqn:Hr; [|done].
  assert (node_data_ok nd /\ library_ok nd g) as [Hnd Hg].
  { pose proof all_node_data_ok as Hok. rewrite Forall_forall in Hok.
    destruct Hin as [[= <- <-]|[[= <- <-]|[[= <- <-]|[[= <- <-]|[]]]]];
      (split; [apply Hok; unfold all_node_data; set_solver|by apply initialize_handler_ok]). }
  destruct (library_run_ok nd es g g' Hnd Hg Hr) as [(_ & [Hs Hu] & Ht) _]. done.
Qed.

(** The memento library registers its HTTP statistics with SNMP but never
    subscribes to them: no GET of one is ever answered. *)
Lemma memento_http_unanswered es g' o :
  library_run es (init_memento_handler true true) = Some g' ->
  root_oid memento_http_node_data ∈ (registrations g').*2 /\
  (Some memento_http_node_data ∉ threads g') /\
  (_oids (root_oid memento_http_node_data) `prefix_of` _oids o -> tree_get o (tree (globals g')) = None).
Proof.
  intros Hr. pose proof all_node_data_ok as Hok. rewrite Forall_forall in Hok.
  destruct (library_run_ok memento_auth_node_data es (init_memento_handler true true) g') as [(_ & [_ Hu] & Ht) Hreg];
    [apply Hok; unfold all_node_data; set_solver|by apply initialize_handler_ok|done|].
  split_and!.
  - rewrite Hreg. simpl. set_solver.
  - rewrite Ht. destruct (thread_created g'); [|set_solver]. rewrite list_elem_of_singleton. intros [=].
  - intros Ho. destruct (tree_get o (tree (globals g'))) eqn:Hg; [|done]. exfalso.
    assert (_oids (root_oid memento_auth_node_data) `prefix_of` _oids o) as Hp by (apply Hu; by eexists).
    destruct (prefix_weak_total _ _ _ Ho Hp) as [Hx|Hx]; revert Hx;
      apply (bool_decide_unpack (~ _)); vm_compute; exact I.
Qed.
End handler_theorems.

(** ** Witnesses *)

Import Reference InetReference ListenerSample.

Module HandlerSample.
Definition entry : OID := OID_of_string "1.2.826.0.1.1578918.9.7.1.1.2".
Definition fresh : handler_state :=
  mkHandlerState (mkStatsState [(entry, -1)] 1000) true (Some cdiv_node_data)
    [("sprout", root_oid cdiv_node_data)] [Some cdiv_node_data].
Definition ask (o : OID) : request_info := mkRequestInfo (_oids o) 0.
End HandlerSample.
Import HandlerSample.

Lemma clearwater_handler_answers_witness :
  let (answers, g') := clearwater_handler MODE_GETNEXT [ask (root_oid cdiv_node_data)] 1014
                         (fun _ => [(entry, -1)]) fresh in
  answers !! 0%nat = Some (Some (mkVarBinding (Some entry) UINT_MAX)) /\ threads g' = threads fresh.
Proof.
  pose proof (clearwater_handler_answers MODE_GETNEXT [ask (root_oid cdiv_node_data)] 1014
    (fun _ => [(entry, -1)]) fresh 0 (ask (root_oid cdiv_node_data)) eq_refl eq_refl) as Ha.
  assert (Forall (fun x => 0 <= x <= ULONG_MAX) (requestvb_name (ask (root_oid cdiv_node_data)))) as Hr
    by (apply (bool_decide_unpack (Forall _ _)); vm_compute; exact I).
  specialize (Ha Hr). destruct (clearwater_handler _ _ _ _ _) as [answers g'].
  destruct Ha as (_ & _ & _ & Ht & Hans). split; [rewrite Hans; vm_compute; reflexivity|rewrite Ht; reflexivity].
Defined.

Lemma library_thread_witness :
  exists g', library_run [SnmpRequest MODE_GET [] 5 (fun _ => []);
                          ZmqMessage ["cdiv_total"; "OK"; "3"] 6] (init_cdiv_handler true) = Some g' /\
    threads g' = (if thread_created g' then [Some cdiv_node_data] else []) /\
    sorted (tree (globals g')) /\
    forall o, is_Some (tree_get o (tree (globals g'))) -> _oids (root_oid cdiv_node_data) `prefix_of` _oids o.
Proof.
  pose proof (library_thread [SnmpRequest MODE_GET [] 5 (fun _ => []); ZmqMessage ["cdiv_total"; "OK"; "3"] 6]
    (init_cdiv_handler true) cdiv_node_data (or_introl eq_refl)) as Ht.
  destruct (library_run _ _) as [g'|] eqn:Hr; [by exists g'|]. vm_compute in Hr. discriminate Hr.
Defined.
