(* ===== verification/ThreadCreation.v ===== *)
(** The start of the statistics thread: the first lines of [clearwater_handler] in
    [src/custom_handler.cpp], step by step.

    Any number of calls of the handler run at once. Each tests the atomic flag, and
    when it is not set, tests it again under [thread_creation_lock]. The theorem is
    that, however they interleave, they do together what [ensure_thread] of
    ClearwaterHandler.v does in one step. *)

From S2P Require Export ClearwaterHandler.

(** Where a call is: before the first [load], the lock, the second [load], the
    [store], [pthread_create], the unlock; or past them. *)
Inductive creation_pc :=
| C_Load
| C_Lock
| C_Load_again
| C_Store
| C_Create
| C_Unlock
| C_Past.

#[export] Instance creation_pc_eq_dec : EqDecision creation_pc.
Proof. solve_decision. Defined.

(** The globals, the holder of [thread_creation_lock], and the calls. *)
Record creation := mkCreation {
  creation_globals : handler_state;
  thread_creation_lock : option nat;
  handler_calls : list creation_pc;
}.

Definition with_thread_created (b : bool) (g : handler_state) : handler_state :=
  mkHandlerState (globals g) b (global_node_data g) (registrations g) (threads g).

Definition with_thread (g : handler_state) : handler_state :=
  mkHandlerState (globals g) (thread_created g) (global_node_data g) (registrations g)
    (threads g ++ [global_node_data g]).

(** Call [k] takes a step; [rc] is what [pthread_create] returns to it, which it
    does not look at: zero when the thread is created. *)
Definition creation_step (k : nat) (rc : Z) (c : creation) : option creation :=
  pc ← handler_calls c !! k;
  let at_pc g lock pc' := Some (mkCreation g lock (<[k := pc']> (handler_calls c))) in
  let g := creation_globals c in
  let lock := thread_creation_lock c in
  match pc with
  | C_Load => at_pc g lock (if thread_created g then C_Past else C_Lock)
  | C_Lock => match lock with None => at_pc g (Some k) C_Load_again | Some _ => None end
  | C_Load_again => at_pc g lock (if thread_created g then C_Unlock else C_Store)
  | C_Store => at_pc (with_thread_created true g) lock C_Create
  | C_Create => at_pc (if rc =? 0 then with_thread g else g) lock C_Unlock
  | C_Unlock => at_pc g None C_Past
  | C_Past => None
  end.

(** [n] calls that begin in the state [g]. *)
Definition creation_start (g : handler_state) (n : nat) : creation := mkCreation g None (replicate n C_Load).

(** The calls step as a schedule says; a call that cannot step is passed over. *)
Fixpoint creation_run (schedule : list (nat * Z)) (c : creation) : creation :=
  match schedule with
  | [] => c
  | (k, rc) :: schedule' => creation_run schedule' (default c (creation_step k rc c))
  end.

(** ** Proof *)

(** What can be seen while no thread is being created: the globals at the start,
    those [ensure_thread] gives, or, where a creation failed, the flag without a thread. *)
Definition settled (failed : bool) (g0 g : handler_state) : Prop :=
  g = g0 \/ g = ensure_thread g0 \/
  (failed = true /\ thread_created g0 = false /\ g = with_thread_created true g0).

(** What the holder of the lock knows at each point. *)
Definition holder_ok (failed : bool) (g0 g : handler_state) (pc : creation_pc) : Prop :=
  match pc with
  | C_Load_again => settled failed g0 g
  | C_Store => thread_created g0 = false /\ g = g0
  | C_Create => thread_created g0 = false /\ g = with_thread_created true g0
  | C_Unlock => settled failed g0 g /\ thread_created g = true
  | _ => False
  end.

Definition in_section (pc : creation_pc) : bool :=
  match pc with C_Load_again | C_Store | C_Create | C_Unlock => true | _ => false end.

Definition lock_ok (failed : bool) (g0 : handler_state) (c : creation) : Prop :=
  match thread_creation_lock c with
  | None => settled failed g0 (creation_globals c)
  | Some k => exists pc, handler_calls c !! k = Some pc /\ holder_ok failed g0 (creation_globals c) pc
  end.

Definition call_ok (c : creation) (k : nat) (pc : creation_pc) : Prop :=
  (in_section pc = true -> thread_creation_lock c = Some k) /\
  (pc = C_Past -> thread_created (creation_globals c) = true).

Definition creation_inv (failed : bool) (g0 : handler_state) (c : creation) : Prop :=
  lock_ok failed g0 c /\ forall k pc, handler_calls c !! k = Some pc -> call_ok c k pc.

Lemma ensure_thread_create g : thread_created g = false -> with_thread (with_thread_created true g) = ensure_thread g.
Proof. intros Hf. unfold ensure_thread. by rewrite Hf. Qed.

Lemma ensure_thread_flag g : thread_created (ensure_thread g) = true.
Proof. unfold ensure_thread. by destruct (thread_created g) eqn:?. Qed.

Lemma settled_unset failed g0 g : settled failed g0 g -> thread_created g = false -> g = g0.
Proof.
  intros [?|[->|(_ & _ & ->)]]; [done| |done]. rewrite ensure_thread_flag. done.
Qed.

(** A step of call [k] that keeps the flag set once it is, and what the others know. *)
Lemma creation_inv_update failed g0 c k pc g' lock' pc' :
  creation_inv failed g0 c -> handler_calls c !! k = Some pc ->
  let c' := mkCreation g' lock' (<[k := pc']> (handler_calls c)) in
  lock_ok failed g0 c' -> call_ok c' k pc' ->
  (thread_created (creation_globals c) = true -> thread_created g' = true) ->
  (forall k', k' <> k -> thread_creation_lock c = Some k' -> lock' = Some k') ->
  creation_inv failed g0 c'.
Proof.
  intros [_ Hcalls] Hk c' Hlock Hcall Hflag Hother. split; [done|]. intros k' pc0. cbn.
  destruct (decide (k' = k)) as [->|Hne].
  - rewrite list_lookup_insert_eq by by eapply lookup_lt_Some. by intros [= <-].
  - rewrite list_lookup_insert_ne by done. intros Hk'. destruct (Hcalls _ _ Hk') as [Hs Hp].
    split; cbn; [intros ?; by apply Hother, Hs|intros ?; by apply Hflag, Hp].
Qed.

Lemma lock_ok_other failed g0 c k pc pc' :
  creation_inv failed g0 c -> handler_calls c !! k = Some pc -> in_section pc = false ->
  lock_ok failed g0 (mkCreation (creation_globals c) (thread_creation_lock c) (<[k := pc']> (handler_calls c))).
Proof.
  intros [Hlock Hcalls] Hk Hs. unfold lock_ok in *. cbn.
  destruct (thread_creation_lock c) as [h|] eqn:Hl; [|done]. destruct Hlock as (pch & Hh & Hok).
  exists pch. split; [|done]. rewrite list_lookup_insert_ne; [done|]. intros ->.
  rewrite Hk in Hh. injection Hh as ->. destruct pch; simpl in *; done.
Qed.

(** The holder's next point, after a step of its own. *)
Lemma lock_ok_holder failed g0 c k pc g' pc' :
  handler_calls c !! k = Some pc -> holder_ok failed g0 g' pc' ->
  lock_ok failed g0 (mkCreation g' (Some k) (<[k := pc']> (handler_calls c))).
Proof.
  intros Hk Hok. unfold lock_ok. cbn. exists pc'. split; [|done].
  by rewrite list_lookup_insert_eq by by eapply lookup_lt_Some.
Qed.

Lemma creation_step_ok failed g0 k rc c c' :
  creation_inv failed g0 c -> creation_step k rc c = Some c' -> (rc = 0 \/ failed = true) ->
  creation_inv failed g0 c'.
Proof.
  intros Hinv (pc & Hk & Hst)%bind_Some Hrc. pose proof Hinv as [Hlock Hcalls].
  destruct (Hcalls _ _ Hk) as [Hsec _].
  assert (in_section pc = true -> thread_creation_lock c = Some k /\ holder_ok failed g0 (creation_globals c) pc) as Hh.
  { intros Hs. pose proof (Hsec Hs) as Hl. split; [done|]. unfold lock_ok in Hlock. rewrite Hl in Hlock.
    destruct Hlock as (pch & Hpc & Hok). rewrite Hk in Hpc. by injection Hpc as ->. }
  assert (forall k', k' <> k -> thread_creation_lock c = Some k' -> thread_creation_lock c = Some k') as Hid by done.
  destruct pc; cbn in Hst; try (destruct (Hh eq_refl) as [Hl Hok]; cbn in Hok; rewrite ?Hl in *).
  - injection Hst as <-. eapply creation_inv_update; [done..|by eapply lock_ok_other| |done|done].
    by destruct (thread_created (creation_globals c)) eqn:Hf; split; cbn.
  - destruct (thread_creation_lock c) eqn:Hl; [done|]. injection Hst as <-.
    unfold lock_ok in Hlock. rewrite Hl in Hlock.
    eapply creation_inv_update; [done..| | |done|]; [by eapply lock_ok_holder|by split|]. intros k' _. congruence.
  - injection Hst as <-. destruct (thread_created (creation_globals c)) eqn:Hf.
    + eapply creation_inv_update; [done..| |by split|done|by rewrite Hl]. by eapply lock_ok_holder.
    + pose proof (settled_unset _ _ _ Hok Hf) as Hg.
      eapply creation_inv_update; [done..| |by split|done|by rewrite Hl]. eapply lock_ok_holder; [done|].
      cbn. by rewrite <- Hg.
  - injection Hst as <-. destruct Hok as [Hf Hg].
    eapply creation_inv_update; [done..| |by split|done|by rewrite Hl]. eapply lock_ok_holder; [done|].
    cbn. by rewrite Hg.
  - injection Hst as <-. destruct Hok as [Hf Hg].
    eapply creation_inv_update; [done..| |by split| |by rewrite Hl].
    + eapply lock_ok_holder; [done|]. cbn. rewrite Hg. destruct (Z.eqb_spec rc 0) as [->|Hne].
      * split; [|done]. right; left. by apply ensure_thread_create.
      * split; [|done]. right; right. by destruct Hrc.
    + rewrite Hg. by destruct (rc =? 0).
  - injection Hst as <-. destruct Hok as [Hset Hf].
    eapply creation_inv_update; [done..|done| |done|]; [by split|]. intros k'. rewrite Hl. congruence.
  - done.
Qed.

Lemma creation_start_inv failed g n : creation_inv failed g (creation_start g n).
Proof.
  split; [by left|]. intros k pc. cbn. intros [-> _]%lookup_replicate. by split.
Qed.

Lemma creation_run_ok failed g0 schedule c :
  creation_inv failed g0 c -> Forall (fun e : nat * Z => e.2 = 0 \/ failed = true) schedule ->
  creation_inv failed g0 (creation_run schedule c).
Proof.
  intros Hc Hs. revert c Hc. induction Hs as [|[k rc] schedule Hrc Hs IH]; intros c Hc; [done|]. cbn. apply IH.
  destruct (creation_step k rc c) as [c'|] eqn:Hst; [by eapply creation_step_ok|done].
Qed.

Lemma creation_run_calls schedule c : length (handler_calls (creation_run schedule c)) = length (handler_calls c).
Proof.
  revert c. induction schedule as [|[k rc] schedule IH]; intros c; [done|]. cbn. rewrite IH.
  destruct (creation_step k rc c) as [c'|] eqn:Hst; [|done].
  apply bind_Some in Hst as (pc & _ & Hst). destruct pc; cbn in Hst; repeat case_match; simplify_eq/=;
    by rewrite length_insert.
Qed.

(** ** Theorems *)

(** C29: the statistics thread is created once. However any number of first requests
    interleave, at most one thread is started; a request goes on only once the flag is set;
    until all have gone on, one of them can step; and when all have, and
    [pthread_create] did not fail, they have done together exactly what [ensure_thread]
    does in one step. *)
Theorem thread_created_once g n (schedule : list (nat * Z)) :
  let c := creation_run schedule (creation_start g n) in
  (length (threads (creation_globals c)) <= S (length (threads g)))%nat /\
  (forall k, handler_calls c !! k = Some C_Past -> thread_created (creation_globals c) = true) /\
  (Forall (eq C_Past) (handler_calls c) \/ exists k, is_Some (creation_step k 0 c)) /\
  (n <> O -> Forall (eq C_Past) (handler_calls c) -> Forall (fun e => e.2 = 0) schedule ->
   creation_globals c = ensure_thread g).
Proof.
  intros c. assert (creation_inv true g c) as [Hlock Hcalls].
  { apply creation_run_ok; [apply creation_start_inv|]. apply Forall_true. by right. }
  split_and!.
  - assert (length (threads (ensure_thread g)) <= S (length (threads g)))%nat as He.
    { unfold ensure_thread. destruct (thread_created g); cbn; [lia|]. rewrite length_app. simpl. lia. }
    unfold lock_ok in Hlock. destruct (thread_creation_lock c) as [h|].
    + destruct Hlock as (pc & _ & Hok). destruct pc; cbn in Hok; try done.
      * destruct Hok as [->|[->|(_ & _ & ->)]]; simpl; lia.
      * destruct Hok as [_ ->]. lia.
      * destruct Hok as [_ ->]. simpl. lia.
      * destruct Hok as [[->|[->|(_ & _ & ->)]] _]; simpl; lia.
    + destruct Hlock as [->|[->|(_ & _ & ->)]]; simpl; lia.
  - intros k Hk. by apply (Hcalls k _ Hk).
  - destruct (thread_creation_lock c) as [h|] eqn:Hl.
    + right. exists h. unfold lock_ok in Hlock. rewrite Hl in Hlock. destruct Hlock as (pc & Hh & Hok).
      unfold creation_step. rewrite Hh. destruct pc; cbn in Hok; try done; by eexists.
    + destruct (decide (Forall (eq C_Past) (handler_calls c))) as [|Hn]; [by left|right].
      apply not_Forall_Exists in Hn; [|apply _]. apply Exists_exists in Hn as (pc & Hin & Hne).
      apply list_elem_of_lookup_1 in Hin as [k Hk]. exists k. unfold creation_step. rewrite Hk, Hl. cbn.
      destruct pc; cbn; try (eexists; reflexivity). by exfalso; apply Hne.
  - intros Hn Hpast Hrc. assert (creation_inv false g c) as [Hlock' Hcalls'].
    { apply creation_run_ok; [apply creation_start_inv|]. apply (Forall_impl _ _ _ Hrc). by left. }
    assert (exists pc, handler_calls c !! 0%nat = Some pc) as [pc H0].
    { apply lookup_lt_is_Some_2. unfold c. rewrite creation_run_calls. cbn. rewrite length_replicate. lia. }
    rewrite Forall_lookup in Hpast. pose proof (Hpast _ _ H0) as <-.
    pose proof (proj2 (Hcalls' _ _ H0) eq_refl) as Hf.
    unfold lock_ok in Hlock'. destruct (thread_creation_lock c) as [h|].
    + destruct Hlock' as (pc & Hh & Hok). by rewrite <- (Hpast _ _ Hh) in Hok.
    + destruct Hlock' as [Hg|[?|[? _]]]; [|done..]. rewrite Hg in Hf |- *. unfold ensure_thread. by rewrite Hf.
Qed.

(** A failed [pthread_create] is never noticed: the flag is set already, and no later
    request creates the thread. *)
Lemma failed_creation_final :
  let g := init_cdiv_handler true in
  let c := creation_run ((0%nat, 0) :: repeat (0%nat, -1) 5) (creation_start g 1) in
  handler_calls c = [C_Past] /\ threads (creation_globals c) = [] /\
  ensure_thread (creation_globals c) = creation_globals c.
Proof. by vm_compute. Qed.
