(* ===== verification/StatsThread.v ===== *)
(** The statistics thread from its start to its end, and a published value on its
    way to a manager: [start_stats] of [src/custom_handler.cpp], the destructor of
    [ZMQListener] in [src/zmq_listener.cpp], and the composition of the thread with
    [clearwater_handler]. *)

From S2P Require Export ThreadCreation.

(** ** The thread *)

(** A pointer member of [ZMQListener]: the constructor gives it no value; then it is an
    address, 0 for [NULL]. *)
Inductive pointer :=
| Indeterminate
| Address (p : Z).

(** [_ctx] and [_sck]. *)
Record zmq_pointers := mkZmqPointers {
  _ctx : pointer;
  _sck : pointer;
}.

(** [ZMQListener(node_data)] *)
Definition ZMQListener_make : zmq_pointers := mkZmqPointers Indeterminate Indeterminate.

(** The result of a call that returns a pointer. *)
Definition as_pointer (rc : Z) : pointer := Address rc.

(** The members after [connect_and_subscribe]. *)
Definition connect_pointers (s : script) (l : zmq_pointers) : zmq_pointers :=
  match s with
  | [] => l
  | ctx :: s =>
    let l := mkZmqPointers (as_pointer (z_rc ctx)) (_sck l) in
    if z_rc ctx =? 0 then l
    else
      match s with
      | [] => l
      | sck :: _ => mkZmqPointers (_ctx l) (as_pointer (z_rc sck))
      end
  end.

(** What [~ZMQListener] does: [zmq_close] and [zmq_ctx_destroy], whose failure is only
    printed, with the pointers it passes; [None] when it passes one that has no value. *)
Inductive closing :=
| ZmqClose (sck : pointer)
| ZmqCtxDestroy (ctx : pointer).

Definition ZMQListener_destroy (l : zmq_pointers) : option (list closing) :=
  match _sck l, _ctx l with
  | Indeterminate, _ | _, Indeterminate => None
  | sck, ctx => Some [ZmqClose sck; ZmqCtxDestroy ctx]
  end.

(** How the thread is: it reads, waits or runs for ever; it has returned after its
    destructor; it threw; or its destructor used a pointer without a value. *)
Inductive stats_outcome :=
| StatsRunning (st : stats_state)
| StatsEnded (st : stats_state) (closed : list closing)
| StatsThrew
| StatsBadPointer.

Section thread.
Context `{NetSnmpOids} `{InetPton}.

(** [start_stats] *)
Definition start_stats (nd : NodeData) (times : nat -> Z) (s : script) (st : stats_state) : stats_outcome :=
  match handle_requests_forever nd times s st with
  | Listening st' => StatsRunning st'
  | Crashed => StatsThrew
  | Stopped st' =>
    match ZMQListener_destroy (connect_pointers s ZMQListener_make) with
    | Some closed => StatsEnded st' closed
    | None => StatsBadPointer
    end
  end.
End thread.

(** ** Lemmas *)

Section laws.
Context `{NetSnmpOidsSpec} `{InetPton}.

(** A [receive] that fails needs a script. *)
Lemma connect_pointers_ok ctx sck s :
  z_rc ctx <> 0 ->
  connect_pointers (ctx :: sck :: s) ZMQListener_make = mkZmqPointers (Address (z_rc ctx)) (Address (z_rc sck)).
Proof. intros Hc. unfold connect_pointers, as_pointer. cbn. by rewrite (proj2 (Z.eqb_neq _ _)). Qed.

(** A message is the last of its statistic: the library then holds its values. *)
Lemma library_run_app es1 es2 g :
  library_run (es1 ++ es2) g = g1 ← library_run es1 g; library_run es2 g1.
Proof.
  revert g. induction es1 as [|e es1 IH]; intros g; [done|]. cbn [app library_run].
  destruct (library_step e g); [|done]. cbn [mbind option_bind]. apply IH.
Qed.

Lemma handler_globals mode requests now trees g :
  globals (clearwater_handler mode requests now trees g).2 = globals g.
Proof. unfold clearwater_handler, ensure_thread. by destruct (thread_created g), (_ <? _). Qed.

Lemma handler_created mode requests now trees g :
  thread_created (clearwater_handler mode requests now trees g).2 = true.
Proof. unfold clearwater_handler, ensure_thread. by destruct (thread_created g) eqn:?, (_ <? _). Qed.

Lemma library_step_created e g g' :
  library_step e g = Some g' -> thread_created g = true -> thread_created g' = true.
Proof.
  destruct e as [mode requests now trees|msgs now]; cbn.
  - intros [= <-] _. apply handler_created.
  - destruct (last (threads g)) as [[nd|]|]; [|by intros; simplify_eq..].
    by intros (st & _ & [= <-])%bind_Some.
Qed.
(** Events of a library whose messages the thread copes with, and those that do not
    carry the statistic [stat]. *)
Definition good_event (nd : NodeData) (e : library_event) : Prop :=
  match e with ZmqMessage msgs _ => good_message nd msgs | _ => True end.

Definition other_event (stat : string) (e : library_event) : Prop :=
  match e with ZmqMessage msgs _ => msgs !! 0%nat <> Some stat | _ => True end.

(** The time of the last message. *)
Definition last_message (es : list library_event) (t : Z) : Z :=
  fold_left (fun t e => match e with ZmqMessage _ u => u | _ => t end) es t.

Lemma library_step_good nd e g :
  node_data_ok nd -> library_ok nd g -> good_event nd e ->
  exists g', library_step e g = Some g' /\ library_ok nd g' /\
    (thread_created g = true -> thread_created g' = true).
Proof.
  intros Hnd Hg He.
  assert (exists g', library_step e g = Some g') as [g' Hs].
  { destruct e as [mode requests now trees|msgs now]; cbn; [by eexists|].
    destruct Hg as (_ & _ & ->). destruct (thread_created g); cbn; [|by eexists].
    destruct (handle_block_good nd now msgs (globals g) Hnd He) as [st ->]. by eexists. }
  exists g'. split_and!; [done| |by eapply library_step_created].
  apply (library_run_ok nd [e] g g' Hnd Hg). cbn. by rewrite Hs.
Qed.

Lemma library_run_good nd es g :
  node_data_ok nd -> library_ok nd g -> Forall (good_event nd) es ->
  exists g', library_run es g = Some g' /\ library_ok nd g' /\
    (thread_created g = true -> thread_created g' = true).
Proof.
  intros Hnd Hg He. revert g Hg. induction He as [|e es He Hes IH]; intros g Hg; [by exists g|].
  destruct (library_step_good nd e g Hnd Hg He) as (g1 & Hs & Hg1 & Hc1).
  destruct (IH g1 Hg1) as (g' & Hr & Hg' & Hc'). exists g'. cbn. rewrite Hs. cbn. split_and!; auto.
Qed.

(** A request starts the thread. *)
Lemma library_run_created es g g' :
  library_run es g = Some g' ->
  Exists (fun e => match e with SnmpRequest _ _ _ _ => True | _ => False end) es -> thread_created g' = true.
Proof.
  intros Hr Hx. revert g Hr. induction Hx as [e es He|e es Hx IH]; intros g (g1 & Hs & Hr)%bind_Some.
  - destruct e as [mode requests now trees|]; [|done]. injection Hs as <-.
    assert (thread_created (clearwater_handler mode requests now trees g).2 = true) as Hc by apply handler_created.
    revert Hc Hr. generalize ((clearwater_handler mode requests now trees g).2). clear.
    induction es as [|e es IH]; intros g Hc Hr; cbn in Hr; [by simplify_eq|].
    apply bind_Some in Hr as (g1 & Hs & Hr). apply (IH g1); [by eapply library_step_created|done].
  - by apply (IH g1).
Qed.

(** Requests, and messages of other statistics, leave an entry alone. *)
Lemma library_run_others nd stat h o es g g' :
  node_data_ok nd -> handlers_apart nd -> stat_to_handler nd !! stat = Some h ->
  _oids (_root_oid h) `prefix_of` _oids o -> Forall (other_event stat) es ->
  library_ok nd g -> thread_created g = true -> library_run es g = Some g' ->
  tree_get o (tree (globals g')) = tree_get o (tree (globals g)) /\
  last_seen_time (globals g') = last_message es (last_seen_time (globals g)).
Proof.
  intros Hnd Ha Hh Ho Hes. revert g. induction Hes as [|e es He Hes IH]; intros g Hg Hc; cbn [library_run].
  { by intros [= <-]. }
  intros (g1 & Hs & Hr)%bind_Some.
  assert (library_ok nd g1) as Hg1 by (apply (library_run_ok nd [e] g g1 Hnd Hg); cbn; by rewrite Hs).
  destruct (IH g1 Hg1 (library_step_created _ _ _ Hs Hc) Hr) as [-> ->]. unfold last_message. cbn [fold_left].
  destruct e as [mode requests now trees|msgs now]; cbn in Hs.
  - injection Hs as <-. by rewrite handler_globals.
  - destruct Hg as (_ & [Hsorted _] & Hth). rewrite Hth, Hc in Hs. cbn in Hs.
    apply bind_Some in Hs as (st & Hb & [= <-]). cbn.
    destruct (handle_block_other nd now msgs (globals g) st stat h o) as [_ ->]; try done. split; [done|].
    f_equal. clear -Hb. unfold handle_block in Hb. destruct (_ && _); [|by simplify_eq].
    apply bind_Some in Hb as (? & _ & Hb). apply bind_Some in Hb as (? & _ & Hb).
    by apply bind_Some in Hb as (? & _ & [= <-]).
Qed.

(** A message writes its values. *)
Lemma handle_block_writes nd now stat h frames entries o v st :
  nd ∈ value_node_data -> node_data_ok nd -> stat_to_handler nd !! stat = Some h ->
  message_entries (handler_type h) (_root_oid h) (atoi <$> (c_str <$> frames)) = Some entries ->
  entry_of entries o = Some v -> Z.of_nat (length frames) + 2 <= INT_MAX -> sorted (tree st) ->
  exists st', handle_block nd now (stat :: "OK" :: frames) st = Some st' /\
    tree_get o (tree st') = Some v /\ last_seen_time st' = now.
Proof.
  intros Hnd Hok Hh He Hv Hl Hs.
  pose proof value_node_data_apart as Hap. rewrite Forall_forall in Hap. destruct (Hap nd Hnd) as [Hc _].
  destruct (value_message_writes h stat "OK" frames (tree st) o Hs Hl) as (tree' & Hw & Hg); [exact (Hc stat h Hh)|].
  exists (mkStatsState tree' now). split.
  { unfold handle_block. cbn. rewrite Hh. cbn. by rewrite Hw. }
  split; [|done].
  cbn [tree]. rewrite Hg, He, Hv. by destruct (replaces _ && _), (tree_get o (tree st)).
Qed.
End laws.

(** ** Theorems *)

Section theorems.
Context `{NetSnmpOidsSpec} `{InetPton}.

(** A published value reaches the manager. In a library of single values and
    averages whose thread has been started by some request, whatever messages the thread
    copes with and whatever requests come before and after, once a statistic has been
    published a GET of one of its values is answered with it until the statistic is
    published again, as long as the last message of any statistic is less than 15 seconds old. *)
Theorem published_value_answered g nd stat h frames entries o v before after t now :
  In (g, nd) [(init_cdiv_handler true, cdiv_node_data);
              (init_memento_handler true true, memento_auth_node_data);
              (init_memento_as_handler true, MementoAs.memento_as_node_data)] ->
  stat_to_handler nd !! stat = Some h ->
  message_entries (handler_type h) (_root_oid h) (atoi <$> (c_str <$> frames)) = Some entries ->
  entry_of entries o = Some v -> Z.of_nat (length frames) + 2 <= INT_MAX ->
  Forall (fun x => 0 <= x <= ULONG_MAX) (_oids o) ->
  Exists (fun e => match e with SnmpRequest _ _ _ _ => True | _ => False end) before ->
  Forall (good_event nd) before -> Forall (good_event nd) after -> Forall (other_event stat) after ->
  now < last_message after t + TIMEOUT_THRESHOLD ->
  exists g', library_run (before ++ ZmqMessage (stat :: "OK" :: frames) t :: after) g = Some g' /\
    clearwater_handler MODE_GET [mkRequestInfo (_oids o) 0] now (fun _ => tree (globals g')) g' =
      ([Some (mkVarBinding None (v mod 2 ^ 32))], g').
Proof.
  intros Hin Hh He Hv Hl Ho Hx Hb Ha Hother Hnow.
  assert (nd ∈ value_node_data /\ node_data_ok nd /\ library_ok nd g) as (Hval & Hnd & Hg).
  { pose proof all_node_data_ok as Hok. rewrite Forall_forall in Hok.
    destruct Hin as [[= <- <-]|[[= <- <-]|[[= <- <-]|[]]]];
      (split_and!; [unfold value_node_data; set_solver|apply Hok; unfold all_node_data; set_solver|by apply initialize_handler_ok]). }
  pose proof value_node_data_apart as Hap. rewrite Forall_forall in Hap. specialize (Hap nd Hval).
  destruct (library_run_good nd before g Hnd Hg Hb) as (g1 & Hr1 & Hg1 & _).
  pose proof (library_run_created _ _ _ Hr1 Hx) as Hc1. pose proof Hg1 as (Hn1 & [Hs1 Hu1] & Hth1).
  destruct (handle_block_writes nd t stat h frames entries o v (globals g1)) as (st2 & Hw & Hget & Ht); try done.
  pose (g2 := mkHandlerState st2 (thread_created g1) (global_node_data g1) (registrations g1) (threads g1)).
  assert (library_step (ZmqMessage (stat :: "OK" :: frames) t) g1 = Some g2) as Hstep.
  { unfold library_step, g2. rewrite Hth1, Hc1. cbn [last]. by rewrite Hw. }
  assert (library_ok nd g2) as Hg2.
  { apply (library_run_ok nd [ZmqMessage (stat :: "OK" :: frames) t] g1 g2 Hnd Hg1). cbn [library_run]. by rewrite Hstep. }
  destruct (library_run_good nd after g2 Hnd Hg2 Ha) as (g' & Hr' & _ & Hc').
  destruct (library_run_others nd stat h o after g2 g') as [Hget' Hlast]; try done.
  { pose proof (message_entries_under _ _ _ _ He) as Hun. rewrite Forall_forall in Hun.
    by specialize (Hun _ (entry_of_elem _ _ _ Hv)). }
  exists g'. split.
  { rewrite library_run_app, Hr1. cbn [mbind option_bind library_run]. rewrite Hstep. exact Hr'. }
  assert (thread_created g' = true) as Hcg by by apply Hc'.
  assert (ensure_thread g' = g') as Hens by (unfold ensure_thread; by rewrite Hcg).
  unfold clearwater_handler. rewrite Hens, Hlast. cbn [globals g2]. rewrite Ht.
  rewrite (proj2 (Z.ltb_lt _ _)) by lia. unfold imap, answer_request. cbn [processed requestvb_name].
  assert (OID_of_oids (_oids o) = o) as -> by (unfold OID_of_oids; rewrite append_oids_app by done; by destruct o).
  change (MODE_GET =? MODE_GET) with true. cbn [Z.eqb negb]. cbn [globals g2] in Hget'. rewrite Hget', Hget. done.
Qed.

(** C33: what the end of the statistics thread leaves. When the thread returns, its destructor
    has passed to [zmq_close] the very socket that [zmq_socket] returned, which is NULL when
    that was the call that failed, and then to [zmq_ctx_destroy] the context of [zmq_ctx_new],
    each once. The destructor uses a socket pointer that was never set only when
    [zmq_ctx_new] itself failed. No other thread takes its place: from 15 seconds
    after the last message, no request is answered. *)
Theorem stats_thread_error nd times s st :
  match start_stats nd times s st with
  | StatsRunning _ | StatsThrew => True
  | StatsBadPointer => exists ctx rest, s = ctx :: rest /\ z_rc ctx = 0
  | StatsEnded st' closed =>
    (exists ctx sck rest, s = ctx :: sck :: rest /\ z_rc ctx <> 0 /\
       closed = [ZmqClose (Address (z_rc sck)); ZmqCtxDestroy (Address (z_rc ctx))]) /\
    forall mode requests now trees g, globals g = st' -> thread_created g = true ->
      last_seen_time st' + TIMEOUT_THRESHOLD <= now ->
      clearwater_handler mode requests now trees g = ((fun _ => None) <$> requests, g)
  end.
Proof.
  unfold start_stats. destruct (handle_requests_forever nd times s st) as [st'|st'|] eqn:Hr; [done| |done].
  destruct s as [|ctx s]; [done|]. unfold connect_pointers, as_pointer.
  destruct (Z.eqb_spec (z_rc ctx) 0) as [Hz|Hnz]; cbn; [by eexists _, _|].
  destruct s as [|sck s].
  { unfold handle_requests_forever in Hr. cbn in Hr. by rewrite (proj2 (Z.eqb_neq _ _) Hnz) in Hr. }
  split; [by exists ctx, sck, s|]. intros mode requests now trees g <- Hc Hlast. unfold clearwater_handler.
  assert (ensure_thread g = g) as -> by (unfold ensure_thread; by rewrite Hc).
  by rewrite (proj2 (Z.ltb_ge _ _)) by lia.
Qed.
End theorems.

(** ** Concrete runs *)

Import Reference InetReference ListenerSample HandlerSample.

(** [zmq_ctx_new] fails: the destructor closes a socket that was never opened. *)
Example context_not_created :
  start_stats cdiv_node_data clock [mkZmqResult 0 0 "" 0] empty_state = StatsBadPointer.
Proof. reflexivity. Qed.

(** [zmq_socket] fails: the thread ends in order. *)
Example socket_not_created :
  start_stats cdiv_node_data clock [mkZmqResult 1 0 "" 0; mkZmqResult 0 0 "" 0] empty_state =
    StatsEnded empty_state [ZmqClose (Address 0); ZmqCtxDestroy (Address 1)].
Proof. reflexivity. Qed.

Lemma published_value_answered_witness :
  exists g', library_run ([SnmpRequest MODE_GET [] 900 (fun _ => []); ZmqMessage ["cdiv_total"; "OK"; "3"] 901] ++
                          ZmqMessage ["cdiv_total"; "OK"; "4"] 1000 ::
                          [ZmqMessage ["cdiv_busy"; "OK"; "1"] 1010]) (init_cdiv_handler true) = Some g' /\
    clearwater_handler MODE_GET [mkRequestInfo (_oids total_oid) 0] 1024 (fun _ => tree (globals g')) g' =
      ([Some (mkVarBinding None 4)], g').
Proof.
  assert (forall stat value, stat ∈ stats cdiv_node_data -> good_message cdiv_node_data [stat; "OK"; value]) as Hgood.
  { intros stat value Hs _. split; [vm_compute; split; discriminate|]. exists stat. split; [reflexivity|]. by split. }
  apply (published_value_answered (init_cdiv_handler true) cdiv_node_data "cdiv_total"
    (mkZMQMessageHandler BareStatHandler total_oid) ["4"] [(total_oid, 4)] total_oid 4
    [SnmpRequest MODE_GET [] 900 (fun _ => []); ZmqMessage ["cdiv_total"; "OK"; "3"] 901]
    [ZmqMessage ["cdiv_busy"; "OK"; "1"] 1010] 1000 1024).
  - left. reflexivity.
  - vm_compute. reflexivity.
  - vm_compute. reflexivity.
  - vm_compute. reflexivity.
  - vm_compute. discriminate.
  - apply (bool_decide_unpack (Forall _ _)). vm_compute. exact I.
  - apply Exists_cons_hd. exact I.
  - repeat apply Forall_cons_2; try exact I; [|apply Forall_nil_2].
    apply Hgood. simpl. set_solver.
  - apply Forall_cons_2; [|apply Forall_nil_2].
    apply Hgood. simpl. set_solver.
  - apply Forall_cons_2; [discriminate|apply Forall_nil_2].
  - vm_compute. reflexivity.
Defined.
