(* ===== verification/StatsWalk.v ===== *)
(** A manager that walks a statistics table: repeated GETNEXTs through
    [clearwater_handler] of [src/custom_handler.cpp] and [get_next] of
    [src/oidtree.cpp]. *)

From S2P Require Export StatsThread.

(** ** The walk *)

Section walks.
Context `{NetSnmpOids}.

(** The answer to a GETNEXT of one variable, at a time and in a state of the library. *)
Definition snmp_getnext (from : OID) (now : Z) (g : handler_state) : option (OID * Z) :=
  match (clearwater_handler MODE_GETNEXT [mkRequestInfo (_oids from) 0] now (fun _ => tree (globals g)) g).1 with
  | Some (mkVarBinding (Some o) v) :: _ => Some (o, v)
  | _ => None
  end.

(** What a manager collects under [root]: each moment is the time of a request
    and the state it meets; the walk ends when a request is not answered, or is answered with
    an identifier outside [root]. *)
Fixpoint snmpwalk (moments : list (Z * handler_state)) (root from : OID) : list (OID * Z) :=
  match moments with
  | [] => []
  | (now, g) :: moments' =>
    match snmp_getnext from now g with
    | Some (o, v) =>
      if bool_decide (_oids root `prefix_of` _oids o) then (o, v) :: snmpwalk moments' root o else []
    | None => []
    end
  end.

(** The arcs of an identifier are [unsigned long]s. *)
Definition arcs_ok (o : OID) : Prop := Forall (fun x => 0 <= x <= ULONG_MAX) (_oids o).

(** The entries below [root] itself, with the values that SNMP reads. *)
Definition under (root o : OID) : bool :=
  bool_decide (_oids root `prefix_of` _oids o) && negb (bool_decide (o = root)).

Definition entries_under (root : OID) (t : OIDMap) : list (OID * Z) :=
  (fun kv => (kv.1, u32 kv.2)) <$> List.filter (fun kv => under root kv.1) t.

(** The states whose tree a manager can read. *)
Definition readable (g : handler_state) : Prop :=
  sorted (tree (globals g)) /\ Forall (fun kv => arcs_ok kv.1) (tree (globals g)).

Definition fresh_at (m : Z * handler_state) : Prop :=
  m.1 < last_seen_time (globals m.2) + TIMEOUT_THRESHOLD.

#[export] Instance fresh_at_dec m : Decision (fresh_at m).
Proof. unfold fresh_at. apply _. Defined.

(** How many requests are made before the first that finds the tree stale. *)
Fixpoint fresh_count (moments : list (Z * handler_state)) : nat :=
  match moments with
  | m :: moments' => if decide (fresh_at m) then S (fresh_count moments') else O
  | [] => O
  end.

End walks.

(** ** Lemmas *)

Section walk_laws.
Context `{NetSnmpOidsSpec}.

Lemma snmp_getnext_answer from now g :
  arcs_ok from ->
  snmp_getnext from now g =
    if decide (fresh_at (now, g)) then (fun kv => (kv.1, u32 kv.2)) <$> tree_get_next from (tree (globals g)) else None.
Proof.
  intros Hf. unfold snmp_getnext, clearwater_handler.
  assert (globals (ensure_thread g) = globals g) as -> by (unfold ensure_thread; by destruct (thread_created g)).
  unfold fresh_at. cbn [fst snd]. case_decide; [rewrite (proj2 (Z.ltb_lt _ _)) by lia|by rewrite (proj2 (Z.ltb_ge _ _)) by lia].
  cbn [fst imap]. unfold answer_request. cbn [processed requestvb_name Z.eqb negb].
  change (MODE_GETNEXT =? MODE_GET) with false. rewrite Z.eqb_refl.
  assert (OID_of_oids (_oids from) = from) as ->
    by (unfold OID_of_oids; rewrite append_oids_app by done; by destruct from).
  by destruct (tree_get_next _ _) as [[o v]|].
Qed.

(** Between two identifiers that extend a root there are only such. *)
Lemma lex_between (r a b c : oids) :
  r `prefix_of` a -> r `prefix_of` c -> oid_lex_lt a b = true -> oid_lex_lt b c = true -> r `prefix_of` b.
Proof.
  revert a b c. induction r as [|x r IH]; intros a b c Ha Hc Hab Hbc; [apply prefix_nil|].
  destruct Ha as [a' ->], Hc as [c' ->]. destruct b as [|y b]; [done|].
  apply oid_lex_lt_cons in Hab, Hbc. assert (x = y) as <- by lia.
  apply prefix_cons, (IH (r ++ a') b (r ++ c')); [by apply prefix_app_r..| |]; [destruct Hab|destruct Hbc]; tauto || lia.
Qed.

Lemma lex_prefix (r a : oids) : r `prefix_of` a -> oid_lex_lt r a = negb (bool_decide (a = r)).
Proof.
  intros [a' ->]. destruct a' as [|x a'].
  - rewrite app_nil_r, oid_lex_lt_irrefl. by rewrite bool_decide_eq_true_2.
  - rewrite bool_decide_eq_false_2.
    + induction r as [|y r IH]; [done|]. simpl. by rewrite IH, Z.eqb_refl, orb_true_r.
    + intros Heq. apply (f_equal length) in Heq. rewrite length_app in Heq. simpl in Heq. lia.
Qed.

(** What is left of a walk that has reached [from]. *)
Definition left_of (root from : OID) (t : OIDMap) : list (OID * Z) :=
  (fun kv => (kv.1, u32 kv.2)) <$>
    List.filter (fun kv => bool_decide (_oids root `prefix_of` _oids kv.1)) (List.filter (fun kv => cmp_lt from kv.1) t).

Lemma left_of_next root from t :
  sorted t -> _oids root `prefix_of` _oids from ->
  left_of root from t =
    match tree_get_next from t with
    | Some (o, v) =>
      if bool_decide (_oids root `prefix_of` _oids o) then (o, u32 v) :: left_of root o t else []
    | None => []
    end.
Proof.
  intros Ht Hr. unfold left_of, tree_get_next. rewrite filter_above_next by done.
  destruct (upper_bound from t) as [[o v]|] eqn:Hu; [|done]. cbn [List.filter fst].
  case_bool_decide as Ho; [done|].
  apply upper_bound_Some in Hu as (Hlt & _); [|done]. apply OIDCompare_lt in Hlt.
  assert (forall (p : OID * Z -> bool) l, (forall q, q ∈ l -> p q = false) -> List.filter p l = []) as Hnone.
  { clear. intros p l Hl. induction l as [|q l IH]; simpl; [done|]. rewrite Hl by left. apply IH. intros. apply Hl. by right. }
  rewrite Hnone; [done|]. intros [o' v']. rewrite list_elem_of_In, List.filter_In. cbn [fst].
  intros [_ Ho']. apply OIDCompare_lt in Ho'. apply bool_decide_eq_false. intros Hr'.
  apply Ho. by apply (lex_between _ (_oids from) _ (_oids o')).
Qed.

Lemma left_of_root root t : left_of root root t = entries_under root t.
Proof.
  unfold left_of, entries_under. f_equal. induction t as [|[k v] t IH]; [done|]. cbn [List.filter fst].
  unfold under. case_bool_decide as Hk.
  - rewrite <- (bool_decide_ext (_oids k = _oids root) (k = root)) by (destruct k, root; naive_solver).
    rewrite <- lex_prefix by done. cbn [andb].
    assert (cmp_lt root k = oid_lex_lt (_oids root) (_oids k)) as -> by (apply eq_true_iff_eq, OIDCompare_lt).
    destruct (oid_lex_lt _ _); cbn [List.filter fst]; [rewrite bool_decide_eq_true_2 by done; by f_equal|done].
  - cbn [andb]. destruct (cmp_lt root k); cbn [List.filter fst]; [by rewrite bool_decide_eq_false_2|done].
Qed.

Lemma next_arcs from t o v :
  sorted t -> Forall (fun kv => arcs_ok kv.1) t -> tree_get_next from t = Some (o, v) ->
  arcs_ok o /\ tree_get o t = Some v /\ oid_lex_lt (_oids from) (_oids o) = true.
Proof.
  intros Ht Ha Hn. apply upper_bound_Some in Hn as (Hlt & Hf & _); [|done]. split_and!; [|done|by apply OIDCompare_lt].
  apply find_Some_elem in Hf; [|done]. rewrite Forall_forall in Ha. by specialize (Ha _ Hf).
Qed.

Lemma walk_from moments root from t :
  sorted t -> Forall (fun kv => arcs_ok kv.1) t -> arcs_ok from -> _oids root `prefix_of` _oids from ->
  Forall (fun m => tree (globals m.2) = t) moments ->
  snmpwalk moments root from = take (fresh_count moments) (left_of root from t).
Proof.
  intros Ht Ha Hf Hr Hm. revert from Hf Hr. induction Hm as [|[now g] moments Hg Hm IH]; intros from Hf Hr; [done|].
  cbn [snmpwalk fresh_count snd] in *. rewrite snmp_getnext_answer by done. case_decide; [|done].
  rewrite Hg, left_of_next by done. destruct (tree_get_next from t) as [[o v]|] eqn:Hn; [|done].
  cbn [fmap option_fmap option_map fst snd]. case_bool_decide as Ho; [|done].
  cbn [take firstn]. f_equal. apply IH; [by eapply next_arcs|done].
Qed.
End walk_laws.

(** ** What Astaire's tables hold *)

Section tables.
Context `{NetSnmpOidsSpec} `{InetPtonSpec}.

Lemma arcs_append_oid o x : arcs_ok o -> arcs_ok (append_oid o x).
Proof.
  intros Ho. apply Forall_app_2; [done|]. apply Forall_singleton. unfold u64, wrap.
  pose proof (Z.mod_pos_bound x (2 ^ 64)). unfold_ints. lia.
Qed.

Lemma arcs_append_addr o s : arcs_ok o -> isValid (setAddr s) = true -> arcs_ok (append_addr o (setAddr s)).
Proof.
  intros Ho Hv. apply Forall_app_2; [done|]. destruct (setAddr_bytes s Hv) as [_ Hb].
  eapply Forall_impl; [exact Hb|]. cbn. unfold_ints. lia.
Qed.

Lemma arcs_append_string o s : arcs_ok o -> arcs_ok (append_string o s).
Proof.
  intros Ho. rewrite append_string_arcs. apply Forall_app_2; [done|]. unfold string_arcs.
  apply Forall_fmap, Forall_true. intros tok. cbn. unfold u64, wrap.
  pose proof (Z.mod_pos_bound (atoi (c_str tok)) (2 ^ 64)). unfold_ints. lia.
Qed.

Lemma arcs_descendant o s : arcs_ok o -> arcs_ok (OID_descendant o s).
Proof. apply arcs_append_string. Qed.

Lemma arcs_child o x : arcs_ok o -> arcs_ok (OID_child o x).
Proof. apply arcs_append_oid. Qed.

Hint Resolve arcs_append_oid arcs_append_addr arcs_append_string arcs_descendant arcs_child : snmp.

End tables.

(** ** The states a library reaches can be read *)

Section readability.
Context `{NetSnmpOidsSpec} `{InetPtonSpec}.

(** Maps whose keys are identifiers of [unsigned long]s. *)
Definition keys_ok (m : OIDMap) : Prop := Forall (fun kv => arcs_ok kv.1) m.

Lemma keys_assign o v m : arcs_ok o -> keys_ok m -> keys_ok (assign o v m).
Proof.
  intros Ho. induction 1 as [|[k w] m Hk Hm IH]; cbn [assign]; [by apply Forall_singleton|].
  cbn in Hk. destruct (cmp_lt k o); [|destruct (cmp_lt o k)]; unfold keys_ok in *; rewrite ?Forall_cons; cbn; auto.
Qed.

Lemma keys_emplace o v m : arcs_ok o -> keys_ok m -> keys_ok (emplace o v m).
Proof.
  intros Ho. induction 1 as [|[k w] m Hk Hm IH]; cbn [emplace]; [by apply Forall_singleton|].
  cbn in Hk. destruct (cmp_lt k o); [|destruct (cmp_lt o k)]; unfold keys_ok in *; rewrite ?Forall_cons; cbn; auto.
Qed.

Lemma keys_erase o m : keys_ok m -> keys_ok (erase o m).
Proof.
  induction 1 as [|[k w] m Hk Hm IH]; cbn [erase]; [apply Forall_nil_2|].
  cbn in Hk. destruct (cmp_lt k o); [|destruct (cmp_lt o k)]; unfold keys_ok in *; rewrite ?Forall_cons; cbn; auto.
Qed.

Lemma keys_insert_range (upd : OIDMap) m : keys_ok upd -> keys_ok m -> keys_ok (insert_range upd m).
Proof.
  unfold insert_range. intros Hu. revert m. induction Hu as [|kv upd Hk Hu IH]; intros m Hm; [done|].
  by apply IH, keys_emplace.
Qed.

Lemma keys_remove_subtree root m : keys_ok m -> keys_ok (remove_subtree root m).
Proof.
  unfold remove_subtree, erase_if. generalize m at 2. intros l. revert m.
  induction l as [|kv l IH]; intros m Hm; [done|]. cbn [fold_left]. apply IH.
  destruct (subtree_contains _ _); [by apply keys_erase|done].
Qed.

Lemma keys_replace root upd m : keys_ok upd -> keys_ok m -> keys_ok (replace_subtree root upd m).
Proof. intros. by apply keys_insert_range, keys_remove_subtree. Qed.

Lemma keys_nil : keys_ok [].
Proof. apply Forall_nil_2. Qed.

Hint Resolve keys_assign keys_emplace keys_erase keys_insert_range keys_remove_subtree keys_replace keys_nil
  arcs_append_oid arcs_append_addr arcs_append_string arcs_descendant arcs_child : snmp.

Lemma ip_count_keys root frames m : arcs_ok root -> keys_ok m -> keys_ok (ip_count_loop root frames m).
Proof.
  intros Hr. revert m. induction frames as [|ip [|val frames] IH]; intros m Hm; cbn [ip_count_loop]; [done..|].
  apply IH. destruct (isValid (setAddr ip)) eqn:Hv; auto with snmp.
Qed.

Definition trees_keys (t : astaire_trees) : Prop :=
  keys_ok (connection_tree t) /\ keys_ok (bucket_tree t) /\ keys_ok (bucket_bandwidth_tree t).

Lemma bucket_loop_keys fuel root s port msgs ii end_buckets t ii' t' :
  arcs_ok root -> isValid (setAddr s) = true -> trees_keys t ->
  bucket_loop fuel root (setAddr s) port msgs ii end_buckets t = Some (ii', t') -> trees_keys t'.
Proof.
  intros Hr Hv. revert ii t. induction fuel as [|fuel IH]; intros ii t Ht; cbn [bucket_loop]; destruct (ii <? end_buckets);
    try (intros; by simplify_eq).
  intros Hb. repeat (apply bind_Some in Hb as (? & ? & Hb)). eapply IH; [|exact Hb].
  destruct Ht as (Hc & Hk & Hw). unfold set_bucket, bucket_oid.
  split_and!; cbn [connection_tree bucket_tree bucket_bandwidth_tree]; auto 12 with snmp.
Qed.

Lemma connection_loop_keys fuel root msgs ii t t' :
  arcs_ok root -> trees_keys t -> connection_loop fuel root msgs ii t = Some t' -> trees_keys t'.
Proof.
  intros Hr. revert ii t. induction fuel as [|fuel IH]; intros ii t Ht; cbn [connection_loop]; destruct (ii <? msgs_size msgs);
    try (intros; by simplify_eq).
  intros Hb. apply bind_Some in Hb as (limit & _ & Hb). destruct (limit <=? msgs_size msgs); [|by simplify_eq].
  apply bind_Some in Hb as (addr & _ & Hb). apply bind_Some in Hb as (port & _ & Hb).
  destruct (isValid _) eqn:Hv; [|by simplify_eq]. repeat (apply bind_Some in Hb as (? & _ & Hb)).
  set (t1 := set_connection _ _ _ _ _ t) in Hb. assert (trees_keys t1) as Ht1.
  { destruct Ht as (Hc & Hk & Hw). unfold t1, set_connection.
    split_and!; cbn [connection_tree bucket_tree bucket_bandwidth_tree]; auto 12 with snmp. }
  case_match; [|by simplify_eq]. apply bind_Some in Hb as ([ii' t2] & Hbl & Hb). eapply IH; [|exact Hb].
  by eapply bucket_loop_keys.
Qed.

Lemma handle_keys h msgs tree tree' :
  arcs_ok (_root_oid h) -> keys_ok tree -> handle h msgs tree = Some tree' -> keys_ok tree'.
Proof.
  intros Hr Ht Hh. destruct h as [[] root]; unfold handle in Hh; cbn [handler_type _root_oid] in *;
    unfold handle_ip_count, handle_astaire_connections, handle_bare, handle_single, handle_single_scope,
      handle_accumulated, handle_astaire_global in Hh.
  - destruct msgs as [|? [|? frames]]; simplify_eq. apply keys_replace; [|done]. apply ip_count_keys; auto with snmp.
  - destruct (3 <=? _); [|by simplify_eq]. apply bind_Some in Hh as (v & _ & [= <-]). by apply keys_assign.
  - destruct (3 <=? _); [|simplify_eq; by auto with snmp].
    apply bind_Some in Hh as (v & _ & [= <-]). apply keys_replace; [|done]. apply Forall_singleton. cbn [fst]. auto with snmp.
  - destruct (3 <=? _); [|simplify_eq; by auto with snmp].
    apply bind_Some in Hh as (v & _ & [= <-]). apply keys_replace; [|done]. apply Forall_singleton. cbn [fst]. auto with snmp.
  - destruct (7 <=? _); [|simplify_eq; by auto with snmp].
    repeat (apply bind_Some in Hh as (? & _ & Hh)). simplify_eq.
    apply keys_replace; [|done]. apply keys_insert_range; [|apply keys_nil].
    repeat (apply Forall_cons_2; [cbn [fst]; by auto with snmp|]). apply Forall_nil_2.
  - destruct (7 <=? _).
    + repeat (apply bind_Some in Hh as (? & _ & Hh)). simplify_eq. repeat (apply keys_assign; [by auto with snmp|]). done.
    + simplify_eq. by repeat apply keys_erase.
  - apply bind_Some in Hh as (t & Hl & [= <-]).
    apply connection_loop_keys in Hl as (H1' & H2' & H3'); [|done|by split_and!; apply keys_nil].
    by repeat (apply keys_replace; [done|]).
Qed.

(** The handlers of every node type write at roots of [unsigned long]s. *)
#[export] Instance arcs_ok_dec o : Decision (arcs_ok o).
Proof. unfold arcs_ok. apply _. Defined.

Definition handler_arcs (nd : NodeData) : Prop :=
  map_Forall (fun _ h => arcs_ok (_root_oid h)) (stat_to_handler nd).

#[export] Instance handler_arcs_dec nd : Decision (handler_arcs nd).
Proof. unfold handler_arcs. apply _. Defined.

Lemma all_handler_arcs : Forall handler_arcs all_node_data.
Proof. apply (bool_decide_unpack (Forall handler_arcs all_node_data)). vm_compute. exact I. Qed.

Lemma handle_block_keys nd now msgs st st' :
  handler_arcs nd -> keys_ok (tree st) -> handle_block nd now msgs st = Some st' -> keys_ok (tree st').
Proof.
  intros Ha Hk. unfold handle_block. destruct (_ && _); [|by intros; simplify_eq].
  intros (stat & _ & Hh)%bind_Some. apply bind_Some in Hh as (h & Hh & Hb).
  apply bind_Some in Hb as (tree' & Hb & [= <-]). eapply handle_keys; [|exact Hk|exact Hb]. by eapply Ha.
Qed.

Lemma library_run_readable nd es g g' :
  In nd all_node_data -> library_ok nd g -> readable g -> library_run es g = Some g' -> library_ok nd g' /\ readable g'.
Proof.
  intros Hnd Hg [Hs Hk] Hr. pose proof all_node_data_ok as Hok. pose proof all_handler_arcs as Hargs.
  rewrite Forall_forall in Hok, Hargs. apply list_elem_of_In in Hnd. specialize (Hok _ Hnd). specialize (Hargs _ Hnd).
  destruct (library_run_ok nd es g g' Hok Hg Hr) as [Hg' _]. split; [done|]. split; [apply Hg'|]. clear Hg'.
  revert g Hg Hs Hk Hr. induction es as [|e es IH]; intros g Hg Hs Hk; cbn [library_run]; [by intros [= <-]|].
  intros (g1 & He & Hr)%bind_Some. assert (library_ok nd g1) as Hg1
    by (apply (library_run_ok nd [e] g g1 Hok Hg); cbn [library_run]; by rewrite He).
  apply (IH g1); [done|apply Hg1| |done]. destruct Hg as (Hn & _ & Ht). destruct e as [mode requests now trees|msgs now]; cbn [library_step] in He.
  - injection He as <-. assert ((clearwater_handler mode requests now trees g).2 = ensure_thread g) as ->
      by (unfold clearwater_handler; by destruct (_ <? _)).
    unfold ensure_thread. by destruct (thread_created g).
  - rewrite Ht in He. destruct (thread_created g); cbn [last] in He; [|by simplify_eq].
    apply bind_Some in He as (st & Hb & [= <-]). by eapply handle_block_keys.
Qed.

(** The four libraries as they are loaded, with the node data each one's thread reads. *)
Definition libraries : list (handler_state * NodeData) :=
  [(init_cdiv_handler true, cdiv_node_data);
   (init_memento_handler true true, memento_auth_node_data);
   (init_memento_as_handler true, MementoAs.memento_as_node_data);
   (init_astaire_handler true, astaire_node_data)].

Lemma libraries_readable g nd es g' :
  In (g, nd) libraries -> library_run es g = Some g' -> library_ok nd g' /\ readable g'.
Proof.
  intros Hin. assert (In nd all_node_data /\ tree (globals g) = [] /\ library_ok nd g) as (Hnd & Ht & Hok).
  { destruct Hin as [[= <- <-]|[[= <- <-]|[[= <- <-]|[[= <- <-]|[]]]]];
      (split_and!; [unfold all_node_data; cbn; auto 6|done|by apply initialize_handler_ok..]). }
  apply library_run_readable; [done..|]. unfold readable. rewrite Ht. split; [apply sorted_nil|apply keys_nil].
Qed.
End readability.

(** ** Theorems *)

Section walk_theorems.
Context `{NetSnmpOidsSpec} `{InetPtonSpec}.

(** C22: a walk of a subtree, while no message is handled, returns its entries in
    order, one for each request, with their values as unsigned 32-bit numbers,
    until they are all returned or a request comes 15 seconds or more after the
    last message: a manager then takes what it has for the whole table. *)
Theorem walk_subtree moments root t :
  arcs_ok root -> sorted t -> Forall (fun kv => arcs_ok kv.1) t ->
  Forall (fun m => tree (globals m.2) = t) moments ->
  snmpwalk moments root root =
    take (fresh_count moments)
      ((fun kv => (kv.1, kv.2 mod 2 ^ 32)) <$> List.filter (fun kv => under root kv.1) t).
Proof. intros Hr Ht Ha Hm. by rewrite (walk_from _ _ _ t), left_of_root. Qed.

Definition walk_lt (p q : OID * Z) : Prop := oid_lex_lt (_oids p.1) (_oids q.1) = true.

Lemma walk_from_sound moments root from :
  arcs_ok from -> Forall (fun m => readable m.2) moments ->
  let answers := snmpwalk moments root from in
  Sorted walk_lt answers /\ HdRel walk_lt (from, 0) answers /\
  Forall (fun a => _oids root `prefix_of` _oids a.1) answers /\
  forall i a, answers !! i = Some a ->
    exists m v, moments !! i = Some m /\ fresh_at m /\
      tree_get a.1 (tree (globals m.2)) = Some v /\ a.2 = u32 v.
Proof.
  intros Hf Hm. revert from Hf. induction Hm as [|[now g] moments [Hs Ha] Hm IH]; intros from Hf; [done|].
  cbn [snmpwalk snd] in *. rewrite snmp_getnext_answer by done. case_decide as Hfr; [|done].
  destruct (tree_get_next from (tree (globals g))) as [[o v]|] eqn:Hn; [|done].
  cbn [fmap option_fmap option_map fst snd]. case_bool_decide as Ho; [|done].
  destruct (next_arcs _ _ _ _ Hs Ha Hn) as (Hao & Hget & Hlt).
  destruct (IH o Hao) as (Hsort & Hhd & Hall & Hans). split_and!.
  - constructor; [done|]. by destruct Hhd; constructor.
  - by constructor.
  - by constructor.
  - intros [|i] a Ha'; [|by apply Hans]. injection Ha' as <-. by exists (now, g), v.
Qed.

#[export] Instance walk_lt_trans : Transitive walk_lt.
Proof. intros p q r. unfold walk_lt. apply oid_lex_lt_trans. Qed.

Lemma walk_sorted moments root :
  arcs_ok root -> Forall (fun m => readable m.2) moments ->
  let answers := snmpwalk moments root root in
  StronglySorted walk_lt answers /\ NoDup (answers.*1) /\
  Forall (fun a => under root a.1 = true) answers /\
  forall i a, answers !! i = Some a ->
    exists m v, moments !! i = Some m /\ fresh_at m /\
      tree_get a.1 (tree (globals m.2)) = Some v /\ a.2 = v mod 2 ^ 32.
Proof.
  intros Hr Hm answers. destruct (walk_from_sound moments root root Hr Hm) as (Hs & Hhd & Hall & Hans).
  apply Sorted_StronglySorted in Hs as Hss; [|apply _]. split_and!; [done| | |done].
  - clear -Hss. induction Hss as [|a l Hs IH Hl]; [apply NoDup_nil_2|]. apply NoDup_cons. split; [|done].
    intros (b & Heq & Hb)%list_elem_of_fmap. rewrite Forall_forall in Hl. specialize (Hl b Hb).
    unfold walk_lt in Hl. by rewrite Heq, oid_lex_lt_irrefl in Hl.
  - assert (Sorted walk_lt ((root, 0) :: answers)) as Hc by by constructor.
    apply Sorted_StronglySorted in Hc as [_ Hc]%StronglySorted_inv; [|apply _].
    rewrite !Forall_forall in *. intros a Hin. unfold under. rewrite bool_decide_eq_true_2 by by apply Hall.
    specialize (Hc a Hin). unfold walk_lt in Hc. cbn in Hc. rewrite bool_decide_eq_false_2; [done|].
    intros Heq. by rewrite Heq, oid_lex_lt_irrefl in Hc.
Qed.

(** C23: whatever messages a library handles between the requests of a walk,
    the answers increase and stay under the subtree, so that the walk never returns to an
    identifier, and each is an entry of the tree at the moment it was read. *)
Theorem walk_sound nd g moments root :
  In (g, nd) libraries -> arcs_ok root ->
  Forall (fun m => exists es, library_run es g = Some m.2) moments ->
  let answers := snmpwalk moments root root in
  StronglySorted walk_lt answers /\ NoDup (answers.*1) /\
  Forall (fun a => under root a.1 = true) answers /\
  forall i a, answers !! i = Some a ->
    exists m v, moments !! i = Some m /\ fresh_at m /\
      tree_get a.1 (tree (globals m.2)) = Some v /\ a.2 = v mod 2 ^ 32.
Proof.
  intros Hg Hr Hes answers. assert (Forall (fun m => readable m.2) moments) as Hm.
  { eapply Forall_impl; [exact Hes|]. intros m [es He]. by eapply libraries_readable. }
  by apply walk_sorted.
Qed.

(** A walk by requests that are all in time, and enough of them. *)
Lemma walk_all moments st root :
  arcs_ok root -> sorted (tree st) -> keys_ok (tree st) ->
  Forall (fun mo => globals mo.2 = st /\ mo.1 < last_seen_time st + TIMEOUT_THRESHOLD) moments ->
  (length (entries_under root (tree st)) <= length moments)%nat ->
  snmpwalk moments root root = entries_under root (tree st).
Proof.
  intros Hr Hs Hk Hmo Hl. rewrite (walk_from _ _ _ (tree st)), left_of_root; [|done..|].
  - apply take_ge. etransitivity; [exact Hl|].
    clear -Hmo. induction Hmo as [|mo moments [Hg Hf] Hmo IH]; [done|]. cbn [fresh_count length].
    rewrite decide_True by (unfold fresh_at; by rewrite Hg). by apply le_n_S.
  - eapply Forall_impl; [exact Hmo|]. by intros mo [-> _].
Qed.

Lemma astaire_tables_apart :
  ~ on_branch (OID_descendant astaire_oid "8.1") (OID_descendant astaire_oid "7.1") /\
  ~ on_branch (OID_descendant astaire_oid "8.1") (OID_descendant astaire_oid "6.1") /\
  ~ on_branch (OID_descendant astaire_oid "7.1") (OID_descendant astaire_oid "6.1").
Proof. split_and!; apply (bool_decide_unpack (~ _)); vm_compute; exact I. Qed.

Lemma astaire_arcs_ok : arcs_ok astaire_oid.
Proof. apply (bool_decide_unpack (arcs_ok astaire_oid)). vm_compute. exact I. Qed.

(** The three tables after a message, each under its root. *)
Definition astaire_tables (trees : astaire_trees) : list (OID * OIDMap) :=
  [(OID_descendant astaire_oid "6.1", connection_tree trees);
   (OID_descendant astaire_oid "7.1", bucket_tree trees);
   (OID_descendant astaire_oid "8.1", bucket_bandwidth_tree trees)].

End walk_theorems.

(** ** Witnesses *)

Import Reference InetReference ListenerSample HandlerSample MessageSample ConnectionSample.

Module WalkSample.
(** Two reads of a value published as -1, the second too late. *)
Definition reads : list (Z * handler_state) := [(1014, fresh); (1015, fresh)].

Definition first_request : library_event := SnmpRequest MODE_GET [] 5 (fun _ => []).
Definition total_published : library_event := ZmqMessage ["cdiv_total"; "OK"; "3"] 6.

Definition asked : handler_state := ensure_thread (init_astaire_handler true).
End WalkSample.
Import WalkSample.

Lemma walk_subtree_witness :
  snmpwalk reads (root_oid cdiv_node_data) (root_oid cdiv_node_data) = [(entry, UINT_MAX)] /\
  snmpwalk reads (root_oid cdiv_node_data) (root_oid cdiv_node_data) =
    take (fresh_count reads)
      ((fun kv => (kv.1, kv.2 mod 2 ^ 32)) <$>
        List.filter (fun kv => under (root_oid cdiv_node_data) kv.1) [(entry, -1)]).
Proof.
  split; [vm_compute; reflexivity|]. apply (walk_subtree reads (root_oid cdiv_node_data) [(entry, -1)]).
  - apply (bool_decide_unpack (arcs_ok _)). vm_compute. exact I.
  - repeat constructor.
  - apply Forall_singleton. apply (bool_decide_unpack (arcs_ok entry)). vm_compute. exact I.
  - repeat constructor.
Defined.

Lemma walk_sound_witness :
  exists g, library_run [first_request; total_published] (init_cdiv_handler true) = Some g /\
    let answers := snmpwalk [(7, g); (8, g)] (root_oid cdiv_node_data) (root_oid cdiv_node_data) in
    StronglySorted walk_lt answers /\ NoDup (answers.*1) /\
    Forall (fun a => under (root_oid cdiv_node_data) a.1 = true) answers /\
    forall i a, answers !! i = Some a ->
      exists m v, [(7, g); (8, g)] !! i = Some m /\ fresh_at m /\
        tree_get a.1 (tree (globals m.2)) = Some v /\ a.2 = v mod 2 ^ 32.
Proof.
  destruct (library_run [first_request; total_published] (init_cdiv_handler true)) as [g|] eqn:Hr;
    [|vm_compute in Hr; discriminate Hr].
  exists g. split; [reflexivity|].
  apply (walk_sound cdiv_node_data (init_cdiv_handler true) [(7, g); (8, g)] (root_oid cdiv_node_data)).
  - left. reflexivity.
  - apply (bool_decide_unpack (arcs_ok _)). vm_compute. exact I.
  - apply Forall_cons_2; [|apply Forall_cons_2; [|apply Forall_nil_2]]; by exists [first_request; total_published].
Defined.
