(* ===== verification/PublishedSpec.v ===== *)
(** The statistics libraries of single values and averages against an abstract
    specification: what is published of each statistic.

    The specification has no tree, no identifiers to compare and no subtrees to remove: it is
    a finite map from statistics to the entries of their last message. The composition
    of the thread ([src/zmq_listener.cpp]), its handlers ([src/zmq_message_handler.cpp]), the
    tree ([src/oidtree.cpp]) and the libraries' node data implements it, and a manager
    that walks the library ([src/custom_handler.cpp]) reads exactly what it holds. *)

From S2P Require Export StatsWalk.

(** ** The specification *)

(** The entries each statistic shows, by its name. *)
Abbreviation published := (gmap string (list (OID * Z))).

(** A message replaces what is shown of its statistic; one without enough values withdraws it,
    but for a [BareStatHandler]. *)
Definition spec_message (nd : NodeData) (msgs : list string) (p : published) : published :=
  match msgs with
  | stat :: status :: frames =>
    match stat_to_handler nd !! stat with
    | Some h =>
      if bool_decide (status = "OK") then
        match message_entries (handler_type h) (_root_oid h) (atoi <$> (c_str <$> frames)) with
        | Some entries => <[stat := entries]> p
        | None => if replaces (handler_type h) then delete stat p else p
        end
      else p
    | None => p
    end
  | _ => p
  end.

(** Whether the thread has been started, what is published, and when the last message came. *)
Record library_spec := mkLibrarySpec {
  spec_started : bool;
  spec_published : published;
  spec_seen : Z;
}.

Definition spec_loaded : library_spec := mkLibrarySpec false ∅ 0.

(** A request starts the thread; messages before are not received. *)
Definition spec_event (nd : NodeData) (s : library_spec) (e : library_event) : library_spec :=
  match e with
  | SnmpRequest _ _ _ _ => mkLibrarySpec true (spec_published s) (spec_seen s)
  | ZmqMessage msgs now =>
    if spec_started s then mkLibrarySpec true (spec_message nd msgs (spec_published s)) now else s
  end.

Definition spec_events (nd : NodeData) (es : list library_event) : library_spec :=
  fold_left (spec_event nd) es spec_loaded.

(** What is published at an identifier. *)
Definition shows (p : published) (o : OID) (v : Z) : Prop :=
  exists stat entries, p !! stat = Some entries /\ entry_of entries o = Some v.

(** What is published after these messages. *)
Definition spec_messages (nd : NodeData) (msgss : list (list string)) : published :=
  fold_left (fun p msgs => spec_message nd msgs p) msgss ∅.

(** The answer to a variable: the value published at the identifier asked for, or the first
    above it; none when there is no such value or another handler has answered. *)
Definition published_answer (p : published) (mode : Z) (request : request_info) (b : var_binding) : Prop :=
  let o := OID_of_oids (requestvb_name request) in
  processed request = 0 /\
  ((mode = MODE_GET /\ exists v, shows p o v /\ b = mkVarBinding None (v mod 2 ^ 32)) \/
   (mode = MODE_GETNEXT /\ exists o' v, shows p o' v /\ oid_lex_lt (_oids o) (_oids o') = true /\
      (forall o'' v'', shows p o'' v'' -> oid_lex_lt (_oids o) (_oids o'') = true ->
                       o'' = o' \/ oid_lex_lt (_oids o') (_oids o'') = true) /\
      b = mkVarBinding (Some o') (v mod 2 ^ 32))).

(** Every entry there is. *)
Definition all_entries (p : published) : list (OID * Z) := map_to_list p ≫= snd.

(** ** Simulation *)

Section simulation.
Context `{NetSnmpOidsSpec} `{InetPtonSpec}.

(** What is published of a statistic came from a message that its handler accepts. *)
Definition published_ok (nd : NodeData) (p : published) : Prop :=
  map_Forall (fun stat entries => exists h values,
    stat_to_handler nd !! stat = Some h /\ message_entries (handler_type h) (_root_oid h) values = Some entries) p.

Lemma published_under nd p stat entries o v :
  published_ok nd p -> p !! stat = Some entries -> entry_of entries o = Some v ->
  exists h, stat_to_handler nd !! stat = Some h /\ _oids (_root_oid h) `prefix_of` _oids o.
Proof.
  intros Hp Hs Ho. destruct (Hp _ _ Hs) as (h & values & Hh & He). exists h. split; [done|].
  apply message_entries_under in He. rewrite Forall_forall in He. apply (He _ (entry_of_elem _ _ _ Ho)).
Qed.

(** A [BareStatHandler] always shows the same identifier. *)
Lemma bare_same_keys c root values1 values2 entries1 entries2 o :
  replaces c = false -> message_entries c root values1 = Some entries1 -> message_entries c root values2 = Some entries2 ->
  is_Some (entry_of entries1 o) -> is_Some (entry_of entries2 o).
Proof.
  destruct c; try done. intros _. destruct values1 as [|v1 ?], values2 as [|v2 ?]; try done. simpl.
  intros [= <-] [= <-]. unfold entry_of. simpl. by case_bool_decide.
Qed.

Lemma spec_message_ok nd msgs p : published_ok nd p -> published_ok nd (spec_message nd msgs p).
Proof.
  intros Hp. unfold spec_message. destruct msgs as [|stat [|status frames]]; [done..|].
  destruct (stat_to_handler nd !! stat) as [h|] eqn:Hh; [|done]. case_bool_decide; [|done].
  destruct (message_entries _ _ _) as [entries|] eqn:He.
  - apply map_Forall_insert_2; [|done]. by eexists _, _.
  - destruct (replaces _); [by apply map_Forall_delete|done].
Qed.

(** The tree holds what is published. *)
Definition tree_shows (p : published) (t : OIDMap) : Prop :=
  forall o v, tree_get o t = Some v <-> shows p o v.

(** Entries of other statistics are off the branch of a handler. *)
Lemma other_off_branch nd p stat stat' h entries o v :
  handlers_apart nd -> published_ok nd p -> stat_to_handler nd !! stat = Some h -> stat <> stat' ->
  p !! stat' = Some entries -> entry_of entries o = Some v -> ~ on_branch (_root_oid h) o.
Proof.
  intros [_ Ha] Hp Hh Hne Hs Ho. destruct (published_under _ _ _ _ _ _ Hp Hs Ho) as (h' & Hh' & Hpre).
  apply (apart_off_branch (_root_oid h')); [|done]. by destruct (Ha stat' h' Hh' stat h Hh) as [->|?].
Qed.

Lemma entry_on_branch nd p stat h entries o v :
  published_ok nd p -> stat_to_handler nd !! stat = Some h -> p !! stat = Some entries ->
  entry_of entries o = Some v -> on_branch (_root_oid h) o.
Proof.
  intros Hp Hh Hs Ho. destruct (published_under _ _ _ _ _ _ Hp Hs Ho) as (h' & Hh' & Hpre). left. congruence.
Qed.

(** The simulation of one message that carries enough values, and of one that does not. *)
Lemma shows_inserted nd p stat h entries values t t' :
  handlers_apart nd -> published_ok nd p -> stat_to_handler nd !! stat = Some h ->
  message_entries (handler_type h) (_root_oid h) values = Some entries -> tree_shows p t ->
  (forall o, tree_get o t' = entry_of entries o ∪
     (if replaces (handler_type h) && bool_decide (on_branch (_root_oid h) o) then None else tree_get o t)) ->
  tree_shows (<[stat := entries]> p) t'.
Proof.
  intros Ha Hp Hh He Ht Hg o v. rewrite Hg. unfold shows. split.
  - destruct (entry_of entries o) as [w|] eqn:Ho.
    { intros Hv. exists stat, entries. rewrite lookup_insert_eq. split; [done|].
      rewrite Ho, <- Hv. by destruct (_ && _), (tree_get o t). }
    destruct (replaces _ && _) eqn:Hr; [done|]. intros Hv. assert (tree_get o t = Some v) as Hv' by (rewrite <- Hv; by destruct (tree_get o t)).
    apply Ht in Hv' as (stat' & entries' & Hs & Ho'). destruct (decide (stat' = stat)) as [->|Hne].
    + exfalso. assert (on_branch (_root_oid h) o) as Hb by by eapply entry_on_branch.
      rewrite bool_decide_eq_true_2, andb_true_r in Hr by done.
      destruct (Hp _ _ Hs) as (h' & values' & Hh' & He'). assert (h' = h) as -> by congruence.
      destruct (bare_same_keys _ _ _ _ _ _ o Hr He' He) as [? ?]; [by eexists|congruence].
    + exists stat', entries'. by rewrite lookup_insert_ne.
  - intros (stat' & entries' & Hs & Ho). destruct (decide (stat' = stat)) as [->|Hne].
    + rewrite lookup_insert_eq in Hs. injection Hs as <-. rewrite Ho. by destruct (_ && _), (tree_get o t).
    + rewrite lookup_insert_ne in Hs by done.
      assert (~ on_branch (_root_oid h) o) as Hb by (eapply other_off_branch; [done..|exact Hs|exact Ho]).
      rewrite (bool_decide_eq_false_2 _ Hb), andb_false_r.
      assert (entry_of entries o = None) as ->.
      { destruct (entry_of entries o) eqn:Hx; [|done]. destruct Hb. left. apply message_entries_under in He.
        rewrite Forall_forall in He. apply (He _ (entry_of_elem _ _ _ Hx)). }
      assert (tree_get o t = Some v) as -> by (apply Ht; by exists stat', entries'). done.
Qed.

Lemma shows_withdrawn nd p stat h t t' :
  handlers_apart nd -> published_ok nd p -> stat_to_handler nd !! stat = Some h -> tree_shows p t ->
  (forall o, tree_get o t' =
     if replaces (handler_type h) && bool_decide (on_branch (_root_oid h) o) then None else tree_get o t) ->
  tree_shows (if replaces (handler_type h) then delete stat p else p) t'.
Proof.
  intros Ha Hp Hh Ht Hg o v. rewrite Hg. destruct (replaces _); cbn [andb]; [|apply Ht]. unfold shows. split.
  - case_bool_decide as Hb; [done|]. intros (stat' & entries & Hs & Ho)%Ht.
    exists stat', entries. rewrite lookup_delete_ne; [done|]. intros <-. apply Hb. by eapply entry_on_branch.
  - intros (stat' & entries & Hs & Ho). apply lookup_delete_Some in Hs as [Hne Hs].
    rewrite bool_decide_eq_false_2 by (eapply other_off_branch; [done..|exact Hs|exact Ho]).
    apply Ht. by exists stat', entries.
Qed.

Lemma handle_block_shows nd now msgs st st' p :
  handlers_apart nd -> good_message nd msgs -> published_ok nd p -> sorted (tree st) -> tree_shows p (tree st) ->
  handle_block nd now msgs st = Some st' ->
  tree_shows (spec_message nd msgs p) (tree st') /\ last_seen_time st' = now.
Proof.
  intros Ha Hgood Hp Hs Ht. unfold handle_block. fold (ok_message msgs). destruct (ok_message msgs) eqn:Hok.
  - destruct (Hgood Hok) as [Hl _]. unfold ok_message in Hok.
    destruct msgs as [|stat [|status frames]]; try done. cbn in Hok. apply bool_decide_eq_true in Hok as [= ->].
    cbn [lookup list_lookup mbind option_bind]. intros (h & Hh & Hb)%bind_Some. apply bind_Some in Hb as (tree' & Hb & [= <-]).
    split; [|done]. cbn [tree]. unfold spec_message. rewrite Hh, bool_decide_eq_true_2 by done.
    assert (forall o, tree_get o tree' = match message_entries (handler_type h) (_root_oid h) (atoi <$> (c_str <$> frames)) with
      | Some entries => entry_of entries o ∪
        (if replaces (handler_type h) && bool_decide (on_branch (_root_oid h) o) then None else tree_get o (tree st))
      | None => if replaces (handler_type h) && bool_decide (on_branch (_root_oid h) o) then None else tree_get o (tree st)
      end) as Hget.
    { intros o. destruct (value_message_writes h stat "OK" frames (tree st) o Hs) as (tree'' & Hb' & Hg).
      - unfold sized_message in Hl. rewrite message_bound_val in Hl. cbn [length] in Hl. unfold_ints. lia.
      - destruct Ha as [Hc _]. exact (Hc stat h Hh).
      - rewrite Hb in Hb'. by injection Hb' as <-. }
    destruct (message_entries _ _ _) as [entries|] eqn:He; [by eapply shows_inserted|by eapply shows_withdrawn].
  - intros [= <-]. split; [|done]. unfold ok_message in Hok. cbn [tree].
    destruct msgs as [|stat [|status frames]]; [done..|]. cbn in Hok. apply bool_decide_eq_false in Hok.
    unfold spec_message. destruct (stat_to_handler nd !! stat); [|done].
    rewrite bool_decide_eq_false_2 by (intros ->; by apply Hok). done.
Qed.

Lemma handle_blocks_shows nd times msgss st st' p :
  node_data_ok nd -> handlers_apart nd -> Forall (good_message nd) msgss -> published_ok nd p -> tree_under nd st ->
  tree_shows p (tree st) -> handle_blocks nd times msgss st = Some st' ->
  tree_shows (fold_left (fun p msgs => spec_message nd msgs p) msgss p) (tree st') /\ sorted (tree st').
Proof.
  intros Hnd Ha Hg. revert times st p. induction Hg as [|msgs msgss Hm Hms IH]; intros times st p Hp Hu Ht; cbn [handle_blocks fold_left].
  { intros [= <-]. split; [done|apply Hu]. }
  intros (st1 & Hb & Hrest)%bind_Some. destruct (handle_block_shows nd _ msgs st st1 p Ha Hm Hp (proj1 Hu) Ht Hb) as [Ht1 _].
  eapply IH; [by apply spec_message_ok|by eapply handle_block_under|exact Ht1|exact Hrest].
Qed.

(** *** Answers *)

Lemma answer_published p t mode request b :
  sorted t -> tree_shows p t -> answer_request mode t request = Some b <-> published_answer p mode request b.
Proof.
  intros Hs Ht. unfold answer_request, published_answer. set (o := OID_of_oids (requestvb_name request)).
  destruct (Z.eqb_spec (processed request) 0) as [Hp|Hp]; cbn [negb]; [|split; [done|by intros [? _]]].
  destruct (Z.eqb_spec mode MODE_GET) as [->|Hget].
  { split.
    - intros (v & Hv%Ht & [= <-])%bind_Some. split; [done|]. left. split; [done|]. by exists v.
    - intros [_ [[_ (v & Hv%Ht & ->)]|[? _]]]; [by rewrite Hv|done]. }
  destruct (Z.eqb_spec mode MODE_GETNEXT) as [->|Hnext]; [|split; [done|by intros [_ [[? _]|[? _]]]]].
  pose proof (get_next_least o t Hs) as Hleast. split.
  - intros ([o' v] & Hn & [= <-])%bind_Some. rewrite Hn in Hleast. destruct Hleast as (Hv & Hlt & Hmin).
    split; [done|]. right. split; [done|]. exists o', v. split_and!; [by apply Ht|done| |done].
    intros o'' v'' Hv''%Ht. apply Hmin. by eexists.
  - intros [_ [[? _]|[_ (o' & v & Hv%Ht & Hlt & Hmin & ->)]]]; [done|].
    destruct (tree_get_next o t) as [[o1 v1]|].
    + destruct Hleast as (Hv1 & Hlt1 & Hmin1). assert (o1 = o') as ->.
      { destruct (Hmin1 o') as [->|Hlt2]; [by eexists|done..|]. destruct (Hmin o1 v1) as [->|Hlt3]; [by apply Ht|done..|].
        pose proof (oid_lex_lt_trans _ _ _ Hlt2 Hlt3) as Hx. by rewrite oid_lex_lt_irrefl in Hx. }
      rewrite Hv in Hv1. by injection Hv1 as <-.
    + by rewrite Hleast in Hlt; [|by eexists].
Qed.

(** *** Libraries *)

(** The state of a library against that of the specification. *)
Definition represents (nd : NodeData) (s : library_spec) (g : handler_state) : Prop :=
  library_ok nd g /\ thread_created g = spec_started s /\ last_seen_time (globals g) = spec_seen s /\
  published_ok nd (spec_published s) /\ tree_shows (spec_published s) (tree (globals g)).

Lemma step_represents nd s g e :
  node_data_ok nd -> handlers_apart nd -> good_event nd e -> represents nd s g ->
  exists g', library_step e g = Some g' /\ represents nd (spec_event nd s e) g'.
Proof.
  intros Hnd Ha He (Hok & Hc & Hl & Hp & Ht).
  destruct (library_step_good nd e g Hnd Hok He) as (g' & Hs & Hok' & _). exists g'. split; [done|].
  split; [done|]. destruct e as [mode requests now trees|msgs now]; cbn [library_step spec_event] in *.
  - injection Hs as <-. by rewrite handler_created, handler_globals.
  - destruct Hok as (_ & [Hsort _] & Hth). rewrite Hth, Hc in Hs. destruct (spec_started s) eqn:Hst; cbn [last] in Hs.
    + apply bind_Some in Hs as (st & Hb & [= <-]). cbn [globals thread_created spec_started spec_seen spec_published].
      destruct (handle_block_shows nd now msgs (globals g) st (spec_published s) Ha He Hp Hsort Ht Hb) as [Ht' Hl'].
      split_and!; [done|done|by apply spec_message_ok|done].
    + injection Hs as <-. by rewrite Hst.
Qed.

Lemma run_represents nd es s g :
  node_data_ok nd -> handlers_apart nd -> Forall (good_event nd) es -> represents nd s g ->
  exists g', library_run es g = Some g' /\ represents nd (fold_left (spec_event nd) es s) g'.
Proof.
  intros Hnd Ha He. revert s g. induction He as [|e es He Hes IH]; intros s g Hr; [by exists g|].
  destruct (step_represents nd s g e Hnd Ha He Hr) as (g1 & Hs & Hr1).
  destruct (IH _ _ Hr1) as (g' & Hrun & Hr'). exists g'. cbn [library_run fold_left]. by rewrite Hs.
Qed.

(** The libraries of single values and averages, as they are loaded. *)
Definition value_libraries : list (handler_state * NodeData) :=
  [(init_cdiv_handler true, cdiv_node_data);
   (init_memento_handler true true, memento_auth_node_data);
   (init_memento_as_handler true, MementoAs.memento_as_node_data)].

Lemma value_libraries_represent g nd :
  In (g, nd) value_libraries ->
  In (g, nd) libraries /\ nd ∈ value_node_data /\ node_data_ok nd /\ handlers_apart nd /\ represents nd spec_loaded g.
Proof.
  intros Hin. pose proof all_node_data_ok as Hok. rewrite Forall_forall in Hok.
  pose proof value_node_data_apart as Hap. rewrite Forall_forall in Hap.
  assert (In (g, nd) libraries /\ nd ∈ value_node_data /\ nd ∈ all_node_data) as (Hlib & Hval & Hall).
  { destruct Hin as [Heq|[Heq|[Heq|[]]]]; injection Heq as <- <-;
      (split_and!; [first [by left|right; by left|right; right; by left]|unfold value_node_data; set_solver|
                    unfold all_node_data; set_solver]). }
  split_and!; [done|done|by apply Hok|by apply Hap|].
  assert (library_ok nd g /\ thread_created g = false /\ globals g = mkStatsState [] 0) as (Hlok & Hc & Hg)
    by (destruct Hin as [Heq|[Heq|[Heq|[]]]]; injection Heq as <- <-; (split; [by apply initialize_handler_ok|done])).
  split_and!; [done|done|by rewrite Hg|apply map_Forall_empty|].
  rewrite Hg. intros o v. split; [done|]. intros (stat & entries & Hs & _).
  unfold spec_loaded in Hs. cbn [spec_published] in Hs. by rewrite lookup_empty in Hs.
Qed.

(** *** Walks *)

(** Every handler of a value library writes below the root registered. *)
Definition handlers_below (nd : NodeData) : Prop :=
  map_Forall (fun _ h => under (root_oid nd) (_root_oid h) = true) (stat_to_handler nd).

#[export] Instance handlers_below_dec nd : Decision (handlers_below nd).
Proof. unfold handlers_below. apply _. Defined.

Lemma value_handlers_below : Forall handlers_below value_node_data.
Proof. apply (bool_decide_unpack (Forall handlers_below value_node_data)). vm_compute. exact I. Qed.

Lemma under_trans root o o' : under root o = true -> _oids o `prefix_of` _oids o' -> under root o' = true.
Proof.
  unfold under. intros [Ho%bool_decide_eq_true Hne%negb_true_iff%bool_decide_eq_false]%andb_prop Hp.
  rewrite bool_decide_eq_true_2 by by etransitivity. rewrite bool_decide_eq_false_2; [done|].
  intros ->. apply Hne. destruct o as [a], root as [b]. cbn in *. f_equal. by apply (anti_symm prefix).
Qed.

Lemma shows_under nd p o v :
  nd ∈ value_node_data -> published_ok nd p -> shows p o v -> under (root_oid nd) o = true.
Proof.
  intros Hnd Hp (stat & entries & Hs & Ho). destruct (published_under _ _ _ _ _ _ Hp Hs Ho) as (h & Hh & Hpre).
  pose proof value_handlers_below as Hb. rewrite Forall_forall in Hb. specialize (Hb nd Hnd).
  eapply under_trans; [exact (Hb _ _ Hh)|done].
Qed.

(** A tree has no more entries than a list that has all of them. *)
Lemma tree_size (t : OIDMap) (l : list (OID * Z)) :
  sorted t -> (forall o v, tree_get o t = Some v -> (o, v) ∈ l) -> (length t <= length l)%nat.
Proof.
  intros Hs Ht. rewrite <- (length_fmap fst t), <- (length_fmap fst l).
  apply submseteq_length, NoDup_submseteq; [by apply sorted_NoDup_keys|].
  intros o (v & Hv)%find_elem_of_keys; [|done]. apply list_elem_of_fmap. exists (o, v). split; [done|by apply Ht].
Qed.

Lemma shows_elem p o v : shows p o v -> (o, v) ∈ all_entries p.
Proof.
  intros (stat & entries & Hst & Ho). apply list_elem_of_bind. exists (stat, entries).
  split; [by apply entry_of_elem|by apply elem_of_map_to_list].
Qed.

Lemma value_roots_arcs : Forall (fun nd => arcs_ok (root_oid nd)) value_node_data.
Proof. apply (bool_decide_unpack (Forall (fun nd => arcs_ok (root_oid nd)) value_node_data)). vm_compute. exact I. Qed.

Lemma entries_under_length root (t : OIDMap) : (length (entries_under root t) <= length t)%nat.
Proof. unfold entries_under. rewrite length_fmap. apply List.filter_length_le. Qed.

Lemma elem_of_entries_under root (t : OIDMap) o w :
  sorted t -> (o, w) ∈ entries_under root t <->
    exists v, tree_get o t = Some v /\ under root o = true /\ w = v mod 2 ^ 32.
Proof.
  intros Hs. unfold entries_under, tree_get. rewrite list_elem_of_fmap. split.
  - intros ([k v] & [= -> ->] & Hin). apply list_elem_of_In, List.filter_In in Hin as [Hin Hu].
    exists v. split_and!; [|done|done]. by apply find_Some_elem, list_elem_of_In.
  - intros (v & Hv & Hu & ->). exists (o, v). split; [done|]. apply list_elem_of_In, List.filter_In.
    split; [|done]. by apply list_elem_of_In, find_Some_elem.
Qed.

(** The walk of a library: sorted, and the entries of the tree below its root. *)
Lemma library_walk moments g root (l : list (OID * Z)) :
  arcs_ok root -> readable g ->
  Forall (fun m => globals m.2 = globals g /\ m.1 < last_seen_time (globals g) + TIMEOUT_THRESHOLD) moments ->
  (forall o v, tree_get o (tree (globals g)) = Some v -> (o, v) ∈ l /\ under root o = true) ->
  (length l <= length moments)%nat ->
  StronglySorted walk_lt (snmpwalk moments root root) /\
  forall o w, (o, w) ∈ snmpwalk moments root root <-> exists v, tree_get o (tree (globals g)) = Some v /\ w = v mod 2 ^ 32.
Proof.
  intros Hr [Hs Hk] Hmo Ht Hlen. split.
  { apply walk_sorted; [done|]. eapply Forall_impl; [exact Hmo|]. intros m [Hm _]. unfold readable. by rewrite Hm. }
  rewrite (walk_all moments (globals g)); [|done..|].
  - intros o w. rewrite elem_of_entries_under by done. split; [naive_solver|].
    intros (v & Hv & ->). exists v. split_and!; [done|by eapply Ht|done].
  - etransitivity; [apply entries_under_length|]. etransitivity; [apply (tree_size _ l); [done|by intros; apply Ht]|done].
Qed.
End simulation.

(** ** Theorems *)

Section theorems.
Context `{NetSnmpOidsSpec} `{InetPtonSpec}.

(** C17: a library of single values and averages implements its specification. Whatever
    requests come and whatever messages of the statistics subscribed to, of at most 2^28
    frames (any values, any other status), no event fails, the thread is
    started by the first request, and an identifier has a value in the tree exactly when
    the last message of some statistic published it: nothing is lost, nothing withdrawn stays,
    and no statistic disturbs another. *)
Theorem library_refines_published g nd es :
  In (g, nd) value_libraries -> Forall (good_event nd) es ->
  let s := spec_events nd es in
  exists g', library_run es g = Some g' /\
    thread_created g' = spec_started s /\ last_seen_time (globals g') = spec_seen s /\
    forall o v, tree_get o (tree (globals g')) = Some v <-> shows (spec_published s) o v.
Proof.
  intros Hin He s. destruct (value_libraries_represent g nd Hin) as (_ & _ & Hok & Ha & Hr).
  destruct (run_represents nd es spec_loaded g Hok Ha He Hr) as (g' & Hrun & _ & Hc & Hl & _ & Ht). by exists g'.
Qed.

(** C20: a manager reads what is published, all of it and nothing else. After any requests
    and any messages of the statistics subscribed to, of at most 2^28 frames (any
    values, any other status), a walk of a library in the 15 seconds after the last message returns each
    identifier that some statistic's last message gave a value, once and in
    order, with that value. *)
Theorem published_walked g nd es moments g' :
  In (g, nd) value_libraries -> Forall (good_event nd) es -> library_run es g = Some g' ->
  let s := spec_events nd es in
  Forall (fun m => globals m.2 = globals g' /\ m.1 < spec_seen s + TIMEOUT_THRESHOLD) moments ->
  (length (all_entries (spec_published s)) <= length moments)%nat ->
  let answers := snmpwalk moments (root_oid nd) (root_oid nd) in
  StronglySorted walk_lt answers /\
  forall o w, (o, w) ∈ answers <-> exists v, shows (spec_published s) o v /\ w = v mod 2 ^ 32.
Proof.
  intros Hin He Hrun s Hmo Hlen. destruct (value_libraries_represent g nd Hin) as (Hlib & Hval & Hok & Ha & Hr).
  destruct (run_represents nd es spec_loaded g Hok Ha He Hr) as (g1 & Hrun1 & _ & Hc & Hl & Hp & Ht).
  assert (g1 = g') as -> by congruence. change (fold_left (spec_event nd) es spec_loaded) with s in Hc, Hl, Hp, Ht.
  destruct (libraries_readable g nd es g' Hlib Hrun) as [_ Hread]. pose proof Hread as [Hs Hk].
  assert (arcs_ok (root_oid nd)) as Hroot.
  { pose proof value_roots_arcs as Hroots. rewrite Forall_forall in Hroots. by apply Hroots. }
  rewrite <- Hl in Hmo.
  destruct (library_walk moments g' (root_oid nd) (all_entries (spec_published s)) Hroot Hread Hmo) as [Hsort Hw]; [|done|].
  - intros o v Hv%Ht. split; [by apply shows_elem|by eapply shows_under].
  - split; [done|]. intros o w. rewrite Hw. split; intros (v & Hv & ->); exists v; (split; [by apply Ht|done]).
Qed.
End theorems.

(** ** Witnesses *)

Import Reference InetReference ListenerSample HandlerSample WalkSample.

(** Two counters and an average, which a message without values then withdraws. *)
Module PublishedSample.
Definition events : list library_event :=
  [ZmqMessage ["memento_failed_calls"; "OK"; "9"] 4; first_request;
   ZmqMessage ["memento_completed_calls"; "OK"; "12"] 6;
   ZmqMessage ["memento_cassandra_read_latency"; "OK"; "1"; "2"; "3"; "4"; "5"] 7;
   ZmqMessage ["memento_cassandra_write_latency"; "OK"; "1"; "2"; "3"; "4"; "5"] 8;
   ZmqMessage ["memento_cassandra_write_latency"; "OK"] 9].

Definition good_event_b (nd : NodeData) (e : library_event) : bool :=
  match e with
  | SnmpRequest _ _ _ _ => true
  | ZmqMessage msgs _ =>
    bool_decide (2 <= Z.of_nat (length msgs) <= message_bound) && counts_bounded (drop 2 msgs) &&
    match msgs with stat :: _ => bool_decide (stat ∈ stats nd) | [] => false end
  end.

Lemma good_event_checked nd e : good_event_b nd e = true -> good_event nd e.
Proof.
  destruct e as [|msgs now]; [done|]. cbn [good_event_b good_event].
  intros [[Hl%bool_decide_eq_true Hc]%andb_prop Hs]%andb_prop _. split; [done|].
  destruct msgs as [|stat msgs]; [done|]. apply bool_decide_eq_true in Hs. by exists stat.
Qed.

Lemma events_good : Forall (good_event MementoAs.memento_as_node_data) events.
Proof.
  unfold events. repeat (apply Forall_cons_2; [apply good_event_checked; vm_compute; reflexivity|]). apply Forall_nil_2.
Qed.

Lemma events_run : exists g', library_run events (init_memento_as_handler true) = Some g'.
Proof.
  destruct (value_libraries_represent (init_memento_as_handler true) MementoAs.memento_as_node_data) as (_ & _ & Hok & Ha & Hr);
    [right; right; left; reflexivity|].
  destruct (run_represents _ events spec_loaded _ Hok Ha events_good Hr) as (g' & Hrun & _). by exists g'.
Qed.

Definition answered : list (OID * Z) :=
  [(MementoAs.memento_completed_calls_oid, 12);
   (OID_descendant MementoAs.as_cassandra_read_latency_oid "1.2", 1);
   (OID_descendant MementoAs.as_cassandra_read_latency_oid "1.3", 2);
   (OID_descendant MementoAs.as_cassandra_read_latency_oid "1.4", 4);
   (OID_descendant MementoAs.as_cassandra_read_latency_oid "1.5", 3);
   (OID_descendant MementoAs.as_cassandra_read_latency_oid "1.6", 5)].
End PublishedSample.
Import PublishedSample.

Lemma library_refines_published_witness :
  exists g', library_run events (init_memento_as_handler true) = Some g' /\
    thread_created g' = true /\ last_seen_time (globals g') = 9 /\
    tree_get MementoAs.memento_completed_calls_oid (tree (globals g')) = Some 12 /\
    tree_get MementoAs.memento_failed_calls_oid (tree (globals g')) <> Some 9.
Proof.
  destruct (library_refines_published (init_memento_as_handler true) MementoAs.memento_as_node_data events)
    as (g' & Hr & Hc & Hl & Ht); [right; right; left; reflexivity|exact events_good|].
  exists g'. split; [exact Hr|]. split; [rewrite Hc; vm_compute; reflexivity|]. split; [rewrite Hl; vm_compute; reflexivity|].
  split.
  - apply Ht. exists "memento_completed_calls", [(MementoAs.memento_completed_calls_oid, 12)].
    split; [vm_compute; reflexivity|vm_compute; reflexivity].
  - assert ((fun g => tree_get MementoAs.memento_failed_calls_oid (tree (globals g))) <$>
        library_run events (init_memento_as_handler true) = Some None) as Hn by (vm_compute; reflexivity).
    rewrite Hr in Hn. cbn [fmap option_fmap option_map] in Hn. injection Hn as Hn. rewrite Hn. discriminate.
Defined.

Lemma published_walked_witness :
  exists g', library_run events (init_memento_as_handler true) = Some g' /\
    let root := root_oid MementoAs.memento_as_node_data in
    let walked := snmpwalk (replicate 7 (20, g')) root root in
    walked = answered /\ StronglySorted walk_lt walked /\
    forall o w, (o, w) ∈ walked <->
      exists v, shows (spec_published (spec_events MementoAs.memento_as_node_data events)) o v /\ w = v mod 2 ^ 32.
Proof.
  destruct events_run as [g' Hr].
  exists g'. split; [exact Hr|]. split.
  - assert ((fun g => snmpwalk (replicate 7 (20, g)) (root_oid MementoAs.memento_as_node_data)
        (root_oid MementoAs.memento_as_node_data)) <$> library_run events (init_memento_as_handler true) = Some answered) as Hw
      by (vm_compute; reflexivity).
    rewrite Hr in Hw. cbn [fmap option_fmap option_map] in Hw. by injection Hw.
  - apply (published_walked (init_memento_as_handler true) MementoAs.memento_as_node_data events (replicate 7 (20, g')) g');
      [right; right; left; reflexivity|exact events_good|exact Hr| |].
    + repeat (apply Forall_cons_2; [split; [reflexivity|vm_compute; reflexivity]|]). apply Forall_nil_2.
    + rewrite length_replicate. apply Nat.leb_le. vm_compute. reflexivity.
Defined.
