(* ===== verification/AstaireSpec.v ===== *)
(** The Astaire library against an abstract specification: the counters last published
    and the list of connections last published ([src/astairedata.cpp] with the thread,
    the tree and the walks of a manager).

    What is published is described by the cells of CLEARWATER-MIB-COMMON: their
    identifiers are written out here, and the tables of the handler are shown to hold
    exactly these cells for the connections the parser of AstaireParser.v reads. *)

From S2P Require Export PublishedSpec.

(** ** The handler's effect *)

Section effects.
Context `{NetSnmpOidsSpec} `{InetPtonSpec}.

Definition connections_handler : ZMQMessageHandler := mkZMQMessageHandler AstaireConnectionStatHandler astaire_oid.
Definition globals_handler : ZMQMessageHandler := mkZMQMessageHandler AstaireGlobalStatHandler astaire_oid.

(** The tables of a list of connections. *)
Definition tables_of (cs : list connection_stat) : astaire_trees :=
  fold_left (add_connection astaire_oid) cs (mkAstaireTrees [] [] []).

Lemma tables_of_built cs : tables_built astaire_oid (tables_of cs).
Proof. apply add_connections_built. split_and!; apply built_nil. Qed.

(** The handler on any message, by what the parser reads. *)
Lemma handle_connections_parses name status frames tree :
  bounded_message (name :: status :: frames) ->
  handle connections_handler (name :: status :: frames) tree =
    let trees := tables_of (connections_of frames) in
    Some (replace_subtree (OID_descendant astaire_oid "8.1") (bucket_bandwidth_tree trees)
           (replace_subtree (OID_descendant astaire_oid "7.1") (bucket_tree trees)
             (replace_subtree (OID_descendant astaire_oid "6.1") (connection_tree trees) tree))).
Proof.
  intros Hm. unfold handle, handle_astaire_connections, connections_handler. cbn [handler_type _root_oid].
  by rewrite connection_loop_frames.
Qed.

Lemma get_tables trees tree o :
  sorted tree -> tables_built astaire_oid trees ->
  tree_get o (replace_subtree (OID_descendant astaire_oid "8.1") (bucket_bandwidth_tree trees)
         (replace_subtree (OID_descendant astaire_oid "7.1") (bucket_tree trees)
           (replace_subtree (OID_descendant astaire_oid "6.1") (connection_tree trees) tree))) =
    if bool_decide (on_branch (OID_descendant astaire_oid "8.1") o) then find_key o (bucket_bandwidth_tree trees)
    else if bool_decide (on_branch (OID_descendant astaire_oid "7.1") o) then find_key o (bucket_tree trees)
    else if bool_decide (on_branch (OID_descendant astaire_oid "6.1") o) then find_key o (connection_tree trees)
    else tree_get o tree.
Proof.
  intros Ht (H6 & H7 & H8). rewrite !get_replaced; [done|..]; auto using replace_subtree_sorted.
Qed.

(** The five counters, in the order of their message. *)
Definition global_oids : list OID :=
  OID_descendant astaire_oid <$> ["1.0"; "2.0"; "3.0"; "4.0"; "5.1.2.1"].

Lemma global_oids_NoDup : NoDup global_oids.
Proof. apply (bool_decide_unpack (NoDup global_oids)). vm_compute. exact I. Qed.

Lemma find_assign_fold (kvs : list (OID * Z)) (m : OIDMap) o :
  NoDup kvs.*1 -> find_key o (fold_left (fun m kv => assign kv.1 kv.2 m) kvs m) = entry_of kvs o ∪ find_key o m.
Proof.
  unfold entry_of. revert m. induction kvs as [|[k v] kvs IH]; intros m Hnd; cbn [fold_left List.find fst].
  { by destruct (find_key o m). }
  apply NoDup_cons in Hnd as [Hni Hnd]. rewrite IH by done. case_bool_decide as Hk; cbn [fmap option_fmap option_map snd].
  - subst o. rewrite find_assign_eq. destruct (List.find _ kvs) as [[k' v']|] eqn:Hf; [|by destruct (find_key k m)].
    apply List.find_some in Hf as [Hin Hk]. apply bool_decide_eq_true in Hk as <-. destruct Hni.
    apply list_elem_of_fmap. exists (k', v'). split; [done|by apply list_elem_of_In].
  - by rewrite find_assign_ne by congruence.
Qed.

Lemma find_erase_fold (ks : list OID) (m : OIDMap) o :
  sorted m -> sorted (fold_left (fun m k => erase k m) ks m) /\
  find_key o (fold_left (fun m k => erase k m) ks m) = if bool_decide (o ∈ ks) then None else find_key o m.
Proof.
  revert m. induction ks as [|k ks IH]; intros m Hm; cbn [fold_left]; [done|].
  destruct (IH (erase k m)) as [Hs ->]; [by apply erase_sorted|]. split; [done|].
  destruct (decide (o = k)) as [->|Hne].
  - rewrite (bool_decide_eq_true_2 (k ∈ k :: ks)) by left. case_bool_decide; [done|by apply find_erase_eq].
  - rewrite find_erase_ne by done. rewrite (bool_decide_ext (o ∈ k :: ks) (o ∈ ks)); [done|]. rewrite elem_of_cons. naive_solver.
Qed.

(** The values of a message of counters that is long enough. *)
Definition global_values (frames : list string) : option (list Z) :=
  match frames with
  | v2 :: v3 :: v4 :: v5 :: v6 :: _ => Some (frame_value <$> [v2; v3; v4; v5; v6])
  | _ => None
  end.

Definition global_entries (globals : option (list Z)) : list (OID * Z) := zip global_oids (default [] globals).

Lemma handle_globals_parses name status frames tree :
  sized_message (name :: status :: frames) -> sorted tree ->
  exists tree', handle globals_handler (name :: status :: frames) tree = Some tree' /\
    forall o, tree_get o tree' =
      entry_of (global_entries (global_values frames)) o ∪ (if bool_decide (o ∈ global_oids) then None else tree_get o tree).
Proof.
  intros Hm Ht. unfold handle, handle_astaire_global, globals_handler. cbn [handler_type _root_oid].
  rewrite sized_size by done.
  assert (length frames < 5 -> global_values frames = None)%nat as Hshort
    by (intros Hl; destruct frames as [|? [|? [|? [|? [|? ?]]]]]; cbn in *; done || lia).
  destruct (Z.leb_spec 7 (Z.of_nat (length (name :: status :: frames)))) as [Hl|Hl].
  - destruct frames as [|v2 [|v3 [|v4 [|v5 [|v6 rest]]]]]; cbn [length] in Hl; try lia.
    eexists. split; [reflexivity|]. intros o. unfold tree_get.
    set (vs := frame_value <$> [v2; v3; v4; v5; v6]).
    trans (find_key o (fold_left (fun m kv => assign kv.1 kv.2 m) (zip global_oids vs) tree)); [reflexivity|].
    assert ((zip global_oids vs).*1 = global_oids) as Hkeys by (apply fst_zip; cbn; lia).
    rewrite find_assign_fold by (rewrite Hkeys; apply global_oids_NoDup).
    change (global_entries (global_values (v2 :: v3 :: v4 :: v5 :: v6 :: rest))) with (zip global_oids vs).
    destruct (entry_of (zip global_oids vs) o) as [v|] eqn:Ho; [by destruct (find_key o tree), (bool_decide _)|].
    case_bool_decide as Hin; [|done]. exfalso. unfold entry_of in Ho. apply fmap_None in Ho.
    rewrite <- Hkeys in Hin. apply list_elem_of_fmap in Hin as ([k v] & -> & Hin).
    apply (List.find_none _ _) with (x := (k, v)) in Ho; [|by apply list_elem_of_In]. by apply bool_decide_eq_false in Ho.
  - eexists. split; [reflexivity|]. intros o. rewrite Hshort by (cbn in Hl; lia). unfold global_entries. cbn [default].
    rewrite zip_with_nil_r. cbn [entry_of List.find fmap option_fmap option_map]. unfold tree_get.
    trans (find_key o (fold_left (fun m k => erase k m) global_oids tree)); [reflexivity|].
    destruct (find_erase_fold global_oids tree o Ht) as [_ ->]. by destruct (if bool_decide _ then _ else _).
Qed.
End effects.

(** ** The specification *)

(** Whether the thread has been started, the counters and the connections last published,
    and when the last message came. *)
Record astaire_spec := mkAstaireSpec {
  as_started : bool;
  as_globals : option (list Z);
  as_connections : list connection_stat;
  as_seen : Z;
}.

Definition astaire_loaded : astaire_spec := mkAstaireSpec false None [] 0.

Section specification.
Context `{InetPton}.

(** *** The cells *)

(** An object under projectClearwater.astaire. *)
Definition astaire_object (arcs : list Z) : OID := mkOID ([1; 2; 826; 0; 1; 1578918; 9; 9] ++ arcs).

(** The five counters: astaireBucketsNeedingResync.0, astaireBucketsResynchronized.0,
    astaireEntriesResynchronized.0, astaireDataResynchronized.0 and astaireBandwidth of the scope
    of the node. *)
Definition global_cells (globals : option (list Z)) : list (OID * Z) :=
  zip [astaire_object [1; 0]; astaire_object [2; 0]; astaire_object [3; 0]; astaire_object [4; 0];
       astaire_object [5; 1; 2; 1]] (default [] globals).

(** The index of astaireConnectionTable: the type and octets of the address, and the port. *)
Definition connection_index (c : connection_stat) : list Z :=
  default [] (address_index (c_str (c_addr c))) ++ [c_port c mod 2 ^ 64].

(** astaireConnectionBucketEntriesResynchronized and astaireConnectionBucketDataResynchronized,
    and astaireConnectionBucketBandwidth of the scope of the node; the bucket's identifier is
    the last index of the first two. *)
Definition bucket_cells (c : connection_stat) (b : bucket_stat) : list (OID * Z) :=
  let index := connection_index c ++ [b_id b mod 2 ^ 64] in
  [(astaire_object ([7; 1; 5] ++ index), b_entries b);
   (astaire_object ([7; 1; 6] ++ index), b_data b);
   (astaire_object ([8; 1; 6] ++ index ++ [1]), b_bandwidth b)].

(** astaireConnectionBucketsNeedingResync and astaireConnectionBucketsResynchronized, and the
    buckets. *)
Definition connection_cells (c : connection_stat) : list (OID * Z) :=
  [(astaire_object ([6; 1; 4] ++ connection_index c), c_needing c);
   (astaire_object ([6; 1; 5] ++ connection_index c), c_resynchronized c)] ++
  (c_buckets c ≫= bucket_cells c).

Definition astaire_cells (globals : option (list Z)) (cs : list connection_stat) : list (OID * Z) :=
  global_cells globals ++ (cs ≫= connection_cells).

(** What is published at an identifier: the last cell with it, should a list of connections
    name one twice. *)
Definition astaire_shows (globals : option (list Z)) (cs : list connection_stat) (o : OID) (v : Z) : Prop :=
  entry_of (reverse (astaire_cells globals cs)) o = Some v.

(** *** The effect of events *)

Definition astaire_message (msgs : list string) (now : Z) (s : astaire_spec) : astaire_spec :=
  let unchanged := mkAstaireSpec true (as_globals s) (as_connections s) now in
  match msgs with
  | stat :: status :: frames =>
    if bool_decide (status = "OK") then
      if bool_decide (stat = "astaire_global") then
        mkAstaireSpec true (global_values frames) (as_connections s) now
      else if bool_decide (stat = "astaire_connections") then
        mkAstaireSpec true (as_globals s) (connections_of frames) now
      else unchanged
    else unchanged
  | _ => unchanged
  end.

Definition astaire_event (s : astaire_spec) (e : library_event) : astaire_spec :=
  match e with
  | SnmpRequest _ _ _ _ => mkAstaireSpec true (as_globals s) (as_connections s) (as_seen s)
  | ZmqMessage msgs now => if as_started s then astaire_message msgs now s else s
  end.

Definition astaire_events (es : list library_event) : astaire_spec := fold_left astaire_event es astaire_loaded.
End specification.

(** ** Simulation *)

Section simulation.
Context `{NetSnmpOidsSpec} `{InetPtonSpec}.

(** *** The maps hold the cells *)

Lemma entry_of_app (l1 l2 : list (OID * Z)) o : entry_of (l1 ++ l2) o = entry_of l1 o ∪ entry_of l2 o.
Proof.
  unfold entry_of. induction l1 as [|[k v] l1 IH]; cbn [app List.find fst]; [by destruct (List.find _ l2)|].
  case_bool_decide; [|done]. by destruct (List.find _ l2).
Qed.

Lemma entry_of_cons k v (l : list (OID * Z)) o :
  entry_of ((k, v) :: l) o = if decide (o = k) then Some v else entry_of l o.
Proof.
  unfold entry_of. cbn [List.find fst]. destruct (decide (o = k)) as [->|Hn];
    [by rewrite bool_decide_eq_true_2|by rewrite bool_decide_eq_false_2 by congruence].
Qed.

(** With one value for each identifier, the order does not matter. *)
Lemma entry_of_reverse (l : list (OID * Z)) o : NoDup l.*1 -> entry_of (reverse l) o = entry_of l o.
Proof.
  induction l as [|[k v] l IH]; [done|]. intros [Hk Hl]%NoDup_cons. rewrite reverse_cons, entry_of_app, IH by done.
  rewrite !entry_of_cons. destruct (decide (o = k)) as [->|]; [|by destruct (entry_of l o)].
  destruct (entry_of l k) as [w|] eqn:Hw; [|done]. apply entry_of_elem in Hw. destruct Hk. apply list_elem_of_fmap. by exists (k, w).
Qed.

Lemma global_cells_entries globals o : entry_of (reverse (global_cells globals)) o = entry_of (global_entries globals) o.
Proof.
  change (global_cells globals) with (global_entries globals). apply entry_of_reverse. unfold global_entries.
  assert ((zip global_oids (default [] globals)).*1 `prefix_of` global_oids) as [k Hk].
  { generalize global_oids (default [] globals). intros l. induction l as [|x l IH]; intros [|y l'];
      [apply prefix_nil..|]. cbn. apply prefix_cons, IH. }
  pose proof global_oids_NoDup as Hn. rewrite Hk in Hn. apply NoDup_app in Hn as [Hn _]. exact Hn.
Qed.

Definition lookup_tables (t : astaire_trees) (o : OID) : option Z :=
  find_key o (connection_tree t) ∪ find_key o (bucket_tree t) ∪ find_key o (bucket_bandwidth_tree t).

Lemma tables_disjoint t o :
  tables_built astaire_oid t ->
  (is_Some (find_key o (connection_tree t)) -> find_key o (bucket_tree t) = None /\ find_key o (bucket_bandwidth_tree t) = None) /\
  (is_Some (find_key o (bucket_tree t)) -> find_key o (bucket_bandwidth_tree t) = None).
Proof.
  intros ([_ B6] & [_ B7] & [_ B8]). destruct astaire_tables_apart as (A87 & A86 & A76). split.
  - intros H6%B6. by split; (eapply below_off_branch; [done|]); (eapply apart_off_branch; [|exact H6]).
  - intros H7%B7. eapply below_off_branch; [done|]. by eapply apart_off_branch; [|exact H7].
Qed.

Lemma tables_lookup t o v :
  tables_built astaire_oid t ->
  (exists root table, In (root, table) (astaire_tables t) /\ find_key o table = Some v) <-> lookup_tables t o = Some v.
Proof.
  intros Ht. destruct (tables_disjoint t o Ht) as [D6 D7]. unfold lookup_tables. split.
  - intros (root & table & Hin & Hv).
    destruct Hin as [[= <- <-]|[[= <- <-]|[[= <- <-]|[]]]].
    + rewrite Hv. destruct D6 as [-> ->]; [by eexists|done].
    + rewrite Hv, D7 by by eexists. destruct (find_key o (connection_tree t)) eqn:H6; [|done].
      destruct D6 as [D6 _]; [by eexists|congruence].
    + rewrite Hv. destruct (find_key o (connection_tree t)) eqn:H6; [destruct D6 as [_ D6]; [by eexists|congruence]|].
      destruct (find_key o (bucket_tree t)) eqn:H7; [|done]. rewrite D7 in Hv by by eexists. done.
  - destruct (find_key o (connection_tree t)) eqn:H6; [|destruct (find_key o (bucket_tree t)) eqn:H7].
    + destruct D6 as [-> ->]; [by eexists|]. intros [= <-]. eexists _, _. split; [by left|done].
    + rewrite D7 by by eexists. intros [= <-]. eexists _, _. split; [right; by left|done].
    + destruct (find_key o (bucket_bandwidth_tree t)) eqn:H8; [|done]. intros [= <-].
      eexists _, _. split; [right; right; by left|done].
Qed.

Lemma find_assign k v (m : OIDMap) o : find_key o (assign k v m) = if decide (o = k) then Some v else find_key o m.
Proof. destruct (decide (o = k)) as [->|]; [apply find_assign_eq|by apply find_assign_ne]. Qed.

(** The identifiers the handler builds are those of the cells. *)
Lemma connection_identifier c column :
  append_oid (append_addr (OID_child (OID_descendant astaire_oid "6.1") column) (setAddr (c_addr c))) (c_port c) =
  astaire_object ([6; 1; column mod 2 ^ 64] ++ connection_index c).
Proof.
  unfold connection_index, append_oid, append_addr, OID_child, astaire_object. cbn [_oids]. rewrite toOIDBytes_index.
  reflexivity.
Qed.

Lemma bucket_identifier table arcs c b column :
  _oids (OID_descendant astaire_oid table) = [1; 2; 826; 0; 1; 1578918; 9; 9] ++ arcs ->
  bucket_oid (OID_descendant astaire_oid table) column (setAddr (c_addr c)) (c_port c) (b_id b) =
  astaire_object (arcs ++ [column mod 2 ^ 64] ++ connection_index c ++ [b_id b mod 2 ^ 64]).
Proof.
  intros Ht. unfold bucket_oid, connection_index, append_oid, append_addr, OID_child, astaire_object. cbn [_oids].
  rewrite toOIDBytes_index. unfold append_oid. cbn [_oids]. rewrite Ht. by rewrite <- !app_assoc.
Qed.

Lemma connection_lookup c t o :
  lookup_tables (set_connection astaire_oid (setAddr (c_addr c)) (c_port c) (c_needing c) (c_resynchronized c) t) o =
  entry_of (reverse [(astaire_object ([6; 1; 4] ++ connection_index c), c_needing c);
                     (astaire_object ([6; 1; 5] ++ connection_index c), c_resynchronized c)]) o ∪ lookup_tables t o.
Proof.
  unfold set_connection, lookup_tables. cbn [connection_tree bucket_tree bucket_bandwidth_tree].
  rewrite !connection_identifier, !find_assign. unfold reverse. cbn [rev_append]. rewrite !entry_of_cons.
  change (4 mod 2 ^ 64) with 4. change (5 mod 2 ^ 64) with 5.
  by repeat destruct (decide _); destruct (find_key o (connection_tree t)), (find_key o (bucket_tree t)), (find_key o (bucket_bandwidth_tree t)).
Qed.

Lemma bucket_lookup c b t o :
  tables_built astaire_oid t ->
  lookup_tables (add_bucket astaire_oid (setAddr (c_addr c)) (c_port c) t b) o =
  entry_of (reverse (bucket_cells c b)) o ∪ lookup_tables t o.
Proof.
  intros ([_ B6] & [_ B7] & [_ B8]). destruct astaire_tables_apart as (A87 & A86 & A76).
  unfold add_bucket, set_bucket, lookup_tables, bucket_cells. cbn [connection_tree bucket_tree bucket_bandwidth_tree].
  set (K5 := bucket_oid _ 5 _ _ _). set (K6 := bucket_oid (OID_descendant astaire_oid "7.1") 6 _ _ _). set (K8 := append_oid _ 1).
  unfold reverse. cbn [rev_append]. rewrite !entry_of_cons, !find_assign.
  assert (astaire_object ([7; 1; 5] ++ connection_index c ++ [b_id b mod 2 ^ 64]) = K5) as ->
    by (symmetry; by apply (bucket_identifier "7.1" [7; 1])).
  assert (astaire_object ([7; 1; 6] ++ connection_index c ++ [b_id b mod 2 ^ 64]) = K6) as ->
    by (symmetry; by apply (bucket_identifier "7.1" [7; 1])).
  assert (astaire_object ([8; 1; 6] ++ (connection_index c ++ [b_id b mod 2 ^ 64]) ++ [1]) = K8) as ->.
  { unfold K8. rewrite (bucket_identifier "8.1" [8; 1]) by done. unfold append_oid, astaire_object. cbn [_oids].
    by rewrite <- ?app_assoc. }
  assert (forall k, _oids (OID_descendant astaire_oid "7.1") `prefix_of` _oids k -> find_key k (connection_tree t) = None) as Hk7.
  { intros k Hk. destruct (find_key k (connection_tree t)) eqn:Hf; [|done].
    destruct (apart_off_branch _ _ _ A76 (B6 k ltac:(by eexists))). by left. }
  assert (_oids (OID_descendant astaire_oid "7.1") `prefix_of` _oids K5) as P5 by (unfold K5, bucket_oid; auto 6 with snmp).
  assert (_oids (OID_descendant astaire_oid "7.1") `prefix_of` _oids K6) as P6 by (unfold K6, bucket_oid; auto 6 with snmp).
  assert (_oids (OID_descendant astaire_oid "8.1") `prefix_of` _oids K8) as P8 by (unfold K8, bucket_oid; auto 6 with snmp).
  assert (forall k, _oids (OID_descendant astaire_oid "7.1") `prefix_of` _oids k -> K8 <> k) as Hne.
  { intros k Hk <-. destruct (apart_off_branch _ _ _ A87 Hk). by left. }
  destruct (decide (o = K8)) as [->|N8].
  - rewrite !decide_False by by apply Hne.
    destruct (find_key K8 (connection_tree t)) eqn:H6;
      [destruct (apart_off_branch _ _ _ A86 (B6 K8 ltac:(by eexists))); by left|].
    destruct (find_key K8 (bucket_tree t)) eqn:H7;
      [destruct (apart_off_branch _ _ _ A87 (B7 K8 ltac:(by eexists))); by left|].
    by destruct (find_key K8 (bucket_bandwidth_tree t)).
  - destruct (decide (o = K6)) as [->|N6]; [rewrite Hk7 by done|destruct (decide (o = K5)) as [->|N5]; [rewrite Hk7 by done|]];
    by repeat match goal with |- context [find_key ?k ?m] => destruct (find_key k m) end.
Qed.

Lemma buckets_lookup c bs t o :
  tables_built astaire_oid t ->
  lookup_tables (fold_left (add_bucket astaire_oid (setAddr (c_addr c)) (c_port c)) bs t) o =
  entry_of (reverse (bs ≫= bucket_cells c)) o ∪ lookup_tables t o.
Proof.
  revert t. induction bs as [|b bs IH]; intros t Ht; cbn [fold_left].
  { cbn. by destruct (lookup_tables t o). }
  rewrite IH by by apply (add_buckets_built _ _ _ [b]). rewrite bucket_lookup, bind_cons, reverse_app, entry_of_app by done.
  by destruct (entry_of (reverse (bs ≫= bucket_cells c)) o), (entry_of (reverse (bucket_cells c b)) o), (lookup_tables t o).
Qed.

Lemma connections_lookup cs t o :
  tables_built astaire_oid t ->
  lookup_tables (fold_left (add_connection astaire_oid) cs t) o =
  entry_of (reverse (cs ≫= connection_cells)) o ∪ lookup_tables t o.
Proof.
  revert t. induction cs as [|c cs IH]; intros t Ht; cbn [fold_left].
  { cbn. by destruct (lookup_tables t o). }
  rewrite IH by by apply (add_connections_built _ [c]). unfold add_connection.
  rewrite buckets_lookup by by apply set_connection_built.
  rewrite connection_lookup, bind_cons, reverse_app, entry_of_app.
  generalize (entry_of (reverse (cs ≫= connection_cells)) o). intros later. unfold connection_cells.
  rewrite reverse_app, entry_of_app.
  generalize (entry_of (reverse (c_buckets c ≫= bucket_cells c)) o) (lookup_tables t o). intros buckets before.
  match goal with |- context [entry_of (reverse ?l) o] => generalize (entry_of (reverse l) o) end. intros this.
  by destruct later, buckets, this, before.
Qed.

Lemma tables_of_cells cs o : lookup_tables (tables_of cs) o = entry_of (reverse (cs ≫= connection_cells)) o.
Proof.
  unfold tables_of. rewrite connections_lookup by (split_and!; apply built_nil). by destruct (entry_of _ o).
Qed.

(** What the handlers store at an identifier: a counter, or an entry of one of the three maps. *)
Definition astaire_stored (globals : option (list Z)) (cs : list connection_stat) (o : OID) (v : Z) : Prop :=
  entry_of (global_entries globals) o = Some v \/
  exists root table, In (root, table) (astaire_tables (tables_of cs)) /\ find_key o table = Some v.

Lemma global_entry_elem globals o v : entry_of (global_entries globals) o = Some v -> o ∈ global_oids.
Proof.
  intros Ho%entry_of_elem. apply elem_of_zip_l in Ho. done.
Qed.

Lemma globals_off_tables o :
  o ∈ global_oids ->
  ~ on_branch (OID_descendant astaire_oid "8.1") o /\ ~ on_branch (OID_descendant astaire_oid "7.1") o /\
  ~ on_branch (OID_descendant astaire_oid "6.1") o.
Proof.
  revert o. apply Forall_forall.
  apply (bool_decide_unpack (Forall (fun o => ~ on_branch (OID_descendant astaire_oid "8.1") o /\
    ~ on_branch (OID_descendant astaire_oid "7.1") o /\ ~ on_branch (OID_descendant astaire_oid "6.1") o) global_oids)).
  vm_compute. exact I.
Qed.

(** A cell is on the branch of its table, and off those of the others. *)
Lemma table_cell cs root table o v :
  In (root, table) (astaire_tables (tables_of cs)) -> find_key o table = Some v -> on_branch root o /\
  _oids root `prefix_of` _oids o.
Proof.
  intros Hin Ho. destruct (tables_of_built cs) as ([_ H6] & [_ H7] & [_ H8]).
  assert (_oids root `prefix_of` _oids o) as Hp.
  { destruct Hin as [[= <- <-]|[[= <- <-]|[[= <- <-]|[]]]]; [apply H6|apply H7|apply H8]; by eexists. }
  split; [by left|done].
Qed.

Lemma cell_not_global cs root table o v :
  In (root, table) (astaire_tables (tables_of cs)) -> find_key o table = Some v -> ~ (o ∈ global_oids).
Proof.
  intros Hin Ho Hg. destruct (table_cell cs root table o v Hin Ho) as [Hb _].
  destruct (globals_off_tables o Hg) as (N8 & N7 & N6).
  by destruct Hin as [[= <- <-]|[[= <- <-]|[[= <- <-]|[]]]].
Qed.

Definition astaire_tree_stored (globals : option (list Z)) (cs : list connection_stat) (t : OIDMap) : Prop :=
  forall o v, tree_get o t = Some v <-> astaire_stored globals cs o v.

Lemma globals_shown globals frames cs t t' :
  astaire_tree_stored globals cs t ->
  (forall o, tree_get o t' =
    entry_of (global_entries (global_values frames)) o ∪ (if bool_decide (o ∈ global_oids) then None else tree_get o t)) ->
  astaire_tree_stored (global_values frames) cs t'.
Proof.
  intros Ht Hg o v. rewrite Hg. unfold astaire_stored.
  destruct (entry_of (global_entries (global_values frames)) o) as [w|] eqn:Ho.
  - assert (Some w ∪ (if bool_decide (o ∈ global_oids) then None else tree_get o t) = Some w) as ->
      by (by destruct (bool_decide _), (tree_get o t)).
    split; [by left|]. intros [?|(root & table & Hin & Hv)]; [done|]. destruct (cell_not_global _ _ _ _ _ Hin Hv).
    by eapply global_entry_elem.
  - rewrite (left_id None (∪)). case_bool_decide as Hin; split.
    + done.
    + intros [?|(root & table & Htab & Hv)]; [done|]. by destruct (cell_not_global _ _ _ _ _ Htab Hv).
    + intros [Hv|Hv]%Ht; [|by right]. destruct Hin. by eapply global_entry_elem.
    + intros [?|Hv]; [done|]. apply Ht. by right.
Qed.

Lemma connections_shown globals cs cs' t t' :
  astaire_tree_stored globals cs t ->
  (forall o, tree_get o t' =
    if bool_decide (on_branch (OID_descendant astaire_oid "8.1") o) then find_key o (bucket_bandwidth_tree (tables_of cs'))
    else if bool_decide (on_branch (OID_descendant astaire_oid "7.1") o) then find_key o (bucket_tree (tables_of cs'))
    else if bool_decide (on_branch (OID_descendant astaire_oid "6.1") o) then find_key o (connection_tree (tables_of cs'))
    else tree_get o t) ->
  astaire_tree_stored globals cs' t'.
Proof.
  intros Ht Hg o v. unfold astaire_stored. split.
  - rewrite Hg. case_bool_decide as B8; [intros; right; eexists _, _; split; [right; right; left; reflexivity|done]|].
    case_bool_decide as B7; [intros; right; eexists _, _; split; [right; left; reflexivity|done]|].
    case_bool_decide as B6; [intros; right; eexists _, _; split; [left; reflexivity|done]|].
    intros [?|(root & table & Hin & Hv)]%Ht; [by left|]. destruct (table_cell _ _ _ _ _ Hin Hv) as [Hb _].
    exfalso. by destruct Hin as [[= <- <-]|[[= <- <-]|[[= <- <-]|[]]]].
  - intros [Hv|(root & table & Hin & Hv)].
    + destruct (globals_off_tables o) as (N8 & N7 & N6); [by eapply global_entry_elem|].
      rewrite Hg, !bool_decide_eq_false_2 by done. apply Ht. by left.
    + destruct (table_cell _ _ _ _ _ Hin Hv) as [_ Hp]. destruct (tables_of_built cs') as (T6 & T7 & T8).
      destruct astaire_tables_apart as (A87 & A86 & A76). rewrite Hg.
      destruct Hin as [[= <- <-]|[[= <- <-]|[[= <- <-]|[]]]].
      * rewrite (bool_decide_eq_false_2 _ (apart_off_branch _ _ _ A86 Hp)),
          (bool_decide_eq_false_2 _ (apart_off_branch _ _ _ A76 Hp)). by rewrite bool_decide_eq_true_2 by by left.
      * rewrite (bool_decide_eq_false_2 _ (apart_off_branch _ _ _ A87 Hp)). by rewrite bool_decide_eq_true_2 by by left.
      * by rewrite bool_decide_eq_true_2 by by left.
Qed.

(** The state of the library against that of the specification. *)
Definition astaire_represents (s : astaire_spec) (g : handler_state) : Prop :=
  library_ok astaire_node_data g /\ thread_created g = as_started s /\ last_seen_time (globals g) = as_seen s /\
  astaire_tree_stored (as_globals s) (as_connections s) (tree (globals g)).

Lemma astaire_stats stat :
  stat ∈ stats astaire_node_data ->
  (stat = "astaire_global" /\ stat_to_handler astaire_node_data !! stat = Some globals_handler) \/
  (stat = "astaire_connections" /\ stat_to_handler astaire_node_data !! stat = Some connections_handler).
Proof.
  intros [->|[->|[]%not_elem_of_nil]%elem_of_cons]%elem_of_cons; [left|right]; (split; [done|]); vm_compute; reflexivity.
Qed.

Lemma astaire_block_shows now msgs st st' s :
  good_message astaire_node_data msgs -> sorted (tree st) -> astaire_tree_stored (as_globals s) (as_connections s) (tree st) ->
  handle_block astaire_node_data now msgs st = Some st' ->
  let s' := astaire_message msgs now s in
  as_started s' = true /\ as_seen s' = last_seen_time st' /\
  astaire_tree_stored (as_globals s') (as_connections s') (tree st').
Proof.
  intros Hgood Hs Ht. unfold handle_block. fold (ok_message msgs). destruct (ok_message msgs) eqn:Hok.
  - destruct (Hgood Hok) as (Hb & stat & Hstat & Hin & Hcounts). unfold ok_message in Hok.
    destruct msgs as [|name [|status frames]]; try done. cbn in Hok, Hstat. injection Hstat as ->.
    apply bool_decide_eq_true in Hok as [= ->]. cbn [lookup list_lookup mbind option_bind].
    unfold astaire_message. rewrite (bool_decide_eq_true_2 ("OK" = "OK")) by done.
    destruct (astaire_stats stat Hin) as [[-> Hh]|[-> Hh]]; rewrite Hh; cbn [mbind option_bind].
    + destruct (handle_globals_parses "astaire_global" "OK" frames (tree st) Hb Hs) as (tree' & -> & Hg).
      cbn [mbind option_bind]. intros [= <-]. split_and!; [done|done|]. by eapply globals_shown.
    + assert (bounded_message ("astaire_connections" :: "OK" :: frames)) as Hbd by (split; [done|by apply (Hcounts connections_handler)]).
      rewrite (handle_connections_parses "astaire_connections" "OK" frames (tree st) Hbd). cbn [mbind option_bind].
      intros [= <-]. split_and!; [done|done|]. cbn [as_globals as_connections tree].
      eapply connections_shown; [exact Ht|]. intros o. apply get_tables; [done|apply tables_of_built].
  - intros [= <-]. unfold ok_message in Hok. unfold astaire_message.
    destruct msgs as [|stat [|status frames]]; [done..|]. cbn in Hok. apply bool_decide_eq_false in Hok.
    rewrite bool_decide_eq_false_2 by (intros ->; by apply Hok). done.
Qed.

Lemma astaire_data_ok : node_data_ok astaire_node_data.
Proof.
  pose proof all_node_data_ok as Hok. rewrite Forall_forall in Hok. apply Hok.
  unfold all_node_data. set_solver.
Qed.

Lemma astaire_step_represents s g e :
  good_event astaire_node_data e -> astaire_represents s g ->
  exists g', library_step e g = Some g' /\ astaire_represents (astaire_event s e) g'.
Proof.
  intros He (Hok & Hc & Hl & Ht).
  destruct (library_step_good astaire_node_data e g astaire_data_ok Hok He) as (g' & Hs & Hok' & _). exists g'.
  split; [done|]. split; [done|]. destruct e as [mode requests now trees|msgs now]; cbn [library_step astaire_event] in *.
  - injection Hs as <-. by rewrite handler_created, handler_globals.
  - destruct Hok as (_ & [Hsort _] & Hth). rewrite Hth, Hc in Hs. destruct (as_started s) eqn:Hst; cbn [last] in Hs.
    + apply bind_Some in Hs as (st & Hb & [= <-]). cbn [globals thread_created].
      destruct (astaire_block_shows now msgs (globals g) st s He Hsort Ht Hb) as (Hst' & Hseen & Ht'). by rewrite Hst', Hseen.
    + injection Hs as <-. by rewrite Hst.
Qed.

Lemma astaire_run_represents es s g :
  Forall (good_event astaire_node_data) es -> astaire_represents s g ->
  exists g', library_run es g = Some g' /\ astaire_represents (fold_left astaire_event es s) g'.
Proof.
  intros He. revert s g. induction He as [|e es He Hes IH]; intros s g Hr; [by exists g|].
  destruct (astaire_step_represents s g e He Hr) as (g1 & Hs & Hr1).
  destruct (IH _ _ Hr1) as (g' & Hrun & Hr'). exists g'. cbn [library_run fold_left]. by rewrite Hs.
Qed.

Lemma astaire_loaded_represents : astaire_represents astaire_loaded (init_astaire_handler true).
Proof.
  split_and!; [by apply initialize_handler_ok|done..|]. intros o v. split; [done|].
  intros [Ho|(root & table & Hin & Ho)]; [done|].
  by destruct Hin as [[= <- <-]|[[= <- <-]|[[= <- <-]|[]]]].
Qed.

(** What is stored is what the specification says. *)
Lemma stored_shows globals cs o v : astaire_stored globals cs o v <-> astaire_shows globals cs o v.
Proof.
  unfold astaire_stored, astaire_shows, astaire_cells. rewrite reverse_app, entry_of_app.
  rewrite (tables_lookup (tables_of cs)) by apply tables_of_built. rewrite tables_of_cells, global_cells_entries.
  destruct (entry_of (reverse (cs ≫= connection_cells)) o) as [w|] eqn:Hw; [|rewrite (left_id None (∪)); naive_solver].
  assert (entry_of (global_entries globals) o = None) as ->; [|change (Some w ∪ None) with (Some w); naive_solver].
  destruct (entry_of (global_entries globals) o) as [u|] eqn:Hu; [|done]. exfalso. apply global_entry_elem in Hu.
  rewrite <- tables_of_cells in Hw. apply tables_lookup in Hw as (root & table & Hin & Hv); [|apply tables_of_built].
  by eapply cell_not_global.
Qed.

(** The identifiers that have a value. *)
Definition astaire_identifiers (globals : option (list Z)) (cs : list connection_stat) : list OID :=
  remove_dups (astaire_cells globals cs).*1.

Definition astaire_entries (globals : option (list Z)) (cs : list connection_stat) : list (OID * Z) :=
  (fun o => (o, default 0 (entry_of (reverse (astaire_cells globals cs)) o))) <$> astaire_identifiers globals cs.

Lemma astaire_shows_elem globals cs o v : astaire_shows globals cs o v -> (o, v) ∈ astaire_entries globals cs.
Proof.
  intros Ho. apply list_elem_of_fmap. exists o. rewrite Ho. split; [done|]. apply elem_of_remove_dups.
  apply entry_of_elem in Ho. rewrite elem_of_reverse in Ho. apply list_elem_of_fmap. by exists (o, v).
Qed.

Lemma astaire_shows_under globals cs o v : astaire_shows globals cs o v -> under astaire_oid o = true.
Proof.
  intros [Ho%global_entry_elem|(root & table & Hin & Ho)]%stored_shows.
  - revert o Ho. apply Forall_forall.
    apply (bool_decide_unpack (Forall (fun o => under astaire_oid o = true) global_oids)). vm_compute. exact I.
  - destruct (table_cell cs root table o v Hin Ho) as [_ Hp]. eapply under_trans; [|exact Hp].
    destruct Hin as [[= <- _]|[[= <- _]|[[= <- _]|[]]]]; vm_compute; reflexivity.
Qed.
End simulation.

(** ** Theorems *)

Section astaire_theorems.
Context `{NetSnmpOidsSpec} `{InetPtonSpec}.

(** C19: the handler of Astaire's connections computes what a parser by pattern matching reads.
    From any message of at most 2^28 frames and bucket counts of at most 2^28, however cut short or malformed, it puts in place of the
    three tables those of the connections parsed; and the printed form of a list of
    connections is parsed back to the list. *)
Theorem connections_parsed name status frames tree :
  bounded_message (name :: status :: frames) ->
  handle connections_handler (name :: status :: frames) tree =
    (let trees := tables_of (connections_of frames) in
     Some (replace_subtree (OID_descendant astaire_oid "8.1") (bucket_bandwidth_tree trees)
            (replace_subtree (OID_descendant astaire_oid "7.1") (bucket_tree trees)
              (replace_subtree (OID_descendant astaire_oid "6.1") (connection_tree trees) tree)))) /\
  forall cs, Forall connection_printable cs -> frames = cs ≫= connection_frames -> connections_of frames = cs.
Proof.
  intros Hm. split; [by apply handle_connections_parses|]. intros cs Hcs ->. apply parse_printed; [done..|].
  destruct Hm as [Hl _]. unfold sized_message in Hl. rewrite message_bound_val in Hl. cbn [length] in Hl. unfold_ints. lia.
Qed.

(** C18: the Astaire library implements its specification. After any requests and any messages of
    the statistics subscribed to, of at most 2^28 frames and, in a list of connections, with bucket
    counts of at most 2^28 (any other values, any other status), no event fails, the thread is
    started by the first request, and an identifier has a value in the tree exactly when it is one
    of the cells of CLEARWATER-MIB-COMMON: a counter of the last message of counters, or a
    field of the connections, of their buckets or of the bandwidths that the last message of
    connections lists, with its value, the last one if the message names a cell twice.
    Neither message disturbs the other's values. *)
Theorem astaire_refines_published es :
  Forall (good_event astaire_node_data) es ->
  let s := astaire_events es in
  exists g', library_run es (init_astaire_handler true) = Some g' /\
    thread_created g' = as_started s /\ last_seen_time (globals g') = as_seen s /\
    forall o v, tree_get o (tree (globals g')) = Some v <-> astaire_shows (as_globals s) (as_connections s) o v.
Proof.
  intros He s. destruct (astaire_run_represents es astaire_loaded _ He astaire_loaded_represents)
    as (g' & Hrun & _ & Hc & Hl & Ht). exists g'. split_and!; [done..|]. intros o v. rewrite <- stored_shows. apply Ht.
Qed.

(** C21: what Astaire publishes a manager reads, all of it and nothing else. After any requests
    and any messages of the statistics subscribed to, of at most 2^28 frames and bucket counts
    of at most 2^28, a walk of the whole library in the 15 seconds after the last message returns
    the counters and the cells of the three tables of CLEARWATER-MIB-COMMON as last
    published, each once, in order, as unsigned 32-bit numbers. *)
Theorem astaire_walked es moments g' :
  Forall (good_event astaire_node_data) es -> library_run es (init_astaire_handler true) = Some g' ->
  let s := astaire_events es in
  Forall (fun m => globals m.2 = globals g' /\ m.1 < as_seen s + TIMEOUT_THRESHOLD) moments ->
  (length (astaire_identifiers (as_globals s) (as_connections s)) <= length moments)%nat ->
  let answers := snmpwalk moments astaire_oid astaire_oid in
  StronglySorted walk_lt answers /\
  forall o w, (o, w) ∈ answers <->
    exists v, astaire_shows (as_globals s) (as_connections s) o v /\ w = v mod 2 ^ 32.
Proof.
  intros He Hrun s Hmo Hlen. destruct (astaire_run_represents es astaire_loaded _ He astaire_loaded_represents)
    as (g1 & Hrun1 & _ & _ & Hl & Ht).
  assert (g1 = g') as -> by congruence. change (fold_left astaire_event es astaire_loaded) with s in Hl, Ht.
  assert (In (init_astaire_handler true, astaire_node_data) libraries) as Hlib by (right; right; right; left; reflexivity).
  destruct (libraries_readable _ _ es g' Hlib Hrun) as [_ Hread]. rewrite <- Hl in Hmo.
  destruct (library_walk moments g' astaire_oid (astaire_entries (as_globals s) (as_connections s)) astaire_arcs_ok Hread Hmo)
    as [Hsort Hw]; [|unfold astaire_entries; by rewrite length_fmap|].
  - intros o v Hv%Ht%stored_shows. split; [by apply astaire_shows_elem|by eapply astaire_shows_under].
  - split; [done|]. intros o w. rewrite Hw.
    split; intros (v & Hv & ->); exists v; (split; [by apply stored_shows, Ht|done]) || (split; [by apply Ht, stored_shows|done]).
Qed.
End astaire_theorems.

(** ** Witnesses *)

Import Reference InetReference ListenerSample HandlerSample MessageSample ConnectionSample WalkSample PublishedSample.

(** A message of connections that is cut short, and one of each kind received in turn. *)
Module AstaireSample.
Definition cut_short : list string :=
  ["10.0.0.1"; "7000"; "3"; "4"; "1"; "0"; "1"; "2"; "3"; "10.0.0.2"; "7001"; "5"; "6"; "2"; "0"; "1"; "2"; "3"; "4"].

Definition cut_connections : list connection_stat :=
  [mkConnectionStat "10.0.0.1" 7000 3 4 [mkBucketStat 0 1 2 3]; mkConnectionStat "10.0.0.2" 7001 5 6 []].

Definition counters : list string := ["astaire_global"; "OK"; "1"; "2"; "3"; "4"; "-1"].

Definition events : list library_event :=
  [first_request; ZmqMessage ("astaire_connections" :: "OK" :: (sample_connections ≫= connection_frames)) 6;
   ZmqMessage counters 7; ZmqMessage ["astaire_connections"; "OK"; "10.0.0.2"; "7000"; "8"; "9"; "0"] 8].

Lemma astaire_events_good : Forall (good_event astaire_node_data) events.
Proof.
  unfold events. repeat (apply Forall_cons_2; [apply good_event_checked; vm_compute; reflexivity|]). apply Forall_nil_2.
Qed.

Lemma astaire_events_run : exists g', library_run events (init_astaire_handler true) = Some g'.
Proof.
  destruct (astaire_run_represents events _ _ astaire_events_good astaire_loaded_represents) as (g' & Hrun & _). by exists g'.
Qed.

Definition cells_answered : list Z := [1; 2; 3; 4; UINT_MAX; 8; 9].
End AstaireSample.
Import AstaireSample.

Lemma connections_parsed_witness :
  connections_of cut_short = cut_connections /\
  let trees := tables_of cut_connections in
  handle connections_handler ("astaire_connections" :: "OK" :: cut_short) stat_tree =
    Some (replace_subtree (OID_descendant astaire_oid "8.1") (bucket_bandwidth_tree trees)
           (replace_subtree (OID_descendant astaire_oid "7.1") (bucket_tree trees)
             (replace_subtree (OID_descendant astaire_oid "6.1") (connection_tree trees) stat_tree))).
Proof.
  assert (connections_of cut_short = cut_connections) as Hc by (vm_compute; reflexivity). split; [exact Hc|].
  destruct (connections_parsed "astaire_connections" "OK" cut_short stat_tree) as [Hh _];
    [split; [vm_compute; split; discriminate|vm_compute; reflexivity]|]. rewrite Hc in Hh. exact Hh.
Defined.

Lemma astaire_refines_published_witness :
  exists g', library_run AstaireSample.events (init_astaire_handler true) = Some g' /\
    thread_created g' = true /\ last_seen_time (globals g') = 8 /\
    tree_get (OID_descendant astaire_oid "5.1.2.1") (tree (globals g')) = Some (-1) /\
    tree_get (OID_of_string "1.2.826.0.1.1578918.9.9.6.1.4.1.4.10.0.0.2.7000") (tree (globals g')) = Some 8.
Proof.
  destruct (astaire_refines_published AstaireSample.events) as (g' & Hr & Hc & Hl & Ht); [exact AstaireSample.astaire_events_good|].
  exists g'. split; [exact Hr|]. split; [rewrite Hc; vm_compute; reflexivity|]. split; [rewrite Hl; vm_compute; reflexivity|].
  split; apply Ht; vm_compute; reflexivity.
Defined.

Lemma astaire_walked_witness :
  exists g', library_run AstaireSample.events (init_astaire_handler true) = Some g' /\
    let s := astaire_events AstaireSample.events in
    let walked := snmpwalk (replicate 10 (20, g')) astaire_oid astaire_oid in
    walked.*2 = cells_answered /\ StronglySorted walk_lt walked /\
    forall o w, (o, w) ∈ walked <-> exists v, astaire_shows (as_globals s) (as_connections s) o v /\ w = v mod 2 ^ 32.
Proof.
  destruct AstaireSample.astaire_events_run as [g' Hr]. exists g'. split; [exact Hr|]. split.
  - assert ((fun g => (snmpwalk (replicate 10 (20, g)) astaire_oid astaire_oid).*2) <$>
        library_run AstaireSample.events (init_astaire_handler true) = Some cells_answered) as Hw by (vm_compute; reflexivity).
    rewrite Hr in Hw. cbn [fmap option_fmap option_map] in Hw. injection Hw as Hw. exact Hw.
  - apply (astaire_walked AstaireSample.events (replicate 10 (20, g')) g'); [exact AstaireSample.astaire_events_good|exact Hr| |].
    + repeat (apply Forall_cons_2; [split; [reflexivity|vm_compute; reflexivity]|]). apply Forall_nil_2.
    + rewrite length_replicate. apply Nat.leb_le. vm_compute. reflexivity.
Defined.
