(* ===== verification/LibraryThreads.v ===== *)
(** The two threads of a statistics library: the statistics thread, which takes messages from
    the socket and changes the tree ([src/zmq_listener.cpp],
    [src/zmq_message_handler.cpp], [src/astairedata.cpp]), and Net-SNMP's, which answers
    requests from it ([clearwater_handler] of [src/custom_handler.cpp]).

    The tree's operations are atomic (TreeLock.v), and [last_seen_time] is an atomic
    variable, so a step is one of these. A handler is the list of the tree operations it
    makes; a request reads the time once and then the tree once for each variable. The
    theorems say what a request can see of the messages while they are being handled. *)

From S2P Require Export TreeLock PublishedSpec.

(** ** The writer *)

Section writer.
Context `{NetSnmpOids} `{InetPton}.

(** The operations each handler makes on the tree, in order; [None] for a read out of
    range, which comes before the first operation. *)
Definition ip_count_ops (root : OID) (msgs : list string) : option (list tree_op) :=
  match msgs with
  | _ :: _ :: frames => Some [Op_replace_subtree root (ip_count_loop root frames [])]
  | _ => None
  end.

Definition bare_ops (root : OID) (msgs : list string) : option (list tree_op) :=
  if 3 <=? msgs_size msgs then
    v ← frame_int msgs 2;
    Some [Op_set root v]
  else Some [].

Definition single_ops (index : string) (root : OID) (msgs : list string) : option (list tree_op) :=
  if 3 <=? msgs_size msgs then
    v ← frame_int msgs 2;
    Some [Op_replace_subtree root (assign (append_string root index) v [])]
  else Some [Op_remove_subtree root].

Definition accumulated_ops (root : OID) (msgs : list string) : option (list tree_op) :=
  if 7 <=? msgs_size msgs then
    average ← frame_int msgs 2;
    variance ← frame_int msgs 3;
    hwm ← frame_int msgs 5;
    lwm ← frame_int msgs 4;
    count ← frame_int msgs 6;
    Some [Op_replace_subtree root
            (insert_range [(append_string root "1.2", average); (append_string root "1.3", variance);
                           (append_string root "1.4", hwm); (append_string root "1.5", lwm);
                           (append_string root "1.6", count)] [])]
  else Some [Op_remove_subtree root].

Definition astaire_global_ops (root : OID) (msgs : list string) : option (list tree_op) :=
  let buckets_needing_resync_oid := OID_descendant root "1.0" in
  let buckets_resynchronized_oid := OID_descendant root "2.0" in
  let entries_resynchronized_oid := OID_descendant root "3.0" in
  let data_resynchronized_oid := OID_descendant root "4.0" in
  let bandwidth_oid := OID_descendant root "5.1.2.1" in
  if 7 <=? msgs_size msgs then
    v2 ← frame_int msgs 2;
    v3 ← frame_int msgs 3;
    v4 ← frame_int msgs 4;
    v5 ← frame_int msgs 5;
    v6 ← frame_int msgs 6;
    Some [Op_set buckets_needing_resync_oid v2; Op_set buckets_resynchronized_oid v3;
          Op_set entries_resynchronized_oid v4; Op_set data_resynchronized_oid v5; Op_set bandwidth_oid v6]
  else
    Some [Op_remove buckets_needing_resync_oid; Op_remove buckets_resynchronized_oid;
          Op_remove entries_resynchronized_oid; Op_remove data_resynchronized_oid; Op_remove bandwidth_oid].

Definition astaire_connections_ops (root : OID) (msgs : list string) : option (list tree_op) :=
  trees ← connection_loop (length msgs) root msgs 2 (mkAstaireTrees [] [] []);
  Some [Op_replace_subtree (OID_descendant root "6.1") (connection_tree trees);
        Op_replace_subtree (OID_descendant root "7.1") (bucket_tree trees);
        Op_replace_subtree (OID_descendant root "8.1") (bucket_bandwidth_tree trees)].

Definition handler_ops (h : ZMQMessageHandler) (msgs : list string) : option (list tree_op) :=
  match handler_type h with
  | IPCountStatHandler => ip_count_ops (_root_oid h) msgs
  | BareStatHandler => bare_ops (_root_oid h) msgs
  | SingleNumberStatHandler => single_ops "0" (_root_oid h) msgs
  | SingleNumberWithScopeStatHandler => single_ops "1.2" (_root_oid h) msgs
  | AccumulatedWithCountStatHandler => accumulated_ops (_root_oid h) msgs
  | AstaireGlobalStatHandler => astaire_global_ops (_root_oid h) msgs
  | AstaireConnectionStatHandler => astaire_connections_ops (_root_oid h) msgs
  end.

(** The statements of the loop of [handle_requests_forever] after a block is read. *)
Inductive writer_instr :=
| W_store
| W_op (op : tree_op).

Definition block_code (nd : NodeData) (msgs : list string) : option (list writer_instr) :=
  if ok_message msgs then
    message_type ← msgs !! 0%nat;
    handler ← stat_to_handler nd !! message_type;
    ops ← handler_ops handler msgs;
    Some (W_store :: (W_op <$> ops))
  else Some [W_store].

(** An instruction run when the clock shows [now]. *)
Definition run_writer (g : stats_state) (e : writer_instr * Z) : stats_state :=
  match e with
  | (W_store, now) => mkStatsState (tree g) now
  | (W_op op, _) => mkStatsState (apply_op op (tree g)).1 (last_seen_time g)
  end.

(** ** Requests *)

(** Where a request is: before it reads the time; in the loop, with the variables left and
    the answers so far; at its end. *)
Inductive reader_pc :=
| R_Load
| R_Loop (todo : list request_info) (answers : list (option var_binding))
| R_Done (answers : list (option var_binding)).

Record reader := mkReader {
  r_mode : Z;
  r_requests : list request_info;
  r_pc : reader_pc;
}.

Definition reader_step (g : stats_state) (now : Z) (r : reader) : option reader :=
  let at_pc pc := Some (mkReader (r_mode r) (r_requests r) pc) in
  match r_pc r with
  | R_Load =>
    if now - last_seen_time g <? TIMEOUT_THRESHOLD then at_pc (R_Loop (r_requests r) [])
    else at_pc (R_Done ((fun _ => None) <$> r_requests r))
  | R_Loop [] answers => at_pc (R_Done answers)
  | R_Loop (request :: todo) answers =>
    at_pc (R_Loop todo (answers ++ [answer_request (r_mode r) (tree g) request]))
  | R_Done _ => None
  end.

(** ** The library *)

(** The globals, the messages waiting at the socket, what is left of the handling of the one
    taken, the requests, and the instructions the statistics thread has run. *)
Record library_threads := mkLibraryThreads {
  lt_globals : stats_state;
  lt_inbox : list (list string);
  lt_code : list writer_instr;
  lt_readers : list reader;
  lt_log : list (writer_instr * Z);
}.

Inductive library_action :=
| MessageArrives (msgs : list string)
| WriterRuns (now : Z)
| RequestBegins (mode : Z) (requests : list request_info)
| ReaderRuns (k : nat) (now : Z).

Inductive library_result :=
| LibraryGoes (s : library_threads)
| LibraryWaits
| LibraryThrows.

Definition library_thread_step (nd : NodeData) (a : library_action) (s : library_threads) : library_result :=
  let 'mkLibraryThreads g inbox code readers log := s in
  match a with
  | MessageArrives msgs => LibraryGoes (mkLibraryThreads g (inbox ++ [msgs]) code readers log)
  | WriterRuns now =>
    match code, inbox with
    | i :: code', _ => LibraryGoes (mkLibraryThreads (run_writer g (i, now)) inbox code' readers (log ++ [(i, now)]))
    | [], msgs :: inbox' =>
      match block_code nd msgs with
      | Some code' => LibraryGoes (mkLibraryThreads g inbox' code' readers log)
      | None => LibraryThrows
      end
    | [], [] => LibraryWaits
    end
  | RequestBegins mode requests =>
    LibraryGoes (mkLibraryThreads g inbox code (readers ++ [mkReader mode requests R_Load]) log)
  | ReaderRuns k now =>
    match r ← readers !! k; reader_step g now r with
    | Some r' => LibraryGoes (mkLibraryThreads g inbox code (<[k := r']> readers) log)
    | None => LibraryWaits
    end
  end.

(** The threads run as the actions say; one that cannot step is passed over. *)
Fixpoint library_threads_run (nd : NodeData) (actions : list library_action) (s : library_threads) : library_result :=
  match actions with
  | [] => LibraryGoes s
  | a :: actions' =>
    match library_thread_step nd a s with
    | LibraryGoes s' => library_threads_run nd actions' s'
    | LibraryWaits => library_threads_run nd actions' s
    | LibraryThrows => LibraryThrows
    end
  end.

(** The library with its statistics thread at the socket. *)
Definition library_threads_start (g : stats_state) : library_threads := mkLibraryThreads g [] [] [] [].
End writer.

(** ** The writer makes the handlers' changes *)

Section writer_laws.
Context `{NetSnmpOids} `{InetPton}.

Definition run_ops (ops : list tree_op) (t : OIDMap) : OIDMap := fold_left (fun t op => (apply_op op t).1) ops t.

Lemma handle_run_ops h msgs t : handle h msgs t = (fun ops => run_ops ops t) <$> handler_ops h msgs.
Proof.
  destruct h as [c root]. unfold handle, handler_ops. cbn [handler_type _root_oid]. destruct c.
  - by destruct msgs as [|? [|? ?]].
  - unfold handle_bare, bare_ops. destruct (3 <=? _); [|done]. by destruct (frame_int msgs 2).
  - unfold handle_single, single_ops. destruct (3 <=? _); [|done]. by destruct (frame_int msgs 2).
  - unfold handle_single_scope, single_ops. destruct (3 <=? _); [|done]. by destruct (frame_int msgs 2).
  - unfold handle_accumulated, accumulated_ops. destruct (7 <=? _); [|done].
    by destruct (frame_int msgs 2), (frame_int msgs 3), (frame_int msgs 5), (frame_int msgs 4), (frame_int msgs 6).
  - unfold handle_astaire_global, astaire_global_ops. destruct (7 <=? _); [|done].
    by destruct (frame_int msgs 2), (frame_int msgs 3), (frame_int msgs 4), (frame_int msgs 5), (frame_int msgs 6).
  - unfold handle_astaire_connections, astaire_connections_ops. by destruct (connection_loop _ _ _ _ _).
Qed.

Lemma run_writer_ops ops now g :
  fold_left run_writer ((fun i => (i, now)) <$> (W_op <$> ops)) g = mkStatsState (run_ops ops (tree g)) (last_seen_time g).
Proof. revert g. induction ops as [|op ops IH]; intros g; [by destruct g|]. cbn. by rewrite IH. Qed.

(** Run without interruption, the instructions of a message are [handle_block]. *)
Lemma block_code_run nd now msgs st :
  handle_block nd now msgs st =
    (fun code => fold_left run_writer ((fun i => (i, now)) <$> code) st) <$> block_code nd msgs.
Proof.
  unfold handle_block, block_code. fold (ok_message msgs). destruct (ok_message msgs); [|done].
  destruct (msgs !! 0%nat) as [stat|]; [|done]. cbn. destruct (stat_to_handler nd !! stat) as [h|]; [|done]. cbn.
  rewrite handle_run_ops. destruct (handler_ops h msgs) as [ops|]; [|done]. cbn. by rewrite run_writer_ops.
Qed.

(** *** What the log records *)

(** The globals when the statistics thread has run [n] of the instructions [log]. *)
Definition history (log : list (writer_instr * Z)) (n : nat) (g : stats_state) : stats_state :=
  fold_left run_writer (take n log) g.

Lemma history_app log log' n g : (n <= length log)%nat -> history (log ++ log') n g = history log n g.
Proof. intros Hn. unfold history. by rewrite take_app_le. Qed.

Lemma history_all log g : history log (length log) g = fold_left run_writer log g.
Proof. unfold history. by rewrite firstn_all. Qed.

Lemma library_step_log nd a s s' :
  library_thread_step nd a s = LibraryGoes s' ->
  exists new, lt_log s' = lt_log s ++ new /\ lt_globals s' = fold_left run_writer new (lt_globals s).
Proof.
  destruct s as [g inbox code readers log]. destruct a as [msgs|now|mode requests|k now]; cbn.
  - intros [= <-]. exists []. by rewrite app_nil_r.
  - destruct code as [|i code]; [destruct inbox as [|msgs inbox]; [done|]; destruct (block_code nd msgs); [|done]|];
      intros [= <-]; [exists []|exists [(i, now)]]; by rewrite ?app_nil_r.
  - intros [= <-]. exists []. by rewrite app_nil_r.
  - destruct (_ ≫= _); [|done]. intros [= <-]. exists []. by rewrite app_nil_r.
Qed.

(** A turn of a request, when it can make one. *)
Definition reader_turn (r : reader) (x : stats_state * Z) : reader := default r (reader_step x.1 x.2 r).

Lemma library_step_reader nd a s s' k r :
  library_thread_step nd a s = LibraryGoes s' -> lt_readers s !! k = Some r ->
  lt_readers s' !! k =
    Some (match a with
          | ReaderRuns j now => if Nat.eqb j k then reader_turn r (lt_globals s, now) else r
          | _ => r
          end).
Proof.
  destruct s as [g inbox code readers log]. destruct a as [msgs|now|mode requests|j now]; cbn.
  - by intros [= <-].
  - destruct code as [|i code]; [destruct inbox as [|msgs inbox]; [done|]; destruct (block_code nd msgs); [|done]|];
      by intros [= <-].
  - intros [= <-] Hk. cbn. by apply lookup_app_l_Some.
  - intros Hs Hk. destruct (Nat.eqb_spec j k) as [->|Hne].
    + rewrite Hk in Hs. cbn in Hs. unfold reader_turn. cbn. destruct (reader_step g now r) as [r'|]; [|done].
      injection Hs as <-. cbn. by rewrite list_lookup_insert_eq by by eapply lookup_lt_Some.
    + destruct (_ ≫= _) as [r'|]; [|done]. injection Hs as <-. cbn. by rewrite list_lookup_insert_ne.
Qed.

Lemma library_wait_reader nd j now s k r :
  library_thread_step nd (ReaderRuns j now) s = LibraryWaits -> lt_readers s !! k = Some r ->
  (if Nat.eqb j k then reader_turn r (lt_globals s, now) else r) = r.
Proof.
  destruct s as [g inbox code readers log]. cbn. intros Hs Hk. destruct (Nat.eqb_spec j k) as [->|Hne]; [|done].
  rewrite Hk in Hs. cbn in Hs. unfold reader_turn. cbn. by destruct (reader_step g now r).
Qed.
End writer_laws.

(** ** Requests read the history *)

(** What a request sees at each of its turns: the globals and the clock. *)
Fixpoint reads_of `{NetSnmpOids} `{InetPton} (nd : NodeData) (k : nat) (actions : list library_action)
    (s : library_threads) : list (stats_state * Z) :=
  match actions with
  | [] => []
  | a :: actions' =>
    let later :=
      match library_thread_step nd a s with
      | LibraryGoes s' => reads_of nd k actions' s'
      | LibraryWaits => reads_of nd k actions' s
      | LibraryThrows => []
      end in
    match a with
    | ReaderRuns j now => if Nat.eqb j k then (lt_globals s, now) :: later else later
    | _ => later
    end
  end.

Section readers.
Context `{NetSnmpOids} `{InetPton}.

Lemma library_run_log nd actions s s' :
  library_threads_run nd actions s = LibraryGoes s' ->
  exists new, lt_log s' = lt_log s ++ new /\ lt_globals s' = fold_left run_writer new (lt_globals s).
Proof.
  revert s. induction actions as [|a actions IH]; intros s; cbn [library_threads_run].
  { intros [= <-]. exists []. by rewrite app_nil_r. }
  destruct (library_thread_step nd a s) as [s1| |] eqn:Hs; [|by apply IH|done]. intros Hrun.
  destruct (library_step_log _ _ _ _ Hs) as (new1 & Hl1 & Hg1). destruct (IH s1 Hrun) as (new & Hl & Hg).
  exists (new1 ++ new). by rewrite Hl, Hl1, Hg, Hg1, app_assoc, fold_left_app.
Qed.

Lemma sorted_fmap_mono (f : nat -> nat) (l : list nat) :
  (forall n m, n <= m -> f n <= f m)%nat -> StronglySorted le l -> StronglySorted le (f <$> l).
Proof.
  intros Hf. induction 1 as [|n l Hl IH Hn]; cbn; [constructor|]. constructor; [done|].
  rewrite Forall_fmap. eapply Forall_impl; [done|]. apply Hf.
Qed.

(** The [reads] were made at these points of what the statistics thread did, [log], from [g]. *)
Definition read_at (log : list (writer_instr * Z)) (g : stats_state) (reads : list (stats_state * Z)) (points : list nat) : Prop :=
  Forall2 (fun x n => x.1 = history log n g) reads points /\
  StronglySorted le points /\ Forall (fun n => n <= length log)%nat points.

Lemma read_at_cons log g now reads points : read_at log g reads points -> read_at log g ((g, now) :: reads) (O :: points).
Proof.
  intros (Hr & Hs & Hb). split_and!; constructor; try done; [|lia]. apply Forall_true. intros n. lia.
Qed.

Lemma read_at_shift log1 log2 g reads points :
  read_at log2 (fold_left run_writer log1 g) reads points ->
  read_at (log1 ++ log2) g reads ((fun n => length log1 + n)%nat <$> points).
Proof.
  intros (Hr & Hs & Hb). split_and!.
  - apply Forall2_fmap_r. eapply Forall2_impl; [exact Hr|]. cbn. intros x n ->. unfold history.
    rewrite take_app_ge, fold_left_app by lia. do 2 f_equal. lia.
  - apply sorted_fmap_mono; [lia|done].
  - rewrite Forall_fmap. eapply Forall_impl; [exact Hb|]. cbn. intros n Hn. rewrite length_app. lia.
Qed.

Lemma reads_read_at nd k actions s s' :
  library_threads_run nd actions s = LibraryGoes s' ->
  exists new points, lt_log s' = lt_log s ++ new /\ lt_globals s' = fold_left run_writer new (lt_globals s) /\
    read_at new (lt_globals s) (reads_of nd k actions s) points.
Proof.
  revert s. induction actions as [|a actions IH]; intros s; cbn [library_threads_run reads_of].
  { intros [= <-]. exists [], []. rewrite app_nil_r. split_and!; [done|done|]. split_and!; constructor. }
  assert (forall later new points, read_at new (lt_globals s) later points ->
    exists points', read_at new (lt_globals s)
      match a with ReaderRuns j now => if Nat.eqb j k then (lt_globals s, now) :: later else later | _ => later end points')
    as Hadd.
  { intros later new points Hr. destruct a as [| | |j now]; [by exists points..|].
    destruct (Nat.eqb j k); [exists (O :: points); by apply read_at_cons|by exists points]. }
  destruct (library_thread_step nd a s) as [s1| |] eqn:Hs; [| |done]; intros Hrun.
  - destruct (library_step_log _ _ _ _ Hs) as (new1 & Hl1 & Hg1). destruct (IH s1 Hrun) as (new & points & Hl & Hg & Hr).
    rewrite Hg1 in Hr. apply read_at_shift in Hr. destruct (Hadd _ _ _ Hr) as [points' Hr'].
    exists (new1 ++ new), points'. by rewrite Hl, Hl1, Hg, Hg1, app_assoc, fold_left_app.
  - destruct (IH s Hrun) as (new & points & Hl & Hg & Hr). destruct (Hadd _ _ _ Hr) as [points' Hr']. by exists new, points'.
Qed.

(** A request is where its reads have brought it. *)
Lemma reader_reads nd k actions s s' r :
  library_threads_run nd actions s = LibraryGoes s' -> lt_readers s !! k = Some r ->
  lt_readers s' !! k = Some (fold_left reader_turn (reads_of nd k actions s) r).
Proof.
  revert s r. induction actions as [|a actions IH]; intros s r; cbn [library_threads_run reads_of]; [by intros [= <-]|].
  destruct (library_thread_step nd a s) as [s1| |] eqn:Hs; [| |done]; intros Hrun Hk.
  - rewrite (IH s1 _ Hrun (library_step_reader _ _ _ _ _ _ Hs Hk)). f_equal.
    destruct a as [| | |j now]; [done..|]. by destruct (Nat.eqb j k).
  - rewrite (IH s _ Hrun Hk). destruct a as [| | |j now]; [done..|].
    pose proof (library_wait_reader _ _ _ _ _ _ Hs Hk) as Hw. destruct (Nat.eqb j k); [|done]. cbn [fold_left]. by rewrite Hw.
Qed.

(** The answers to requests from what was read, one read for each. *)
Definition answers_from (mode : Z) (reads : list (stats_state * Z)) (requests : list request_info) : list (option var_binding) :=
  zip_with (fun x => answer_request mode (tree x.1)) reads requests.

Lemma done_turns mode requests answers reads :
  fold_left reader_turn reads (mkReader mode requests (R_Done answers)) = mkReader mode requests (R_Done answers).
Proof. by induction reads. Qed.

Lemma loop_turns mode requests todo answers reads answers' :
  fold_left reader_turn reads (mkReader mode requests (R_Loop todo answers)) = mkReader mode requests (R_Done answers') ->
  (length todo <= length reads)%nat /\ answers' = answers ++ answers_from mode reads todo.
Proof.
  revert todo answers. induction reads as [|[g now] reads IH]; intros todo answers; [done|]. cbn [fold_left].
  destruct todo as [|request todo].
  - change (reader_turn _ _) with (mkReader mode requests (R_Done answers)). rewrite done_turns. intros [= <-].
    split; [cbn; lia|]. cbn. by rewrite app_nil_r.
  - change (reader_turn _ _) with
      (mkReader mode requests (R_Loop todo (answers ++ [answer_request mode (tree g) request]))).
    intros [Hl ->]%IH. split; [cbn; lia|]. cbn. by rewrite <- app_assoc.
Qed.

(** A request over its first read and the others. *)
Lemma request_turns mode requests reads answers :
  fold_left reader_turn reads (mkReader mode requests R_Load) = mkReader mode requests (R_Done answers) ->
  exists g now later, reads = (g, now) :: later /\
    if now - last_seen_time g <? TIMEOUT_THRESHOLD
    then (length requests <= length later)%nat /\ answers = answers_from mode later requests
    else answers = (fun _ => None) <$> requests.
Proof.
  destruct reads as [|[g now] later]; [done|]. cbn [fold_left]. intros Hf. exists g, now, later. split; [done|].
  assert (reader_turn (mkReader mode requests R_Load) (g, now) =
    mkReader mode requests (if now - last_seen_time g <? TIMEOUT_THRESHOLD then R_Loop requests []
                            else R_Done ((fun _ => None) <$> requests))) as Ht
    by (unfold reader_turn, reader_step; cbn; by destruct (_ <? _)).
  rewrite Ht in Hf. destruct (now - last_seen_time g <? TIMEOUT_THRESHOLD).
  - by apply loop_turns in Hf.
  - rewrite done_turns in Hf. by injection Hf as <-.
Qed.

(** The loop of the handler, with the tree of the [i]th read for variable [i]. *)
Lemma answers_from_imap mode d reads requests :
  (length requests <= length reads)%nat ->
  imap (fun i => answer_request mode (tree (nth i reads d).1)) requests = answers_from mode reads requests.
Proof.
  intros Hl. apply list_eq. intros i. unfold answers_from. rewrite list_lookup_imap, lookup_zip_with.
  destruct (requests !! i) as [rq|] eqn:Hi; cbn; [|by destruct (reads !! i)].
  destruct (lookup_lt_is_Some_2 reads i) as [x Hx]; [apply lookup_lt_Some in Hi; lia|].
  rewrite Hx. cbn. by rewrite (nth_lookup_Some _ _ _ _ Hx).
Qed.
End readers.

(** ** Whole messages *)

Section whole.
Context `{NetSnmpOids} `{InetPton}.

(** The messages that have arrived at the socket. *)
Definition arrived (actions : list library_action) : list (list string) :=
  omap (fun a => match a with MessageArrives msgs => Some msgs | _ => None end) actions.

(** How many of the messages that arrived have been handled to their end. *)
Definition handled (actions : list library_action) (s : library_threads) : nat :=
  length (arrived actions) - length (lt_inbox s) - match lt_code s with [] => 0 | _ :: _ => 1 end.

(** The tree after these messages, on the tree [t]. *)
Definition tree_after (nd : NodeData) (msgss : list (list string)) (t : OIDMap) : option OIDMap :=
  tree <$> handle_blocks nd (fun _ => 0) msgss (mkStatsState t 0).

(** What instructions do to the tree. *)
Definition tree_code (code : list writer_instr) (t : OIDMap) : OIDMap :=
  fold_left (fun t i => match i with W_store => t | W_op op => (apply_op op t).1 end) code t.

Lemma tree_code_app c1 c2 t : tree_code (c1 ++ c2) t = tree_code c2 (tree_code c1 t).
Proof. apply fold_left_app. Qed.

Lemma tree_run_writer log g : tree (fold_left run_writer log g) = tree_code log.*1 (tree g).
Proof. revert g. induction log as [|[[|op] now] log IH]; intros g; [done|..]; cbn; by rewrite IH. Qed.

Definition codes_of (nd : NodeData) : list (list string) -> list (list writer_instr) -> Prop :=
  Forall2 (fun msgs code => block_code nd msgs = Some code).

Lemma tree_after_codes nd msgss codes t :
  codes_of nd msgss codes -> tree_after nd msgss t = Some (tree_code (concat codes) t).
Proof.
  intros Hc. unfold tree_after.
  assert (forall st, tree <$> handle_blocks nd (fun _ => 0) msgss st = Some (tree_code (concat codes) (tree st))) as Hall;
    [|by rewrite Hall].
  induction Hc as [|msgs code msgss codes Hm Hc IH]; intros st; [done|]. cbn [handle_blocks concat].
  rewrite block_code_run, Hm. cbn [fmap option_fmap option_map mbind option_bind]. rewrite IH.
  rewrite tree_run_writer, tree_code_app. do 3 f_equal. by rewrite <- list_fmap_compose, list_fmap_id.
Qed.

(** The statistics thread has handled the messages [taken], whose instructions are [codes],
    and has run [pre] of the one it is at. *)
Definition writer_at (nd : NodeData) (msgss : list (list string)) (s : library_threads)
    (taken : list (list string)) (codes : list (list writer_instr)) (pre : list writer_instr) : Prop :=
  codes_of nd taken codes /\ (lt_log s).*1 = concat codes ++ pre /\
  match lt_code s with
  | [] => pre = [] /\ msgss = taken ++ lt_inbox s
  | _ :: _ => exists msgs, block_code nd msgs = Some (pre ++ lt_code s) /\ msgss = taken ++ msgs :: lt_inbox s
  end.

Lemma writer_at_step nd msgss s a s' taken codes pre :
  writer_at nd msgss s taken codes pre -> library_thread_step nd a s = LibraryGoes s' ->
  exists taken' codes' pre', writer_at nd (msgss ++ arrived [a]) s' taken' codes' pre' /\ codes `prefix_of` codes'.
Proof.
  destruct s as [g inbox code readers log]. intros (Hc & Hlog & Hcode). cbn in Hlog, Hcode.
  destruct a as [msgs|now|mode requests|k now]; cbn [arrived omap list_omap app library_thread_step]; rewrite ?app_nil_r.
  - intros [= <-]. exists taken, codes, pre. split; [|done]. split_and!; [done..|]. cbn.
    destruct code as [|i code]; [destruct Hcode as [-> ->]; by rewrite <- app_assoc|].
    destruct Hcode as (m & Hm & ->). exists m. by rewrite <- app_assoc.
  - destruct code as [|i code].
    + destruct Hcode as [-> ->]. destruct inbox as [|m inbox]; [done|].
      destruct (block_code nd m) as [code|] eqn:Hm; [|done]. intros [= <-]. exists taken, codes, [].
      split; [|done]. split_and!; [done..|]. cbn. destruct code as [|i code]; [|by exists m].
      unfold block_code in Hm. destruct (ok_message m); [|done].
      by repeat (apply bind_Some in Hm as (? & _ & Hm)).
    + destruct Hcode as (m & Hm & ->). intros [= <-]. unfold writer_at. cbn. rewrite fmap_app, Hlog. cbn.
      destruct code as [|j code].
      * exists (taken ++ [m]), (codes ++ [pre ++ [i]]), []. split; [|by eexists]. split_and!.
        -- apply Forall2_app; [done|]. by repeat constructor.
        -- rewrite concat_app, app_nil_r, <- app_assoc. cbn. by rewrite app_nil_r.
        -- done.
        -- by rewrite <- app_assoc.
      * exists taken, codes, (pre ++ [i]). split; [|done]. split_and!; [done|by rewrite <- app_assoc|].
        exists m. by rewrite <- app_assoc.
  - intros [= <-]. by exists taken, codes, pre.
  - destruct (_ ≫= _); [|done]. intros [= <-]. by exists taken, codes, pre.
Qed.

Lemma arrived_cons a actions : arrived (a :: actions) = arrived [a] ++ arrived actions.
Proof. by destruct a. Qed.

(** A step of nobody is not an arrival. *)
Lemma waits_not_arrival nd a s : library_thread_step nd a s = LibraryWaits -> arrived [a] = [].
Proof. destruct s, a; done. Qed.

Lemma writer_at_run nd actions msgss s s' taken codes pre :
  writer_at nd msgss s taken codes pre -> library_threads_run nd actions s = LibraryGoes s' ->
  exists taken' codes' pre',
    writer_at nd (msgss ++ arrived actions) s' taken' codes' pre' /\ codes `prefix_of` codes'.
Proof.
  revert msgss s taken codes pre. induction actions as [|a actions IH]; intros msgss s taken codes pre Hw; cbn [library_threads_run].
  { intros [= <-]. exists taken, codes, pre. by rewrite app_nil_r. }
  rewrite arrived_cons, app_assoc. destruct (library_thread_step nd a s) as [s1| |] eqn:Hs; [| |done]; intros Hrun.
  - destruct (writer_at_step _ _ _ _ _ _ _ _ Hw Hs) as (t1 & c1 & p1 & Hw1 & Hp1).
    destruct (IH _ _ _ _ _ Hw1 Hrun) as (t2 & c2 & p2 & Hw2 & Hp2). exists t2, c2, p2. split; [done|]. by etransitivity.
  - rewrite (waits_not_arrival _ _ _ Hs), app_nil_r. by eapply IH.
Qed.

Lemma writer_at_handled nd actions s taken codes pre :
  writer_at nd (arrived actions) s taken codes pre -> handled actions s = length codes.
Proof.
  intros (Hc & _ & Hcode). unfold handled. rewrite <- (Forall2_length _ _ _ Hc).
  destruct (lt_code s); [destruct Hcode as [_ ->]|destruct Hcode as (m & _ & ->)]; rewrite length_app; cbn; lia.
Qed.

(** How many of [codes] are whole in the first [n] instructions. *)
Fixpoint whole (codes : list (list writer_instr)) (n : nat) : nat :=
  match codes with
  | [] => 0
  | code :: codes' => if (length code <=? n)%nat then S (whole codes' (n - length code)) else 0
  end.

Lemma whole_le codes n : (whole codes n <= length codes)%nat.
Proof. revert n. induction codes as [|c codes IH]; intros n; cbn; [done|]. destruct (_ <=? _)%nat; [|lia]. specialize (IH (n - length c)%nat). lia. Qed.

Lemma whole_mono codes n m : (n <= m)%nat -> (whole codes n <= whole codes m)%nat.
Proof.
  revert n m. induction codes as [|c codes IH]; intros n m Hn; cbn; [done|].
  destruct (Nat.leb_spec (length c) n), (Nat.leb_spec (length c) m); try lia.
  specialize (IH (n - length c)%nat (m - length c)%nat). lia.
Qed.

Lemma whole_all codes1 codes n :
  codes1 `prefix_of` codes -> (length (concat codes1) <= n)%nat -> (length codes1 <= whole codes n)%nat.
Proof.
  intros [codes2 ->]. revert n. induction codes1 as [|c codes1 IH]; intros n; cbn; [lia|].
  rewrite length_app. intros Hn. rewrite (proj2 (Nat.leb_le _ _)) by lia. specialize (IH (n - length c)%nat). lia.
Qed.

(** Instructions that change the tree with their last one only. *)
Definition changes_last (code : list writer_instr) : Prop :=
  forall n t, (n < length code)%nat -> tree_code (take n code) t = t.

Lemma whole_tree codes pre n t :
  Forall changes_last codes -> (forall n t, tree_code (take n pre) t = t) ->
  tree_code (take n (concat codes ++ pre)) t = tree_code (concat (take (whole codes n) codes)) t.
Proof.
  intros Hc Hpre. revert n t. induction Hc as [|c codes Hch Hc IH]; intros n t; cbn; [by rewrite Hpre; destruct n|].
  rewrite <- app_assoc. destruct (Nat.leb_spec (length c) n).
  - rewrite take_app_ge by done. cbn. rewrite !tree_code_app. apply IH.
  - rewrite take_app_le by lia. by rewrite Hch.
Qed.
End whole.

Section values.
Context `{NetSnmpOids} `{InetPton}.

(** The handlers of single values and averages make one operation at most. *)
Lemma value_code nd msgs code :
  nd ∈ value_node_data -> block_code nd msgs = Some code ->
  code = [W_store] \/ exists op, code = [W_store; W_op op].
Proof.
  intros Hnd. pose proof value_node_data_apart as Hap. rewrite Forall_forall in Hap. destruct (Hap nd Hnd) as [Hc _].
  unfold block_code. destruct (ok_message msgs); [|intros [= <-]; by left].
  intros (stat & _ & Hb)%bind_Some. apply bind_Some in Hb as (h & Hh & Hb). apply bind_Some in Hb as (ops & Ho & [= <-]).
  specialize (Hc stat h Hh). cbn in Hc. unfold handler_ops in Ho. destruct (handler_type h); try done;
    [unfold bare_ops in Ho|unfold single_ops in Ho..|unfold accumulated_ops in Ho]; destruct (_ <=? _);
    repeat (apply bind_Some in Ho as (? & _ & Ho)); injection Ho as <-; (by left) || (right; by eexists).
Qed.

Lemma value_code_last nd msgs code :
  nd ∈ value_node_data -> block_code nd msgs = Some code -> changes_last code.
Proof.
  intros Hnd Hb n t Hn. destruct (value_code nd msgs code Hnd Hb) as [->|[op ->]]; cbn in Hn.
  - by destruct n; [|lia].
  - by destruct n as [|[|]]; [..|lia].
Qed.

(** In the middle of a message of values the tree is still the one before it. *)
Lemma value_pre nd msgs pre i code n t :
  nd ∈ value_node_data -> block_code nd msgs = Some (pre ++ i :: code) -> tree_code (take n pre) t = t.
Proof.
  intros Hnd Hb. pose proof (value_code_last nd msgs _ Hnd Hb (min n (length pre)) t) as Hl.
  rewrite take_app_le, <- take_take, firstn_all in Hl by lia. apply Hl. rewrite length_app. cbn. lia.
Qed.

(** At every point of its history, the tree of a library of values is the one after some
    number of whole messages. *)
Lemma value_history nd msgss s g taken codes pre n :
  nd ∈ value_node_data -> writer_at nd msgss s taken codes pre ->
  tree_after nd (take (whole codes n) msgss) (tree g) = Some (tree (history (lt_log s) n g)).
Proof.
  intros Hnd (Hc & Hlog & Hcode). unfold history.
  rewrite tree_run_writer. change (?f <$> take n ?l) with (map f (take n l)). rewrite <- firstn_map.
  change (map fst (lt_log s)) with (lt_log s).*1. rewrite Hlog, whole_tree.
  - apply tree_after_codes. pose proof (whole_le codes n) as Hw. pose proof (Forall2_length _ _ _ Hc) as Hl.
    assert ((take (whole codes n) msgss) = (take (whole codes n) taken)) as ->.
    { destruct (lt_code s); [destruct Hcode as [_ ->]|destruct Hcode as (m & _ & ->)]; by rewrite take_app_le by lia. }
    by apply Forall2_take.
  - eapply Forall2_Forall_r; [exact Hc|]. apply Forall_true. intros msgs code Hb. by eapply value_code_last.
  - intros k u. destruct (lt_code s); [destruct Hcode as [-> _]; by destruct k|].
    destruct Hcode as (m & Hm & _). by eapply value_pre.
Qed.
End values.

(** ** Theorems *)

Section theorems.
Context `{NetSnmpOids} `{InetPton}.

(** C7: a request is answered from what it reads. However the two threads interleave, a request
    that begins in a state and ends later is answered as [clearwater_handler] answers it in one
    step: with the time and the globals of its own first turn, which decide whether the data
    is up to date, and, if it is, for each variable the tree at its own next turn. These states are
    points of what the statistics thread did meanwhile, none before the last. *)
Theorem requests_read_history nd actions s s' k mode requests answers :
  library_threads_run nd actions s = LibraryGoes s' ->
  lt_readers s !! k = Some (mkReader mode requests R_Load) ->
  lt_readers s' !! k = Some (mkReader mode requests (R_Done answers)) ->
  exists g0 now reads new points,
    reads_of nd k actions s = (g0, now) :: reads /\
    lt_log s' = lt_log s ++ new /\ read_at new (lt_globals s) (reads_of nd k actions s) points /\
    (now - last_seen_time g0 < TIMEOUT_THRESHOLD -> (length requests <= length reads)%nat) /\
    forall g, thread_created g = true -> globals g = g0 ->
      clearwater_handler mode requests now (fun i => tree (nth i reads (g0, now)).1) g = (answers, g).
Proof.
  intros Hrun Hk Hk'. rewrite (reader_reads _ _ _ _ _ _ Hrun Hk) in Hk'. injection Hk' as Hf.
  apply request_turns in Hf as (g0 & now & reads & Hreads & Ha).
  destruct (reads_read_at nd k actions s s' Hrun) as (new & points & Hl & _ & Hr).
  exists g0, now, reads, new, points. split_and!; [done..| |].
  - intros Hnow. rewrite (proj2 (Z.ltb_lt _ _) Hnow) in Ha. apply Ha.
  - intros g Hc Hg. unfold clearwater_handler. assert (ensure_thread g = g) as -> by (unfold ensure_thread; by rewrite Hc).
    rewrite Hg. destruct (now - last_seen_time g0 <? TIMEOUT_THRESHOLD); [|by rewrite Ha].
    destruct Ha as [Hlen ->]. by rewrite answers_from_imap.
Qed.

Lemma zip_with_take_length {A B C : Type} (f : A -> B -> C) l k : zip_with f (take (length k) l) k = zip_with f l k.
Proof. revert l. induction k as [|y k IH]; intros [|x l]; cbn; [done..|]. by rewrite IH. Qed.

(** No request sees part of a message. In a library of single values and averages,
    however the two threads interleave, each variable of a request that finds the data up to date
    at its first turn is answered from the tree after a whole number of the messages that arrived:
    those handled before the request began among them, and never fewer than for the variable before. *)
Lemma messages_seen_whole nd g before mode requests after s1 s2 answers :
  nd ∈ value_node_data ->
  library_threads_run nd before (library_threads_start g) = LibraryGoes s1 ->
  library_threads_run nd (RequestBegins mode requests :: after) s1 = LibraryGoes s2 ->
  lt_readers s2 !! length (lt_readers s1) = Some (mkReader mode requests (R_Done answers)) ->
  exists g0 now reads,
    reads_of nd (length (lt_readers s1)) (RequestBegins mode requests :: after) s1 = (g0, now) :: reads /\
    (exists n, (length (lt_log s1) <= n <= length (lt_log s2))%nat /\ g0 = history (lt_log s2) n g) /\
    if now - last_seen_time g0 <? TIMEOUT_THRESHOLD then
      exists counts trees, length counts = length requests /\ StronglySorted le (handled before s1 :: counts) /\
        Forall2 (fun n t => (n <= length (arrived (before ++ after)))%nat /\
                            tree_after nd (take n (arrived (before ++ after))) (tree g) = Some t) counts trees /\
        answers = zip_with (answer_request mode) trees requests
    else answers = (fun _ => None) <$> requests.
Proof.
  intros Hnd Hrun1 Hrun2 Hk.
  assert (writer_at nd [] (library_threads_start g) [] [] []) as H00 by (split_and!; [constructor|done..]).
  destruct (writer_at_run _ _ _ _ _ _ _ _ H00 Hrun1) as (t1 & c1 & p1 & Hw1 & _). cbn in Hw1.
  destruct (writer_at_run _ _ _ _ _ _ _ _ Hw1 Hrun2) as (t2 & c2 & p2 & Hw2 & Hp).
  rewrite (writer_at_handled _ _ _ _ _ _ Hw1).
  assert (arrived before ++ arrived (RequestBegins mode requests :: after) = arrived (before ++ after)) as Harr
    by (unfold arrived; by rewrite omap_app).
  rewrite Harr in Hw2. set (k := length (lt_readers s1)) in *.
  pose (r := mkReader mode requests R_Load).
  set (s1' := mkLibraryThreads (lt_globals s1) (lt_inbox s1) (lt_code s1) (lt_readers s1 ++ [r]) (lt_log s1)).
  assert (library_threads_run nd after s1' = LibraryGoes s2 /\
          reads_of nd k (RequestBegins mode requests :: after) s1 = reads_of nd k after s1') as [Hrun ->] by (by destruct s1).
  assert (lt_readers s1' !! k = Some r) as Hr by by apply list_lookup_middle.
  rewrite (reader_reads _ _ _ _ _ _ Hrun Hr) in Hk. injection Hk as Hf.
  apply request_turns in Hf as (g0 & now & reads & Hreads & Ha).
  destruct (reads_read_at nd k after s1' s2 Hrun) as (new & points & Hlog & _ & Hat). cbn [lt_log lt_globals s1'] in Hlog, Hat.
  rewrite Hreads in Hat |- *. destruct Hat as (Hpts & Hs & Hb). apply Forall2_cons_inv_l in Hpts as (n0 & ns & Hn0 & Hns & ->).
  destruct (library_run_log _ _ _ _ Hrun1) as (log1 & Hl1 & Hg1). cbn in Hl1, Hg1. subst log1.
  pose (point n := (length (lt_log s1) + n)%nat).
  assert (forall n, history (lt_log s2) (point n) g = history new n (lt_globals s1)) as Hpoint.
  { intros n. unfold history. rewrite Hlog, Hg1, take_app_ge by (unfold point; lia). rewrite fold_left_app. do 2 f_equal.
    unfold point. lia. }
  exists g0, now, reads. split; [done|]. split.
  { exists (point n0). rewrite Hpoint. split; [|done]. rewrite Hlog, length_app. apply Forall_inv in Hb. unfold point. lia. }
  destruct (now - _ <? _); [|done]. destruct Ha as [Hlen ->].
  exists (whole c2 ∘ point <$> take (length requests) ns), ((fun n => tree (history new n (lt_globals s1))) <$> take (length requests) ns).
  apply Forall2_length in Hns as Hnl. rewrite length_fmap, length_take.
  split; [lia|]. split; [|split].
  - apply StronglySorted_inv in Hs as [Hs _].
    assert (length (concat c1) <= length (lt_log s1))%nat as Hlc.
    { destruct Hw1 as (_ & Hl & _). apply (f_equal length) in Hl. rewrite length_fmap, length_app in Hl. lia. }
    assert (StronglySorted le (take (length requests) ns)) as Hs'.
    { rewrite <- (take_drop (length requests) ns) in Hs. by apply StronglySorted_app_1_l in Hs. }
    constructor.
    + apply sorted_fmap_mono; [|done]. intros n m Hn. apply whole_mono. unfold point. lia.
    + rewrite Forall_fmap. apply Forall_true. intros n. apply whole_all; [done|]. unfold point. lia.
  - apply Forall2_fmap, Forall_Forall2_diag, Forall_true. intros n. split.
    + transitivity (length c2); [apply whole_le|]. pose proof Hw2 as (Hc & _ & Hcode).
      rewrite <- (Forall2_length _ _ _ Hc).
      destruct (lt_code s2); [destruct Hcode as [_ ->]|destruct Hcode as (m & _ & ->)]; rewrite length_app; lia.
    + etransitivity; [exact (value_history nd _ s2 g t2 c2 p2 (point n) Hnd Hw2)|]. by rewrite Hpoint.
  - rewrite zip_with_fmap_l, zip_with_take_length. unfold answers_from.
    clear -Hns. revert requests. induction Hns as [|x n reads ns Hx Hns IH]; intros [|rq requests]; [done..|].
    cbn. by rewrite IH, Hx.
Qed.
End theorems.

(** ** Requests and what is published *)

Section published_theorems.
Context `{NetSnmpOidsSpec} `{InetPtonSpec}.

(** The tree after messages holds what they publish. *)
Lemma tree_after_published nd msgss t :
  nd ∈ value_node_data -> Forall (good_message nd) msgss -> tree_after nd msgss [] = Some t ->
  tree_shows (spec_messages nd msgss) t /\ sorted t.
Proof.
  intros Hnd Hg (st & Hb & ->)%fmap_Some. pose proof value_node_data_apart as Hap. rewrite Forall_forall in Hap.
  pose proof all_node_data_ok as Hok. rewrite Forall_forall in Hok.
  eapply (handle_blocks_shows nd _ msgss _ st ∅); [|by apply Hap|done|apply map_Forall_empty| | |exact Hb].
  - apply Hok. unfold all_node_data, value_node_data in *. set_solver.
  - split; [apply sorted_nil|]. by intros o [v Hv].
  - intros o v. split; [done|]. intros (stat & entries & Hst & _). by rewrite lookup_empty in Hst.
Qed.

(** The clock at the last [W_store] of a log: when the last message was taken. *)
Definition last_store (log : list (writer_instr * Z)) : Z :=
  default 0 (last (omap (fun e => match e with (W_store, now) => Some now | _ => None end) log)).

Lemma last_store_seen log t :
  last_seen_time (fold_left run_writer log (mkStatsState t 0)) = last_store log.
Proof.
  unfold last_store. induction log as [|[[|op] now] log IH] using rev_ind; [done|..];
    rewrite fold_left_app, omap_app; cbn [fold_left omap list_omap].
  - cbn. by rewrite last_snoc.
  - rewrite app_nil_r. exact IH.
Qed.

(** C16: every request is answered with what was published. In a library of single values and
    averages, whose messages have at most 2^28 frames and are of statistics subscribed to (any
    values, any other status), however the statistics thread and requests interleave, instruction
    by instruction: if at the request's own first turn the last message was taken less than 15
    seconds before, each of its variables is answered as the specification says after a whole
    number of the messages that arrived, those handled before the request began among them, and
    never fewer than for the variable before; and if not, none is answered. *)
Theorem answered_as_published nd before mode requests after s1 s2 answers :
  nd ∈ value_node_data -> Forall (good_message nd) (arrived (before ++ after)) ->
  library_threads_run nd before (library_threads_start (mkStatsState [] 0)) = LibraryGoes s1 ->
  library_threads_run nd (RequestBegins mode requests :: after) s1 = LibraryGoes s2 ->
  lt_readers s2 !! length (lt_readers s1) = Some (mkReader mode requests (R_Done answers)) ->
  exists g0 now reads begun,
    reads_of nd (length (lt_readers s1)) (RequestBegins mode requests :: after) s1 = (g0, now) :: reads /\
    (length (lt_log s1) <= begun <= length (lt_log s2))%nat /\
    g0 = history (lt_log s2) begun (mkStatsState [] 0) /\
    if now - last_store (take begun (lt_log s2)) <? 15 then
      exists counts, StronglySorted le (handled before s1 :: counts) /\
        length counts = length requests /\ length answers = length requests /\
        forall i request n answer,
          requests !! i = Some request -> counts !! i = Some n -> answers !! i = Some answer ->
          (n <= length (arrived (before ++ after)))%nat /\
          let p := spec_messages nd (take n (arrived (before ++ after))) in
          forall b, answer = Some b <-> published_answer p mode request b
    else answers = (fun _ => None) <$> requests.
Proof.
  intros Hnd Hg Hrun1 Hrun2 Hk.
  destruct (messages_seen_whole nd _ before mode requests after s1 s2 answers Hnd Hrun1 Hrun2 Hk)
    as (g0 & now & reads & Hreads & (n0 & Hn0 & Hg0) & Ha).
  exists g0, now, reads, n0. split; [done|]. split; [done|]. split; [done|]. rewrite <- (last_store_seen _ []).
  fold (history (lt_log s2) n0 (mkStatsState [] 0)). rewrite <- Hg0. change 15 with TIMEOUT_THRESHOLD.
  destruct (now - _ <? _); [|done]. destruct Ha as (counts & trees & Hl & Hs & Ht & ->).
  pose proof (Forall2_length _ _ _ Ht) as Hlt. exists counts. split_and!; [done|done|rewrite length_zip_with; lia|].
  intros i request n answer Hr Hn Hans. rewrite lookup_zip_with in Hans. apply bind_Some in Hans as (t & Hti & Hans).
  rewrite Hr in Hans. injection Hans as <-. destruct (Forall2_lookup_lr _ _ _ _ _ _ Ht Hn Hti) as [Hle Hafter].
  split; [done|]. intros p b. destruct (tree_after_published nd _ t Hnd (Forall_take _ n _ Hg) Hafter) as [Hshows Hsort].
  by apply answer_published.
Qed.
End published_theorems.

(** ** Concrete runs *)

Import Reference InetReference ListenerSample HandlerSample.

Module ThreadsOfLibrary.
(** Two variables are asked for; a message comes between the answers to them. *)
Definition forwarded : OID := OID_of_string "1.2.826.0.1.1578918.9.7.1.1.3".
Definition library : stats_state := mkStatsState [(entry, 1); (forwarded, 2)] 1000.
Definition first_message : list library_action :=
  [MessageArrives ["cdiv_total"; "OK"; "3"]; WriterRuns 1010; WriterRuns 1010; WriterRuns 1010].
Definition request_and_message : list library_action :=
  [ReaderRuns 0 1012; ReaderRuns 0 1012; MessageArrives ["cdiv_unconditional"; "OK"; "4"]; WriterRuns 1012;
   WriterRuns 1012; WriterRuns 1012; ReaderRuns 0 1012; ReaderRuns 0 1012].
Definition both : list request_info := [ask entry; ask forwarded].
Definition library_run_from (nd : NodeData) (actions : list library_action) (s : library_threads) : library_threads :=
  match library_threads_run nd actions s with LibraryGoes s' => s' | _ => s end.
Definition asked_library : library_threads :=
  library_run_from cdiv_node_data [RequestBegins MODE_GET both]
    (library_run_from cdiv_node_data first_message (library_threads_start library)).
Definition answered_library : library_threads := library_run_from cdiv_node_data request_and_message asked_library.
Definition both_answers : list (option var_binding) := [Some (mkVarBinding None 3); Some (mkVarBinding None 4)].
End ThreadsOfLibrary.
Import ThreadsOfLibrary.

(** [AstaireGlobalStatHandler] makes five changes one at a time: a request between
    them sees the first counter of the new message and the others of the old one,
    a state Astaire never published. *)
Example astaire_globals_torn :
  let messages := [MessageArrives ["astaire_global"; "OK"; "1"; "1"; "1"; "1"; "1"];
                   WriterRuns 1000; WriterRuns 1000; WriterRuns 1000; WriterRuns 1000; WriterRuns 1000; WriterRuns 1000;
                   WriterRuns 1000; MessageArrives ["astaire_global"; "OK"; "2"; "2"; "2"; "2"; "2"];
                   WriterRuns 1005; WriterRuns 1005; WriterRuns 1005] in
  let needing := OID_descendant astaire_oid "1.0" in
  let resynchronized := OID_descendant astaire_oid "2.0" in
  let s := library_run_from astaire_node_data
             (messages ++ [RequestBegins MODE_GET [ask needing; ask resynchronized];
                           ReaderRuns 0 1005; ReaderRuns 0 1005; ReaderRuns 0 1005; ReaderRuns 0 1005])
             (library_threads_start (mkStatsState [] 0)) in
  r_pc <$> lt_readers s !! 0%nat = Some (R_Done [Some (mkVarBinding None 2); Some (mkVarBinding None 1)]).
Proof. vm_compute. reflexivity. Qed.

(** [last_seen_time] is stored before the message is handled: a request between the two finds
    the data up to date and is answered with a value that was last published an hour ago. *)
Example old_value_answered_as_fresh :
  let s := library_run_from cdiv_node_data
             [MessageArrives ["cdiv_total"; "OK"; "7"]; WriterRuns 4600; WriterRuns 4600;
              RequestBegins MODE_GET [ask entry]; ReaderRuns 0 4600; ReaderRuns 0 4600; ReaderRuns 0 4600]
             (library_threads_start (mkStatsState [(entry, 1)] 1000)) in
  r_pc <$> lt_readers s !! 0%nat = Some (R_Done [Some (mkVarBinding None 1)]).
Proof. vm_compute. reflexivity. Qed.

Lemma requests_read_history_witness :
  exists g0 reads,
    reads_of cdiv_node_data 0 request_and_message asked_library = (g0, 1012) :: reads /\ last_seen_time g0 = 1010 /\
    clearwater_handler MODE_GET both 1012 (fun i => tree (nth i reads (g0, 1012)).1) (mkHandlerState g0 true None [] []) =
    (both_answers, mkHandlerState g0 true None [] []).
Proof.
  destruct (requests_read_history cdiv_node_data request_and_message asked_library answered_library 0 MODE_GET both both_answers)
    as (g0 & now & reads & new & points & Hreads & _ & _ & _ & Hans); [vm_compute; reflexivity..|].
  assert ((fun x => (last_seen_time x.1, x.2)) <$> reads_of cdiv_node_data 0 request_and_message asked_library !! 0%nat =
            Some (1010, 1012)) as Hfirst by (vm_compute; reflexivity).
  rewrite Hreads in Hfirst. injection Hfirst as Hseen ->.
  exists g0, reads. split; [exact Hreads|]. split; [exact Hseen|]. apply Hans; reflexivity.
Defined.

(** A new library, two messages, and a request that the second one overtakes. *)
Module PublishedThreads.
Definition messages : list (list string) := [["cdiv_total"; "OK"; "3"]; ["cdiv_unconditional"; "OK"; "4"]].
Definition new_library : library_threads := library_threads_start (mkStatsState [] 0).
Definition begun : library_threads := library_run_from cdiv_node_data first_message new_library.
Definition over : library_threads :=
  library_run_from cdiv_node_data (RequestBegins MODE_GET both :: request_and_message) begun.

Lemma messages_good : Forall (good_message cdiv_node_data) messages.
Proof.
  repeat (apply Forall_cons_2; [apply (PublishedSample.good_event_checked cdiv_node_data (ZmqMessage _ 0)); vm_compute; reflexivity|]).
  apply Forall_nil_2.
Qed.
End PublishedThreads.
Import PublishedThreads.

Lemma answered_as_published_witness :
  exists counts, StronglySorted le (1%nat :: counts) /\ length counts = 2%nat /\
    forall i request n answer,
      both !! i = Some request -> counts !! i = Some n -> both_answers !! i = Some answer ->
      (n <= 2)%nat /\
      forall b, answer = Some b <->
        published_answer (spec_messages cdiv_node_data (take n messages)) MODE_GET request b.
Proof.
  destruct (answered_as_published cdiv_node_data first_message MODE_GET both request_and_message begun over both_answers)
    as (g0 & now & reads & n & _ & _ & _ & Ha);
    [apply list_elem_of_here|exact messages_good|vm_compute; reflexivity|vm_compute; reflexivity|vm_compute; reflexivity|].
  destruct (_ <? 15); [|discriminate Ha].
  destruct Ha as (counts & Hs & Hl & _ & Ha). exists counts. split; [exact Hs|]. split; [exact Hl|exact Ha].
Defined.
