(* ===== verification/ReqListener.v ===== *)
(** The listener for alarm requests: [src/alarm_req_listener.cpp] and its header.

    [start] opens the socket and creates the thread. The thread reads multi-frame
    requests from a REP socket, passes triggers and resyncs on to the scheduler, and
    replies to every request with "ok". Its run over a script of ZeroMQ results is the
    list of its actions; the requests it makes of the scheduler are the events of
    Scheduler.v. *)

From S2P Require Export Zmq SchedulerProps.

Inductive listener_action :=
| Serve (msg : list string)
| Reply (response : string) (sent : option Z)
| CloseSocket
| PostTermSem.

(** [AlarmReqListener::next_msg]: a [zmq_msg_close] that fails ends it. *)
Definition next_msg (s : script) : reading := receive (fun close => z_rc close =? -1) s.

(** [AlarmReqListener::reply]: one [zmq_send], with what it returns, or nothing while it has
    not returned. A failure, an interruption among them, is only logged. *)
Definition reply (response : string) (s : script) : listener_action * script :=
  match s with
  | [] => (Reply response None, [])
  | sent :: s' => (Reply response (Some (z_rc sent)), s')
  end.

(** The loop of [AlarmReqListener::listener]. *)
Fixpoint listener_loop (fuel : nat) (s : script) : list listener_action :=
  match fuel with
  | O => []
  | S fuel' =>
    match next_msg s with
    | Waiting => []
    | Failed _ => [CloseSocket]
    | Received msg s' =>
      let (answer, s'') := reply "ok" s' in
      Serve msg :: answer :: listener_loop fuel' s''
    end
  end.

(** [AlarmReqListener::listener], and [listener_thread] that runs it. *)
Definition listener (s : script) : list listener_action := listener_loop (S (length s)) s.

Definition listener_thread (s : script) : list listener_action :=
  let actions := listener s in
  match last actions with
  | Some CloseSocket => actions ++ [PostTermSem]
  | _ => actions
  end.

Section requests.
Context `{AlarmDefLib} `{NetSnmpIndex} `{NetSnmpContainer} `{TimerHeap}.

(** What [listener] does with a request before it replies; [None] is the read of
    [msg[0]] out of range. The clock readings are those of the scheduler. *)
Definition serve (msg : list string) (now : Z) (times : Z -> Z) (st : AlarmScheduler)
    : option AlarmScheduler :=
  command ← msg !! 0%nat;
  if String.eqb command "issue-alarm" && Nat.eqb (length msg) 3 then
    issuer ← msg !! 1%nat;
    identifier ← msg !! 2%nat;
    issue_alarm issuer identifier now st
  else if String.eqb command "sync-alarms" && Nat.eqb (length msg) 1 then sync_alarms times st
  else Some st.
End requests.

(** *** Starting and stopping *)

(** The pointers of the listener, [true] when not [NULL]. *)
Record listener_sockets := mkListenerSockets {
  _ctx : bool;
  _sck : bool;
}.

(** [AlarmReqListener(alarm_scheduler)] *)
Definition AlarmReqListener_make : listener_sockets := mkListenerSockets false false.

Definition ENOENT : Z := 2.

(** [AlarmReqListener::zmq_init_ctx]; a pointer result is 0 for [NULL]. *)
Definition zmq_init_ctx (s : script) (l : listener_sockets) : option (bool * listener_sockets * script) :=
  match s with
  | [] => None
  | ctx :: s' =>
    let l' := mkListenerSockets (negb (z_rc ctx =? 0)) (_sck l) in
    Some (_ctx l', l', s')
  end.

(** [AlarmReqListener::zmq_init_sck]: the socket, its option (not checked), the removal
    of an old socket file, which need not exist, the bind and the [chmod]. *)
Definition zmq_init_sck (s : script) (l : listener_sockets) : option (bool * listener_sockets * script) :=
  match s with
  | [] => None
  | sck :: s =>
    let l := mkListenerSockets (_ctx l) (negb (z_rc sck =? 0)) in
    if negb (_sck l) then Some (false, l, s)
    else
      match s with
      | _ :: removed :: s =>
        if (z_rc removed =? -1) && negb (z_errno removed =? ENOENT) then Some (false, l, s)
        else
          '(bound, s) ← retry_eintr s;
          if z_rc bound =? -1 then Some (false, l, s)
          else
            match s with
            | [] => None
            | chmoded :: s => Some (negb (z_rc chmoded =? -1), l, s)
            end
      | _ => None
      end
  end.

(** [AlarmReqListener::zmq_clean_ctx]: a failed [zmq_ctx_destroy] is only logged. *)
Definition zmq_clean_ctx (s : script) (l : listener_sockets) : option (listener_sockets * script) :=
  if _ctx l then
    match s with
    | [] => None
    | _ :: s' => Some (mkListenerSockets false (_sck l), s')
    end
  else Some (l, s).

(** [AlarmReqListener::zmq_clean_sck] *)
Definition zmq_clean_sck (s : script) (l : listener_sockets) : option (listener_sockets * script) :=
  if _sck l then
    match s with
    | [] => None
    | _ :: s' => Some (mkListenerSockets (_ctx l) false, s')
    end
  else Some (l, s).

(** [AlarmReqListener::start]; the thread, when it can be created, takes
    [_start_mutex] only once [start] waits for it, and signals. *)
Definition start_listener (s : script) (l : listener_sockets) : option (bool * listener_sockets * script) :=
  '(ok, l, s) ← zmq_init_ctx s l;
  if negb ok then Some (false, l, s)
  else
    '(ok, l, s) ← zmq_init_sck s l;
    if negb ok then Some (false, l, s)
    else
      match s with
      | [] => None
      | created :: s =>
        if z_rc created =? 0 then Some (true, l, s)
        else
          '(l, s) ← zmq_clean_ctx s l;
          Some (false, l, s)
      end.

(** [AlarmReqListener::stop], up to the join of the thread. *)
Definition stop_listener (s : script) (l : listener_sockets) : option (listener_sockets * script) :=
  zmq_clean_ctx s l.

(** ** Lemmas *)

Lemma close_checked c : z_rc c <> -1 -> (z_rc c =? -1) = false.
Proof. apply Z.eqb_neq. Qed.

Lemma listener_loop_fuel fuel fuel' s :
  (length s < fuel)%nat -> (length s < fuel')%nat -> listener_loop fuel s = listener_loop fuel' s.
Proof.
  revert fuel' s. induction fuel as [|fuel IH]; intros [|fuel'] s Hf Hf'; try lia. simpl.
  destruct (next_msg s) as [msg s'|s'|] eqn:Hn; [|done..].
  apply receive_received in Hn as [_ Hn]. destruct s' as [|sent s']; simpl in *; do 2 f_equal; apply IH; simpl; lia.
Qed.

(** A script of some requests, each with the result of the [zmq_send] after it, and what is left. *)
Inductive session : list (list string * Z) -> script -> script -> Prop :=
| session_end s : session [] s s
| session_request msg d sent xs s rest :
    delivers msg d -> session xs s rest -> session ((msg, z_rc sent) :: xs) (d ++ sent :: s) rest.

(** A request and its reply. *)
Definition exchange (x : list string * Z) : list listener_action := [Serve x.1; Reply "ok" (Some x.2)].

Lemma close_tested c : z_rc c = -1 -> (z_rc c =? -1) = true.
Proof. apply Z.eqb_eq. Qed.

Lemma listener_request msg d sent s :
  delivers msg d -> listener (d ++ sent :: s) = Serve msg :: Reply "ok" (Some (z_rc sent)) :: listener s.
Proof.
  intros Hm. unfold listener at 1. cbn [listener_loop]. unfold next_msg.
  rewrite (receive_delivers _ close_checked msg) by done. cbn [reply]. do 2 f_equal.
  apply listener_loop_fuel; rewrite ?length_app; simpl; rewrite ?length_app; lia.
Qed.

Lemma listener_session xs s rest : session xs s rest -> listener s = (xs ≫= exchange) ++ listener rest.
Proof.
  induction 1 as [s|msg d sent xs s rest Hm Hs IH]; [done|].
  rewrite (listener_request msg) by done. rewrite bind_cons, IH. done.
Qed.

(** *** How a run ends *)

(** Every script is a session and an end that is not one: nothing that can be read, a message
    that breaks off, or one whose reply has not returned. *)
Inductive session_ends : script -> list listener_action -> Prop :=
| ends_waiting rest :
    (forall d s', rest = d ++ s' -> ~ breaks_off d /\ forall msg, ~ delivers msg d) -> session_ends rest []
| ends_replying msg rest : delivers msg rest -> session_ends rest [Serve msg; Reply "ok" None]
| ends_broken_off d s' : breaks_off d -> session_ends (d ++ s') [CloseSocket; PostTermSem].

Lemma session_exists s :
  exists xs rest, session xs s rest /\ ((exists msg, delivers msg rest) \/ (forall msg s', next_msg rest <> Received msg s')).
Proof.
  remember (length s) as n eqn:Hn. revert s Hn. induction n as [n IH] using lt_wf_ind. intros s ->.
  pose proof (receive_takes _ close_checked close_tested s) as Ht. fold (next_msg s) in Ht.
  destruct (next_msg s) as [msg s'|s'|] eqn:Hr; [|exists [], s; split; [constructor|right; by rewrite Hr]..].
  destruct Ht as (d & Hd & ->). destruct s' as [|sent s'].
  { exists [], d. rewrite app_nil_r. split; [constructor|left; by exists msg]. }
  destruct (IH (length s')) with (s := s') as (xs & rest & Hs & Hrest); [rewrite length_app; simpl; lia|done|].
  exists ((msg, z_rc sent) :: xs), rest. split; [by constructor|done].
Qed.

(** ** Theorems *)

(** C34: requests are served in order. Whichever of the calls that read a signal interrupts, while
    no call of [zmq_send] fails each request delivered is served, and its reply sent,
    before the next is read, and the listener goes on with what comes after them. *)
Theorem listener_serves_requests xs s rest :
  session xs s rest -> Forall (fun x => x.2 <> -1) xs ->
  listener s = (xs ≫= fun x => [Serve x.1; Reply "ok" (Some x.2)]) ++ listener rest /\
  Forall (fun act => match act with Reply _ sent => exists rc, sent = Some rc /\ rc <> -1 | _ => True end)
    (xs ≫= fun x => [Serve x.1; Reply "ok" (Some x.2)]).
Proof.
  intros Hs Hx. split; [by apply listener_session|]. induction Hs as [|msg d sent xs s rest Hm Hs IH]; [constructor|].
  apply Forall_cons in Hx as [Hx Hxs]. rewrite bind_cons. apply Forall_app. split; [|by apply IH].
  repeat constructor. by eexists.
Qed.

(** C27: the listener and its socket, whatever the ZeroMQ calls return. Any results of the calls are,
    in one way, those of some requests delivered, each followed by the result of one
    [zmq_send], and an end; the listener serves exactly these requests, in order, and after each
    calls [zmq_send] once with "ok", before it reads again and whatever that call returns. It stops
    only when a call that reads fails, other than by an interruption, and then closes its
    socket and wakes the main thread. *)
Theorem listener_replies_once s :
  exists xs rest last_actions, session xs s rest /\ session_ends rest last_actions /\
    listener_thread s = (xs ≫= fun x => [Serve x.1; Reply "ok" (Some x.2)]) ++ last_actions.
Proof.
  destruct (session_exists s) as (xs & rest & Hs & Hend). pose proof (listener_session _ _ _ Hs) as Hl.
  assert (forall l, last ((xs ≫= exchange) ++ l) = match last l with Some x => Some x | None => last (xs ≫= exchange) end)
    as Hlast by (intros l; by rewrite last_app).
  assert (last (xs ≫= exchange) <> Some CloseSocket) as Hxs.
  { destruct xs as [|x xs _] using rev_ind; [done|]. rewrite bind_app. cbn [exchange mbind list_bind app]. by rewrite last_app. }
  unfold listener_thread. rewrite Hl, Hlast.
  destruct Hend as [[msg Hm]|Hno].
  - exists xs, rest, [Serve msg; Reply "ok" None]. split_and!; [done|by constructor|].
    assert (listener rest = [Serve msg; Reply "ok" None]) as ->; [|done].
    unfold listener. cbn [listener_loop]. unfold next_msg.
    pose proof (receive_delivers _ close_checked msg rest [] Hm) as Hr. rewrite app_nil_r in Hr. rewrite Hr. cbn [reply]. by destruct (length rest).
  - pose proof (receive_takes _ close_checked close_tested rest) as Ht. fold (next_msg rest) in Ht.
    unfold listener. cbn [listener_loop]. destruct (next_msg rest) as [msg s'|s'|] eqn:Hr; [by destruct (Hno msg s')| |].
    + destruct Ht as (d & Hd & ->). exists xs, (d ++ s'), [CloseSocket; PostTermSem].
      split_and!; [done|by constructor|]. cbn. by rewrite <- app_assoc.
    + exists xs, rest, []. split_and!; [done|by constructor|]. cbn [last].
      rewrite !app_nil_r. by destruct (last (xs ≫= exchange)) as [[]|].
Qed.

(** The listener starts exactly when its context, socket, bind, [chmod] and thread
    do, an old socket file is gone, and the bind is repeated while interrupted; it then
    has both pointers, and [stop] destroys the context. *)
Lemma start_listener_succeeds ctx sck opt removed ints bound chmoded created rest l :
  Forall (fun r => interrupted r = true) ints -> interrupted bound = false ->
  z_rc ctx <> 0 -> z_rc sck <> 0 ->
  (z_rc removed = -1 -> z_errno removed = ENOENT) ->
  z_rc bound <> -1 -> z_rc chmoded <> -1 -> z_rc created = 0 ->
  start_listener (ctx :: sck :: opt :: removed :: ints ++ bound :: chmoded :: created :: rest) l =
    Some (true, mkListenerSockets true true, rest).
Proof.
  intros Hi Hb Hctx Hsck Hrem Hbound Hch Hcr. unfold start_listener, zmq_init_ctx.
  cbn [mbind option_bind _ctx]. rewrite (proj2 (Z.eqb_neq _ _) Hctx). cbn [negb zmq_init_sck _sck _ctx].
  rewrite (proj2 (Z.eqb_neq _ _) Hsck). cbn [negb].
  assert ((z_rc removed =? -1) && negb (z_errno removed =? ENOENT) = false) as ->.
  { destruct (z_rc removed =? -1) eqn:Hr; [|done]. apply Z.eqb_eq in Hr. by rewrite (Hrem Hr). }
  rewrite (retry_eintr_app ints bound) by done. cbn [mbind option_bind].
  rewrite (proj2 (Z.eqb_neq _ _) Hbound), (proj2 (Z.eqb_neq _ _) Hch). cbn [negb mbind option_bind].
  by rewrite Hcr.
Qed.

(** A start that fails before the thread leaves the context open; one that fails at
    the thread destroys it. *)
Lemma start_listener_thread_failed ctx sck opt removed bound chmoded created destroyed rest l :
  interrupted bound = false -> z_rc ctx <> 0 -> z_rc sck <> 0 -> z_rc removed <> -1 ->
  z_rc bound <> -1 -> z_rc chmoded <> -1 -> z_rc created <> 0 ->
  start_listener (ctx :: sck :: opt :: removed :: bound :: chmoded :: created :: destroyed :: rest) l =
    Some (false, mkListenerSockets false true, rest).
Proof.
  intros Hb Hctx Hsck Hrem Hbound Hch Hcr. unfold start_listener, zmq_init_ctx.
  cbn [mbind option_bind _ctx]. rewrite (proj2 (Z.eqb_neq _ _) Hctx). cbn [negb zmq_init_sck _sck _ctx].
  rewrite (proj2 (Z.eqb_neq _ _) Hsck), (proj2 (Z.eqb_neq _ _) Hrem). cbn [negb andb].
  cbn [retry_eintr]. rewrite Hb. cbn [mbind option_bind].
  rewrite (proj2 (Z.eqb_neq _ _) Hbound), (proj2 (Z.eqb_neq _ _) Hch). cbn [negb mbind option_bind].
  by rewrite (proj2 (Z.eqb_neq _ _) Hcr).
Qed.

Section service.
Context `{AlarmDefLib} `{NetSnmpIndexSpec} `{NetSnmpContainerSpec} `{TimerHeapSpec}.
Implicit Types (st : AlarmScheduler).

(** The event of the scheduler a request is served by. *)
Lemma serve_event msg now times st :
  msg <> [] ->
  serve msg now times st = Some st \/
  exists e, serve msg now times st = run_event e st /\ event_ok st e /\ is_heap_pass e = false.
Proof.
  intros Hm. destruct msg as [|c args]; [done|]. unfold serve. cbn [lookup list_lookup mbind option_bind].
  destruct (String.eqb c "issue-alarm" && _) eqn:Hi.
  - apply andb_true_iff in Hi as [_ Hl]. apply Nat.eqb_eq in Hl.
    destruct args as [|issuer [|identifier [|]]]; try done.
    right. by exists (Issue issuer identifier now).
  - destruct (String.eqb c "sync-alarms" && _); [right; by exists (Sync times)|by left].
Qed.

(** Every request is safe in every state the agent can reach: whatever its
    frames, serving it completes and leads to a state that can be reached. *)
Lemma requests_served defs notifications hostname ip ok1 ok2 n st msg now times :
  let st0 := agent_start defs notifications hostname ip ok1 ok2 in
  defs_ok defs -> reachable (fun _ => True) st0 n st -> msg <> [] ->
  n * Z.of_nat (length (_all_alarms_state st0)) < UINT_MAX ->
  exists st', serve msg now times st = Some st' /\ reachable (fun _ => True) st0 n st'.
Proof.
  intros st0 Hd Hr Hm Hn.
  assert (alarm_counter (_active_table st0) = 0) as Hc0 by apply (init_active ip ok1 ok2).
  destruct (serve_event msg now times st Hm) as [->|(e & -> & Hok & Hpass)]; [by exists st|].
  destruct (reachable_wf _ _ _ _ Hr) as (Hwf & Hs & _);
    [by apply agent_start_wf|apply make_sent_wf|by rewrite Hc0|].
  destruct (run_event_result e st Hwf Hs Hok) as (st' & He & _); [by intros Hp; rewrite Hp in Hpass|].
  exists st'. split; [done|]. pose proof (reachable_step _ st0 n st e st' Hr Hok I He) as Hr'.
  by rewrite Hpass in Hr'.
Qed.
End service.

(** ** Witnesses *)

Module RequestSample.
Import ZmqSample.
Definition trigger_script : script :=
  frame_script "issue-alarm" 1 ++ frame_script "monit" 1 ++ frame_script "1000.3" 0.
Definition poll_script : script := frame_script "poll" 0.

End RequestSample.
Import ZmqSample RequestSample.

Lemma listener_serves_requests_witness :
  listener (trigger_script ++ ok_result "" 0 :: (poll_script ++ ok_result "" 0 :: [])) =
    [Serve ["issue-alarm"; "monit"; "1000.3"]; Reply "ok" (Some 0); Serve ["poll"]; Reply "ok" (Some 0)] ++ listener [].
Proof.
  apply (listener_serves_requests [(["issue-alarm"; "monit"; "1000.3"], 0); (["poll"], 0)]).
  - apply (session_request _ _ (ok_result "" 0)); [|apply (session_request _ _ (ok_result "" 0)); [|constructor]].
    + apply delivers_more; [apply (frame_script_delivers _ 1); by right|].
      apply delivers_more; [apply (frame_script_delivers _ 1); by right|].
      apply delivers_last, (frame_script_delivers _ 0). by left.
    + apply delivers_last, (frame_script_delivers _ 0). by left.
  - repeat apply Forall_cons_2; [discriminate..|apply Forall_nil_2].
Defined.
