(* ===== verification/ListenerStart.v ===== *)
(** The hand-over at the start of the request listener: [AlarmReqListener::start]
    of [src/alarm_req_listener.cpp] from [pthread_mutex_init] on, with the first lines
    of [AlarmReqListener::listener], which the new thread runs.

    [start] creates the thread with [_start_mutex] locked, waits on [_start_cond]
    until the thread signals it, and destroys both. ReqListener.v has all this
    as the one result of [pthread_create]; here are its steps, and what can go wrong. *)

From S2P Require Export ReqListener.

(** What [start] does next. *)
Inductive start_pc :=
| S_Init
| S_Lock
| S_Create
| S_Wait
| S_Waiting
| S_Relock
| S_Unlock
| S_DestroyCond
| S_DestroyMutex
| S_Return (result : bool).

(** What the new thread does next; [T_Reading] is its loop over requests. *)
Inductive thread_pc :=
| T_None
| T_Lock
| T_Signal
| T_Unlock
| T_Reading.

#[export] Instance start_pc_eq_dec : EqDecision start_pc.
Proof. solve_decision. Defined.
#[export] Instance thread_pc_eq_dec : EqDecision thread_pc.
Proof. solve_decision. Defined.

(** [_start_mutex], as memory: not initialised or destroyed, or with the thread
    that holds it. *)
Inductive mutex_state :=
| NoMutex
| FreeMutex
| HeldByStart
| HeldByThread.

#[export] Instance mutex_state_eq_dec : EqDecision mutex_state.
Proof. solve_decision. Defined.

Record handshake := mkHandshake {
  start_at : start_pc;
  thread_at : thread_pc;
  _start_mutex : mutex_state;
  _start_cond : bool;
  create_failed : bool;
}.

(** The steps: of [start], with the result of [pthread_create]; of the thread; and
    the end of the wait for no reason. *)
Inductive handshake_action :=
| StartRuns (rc : Z)
| ThreadRuns
| SpuriousWakeUp.

Inductive handshake_result :=
| Goes (h : handshake)
| Blocked
| Misuse.

(** A lock, a wait for the lock, or an unlock of what is not a mutex is misuse. *)
Definition lock_mutex (holder m : mutex_state) (go : mutex_state -> handshake) : handshake_result :=
  match m with
  | NoMutex => Misuse
  | FreeMutex => Goes (go holder)
  | _ => Blocked
  end.

Definition unlock_mutex (m : mutex_state) (go : mutex_state -> handshake) : handshake_result :=
  match m with
  | HeldByStart | HeldByThread => Goes (go FreeMutex)
  | _ => Misuse
  end.

Definition start_step (rc : Z) (h : handshake) : handshake_result :=
  let next pc m := mkHandshake pc (thread_at h) m (_start_cond h) (create_failed h) in
  match start_at h with
  | S_Init => Goes (mkHandshake S_Lock (thread_at h) FreeMutex true (create_failed h))
  | S_Lock => lock_mutex HeldByStart (_start_mutex h) (next S_Create)
  | S_Create =>
    if rc =? 0 then Goes (mkHandshake S_Wait T_Lock (_start_mutex h) (_start_cond h) false)
    else Goes (mkHandshake S_Unlock (thread_at h) (_start_mutex h) (_start_cond h) true)
  | S_Wait => unlock_mutex (_start_mutex h) (next S_Waiting)
  | S_Waiting => Blocked
  | S_Relock => lock_mutex HeldByStart (_start_mutex h) (next S_Unlock)
  | S_Unlock => unlock_mutex (_start_mutex h) (next S_DestroyCond)
  | S_DestroyCond => Goes (mkHandshake S_DestroyMutex (thread_at h) (_start_mutex h) false (create_failed h))
  | S_DestroyMutex =>
    match _start_mutex h with
    | FreeMutex => Goes (next (S_Return (negb (create_failed h))) NoMutex)
    | _ => Misuse
    end
  | S_Return _ => Blocked
  end.

Definition thread_step (h : handshake) : handshake_result :=
  let next pc m := mkHandshake (start_at h) pc m (_start_cond h) (create_failed h) in
  match thread_at h with
  | T_None => Blocked
  | T_Lock => lock_mutex HeldByThread (_start_mutex h) (next T_Signal)
  | T_Signal =>
    if _start_cond h then
      Goes (mkHandshake (match start_at h with S_Waiting => S_Relock | pc => pc end)
              T_Unlock (_start_mutex h) (_start_cond h) (create_failed h))
    else Misuse
  | T_Unlock => unlock_mutex (_start_mutex h) (next T_Reading)
  | T_Reading => Blocked
  end.

Definition handshake_step (a : handshake_action) (h : handshake) : handshake_result :=
  match a with
  | StartRuns rc => start_step rc h
  | ThreadRuns => thread_step h
  | SpuriousWakeUp =>
    match start_at h with
    | S_Waiting => Goes (mkHandshake S_Relock (thread_at h) (_start_mutex h) (_start_cond h) (create_failed h))
    | _ => Blocked
    end
  end.

(** [start] when the socket is ready. *)
Definition handshake_start : handshake := mkHandshake S_Init T_None NoMutex false false.

(** A run of the two, in which a step that cannot be made is passed over. *)
Fixpoint handshake_run (actions : list handshake_action) (h : handshake) : handshake_result :=
  match actions with
  | [] => Goes h
  | a :: actions' =>
    match handshake_step a h with
    | Goes h' => handshake_run actions' h'
    | Blocked => handshake_run actions' h
    | Misuse => Misuse
    end
  end.

(** ** Proof *)

(** The states the two reach when the wait has ended by the signal. *)
Definition handshake_ok (h : handshake) : bool :=
  match start_at h, thread_at h, _start_mutex h, _start_cond h, create_failed h with
  | S_Init, T_None, NoMutex, false, false => true
  | S_Lock, T_None, FreeMutex, true, false => true
  | S_Create, T_None, HeldByStart, true, false => true
  | S_Wait, T_Lock, HeldByStart, true, false => true
  | S_Waiting, T_Lock, FreeMutex, true, false => true
  | S_Waiting, T_Signal, HeldByThread, true, false => true
  | S_Relock, T_Unlock, HeldByThread, true, false => true
  | S_Relock, T_Reading, FreeMutex, true, false => true
  | S_Unlock, T_Reading, HeldByStart, true, false => true
  | S_Unlock, T_None, HeldByStart, true, true => true
  | S_DestroyCond, T_Reading, FreeMutex, true, false => true
  | S_DestroyCond, T_None, FreeMutex, true, true => true
  | S_DestroyMutex, T_Reading, FreeMutex, false, false => true
  | S_DestroyMutex, T_None, FreeMutex, false, true => true
  | S_Return true, T_Reading, NoMutex, false, false => true
  | S_Return false, T_None, NoMutex, false, true => true
  | _, _, _, _, _ => false
  end.

(** And those after a wait that ended for no reason: [start] is on its way out while the
    thread is still on its way in, each holding the mutex in turn until it is destroyed. *)
Definition handshake_overtaken (h : handshake) : bool :=
  match start_at h, thread_at h, _start_mutex h, _start_cond h, create_failed h with
  | S_Relock, T_Lock, FreeMutex, true, false | S_Relock, T_Signal, HeldByThread, true, false => true
  | S_Unlock, T_Lock, HeldByStart, true, false => true
  | S_DestroyCond, (T_Lock | T_Reading), FreeMutex, true, false => true
  | S_DestroyCond, (T_Signal | T_Unlock), HeldByThread, true, false => true
  | S_DestroyMutex, (T_Lock | T_Reading), FreeMutex, false, false => true
  | S_DestroyMutex, (T_Signal | T_Unlock), HeldByThread, false, false => true
  | S_Return true, T_Lock, NoMutex, false, false => true
  | _, _, _, _, _ => false
  end.

(** The step uses what [start] has destroyed, or destroys what the thread holds: the thread
    has not finished the hand-over, and [start] has left it. *)
Definition uses_destroyed (a : handshake_action) (h : handshake) : bool :=
  match a, start_at h, thread_at h with
  | ThreadRuns, S_Return true, T_Lock => true
  | ThreadRuns, S_DestroyMutex, T_Signal => true
  | StartRuns _, S_DestroyMutex, (T_Signal | T_Unlock) => true
  | _, _, _ => false
  end.

(** The steps the two have left: none only when [start] has returned. *)
Definition handshake_left (h : handshake) : nat :=
  match start_at h with
  | S_Init => 14 | S_Lock => 13 | S_Create => 12 | S_Wait => 8 | S_Waiting => 5
  | S_Relock => 4 | S_Unlock => 3 | S_DestroyCond => 2 | S_DestroyMutex => 1 | S_Return _ => 0
  end +
  match thread_at h with T_Lock => 3 | T_Signal => 2 | T_Unlock => 1 | _ => 0 end.

Definition handshake_inv (h : handshake) : bool := handshake_ok h || handshake_overtaken h.

Ltac cases_of_handshake h := destruct h as [s t m c f]; destruct s as [| | | | | | | | |[]], t, m, c, f.

Lemma handshake_step_ok a h :
  handshake_inv h = true ->
  match handshake_step a h with
  | Goes h' => handshake_inv h' = true /\ (handshake_left h' < handshake_left h)%nat /\ uses_destroyed a h = false /\
               (handshake_ok h = true -> a <> SpuriousWakeUp -> handshake_ok h' = true)
  | Blocked => uses_destroyed a h = false
  | Misuse => uses_destroyed a h = true /\ handshake_ok h = false
  end.
Proof.
  destruct a as [rc| |]; cases_of_handshake h; cbn; try done; intros _; try (destruct (rc =? 0)); cbn;
    try (split_and!; [done|unfold handshake_left; cbn; lia|done|done]).
Qed.

Lemma handshake_progress h :
  handshake_inv h = true ->
  (exists r, start_at h = S_Return r) \/
  exists a, a <> SpuriousWakeUp /\ handshake_step a h <> Blocked.
Proof.
  cases_of_handshake h; cbn; try done; intros _; try (by left; eexists);
    right; (by exists ThreadRuns) || (by exists (StartRuns 0)).
Qed.

Lemma handshake_run_ok actions h h' :
  handshake_inv h = true -> handshake_run actions h = Goes h' ->
  handshake_inv h' = true /\
  (handshake_ok h = true -> SpuriousWakeUp ∉ actions -> handshake_ok h' = true).
Proof.
  revert h. induction actions as [|a actions IH]; intros h Hh; cbn; [by intros [= <-]|].
  rewrite not_elem_of_cons. pose proof (handshake_step_ok a h Hh) as Hst.
  destruct (handshake_step a h) as [h1| |]; [|intros Hr; destruct (IH h Hh Hr); naive_solver|done].
  destruct Hst as (Hh1 & _ & _ & Hok). intros Hr. destruct (IH h1 Hh1 Hr) as [Hh' Hk]. split; [done|].
  intros Hc [Ha Hs]. apply Hk; [by apply Hok, not_eq_sym|done].
Qed.

(** ** Theorems *)

(** C32: what can go wrong when the listener starts, and when it cannot. However [start], the
    new thread and the wake-ups of the wait interleave, those for no reason that POSIX allows
    included, a step misuses the mutex or condition variable exactly when [start] has gone past
    the wait and destroys them, or has, while the thread has not finished the hand-over; and
    this never happens before a spurious wake-up. [start] returns false only when the thread was
    not created, and true only when it was, without a spurious wake-up once it is past the
    hand-over. It never waits for ever: until it has returned a step can be made that needs no
    spurious wake-up, and every step brings the end nearer. *)
Theorem listener_start_safe actions h a :
  handshake_run actions handshake_start = Goes h ->
  (handshake_step a h = Misuse <-> uses_destroyed a h = true) /\
  (SpuriousWakeUp ∉ actions -> handshake_step a h <> Misuse /\ (start_at h = S_Return true -> thread_at h = T_Reading)) /\
  (forall r, start_at h = S_Return r -> (r = true <-> thread_at h <> T_None)) /\
  ((exists r, start_at h = S_Return r) \/ exists a', a' <> SpuriousWakeUp /\ handshake_step a' h <> Blocked) /\
  (forall h', handshake_step a h = Goes h' -> (handshake_left h' < handshake_left h)%nat).
Proof.
  intros Hr. destruct (handshake_run_ok actions handshake_start h eq_refl Hr) as [Hh Hok].
  pose proof (handshake_step_ok a h Hh) as Hst. split_and!.
  - destruct (handshake_step a h); [destruct Hst as (_ & _ & -> & _)|rewrite Hst|destruct Hst as [-> _]]; done.
  - intros Hs. specialize (Hok eq_refl Hs). split.
    + intros Hm. rewrite Hm in Hst. destruct Hst. congruence.
    + intros Hret. clear -Hok Hret. cases_of_handshake h; done.
  - intros r Hret. clear -Hh Hret. cases_of_handshake h; cbn in *; try done; by injection Hret as <-.
  - by apply handshake_progress.
  - intros h' Hg. rewrite Hg in Hst. apply Hst.
Qed.

(** The wait has no predicate: one spurious wake-up before the thread takes the mutex
    and [start] destroys it first, so that the thread locks what is not a mutex. *)
Lemma spurious_wake_up_misuse :
  handshake_run ([StartRuns 0; StartRuns 0; StartRuns 0; StartRuns 0; SpuriousWakeUp] ++
                 repeat (StartRuns 0) 4 ++ [ThreadRuns]) handshake_start = Misuse.
Proof. reflexivity. Qed.

(** The run of [spurious_wake_up_misuse] before its last step, and one without a spurious
    wake-up. *)
Lemma listener_start_safe_witness :
  exists h1 h2,
    handshake_run ([StartRuns 0; StartRuns 0; StartRuns 0; StartRuns 0; SpuriousWakeUp] ++ repeat (StartRuns 0) 4)
      handshake_start = Goes h1 /\ handshake_step ThreadRuns h1 = Misuse /\
    handshake_run [StartRuns 0; StartRuns 0; StartRuns 0; ThreadRuns; StartRuns 0; ThreadRuns;
                   StartRuns 0; ThreadRuns; ThreadRuns; StartRuns 0; StartRuns 0; StartRuns 0; StartRuns 0]
      handshake_start = Goes h2 /\ start_at h2 = S_Return true /\ thread_at h2 = T_Reading.
Proof.
  eexists _, _. split; [vm_compute; reflexivity|]. split.
  - eapply (listener_start_safe ([StartRuns 0; StartRuns 0; StartRuns 0; StartRuns 0; SpuriousWakeUp] ++
      repeat (StartRuns 0) 4)); vm_compute; reflexivity.
  - split; [vm_compute; reflexivity|]. split; [reflexivity|].
    eapply (listener_start_safe [StartRuns 0; StartRuns 0; StartRuns 0; ThreadRuns; StartRuns 0; ThreadRuns;
      StartRuns 0; ThreadRuns; ThreadRuns; StartRuns 0; StartRuns 0; StartRuns 0; StartRuns 0] _ ThreadRuns);
      [vm_compute; reflexivity| |reflexivity].
    repeat (apply not_elem_of_cons; split; [discriminate|]). apply not_elem_of_nil.
Defined.
