(* ===== verification/Agent.v ===== *)
(** The agent: [src/alarms_agent.cpp].

    [main] reads the options, connects to the receivers of notifications, loads
    the alarm definitions, fills the tables and starts the scheduler and the
    listener. The options are those of [Options]. *)

From S2P Require Export TableProps ReqListener Options.

(** ** Start-up *)

Section agent.
Context `{AgentUtils}.

(** How [main] goes on: it aborts, returns, or waits with the scheduler running,
    sessions to the receivers open and the tables filled. *)
Inductive agent_outcome `{AlarmDefLib} `{NetSnmpContainer} `{TimerHeap} :=
| UsageAbort
| Exit (code : Z)
| Running (receivers : list (string * Z)) (model_table itu_table : table) (scheduler : AlarmScheduler).

(** What the system answers during start-up: whether [POSIXLY_CORRECT] is set, the directory of
    definitions, the allocations of each table, and whether the listener starts. *)
Record agent_env := mkAgentEnv {
  posixly_correct : bool;
  alarms_dir : option (list dir_entry);
  model_ok : bool * bool;
  itu_ok : bool * bool;
  active_ok : bool * bool;
  row_ok : AlarmTableDef -> bool;
  listener_ok : bool;
}.

Context `{AlarmDefLib} `{NetSnmpIndex} `{NetSnmpContainer} `{TimerHeap} `{JsonAlarms}.

(** [new AlarmTableDefs()] *)
Definition AlarmTableDefs_default : AlarmTableDefs := mkAlarmTableDefs [] AlarmTableDef_default.

(** [main] on the arguments after [argv[0]], up to [sem_wait]; [None] is a crash. *)
Definition agent_main (args : list string) (env : agent_env) : option agent_outcome :=
  match parse_options (posixly_correct env) args with
  | ReadOutOfBounds => None
  | UsageThenAbort => Some UsageAbort
  | Configured c =>
    let notifications := notifications_or_default (snmp_notifications c) in
    let receivers := trap_receiver <$> trap_ips c in
    let '(rc, defs) := initialize (alarms_dir env) AlarmTableDefs_default in
    if negb rc then Some (Exit 1)
    else
      model ← init_alarmModelTable (model_ok env).1 (model_ok env).2 (row_ok env) defs table_zero;
      let itu := init_ituAlarmTable (itu_ok env).1 (itu_ok env).2 (row_ok env) defs table_zero in
      let active := (init_alarmActiveTable (local_ip c) (active_ok env).1 (active_ok env).2 active_zero).2 in
      let scheduler := AlarmScheduler_make defs notifications (hostname c) active in
      if negb (listener_ok env) then Some (Exit 1)
      else Some (Running receivers model itu scheduler)
  end.
End agent.

(** The definitions the JSON parser accepts have the severities of X.733; none is
    the undefined one. *)
Class JsonAlarmsSpec `{AlarmDefLib} `{JsonAlarms} := json_severities : forall path ds,
  validate_alarms_from_json path = inr ds ->
  Forall (fun a => Forall (fun d => proper_severity (_severity d) /\ _severity d <> UNDEFINED_SEVERITY)
                     (_severity_details a)) ds.

(** ** Lemmas *)

Section start_up.
Context `{AgentUtils} `{AlarmDefLib} `{NetSnmpIndexSpec} `{NetSnmpContainerSpec} `{TimerHeapSpec}.
Context `{JsonAlarms} `{!JsonAlarmsSpec}.

Lemma load_all_severities paths ds :
  load_all paths = Some ds ->
  Forall (fun a => Forall (fun d => proper_severity (_severity d) /\ _severity d <> UNDEFINED_SEVERITY)
                     (_severity_details a)) ds.
Proof.
  revert ds. induction paths as [|p paths IH]; intros ds; cbn [load_all]; [by intros [= <-]|].
  destruct (validate_alarms_from_json p) as [|ds1] eqn:Hp; [done|].
  intros (ds2 & Hl & [= <-])%bind_Some. apply Forall_app. split; [by eapply json_severities|by apply IH].
Qed.

(** A successful load gives a table the tables and the scheduler can use. *)
Lemma initialize_ok dir defs :
  initialize dir AlarmTableDefs_default = (true, defs) -> defs_ok defs /\ proper_defs defs.
Proof.
  intros Hi. assert (defs_wf defs) as Hwf.
  { pose proof (initialize_wf dir AlarmTableDefs_default eq_refl) as Hw. by rewrite Hi in Hw. }
  assert (forall key def, find_key key (_key_to_def defs) = Some def ->
            proper_severity (severity def) /\ severity def <> UNDEFINED_SEVERITY) as Hsev.
  { destruct dir as [entries|]; [|done]. unfold initialize in Hi.
    destruct (initialize_loop entries [] []) as [rc m] eqn:Hl. simplify_eq.
    apply initialize_loop_spec in Hl as (ds & Hload & _ & ->). apply load_all_severities in Hload.
    intros key def. cbn [_key_to_def]. rewrite find_insert_all. intros [?|[_ Hf]]%union_Some; [done|].
    apply List.find_some in Hf as [Hin _]. apply list_elem_of_In, elem_of_table_defs in Hin as (a & d & Ha & Hd & ->).
    rewrite Forall_forall in Hload. specialize (Hload a Ha). rewrite Forall_forall in Hload. exact (Hload d Hd). }
  split.
  - split; [done|]. intros i s Hv. pose proof (defs_wf_get defs i s Hwf Hv) as [_ Hs].
    apply defs_wf_valid_iff in Hv as [def Hf]; [|done].
    assert (get_definition defs i s = def) as Hg by (unfold get_definition; by rewrite Hf).
    rewrite Hg in Hs. destruct (Hsev _ _ Hf) as [Hp Hu]. rewrite <- Hs. unfold proper_severity, known_severity in *.
    split; [lia|done].
  - split; [done|]. intros def Hd. by eapply Hsev, defs_wf_elem.
Qed.

Lemma model_insert_total malloc_ok l t :
  (forall def, def ∈ l -> proper_severity (severity def)) ->
  is_Some (alarmModelTable_insert_defs malloc_ok l t).
Proof.
  revert t. induction l as [|def l IH]; intros t Hl; [by eexists|]. cbn [alarmModelTable_insert_defs].
  unfold alarmModelTable_insert_def. destruct (state_known def) as [s ->].
  { specialize (Hl def ltac:(set_solver)). unfold proper_severity, known_severity in *. lia. }
  cbn [mbind option_bind]. destruct (alarmModelTable_create_row_context _ _ _ _); apply IH; set_solver.
Qed.

Lemma init_model_total ok1 ok2 malloc_ok defs t :
  proper_defs defs -> is_Some (init_alarmModelTable ok1 ok2 malloc_ok defs t).
Proof.
  intros [_ Hp]. unfold init_alarmModelTable. destruct (initialize_table_alarmModelTable _ _ _) as [[] t'];
    [by apply model_insert_total|by eexists].
Qed.

(** C26: start-up, for every command line, directory of definitions and failing allocation. The
    arguments are options with their values and an end. [main] crashes exactly when that end is
    a long option that is not one of those [usage] documents (an abbreviation among them), because
    the table of options is not terminated; it prints the usage and
    aborts when it is a short option or one that lacks its value. Otherwise it does not crash: it
    exits with 1 when some definition cannot be loaded or the listener does not start, and else waits
    with a scheduler in its invariant, all definitions loaded, configured as the options say:
    the last local address and host name given, all receivers, and exactly the notification
    types named, or RFC 3877's alone when none is. *)
Theorem agent_starts args env :
  exists opts l rest e,
    args = l ++ rest /\ arguments (posixly_correct env) opts l /\ arguments_end (posixly_correct env) rest e /\
    match e with
    | BeyondTable => agent_main args env = None
    | QuestionMark => agent_main args env = Some UsageAbort
    | EndOfOptions =>
      let (loaded, defs) := initialize (alarms_dir env) AlarmTableDefs_default in
      if negb (loaded && listener_ok env) then agent_main args env = Some (Exit 1)
      else
        exists model itu st notifications,
          agent_main args env = Some (Running (trap_receiver <$> (values OPT_SNMP_IPS opts ≫= split_string)) model itu st) /\
          defs_ok defs /\
          st = agent_start defs notifications (default "" (last (values OPT_HOSTNAME opts)))
                 (default "0.0.0.0" (last (values OPT_LOCAL_IP opts))) (active_ok env).1 (active_ok env).2 /\
          sched_wf st /\
          (let named n := type_name n ∈ (values OPT_SNMP_NOTIFICATION_TYPE opts ≫= split_string) in
           sorted notifications /\
           forall n, n ∈ notifications.*1 <-> named n \/ ((forall n', ~ named n') /\ n = RFC3877))
    end.
Proof.
  unfold agent_main, parse_options. destruct (getopt_long (posixly_correct env) args) as [opts e] eqn:Hg.
  destruct (getopt_long_spec _ _ _ _ Hg) as (l & rest & Hargs & Hl & He).
  exists opts, l, rest, e. split_and!; [done..|]. destruct e; [|done..].
  destruct (set_options_spec opts config_zero) as (Hlip & Hhost & Hips & _ & Hs & Hn); [apply sorted_nil|].
  change (local_ip config_zero) with "0.0.0.0"%string in Hlip. change (hostname config_zero) with ""%string in Hhost.
  change (trap_ips config_zero) with (@nil string) in Hips. cbn [app] in Hips. rewrite <- Hlip, <- Hhost, <- Hips.
  destruct (initialize (alarms_dir env) AlarmTableDefs_default) as [[] defs] eqn:Hi; [|done].
  destruct (initialize_ok _ _ Hi) as [Hd Hp]. cbn [negb andb].
  destruct (init_model_total (model_ok env).1 (model_ok env).2 (row_ok env) defs table_zero Hp) as [model ->].
  cbn [mbind option_bind]. destruct (listener_ok env); [|done]. cbn [negb].
  eexists model, _, _, _. split; [done|]. split; [done|]. split; [done|]. split; [by apply agent_start_wf|].
  apply notifications_configured; [done|]. intros n. rewrite Hn. split; [intros [?|[? [=]]]; done|by left].
Qed.
End start_up.

(** ** Witnesses *)

Module AgentSample.
#[export] Instance utils : AgentUtils := {
  split_string := split_on ",";
  split_host_port s := if String.eqb s "10.0.0.2:163" then Some ("10.0.0.2", 163) else None;
}.

Definition command_line : list string :=
  ["--local-ip=10.0.0.1"; "--snmp-notification-types"; "enterprise,x,rfc3877"; "extra";
   "--snmp-ips"; "10.0.0.2:163,10.0.0.3"; "--hostname=host"].
Definition sample_env : agent_env :=
  mkAgentEnv false (Some Sample.entries) (true, true) (true, true) (true, true) (fun _ => true) true.

#[export] Instance sample_severities : @JsonAlarmsSpec Sample.itu_severities Sample.json.
Proof.
  intros path ds. unfold validate_alarms_from_json, Sample.json.
  repeat case_match; intros [= <-]; unfold proper_severity; repeat constructor; simpl; lia.
Defined.
End AgentSample.
Import AgentSample Sample Reference ReferenceHeap.

Lemma agent_starts_witness :
  exists model itu st,
    agent_main command_line sample_env = Some (Running [("10.0.0.2", 163); ("10.0.0.3", 162)] model itu st) /\ sched_wf st.
Proof.
  assert ((fun o => match o with Running r _ _ _ => r | _ => [] end) <$> agent_main command_line sample_env
            = Some [("10.0.0.2", 163); ("10.0.0.3", 162)]) as Hr by (vm_compute; reflexivity).
  destruct (agent_starts command_line sample_env) as (opts & l & rest & e & _ & _ & _ & Hm).
  destruct e; [|rewrite Hm in Hr; discriminate Hr..].
  destruct (initialize _ _) as [loaded defs]. destruct (negb _); [rewrite Hm in Hr; discriminate Hr|].
  destruct Hm as (model & itu & st & notifications & Hm & _ & _ & Hwf & _). revert Hm.
  generalize (trap_receiver <$> (values OPT_SNMP_IPS opts ≫= split_string)). intros receivers Hm. rewrite Hm in Hr |- *.
  injection Hr as ->. by exists model, itu, st.
Defined.

(** The abort and the crash. *)
Example agent_aborts : agent_main ["-h"] sample_env = Some UsageAbort.
Proof. reflexivity. Qed.

Example agent_crashes : agent_main ["--local-ip"; "--help"; "--help"] sample_env = None.
Proof. reflexivity. Qed.
