(* ===== verification/AgentThreads.v ===== *)
(** The threads of the agent after start-up: the main thread of
    [src/alarms_agent.cpp] from [sem_wait] to its end with the destructor of the
    scheduler, the heap thread of [src/alarm_scheduler.cpp], the listener thread of
    [src/alarm_req_listener.cpp], and Net-SNMP's thread, which makes the delivery
    callbacks.

    A step of a thread is what it does between two points where it can be held up:
    a critical section of the scheduler's lock, a wait on the condition variable, the
    semaphore or a join. [agent_step] takes one step of one thread, so a list of
    actions is an interleaving; [Crash] is the use of a freed object or of the destroyed
    lock, or a step of the scheduler that crashes. The scheduler's lock is that of
    Net-SNMP's thread, which holds it whenever it works, and the destructor of the scheduler
    destroys it. That a thread may hold the lock at that moment is below the grain of the steps. *)

From S2P Require Export Agent.

(** ** The threads *)

(** What [main] does next. *)
Inductive main_pc :=
| M_SemWait
| M_DeleteListener
| M_Terminate
| M_Join
| M_Free
| M_SnmpTerminate
| M_DeleteDefs
| M_Exited.

(** The heap thread is about to test [_terminated]; or waits as [w] says since
    the condition variable had [signals] signals; or has returned. *)
Inductive heap_pc :=
| H_Test
| H_Waiting (w : cond_wait) (signals : Z)
| H_Exited.

(** Why a wait on the condition variable ends. *)
Inductive wake_up :=
| Signalled
| TimedOut (now : Z)
| Spurious.

Section threads.
Context `{AlarmDefLib} `{NetSnmpIndex} `{NetSnmpContainer} `{TimerHeap}.

(** [listener_object] and [scheduler] are the two objects [main] owns;
    [term_sem] is the value of the semaphore, and [agent_lock] says whether the lock of
    [SNMP::Agent], which is the scheduler's [_lock], has not been destroyed. *)
Record process := mkProcess {
  main : main_pc;
  heap_thread : heap_pc;
  listener_running : bool;
  listener_object : bool;
  term_sem : nat;
  agent_lock : bool;
  scheduler : option AlarmScheduler;
}.

Inductive action :=
| Terminate
| MainRuns
| HeapRuns (now : Z) (envs : nat -> row_env)
| HeapWakes (why : wake_up)
| Request (msg : list string) (now : Z) (times : Z -> Z)
| ListenerStops
| Deliver (op : callback_op) (trap : nat) (now : Z)
| SnmpRuns.

Inductive step_result :=
| Step (p : process)
| NotEnabled
| Crash.

(** [agent_terminate_handler] *)
Definition agent_terminate_handler (p : process) : process :=
  mkProcess (main p) (heap_thread p) (listener_running p) (listener_object p) (S (term_sem p)) (agent_lock p) (scheduler p).

Definition main_at (m : main_pc) (p : process) : process :=
  mkProcess m (heap_thread p) (listener_running p) (listener_object p) (term_sem p) (agent_lock p) (scheduler p).

Definition heap_at (h : heap_pc) (st : AlarmScheduler) (p : process) : process :=
  mkProcess (main p) h (listener_running p) (listener_object p) (term_sem p) (agent_lock p) (Some st).

Definition with_scheduler (st : AlarmScheduler) (p : process) : process :=
  heap_at (heap_thread p) st p.

(** [~SingleAlarmManager]: the timer it deletes. *)
Definition SingleAlarmManager_destroy (m : SingleAlarmManager) : AlarmTimer := _alarm_timer m.

(** [~AlarmScheduler] after the join: the heap it leaves, cleared so that no timer is in
    it any more, and the timers deleted with their managers. *)
Definition AlarmScheduler_free (st : AlarmScheduler) : heap * list AlarmTimer :=
  (heap_empty, SingleAlarmManager_destroy <$> (_all_alarms_state st).*2).

(** The main thread. [delete alarm_req_listener] frees the object without
    stopping its thread; [~AlarmScheduler] sets the flag and signals under the lock,
    joins the heap thread, destroys the lock and frees the rest. *)
Definition main_step (p : process) : step_result :=
  match main p with
  | M_SemWait =>
    match term_sem p with
    | O => NotEnabled
    | S n => Step (mkProcess M_DeleteListener (heap_thread p) (listener_running p) (listener_object p) n (agent_lock p) (scheduler p))
    end
  | M_DeleteListener =>
    Step (mkProcess M_Terminate (heap_thread p) (listener_running p) false (term_sem p) (agent_lock p) (scheduler p))
  | M_Terminate =>
    match scheduler p with
    | Some st => Step (with_scheduler (AlarmScheduler_terminate st) (main_at M_Join p))
    | None => Crash
    end
  | M_Join =>
    match heap_thread p with
    | H_Exited => Step (main_at M_Free p)
    | _ => NotEnabled
    end
  | M_Free =>
    match scheduler p with
    | Some _ =>
      Step (mkProcess M_SnmpTerminate (heap_thread p) (listener_running p) (listener_object p) (term_sem p) false None)
    | None => Crash
    end
  | M_SnmpTerminate => Step (main_at M_DeleteDefs p)
  | M_DeleteDefs => Step (main_at M_Exited p)
  | M_Exited => NotEnabled
  end.

(** [heap_sender] from the test of [_terminated], with the lock, to the next wait. *)
Definition heap_step (now : Z) (envs : nat -> row_env) (p : process) : step_result :=
  match heap_thread p with
  | H_Test =>
    match scheduler p with
    | None => Crash
    | Some st =>
      if _terminated st then Step (heap_at H_Exited st p)
      else
        match heap_sender_iteration (length (_all_alarms_state st)) now envs st with
        | Some (st', w) => Step (heap_at (H_Waiting w (cond_signals st')) st' p)
        | None => Crash
        end
    end
  | _ => NotEnabled
  end.

(** A wait ends by a signal made since it began, at its time, or for no reason. *)
Definition wakes (why : wake_up) (w : cond_wait) (signals : Z) (st : AlarmScheduler) : bool :=
  match why with
  | Signalled => signals <? cond_signals st
  | TimedOut now =>
    match w with
    | TimedWait sec nsec => sec * 1000 + nsec / 1000000 <=? now
    | WaitForSignal => false
    end
  | Spurious => true
  end.

Definition heap_wake (why : wake_up) (p : process) : step_result :=
  match heap_thread p with
  | H_Waiting w signals =>
    match scheduler p with
    | None => Crash
    | Some st => if wakes why w signals st then Step (heap_at H_Test st p) else NotEnabled
    end
  | _ => NotEnabled
  end.

(** The listener thread serves a request it has read, which is never empty: it
    reads the listener object, and the scheduler through it. *)
Definition request_step (msg : list string) (now : Z) (times : Z -> Z) (p : process) : step_result :=
  match listener_running p, msg with
  | true, _ :: _ =>
    if listener_object p then
      match scheduler p with
      | None => Crash
      | Some st =>
        match serve msg now times st with
        | Some st' => Step (with_scheduler st' p)
        | None => Crash
        end
      end
    else Crash
  | _, _ => NotEnabled
  end.

(** The end of [listener_thread], which posts the semaphore its object names. *)
Definition listener_stops (p : process) : step_result :=
  if listener_running p then
    if listener_object p then
      Step (mkProcess (main p) (heap_thread p) false (listener_object p) (S (term_sem p)) (agent_lock p) (scheduler p))
    else Crash
  else NotEnabled.

(** Net-SNMP's thread holds the lock when it reports on the [n]th trap; only a timeout reaches
    the scheduler, through the pointer the trap sender keeps. *)
Definition deliver_step (op : callback_op) (n : nat) (now : Z) (p : process) : step_result :=
  if agent_lock p then
    match op with
    | NETSNMP_CALLBACK_OP_TIMED_OUT =>
      match scheduler p with
      | None => Crash
      | Some st =>
        match sent_traps st !! n with
        | None => NotEnabled
        | Some t =>
          match alarm_trap_send_callback op (trap_correlator t) now st with
          | Some st' => Step (with_scheduler st' p)
          | None => Crash
          end
        end
      end
    | _ => Step p
    end
  else Crash.

(** Its other work, such as the requests for the tables, under the same lock. *)
Definition snmp_step (p : process) : step_result := if agent_lock p then Step p else Crash.

(** A step of some thread; none once [main] has returned. *)
Definition agent_step (a : action) (p : process) : step_result :=
  match main p with
  | M_Exited => NotEnabled
  | _ =>
    match a with
    | Terminate => Step (agent_terminate_handler p)
    | MainRuns => main_step p
    | HeapRuns now envs => heap_step now envs p
    | HeapWakes why => heap_wake why p
    | Request msg now times => request_step msg now times p
    | ListenerStops => listener_stops p
    | Deliver op n now => deliver_step op n now p
    | SnmpRuns => snmp_step p
    end
  end.

(** The process when [main] waits with the scheduler [st]. *)
Definition process_start (st : AlarmScheduler) : process :=
  mkProcess M_SemWait H_Test true true 0 true (Some st).

(** The threads run as [actions] says. *)
Fixpoint agent_run (actions : list action) (p : process) : step_result :=
  match actions with
  | [] => Step p
  | a :: actions' =>
    match agent_step a p with
    | Step p' => agent_run actions' p'
    | r => r
    end
  end.
End threads.

(** ** The invariant *)

Section invariant.
Context `{AlarmDefLib} `{NetSnmpIndexSpec} `{NetSnmpContainerSpec} `{TimerHeapSpec}.
Implicit Types (st : AlarmScheduler) (p : process).

(** [main] has set [_terminated]; has joined the heap thread; has freed the scheduler. *)
Definition past_terminate (m : main_pc) : bool :=
  match m with M_SemWait | M_DeleteListener | M_Terminate => false | _ => true end.
Definition past_join (m : main_pc) : bool :=
  match m with M_SemWait | M_DeleteListener | M_Terminate | M_Join => false | _ => true end.
Definition past_free (m : main_pc) : bool :=
  match m with M_SnmpTerminate | M_DeleteDefs | M_Exited => true | _ => false end.
Definition past_delete (m : main_pc) : bool :=
  match m with M_SemWait | M_DeleteListener => false | _ => true end.

(** What the heap thread knows of the scheduler: while it waits unsignalled, its
    wait is the one the heap calls for. *)
Definition heap_thread_ok (h : heap_pc) st : Prop :=
  match h with
  | H_Test => True
  | H_Waiting w signals =>
    signals <= cond_signals st /\
    (signals = cond_signals st -> w = next_wait st /\ _terminated st = false)
  | H_Exited => _terminated st = true
  end.

(** The scheduler of a process that started with [st0] and made [n] passes of the
    heap thread. *)
Definition scheduler_ok st0 (n : Z) st : Prop :=
  sched_wf st /\ sent_wf st /\
  length (_all_alarms_state st) = length (_all_alarms_state st0) /\
  alarm_counter (_active_table st) <= n * Z.of_nat (length (_all_alarms_state st0)).

Definition process_ok st0 (n : Z) p : Prop :=
  listener_object p = negb (past_delete (main p)) /\
  agent_lock p = negb (past_free (main p)) /\
  (past_join (main p) = true -> heap_thread p = H_Exited) /\
  match scheduler p with
  | None => past_free (main p) = true
  | Some st =>
    past_free (main p) = false /\ _terminated st = past_terminate (main p) /\
    scheduler_ok st0 n st /\ heap_thread_ok (heap_thread p) st
  end.

(** A pass of the heap thread begins with this action. *)
Definition begins_pass (a : action) : bool := match a with HeapRuns _ _ => true | _ => false end.

(** The processes the threads reach in actions that satisfy [P]; [n] counts the
    passes of the heap thread. *)
Inductive agent_reachable (P : action -> Prop) st0 : Z -> process -> Prop :=
| agent_reachable_start : agent_reachable P st0 0 (process_start st0)
| agent_reachable_step n p a p' :
    agent_reachable P st0 n p -> P a -> agent_step a p = Step p' ->
    agent_reachable P st0 (if begins_pass a then n + 1 else n) p'.

Definition passes (actions : list action) : Z := Z.of_nat (length (List.filter begins_pass actions)).

Lemma passes_cons a actions : passes (a :: actions) = (if begins_pass a then 1 else 0) + passes actions.
Proof. unfold passes. cbn [List.filter]. destruct (begins_pass a); cbn [length]; lia. Qed.

Lemma run_reachable (P : action -> Prop) st0 actions n p p' :
  agent_reachable P st0 n p -> Forall P actions -> agent_run actions p = Step p' ->
  agent_reachable P st0 (n + passes actions) p'.
Proof.
  intros Hr Ha. revert n p Hr. induction Ha as [|a actions Ha Has IH]; intros n p Hr; cbn [agent_run].
  { intros [= <-]. unfold passes. cbn. by rewrite Z.add_0_r. }
  destruct (agent_step a p) as [p1| |] eqn:Hst; try done. intros Hrun.
  pose proof (IH _ _ (agent_reachable_step _ _ _ _ _ _ Hr Ha Hst) Hrun) as Hr'. rewrite passes_cons.
  destruct (begins_pass a); [by rewrite Z.add_assoc|done].
Qed.

(** The destructor deletes each timer once, those in the heap among them. *)
Lemma free_deletes_timers st :
  sched_wf st ->
  heap_timers (AlarmScheduler_free st).1 = ∅ /\
  NoDup (timer_index <$> (AlarmScheduler_free st).2) /\
  forall i, in_heap i st = true -> i ∈ timer_index <$> (AlarmScheduler_free st).2.
Proof.
  intros Hwf. pose proof (sw_shape _ Hwf) as Hsh. split; [apply heap_empty_timers|].
  assert (timer_index <$> (AlarmScheduler_free st).2 = (_all_alarms_state st).*1) as ->.
  { cbn. rewrite <- !list_fmap_compose. apply list_fmap_ext. intros k [i m] Hk. cbn.
    apply (sh_index _ Hsh). apply find_Some_elem; [apply Hsh|]. by eapply list_elem_of_lookup_2. }
  split; [apply sorted_NoDup_keys, Hsh|]. intros i Hi. apply find_elem_of_keys; [apply Hsh|].
  apply (sh_heap _ Hsh). by apply in_heap_spec.
Qed.

Lemma terminate_wf st : sched_wf st -> sched_wf (AlarmScheduler_terminate st).
Proof. intros [[] Hd Hv Hm Ha Hc]. split; [by split|done..]. Qed.

Lemma terminate_ok st0 n st : scheduler_ok st0 n st -> scheduler_ok st0 n (AlarmScheduler_terminate st).
Proof. intros (Hwf & Hs & Hl & Hc). split_and!; [by apply terminate_wf|done..]. Qed.

(** The requests keep the scheduler and what the heap thread knows of it. *)
Lemma request_ok st0 n h e st :
  scheduler_ok st0 n st -> heap_thread_ok h st -> event_ok st e -> is_heap_pass e = false ->
  exists st', run_event e st = Some st' /\ _terminated st' = _terminated st /\
    scheduler_ok st0 n st' /\ heap_thread_ok h st'.
Proof.
  intros (Hwf & Hs & Hl & Hc) Hh Hok Hp.
  destruct (run_event_result e st Hwf Hs Hok) as (st' & He & Hres); [by intros ?; congruence|].
  destruct Hres as (Hwf' & Hs' & Ht & _ & _ & Hk & _ & Hc' & _). rewrite Hp in Hc'.
  exists st'. split_and!; [done..| |].
  - split_and!; [done..| |lia]. rewrite <- Hl, <- !(length_fmap fst). by rewrite Hk.
  - destruct (request_signals_heap_thread e st st' Hp He) as [->|Hsig]; [done|].
    destruct h as [|w c|]; [done| |by simpl; rewrite Ht]. destruct Hh as [Hle _]. split; lia.
Qed.

Lemma heap_pass_ok st0 n st now envs :
  scheduler_ok st0 n st -> (n + 1) * Z.of_nat (length (_all_alarms_state st0)) < UINT_MAX ->
  exists st', heap_sender_iteration (length (_all_alarms_state st)) now envs st = Some (st', next_wait st') /\
    _terminated st' = _terminated st /\ scheduler_ok st0 (n + 1) st'.
Proof.
  intros (Hwf & Hs & Hl & Hc) Hn.
  destruct (heap_pass (length (_all_alarms_state st)) now envs st Hwf (Nat.le_refl _))
    as (st' & l & Hp & Hd); [rewrite Hl; lia|].
  destruct (drains_result now (length (_all_alarms_state st)) envs st l st' Hd Hwf Hs)
    as (Hwf' & Hs' & Ht & _ & _ & Hk & _ & Hc' & _).
  exists st'. split_and!; [done..|]. split_and!; [done..| |].
  - rewrite <- Hl, <- !(length_fmap fst). by rewrite Hk.
  - simpl in Hc'. rewrite Hl in Hc'. lia.
Qed.
End invariant.

Section steps.
Context `{AlarmDefLib} `{NetSnmpIndexSpec} `{NetSnmpContainerSpec} `{TimerHeapSpec}.
Implicit Types (st : AlarmScheduler) (p : process).

(** The action uses what [main] has freed or destroyed: the listener thread its listener, or
    Net-SNMP's thread the lock. *)
Definition uses_freed (a : action) p : bool :=
  match main p, a with
  | M_Exited, _ => false
  | _, Request (_ :: _) _ _ | _, ListenerStops => listener_running p && negb (listener_object p)
  | _, Deliver _ _ _ | _, SnmpRuns => negb (agent_lock p)
  | _, _ => false
  end.

Definition step_ok st0 n a p : Prop :=
  match agent_step a p with
  | Step p' => process_ok st0 (if begins_pass a then n + 1 else n) p' /\ uses_freed a p = false
  | NotEnabled => uses_freed a p = false
  | Crash => uses_freed a p = true
  end.

Lemma scheduler_ok_next st0 n st : scheduler_ok st0 n st -> scheduler_ok st0 (n + 1) st.
Proof. intros (? & ? & ? & ?). split_and!; try done. nia. Qed.

Lemma start_ok st0 :
  sched_wf st0 -> sent_wf st0 -> _terminated st0 = false ->
  alarm_counter (_active_table st0) = 0 -> process_ok st0 0 (process_start st0).
Proof.
  intros ? ? ? Hc. unfold process_ok, scheduler_ok. cbn [scheduler process_start]. rewrite Hc. by split_and!.
Qed.

(** The heap thread's side of the invariant as the main thread sees it. *)
Lemma main_step_ok st0 n p : process_ok st0 n p -> step_ok st0 n MainRuns p.
Proof.
  unfold step_ok, process_ok. destruct p as [m h r o sem lk sch]. cbn.
  intros (Ho & Hk & Hj & Hs).
  destruct m; cbn in *; destruct sch as [st|]; try done; try by destruct Hs.
  - destruct sem; [done|]. by split_and!.
  - destruct Hs as (_ & Ht & Hok & Hh). unfold with_scheduler, heap_at, main_at. cbn.
    pose proof (terminate_ok _ _ _ Hok). split_and!; try done.
    destruct h as [|w c|]; cbn in *; [done| |done]. destruct Hh. split; lia.
  - by destruct h.
Qed.

Lemma heap_step_ok st0 n now envs p :
  process_ok st0 n p -> (n + 1) * Z.of_nat (length (_all_alarms_state st0)) < UINT_MAX ->
  step_ok st0 n (HeapRuns now envs) p.
Proof.
  unfold step_ok, process_ok. destruct p as [m h r o sem lk sch]. intros (Ho & Hk & Hj & Hs) Hn.
  assert (uses_freed (HeapRuns now envs) (mkProcess m h r o sem lk sch) = false) as -> by (by destruct m).
  assert (m <> M_Exited -> match heap_step now envs (mkProcess m h r o sem lk sch) with
          | Step p' => process_ok st0 (n + 1) p' /\ false = false
          | NotEnabled => false = false | Crash => false = true end) as Hgo;
    [|by destruct m; cbn [agent_step main]; try apply Hgo].
  intros Hm. unfold heap_step. cbn [heap_thread scheduler]. destruct h as [| |]; try done.
  destruct sch as [st|]; cbn in *.
  - destruct Hs as (Hf & Ht & Hok & _). destruct (_terminated st) eqn:Hter.
    + split; [|done]. unfold process_ok. cbn. split_and!; try done; try congruence.
      by apply scheduler_ok_next.
    + destruct (heap_pass_ok st0 n st now envs Hok Hn) as (st' & -> & Ht' & Hok').
      split; [|done]. unfold process_ok. cbn.
      assert (past_join m = false) as Hpj by (destruct m; cbn in *; congruence).
      rewrite Hpj. split_and!; try done; try congruence.
      intros _. split; [done|congruence].
  - assert (past_join m = true) as Hpj by (destruct m; cbn in *; congruence).
    apply Hj in Hpj. discriminate Hpj.
Qed.

(** A step that leaves [main] where it is and changes the scheduler to [st']. *)
Lemma with_scheduler_ok st0 n p st st' h :
  process_ok st0 n p -> scheduler p = Some st -> _terminated st' = _terminated st ->
  scheduler_ok st0 n st' -> heap_thread_ok h st' ->
  (past_join (main p) = true -> h = H_Exited) -> process_ok st0 n (heap_at h st' p).
Proof.
  intros (Ho & Hk & _ & Hs) Hst Ht Hok Hh Hj. rewrite Hst in Hs. destruct Hs as (Hf & Ht' & _).
  split_and!; [done..|]. cbn. split_and!; try done. by rewrite Ht.
Qed.

Lemma heap_wake_ok st0 n why p : process_ok st0 n p -> step_ok st0 n (HeapWakes why) p.
Proof.
  intros Hp. pose proof Hp as (Ho & Hk & Hj & Hs).
  assert (uses_freed (HeapWakes why) p = false) as Hu by (unfold uses_freed; by destruct (main p)).
  assert (main p <> M_Exited -> match heap_wake why p with
          | Step p' => process_ok st0 n p' /\ false = false
          | NotEnabled => false = false | Crash => false = true end) as Hgo;
    [|unfold step_ok, agent_step; rewrite Hu; by destruct (main p); try apply Hgo].
  intros Hm. unfold heap_wake. destruct (heap_thread p) as [|w c|] eqn:Hh; try done.
  assert (past_join (main p) = false) as Hpj by (destruct (past_join (main p)); [discriminate (Hj eq_refl)|done]).
  destruct (scheduler p) as [st|] eqn:Hst; [|destruct (main p); cbn in *; congruence].
  destruct (wakes why w c st); [|done]. split; [|done]. destruct Hs as (_ & _ & Hok & _).
  eapply with_scheduler_ok; try done. by rewrite Hpj.
Qed.

Lemma event_step_ok st0 n p st e :
  process_ok st0 n p -> scheduler p = Some st -> event_ok st e -> is_heap_pass e = false ->
  exists st', run_event e st = Some st' /\ process_ok st0 n (with_scheduler st' p).
Proof.
  intros Hp Hst Hok He. pose proof Hp as (_ & _ & Hj & Hs). rewrite Hst in Hs.
  destruct Hs as (_ & _ & Hs & Hh). destruct (request_ok _ _ _ _ _ Hs Hh Hok He) as (st' & Hrun & Ht & Hs' & Hh').
  exists st'. split; [done|]. unfold with_scheduler. by eapply with_scheduler_ok.
Qed.

Lemma listener_step_ok st0 n msg now times p :
  process_ok st0 n p -> step_ok st0 n (Request msg now times) p.
Proof.
  intros Hp. pose proof Hp as (Ho & _ & _ & Hs). unfold step_ok, agent_step, uses_freed, request_step. rewrite Ho.
  destruct (listener_running p), msg as [|c args]; [by destruct (main p)| |by destruct (main p)..].
  destruct (scheduler p) as [st|] eqn:Hst; [|by destruct (main p)].
  assert (exists st', serve (c :: args) now times st = Some st' /\ process_ok st0 n (with_scheduler st' p))
    as (st' & -> & Hp').
  { destruct (serve_event (c :: args) now times st) as [->|(e & -> & Hok & He)]; [done| |by eapply event_step_ok].
    exists st. split; [done|]. unfold with_scheduler, heap_at. destruct p. cbn in *. by subst. }
  by destruct (main p).
Qed.

Lemma listener_stops_ok st0 n p : process_ok st0 n p -> step_ok st0 n ListenerStops p.
Proof.
  intros Hp. pose proof Hp as (Ho & _). unfold step_ok, agent_step, uses_freed, listener_stops. rewrite Ho.
  unfold process_ok in Hp. destruct p as [m h r o sem lk sch]. cbn in *. subst o.
  destruct r; by destruct m.
Qed.

Lemma deliver_ok st0 n op k now p : process_ok st0 n p -> step_ok st0 n (Deliver op k now) p.
Proof.
  intros Hp. pose proof Hp as (_ & Hk & _ & Hs). unfold step_ok, agent_step, uses_freed, deliver_step. rewrite Hk.
  destruct (past_free (main p)) eqn:Hpf; cbn [negb]; [by destruct (main p)|].
  destruct op; try (by destruct (main p)).
  destruct (scheduler p) as [st|] eqn:Hst; [|done].
  destruct (sent_traps st !! k) as [t|] eqn:Ht; [|by destruct (main p)].
  destruct (event_step_ok st0 n p st (Callback NETSNMP_CALLBACK_OP_TIMED_OUT (trap_correlator t) now) Hp Hst)
    as (st' & Hrun & Hp'); [|done|].
  { exists t. split; [by eapply list_elem_of_lookup_2|done]. }
  cbn [run_event] in Hrun. rewrite Hrun. by destruct (main p).
Qed.

Lemma snmp_step_ok st0 n p : process_ok st0 n p -> step_ok st0 n SnmpRuns p.
Proof.
  intros Hp. pose proof Hp as (_ & Hk & _). unfold step_ok, agent_step, uses_freed, snmp_step. rewrite Hk.
  by destruct (main p).
Qed.

(** Every step keeps the invariant, and crashes exactly when it uses a freed object. *)
Lemma agent_step_ok st0 n a p :
  process_ok st0 n p ->
  (begins_pass a = true -> (n + 1) * Z.of_nat (length (_all_alarms_state st0)) < UINT_MAX) ->
  step_ok st0 n a p.
Proof.
  intros Hp Hn. destruct a.
  - unfold step_ok, process_ok in *. destruct p as [m h r o sem lk sch]. by destruct m.
  - by apply main_step_ok.
  - apply heap_step_ok; auto.
  - by apply heap_wake_ok.
  - by apply listener_step_ok.
  - by apply listener_stops_ok.
  - by apply deliver_ok.
  - by apply snmp_step_ok.
Qed.

Lemma agent_reachable_ok P st0 n p :
  agent_reachable P st0 n p -> process_ok st0 0 (process_start st0) ->
  n * Z.of_nat (length (_all_alarms_state st0)) < UINT_MAX -> process_ok st0 n p.
Proof.
  intros Hr Hst0. induction Hr as [|n p a p' Hr IH _ Hst]; intros Hn; [done|].
  assert (step_ok st0 n a p) as Ha.
  { apply agent_step_ok; [apply IH; destruct (begins_pass a); nia|]. intros Hb. by rewrite Hb in Hn. }
  unfold step_ok in Ha. rewrite Hst in Ha. apply Ha.
Qed.
End steps.

(** ** Shutdown *)

Section shutdown.
Context `{AlarmDefLib} `{NetSnmpIndexSpec} `{NetSnmpContainerSpec} `{TimerHeapSpec}.
Implicit Types (st : AlarmScheduler) (p : process).

(** The steps of [main] and, once it is told to end, of the heap thread, until
    [main] returns. *)
Definition main_left (m : main_pc) : nat :=
  match m with
  | M_SemWait => 7 | M_DeleteListener => 6 | M_Terminate => 5 | M_Join => 4
  | M_Free => 3 | M_SnmpTerminate => 2 | M_DeleteDefs => 1 | M_Exited => 0
  end.
Definition heap_left (h : heap_pc) : nat :=
  match h with H_Waiting _ _ => 2 | H_Test => 1 | H_Exited => 0 end.
Definition remaining p : nat :=
  main_left (main p) + if past_terminate (main p) then heap_left (heap_thread p) else 2.

(** The agent has been told to end. *)
Definition shutting_down p : Prop := main p <> M_SemWait \/ (0 < term_sem p)%nat.

(** How a step moves the two threads: [main] onwards, the heap thread from a wait to
    the test and from the test to the end or, before the end is asked for, to a wait. *)
Definition heap_moves (h h' : heap_pc) p : Prop :=
  match h, h' with
  | H_Waiting _ _, H_Test | H_Test, H_Exited => True
  | H_Test, H_Waiting _ _ => exists st, scheduler p = Some st /\ _terminated st = false
  | _, _ => False
  end.

Lemma step_moves a p p' :
  agent_step a p = Step p' ->
  (main p' = main p /\ heap_thread p' = heap_thread p /\ (term_sem p <= term_sem p')%nat) \/
  (S (main_left (main p')) = main_left (main p) /\ heap_thread p' = heap_thread p) \/
  (main p' = main p /\ term_sem p' = term_sem p /\ heap_moves (heap_thread p) (heap_thread p') p).
Proof.
  intros Hst. unfold agent_step in Hst.
  assert (main p <> M_Exited) as Hm by (intros Hm; by rewrite Hm in Hst).
  assert (match a with
          | Terminate => Step (agent_terminate_handler p)
          | MainRuns => main_step p
          | HeapRuns now envs => heap_step now envs p
          | HeapWakes why => heap_wake why p
          | Request msg now times => request_step msg now times p
          | ListenerStops => listener_stops p
          | Deliver op n now => deliver_step op n now p
          | SnmpRuns => snmp_step p
          end = Step p') as Ha by (by destruct (main p)). clear Hst.
  destruct a as [| |now envs|why|msg now times| |op k now|].
  - injection Ha as <-. left. cbn. split_and!; lia || done.
  - right; left. unfold main_step in Ha. by repeat (case_match; simplify_eq/=).
  - right; right. unfold heap_step in Ha. repeat (case_match; simplify_eq/=); unfold heap_moves; eauto.
  - right; right. unfold heap_wake in Ha. by repeat (case_match; simplify_eq/=).
  - left. unfold request_step in Ha. by repeat (case_match; simplify_eq/=).
  - left. unfold listener_stops in Ha. repeat (case_match; simplify_eq/=). split_and!; lia || done.
  - left. unfold deliver_step in Ha. by repeat (case_match; simplify_eq/=).
  - left. unfold snmp_step in Ha. by repeat (case_match; simplify_eq/=).
Qed.

(** No step of any thread takes the agent further from its end. *)
Lemma step_remaining st0 n a p p' :
  process_ok st0 n p -> agent_step a p = Step p' -> shutting_down p ->
  (remaining p' <= remaining p)%nat /\ shutting_down p'.
Proof.
  intros (_ & _ & Hj & Hs) Hst Hd. unfold remaining, shutting_down in *.
  destruct (step_moves _ _ _ Hst) as [(-> & -> & ?)|[(Hm & ->)|(-> & -> & Hh)]].
  - split; [lia|]. destruct Hd; [by left|right; lia].
  - destruct (main p), (main p'); try discriminate Hm; cbn; split; try lia; try (by left).
    destruct (heap_thread p); simpl; lia.
  - split; [|done]. destruct (past_terminate (main p)) eqn:Ht; [|lia].
    unfold heap_moves in Hh. destruct (heap_thread p), (heap_thread p'); try done; simpl; try lia.
    destruct Hh as (st & Hst' & Hf). rewrite Hst' in Hs. destruct Hs as (_ & Ht' & _). congruence.
Qed.

(** While [main] has not returned, its own next step or, at the join, one of the heap
    thread's is possible, and brings the end nearer. *)
Lemma shutdown_progress st0 n p :
  process_ok st0 n p -> shutting_down p -> main p <> M_Exited ->
  exists a p', agent_step a p = Step p' /\ (remaining p' < remaining p)%nat /\
    match a with MainRuns | HeapRuns _ _ | HeapWakes Signalled => True | _ => False end.
Proof.
  unfold process_ok, shutting_down, remaining. destruct p as [m h r o sem lk sch]. cbn.
  intros (_ & _ & Hj & Hs) Hd Hm.
  destruct m; try done; destruct sch as [st|]; try done; try by destruct Hs.
  all: try by (exists MainRuns; eexists; split; [done|cbn; split; [lia|done]]).
  - destruct Hd as [Hd|Hd]; [done|]. destruct sem; [lia|]. exists MainRuns; eexists; split; [done|cbn; split; [lia|done]].
  - exists MainRuns; eexists; split; [done|cbn; split; [destruct h; cbn; lia|done]].
  - destruct Hs as (_ & Ht & _ & Hh). destruct h as [|w c|].
    + exists (HeapRuns 0 (fun _ => mkRowEnv true (mkTm 0 0 0 0 0 0) 0)); eexists; cbn. rewrite Ht.
      split; [done|cbn; split; [lia|done]].
    + exists (HeapWakes Signalled); eexists; cbn. destruct Hh as [Hle Heq].
      rewrite (proj2 (Z.ltb_lt c (cond_signals st))).
      * split; [done|cbn; split; [lia|done]].
      * destruct (Z.eq_dec c (cond_signals st)) as [He|]; [|lia]. destruct (Heq He) as [_ Hf]. cbn in Ht. congruence.
    + exists MainRuns; eexists; split; [done|cbn; split; [lia|done]].
Qed.
End shutdown.

(** ** Theorems *)

Section theorems.
Context `{AlarmDefLib} `{NetSnmpIndexSpec} `{NetSnmpContainerSpec} `{TimerHeapSpec}.
Implicit Types (st : AlarmScheduler) (p : process).

Lemma started_ok defs notifications hostname ip ok1 ok2 :
  defs_ok defs ->
  let st0 := agent_start defs notifications hostname ip ok1 ok2 in process_ok st0 0 (process_start st0).
Proof.
  intros Hd. apply start_ok; [by apply agent_start_wf|apply make_sent_wf|done|apply (init_active ip ok1 ok2)].
Qed.

(** C5: what the threads of the agent share. In every interleaving of the main, heap, listener
    and SNMP threads, from start-up to the end of [main], whatever the requests, callbacks and
    wake-ups, the scheduler keeps its invariant while it exists, and is freed, and the lock it
    shares with Net-SNMP's thread destroyed, only after the heap thread has returned. No step
    crashes before the termination signal; the steps that crash after it are exactly those of
    the listener thread, which nobody stopped, once the listener is deleted (a request, or its
    end), and every step of Net-SNMP's thread once the destructor of the scheduler has destroyed
    the lock of that thread. *)
Theorem agent_threads_safe defs notifications hostname ip ok1 ok2 P n p a :
  let st0 := agent_start defs notifications hostname ip ok1 ok2 in
  defs_ok defs -> agent_reachable P st0 n p ->
  (n + 1) * Z.of_nat (length (_all_alarms_state st0)) < UINT_MAX ->
  (agent_step a p = Crash <-> uses_freed a p = true) /\
  (main p = M_SemWait -> agent_step a p <> Crash) /\
  match scheduler p with
  | Some st => sched_wf st /\ sent_wf st /\ agent_lock p = true
  | None => heap_thread p = H_Exited /\ agent_lock p = false
  end.
Proof.
  intros st0 Hd Hr Hn.
  assert (process_ok st0 n p) as Hp by (eapply agent_reachable_ok; [done|by apply started_ok|lia]).
  pose proof (agent_step_ok st0 n a p Hp (fun _ => Hn)) as Hok. unfold step_ok in Hok.
  assert (agent_step a p = Crash <-> uses_freed a p = true) as Hc
    by (destruct (agent_step a p) as [p'| |]; [destruct Hok as [_ ->]|rewrite Hok|rewrite Hok]; done).
  destruct Hp as (Ho & Hk & Hj & Hs). split_and!; [done| |].
  - intros Hm Hcr. apply Hc in Hcr. unfold uses_freed in Hcr. rewrite Hm in *. cbn in Ho, Hk. rewrite Ho, Hk in Hcr.
    destruct a as [| | | |[|]| |[]|]; cbn in Hcr; rewrite ?andb_false_r in Hcr; done.
  - destruct (scheduler p) as [st|].
    + destruct Hs as (Hf & _ & (? & ? & _) & _). by rewrite Hk, Hf.
    + rewrite Hk, Hs. split; [|done]. apply Hj. by destruct (main p).
Qed.

(** C15: the heap thread never sleeps past an alarm. In every interleaving, whenever
    it waits and has not been signalled since, the agent has not been told to end
    and the wait is the one the heap now calls for: until the earliest pop time of any
    alarm scheduled, or without limit when none is. *)
Theorem heap_thread_waits_right defs notifications hostname ip ok1 ok2 P n p w signals st :
  let st0 := agent_start defs notifications hostname ip ok1 ok2 in
  defs_ok defs -> agent_reachable P st0 n p ->
  n * Z.of_nat (length (_all_alarms_state st0)) < UINT_MAX ->
  heap_thread p = H_Waiting w signals -> scheduler p = Some st -> wakes Signalled w signals st = false ->
  _terminated st = false /\
  match w with
  | WaitForSignal => forall i, in_heap i st = false
  | TimedWait sec nsec =>
    exists i, in_heap i st = true /\ pop_times st i = sec * 1000 + nsec / 10 ^ 6 /\
              forall j, in_heap j st = true -> pop_times st i <= pop_times st j
  end.
Proof.
  intros st0 Hd Hr Hn Hw Hst Hsig.
  assert (process_ok st0 n p) as (_ & _ & _ & Hs) by (eapply agent_reachable_ok; [done|by apply started_ok|lia]).
  rewrite Hst, Hw in Hs. destruct Hs as (_ & _ & (Hwf & _) & Hle & Heq).
  cbn in Hsig. apply Z.ltb_ge in Hsig. destruct Heq as [-> Ht]; [lia|]. split; [done|].
  pose proof (next_wait_spec st (sw_shape _ Hwf)) as Hnext. destruct (next_wait st); [apply Hnext|done].
Qed.

(** C14: the agent ends when it is told to. From any point of any interleaving after
    the termination signal, the end is at most nine steps of the main and heap threads
    away; no step of any thread makes it further, and until [main] returns one
    of those steps is possible that brings it nearer: [main] never waits for a thread
    that waits for it, and the heap thread's wait has been signalled. *)
Theorem agent_shuts_down defs notifications hostname ip ok1 ok2 P n p :
  let st0 := agent_start defs notifications hostname ip ok1 ok2 in
  defs_ok defs -> agent_reachable P st0 n p ->
  n * Z.of_nat (length (_all_alarms_state st0)) < UINT_MAX -> shutting_down p ->
  (remaining p <= 9)%nat /\
  (forall a p', agent_step a p = Step p' -> (remaining p' <= remaining p)%nat /\ shutting_down p') /\
  (main p = M_Exited \/
   exists a p', agent_step a p = Step p' /\ (remaining p' < remaining p)%nat /\
     match a with MainRuns | HeapRuns _ _ | HeapWakes Signalled => True | _ => False end).
Proof.
  intros st0 Hd Hr Hn Hsd.
  assert (process_ok st0 n p) as Hp by (eapply agent_reachable_ok; [done|by apply started_ok|lia]).
  split_and!.
  - unfold remaining. destruct (main p), (heap_thread p); simpl; lia.
  - intros a p' Ha. by eapply step_remaining.
  - destruct (main p) eqn:Hm; try (right; eapply shutdown_progress; [done..|congruence]). by left.
Qed.
End theorems.

(** ** Witnesses *)

Module ThreadsSample.
Import Sample Reference ReferenceHeap ScheduleSample.

(** The heap thread waits before anything is asked for; a critical alarm comes, its
    wait is signalled, the alarm is sent; then the agent is told to end. *)
Definition raise_actions : list action :=
  [HeapRuns 0 (fun _ => env); Request ["issue-alarm"; "monit"; "1000.3"] 5 (fun _ => 5);
   HeapWakes Signalled; HeapRuns 5 (fun _ => env)].
Definition end_actions : list action :=
  [Terminate; MainRuns; MainRuns; MainRuns; HeapWakes Signalled; HeapRuns 6 (fun _ => env); MainRuns; MainRuns].

Definition run_from (actions : list action) (p : process) : process :=
  match agent_run actions p with Step p' => p' | _ => p end.
Definition waiting : process := run_from raise_actions (process_start start).
Definition freed : process := run_from end_actions waiting.

Lemma waiting_reachable : agent_reachable (fun _ => True) start 2 waiting.
Proof.
  apply (run_reachable _ start raise_actions 0 (process_start start)); [constructor|repeat constructor|].
  vm_compute. reflexivity.
Qed.
Lemma freed_reachable : agent_reachable (fun _ => True) start 3 freed.
Proof.
  apply (run_reachable _ start end_actions 2 waiting); [apply waiting_reachable|repeat constructor|].
  vm_compute. reflexivity.
Qed.
End ThreadsSample.
Import Sample Reference ReferenceHeap ScheduleSample ThreadsSample.

Lemma agent_threads_safe_witness :
  agent_step (Request ["poll"] 0 (fun _ => 0)) freed = Crash /\ agent_step SnmpRuns freed = Crash /\
  agent_step (Request ["issue-alarm"; "monit"; "1000.1"] 9 (fun _ => 9)) waiting <> Crash /\
  heap_thread freed = H_Exited.
Proof.
  destruct (agent_threads_safe Sample.defs [(RFC3877, tt); (ENTERPRISE, tt)] "host" "10.0.0.1" true true
              (fun _ => True) 3 freed (Request ["poll"] 0 (fun _ => 0)) defs_ok_sample freed_reachable) as (Hc & _ & Hs);
    [vm_compute; reflexivity|].
  destruct (agent_threads_safe Sample.defs [(RFC3877, tt); (ENTERPRISE, tt)] "host" "10.0.0.1" true true
              (fun _ => True) 2 waiting (Request ["issue-alarm"; "monit"; "1000.1"] 9 (fun _ => 9)) defs_ok_sample waiting_reachable)
    as (_ & Hw & _); [vm_compute; reflexivity|].
  destruct (agent_threads_safe Sample.defs [(RFC3877, tt); (ENTERPRISE, tt)] "host" "10.0.0.1" true true
              (fun _ => True) 3 freed SnmpRuns defs_ok_sample freed_reachable) as (Hk & _); [vm_compute; reflexivity|].
  split; [apply Hc; vm_compute; reflexivity|].
  split; [apply Hk; vm_compute; reflexivity|].
  split; [apply Hw; vm_compute; reflexivity|].
  assert (scheduler freed = None) as Hnone by (vm_compute; reflexivity). by rewrite Hnone in Hs.
Defined.

Lemma heap_thread_waits_right_witness :
  exists w signals st, heap_thread waiting = H_Waiting w signals /\ scheduler waiting = Some st /\
    w = WaitForSignal /\ forall i, in_heap i st = false.
Proof.
  assert (heap_thread waiting = H_Waiting WaitForSignal 1) as Hw by (vm_compute; reflexivity).
  assert (cond_signals <$> scheduler waiting = Some 1) as Hc by (vm_compute; reflexivity).
  destruct (scheduler waiting) as [st|] eqn:Hst; [|discriminate Hc].
  assert (cond_signals st = 1) as Hsig by (by injection Hc). rewrite <- Hsig in Hw.
  exists WaitForSignal, (cond_signals st), st. split; [exact Hw|]. split; [reflexivity|]. split; [reflexivity|].
  refine (proj2 (heap_thread_waits_right Sample.defs [(RFC3877, tt); (ENTERPRISE, tt)] "host" "10.0.0.1" true true
              (fun _ => True) 2 waiting WaitForSignal (cond_signals st) st defs_ok_sample waiting_reachable _ Hw Hst _)).
  - vm_compute. reflexivity.
  - apply Z.ltb_irrefl.
Defined.

Lemma agent_shuts_down_witness :
  main (run_from [Terminate] waiting) = M_SemWait /\ (remaining (run_from [Terminate] waiting) <= 9)%nat /\
  exists a p', agent_step a (run_from [Terminate] waiting) = Step p'.
Proof.
  assert (main (run_from [Terminate] waiting) = M_SemWait) as Hm by (vm_compute; reflexivity).
  destruct (agent_shuts_down Sample.defs [(RFC3877, tt); (ENTERPRISE, tt)] "host" "10.0.0.1" true true
              (fun _ => True) 2 (run_from [Terminate] waiting) defs_ok_sample) as (Hle & _ & Hp).
  - apply (run_reachable (fun _ => True) start [Terminate] 2 waiting);
      [apply waiting_reachable|repeat constructor|vm_compute; reflexivity].
  - vm_compute. reflexivity.
  - right. vm_compute. lia.
  - split; [exact Hm|]. split; [exact Hle|]. destruct Hp as [He|(a & p' & Ha & _)].
    + rewrite Hm in He. discriminate He.
    + exists a, p'. exact Ha.
Defined.
