(* ===== verification/AlarmDelivery.v ===== *)
(** From a trigger to the manager: the composition of the listener, the scheduler, the
    heap thread and the Alarm Active Table over the interleavings of AgentThreads.v.

    A step of a thread is at most one event of the scheduler ([step_event]), so the
    specification of Scheduler.v holds along every interleaving; the theorem
    follows an alarm from its request to the notifications and to its row. *)

From S2P Require Export AgentThreads.

Section delivery.
Context `{AlarmDefLib} `{NetSnmpIndexSpec} `{NetSnmpContainerSpec} `{TimerHeapSpec}.
Implicit Types (st : AlarmScheduler) (p : process).

(** ** Steps and events *)

(** The event of the scheduler an action is, if it is one. *)
Definition action_event (a : action) st : option event :=
  match a with
  | Request [command; issuer; identifier] now times =>
    if String.eqb command "issue-alarm" then Some (Issue issuer identifier now) else None
  | Request [command] now times => if String.eqb command "sync-alarms" then Some (Sync times) else None
  | HeapRuns now envs => Some (HeapSender (length (_all_alarms_state st)) now envs)
  | Deliver NETSNMP_CALLBACK_OP_TIMED_OUT k now =>
    (fun t => Callback NETSNMP_CALLBACK_OP_TIMED_OUT (trap_correlator t) now) <$> sent_traps st !! k
  | _ => None
  end.

Lemma serve_action_event msg now times st :
  msg <> [] ->
  serve msg now times st =
    match action_event (Request msg now times) st with Some e => run_event e st | None => Some st end.
Proof.
  intros Hm. destruct msg as [|c args]; [done|]. unfold serve. cbn [lookup list_lookup mbind option_bind].
  destruct args as [|issuer [|identifier [|extra args]]]; cbn [action_event length Nat.eqb]; rewrite ?andb_false_r.
  - destruct (String.eqb_spec c "issue-alarm") as [->|]; cbn; [done|]. by destruct (String.eqb c "sync-alarms").
  - done.
  - rewrite andb_true_r. by destruct (String.eqb c "issue-alarm").
  - done.
Qed.

Lemma heap_event_begins a st e : action_event a st = Some e -> is_heap_pass e = true -> begins_pass a = true.
Proof.
  destruct a as [| | | |[|? [|? [|? [|]]]]| |[]|]; cbn; intros He Hp; repeat case_match; simplify_eq; try done.
  by apply fmap_Some in He as (t & _ & ->).
Qed.

(** Actions that are no event, whatever the state. *)
Definition silent (a : action) : bool :=
  match a with
  | Terminate | MainRuns | HeapWakes _ | ListenerStops | SnmpRuns => true
  | HeapRuns _ _ => false
  | Request [command; _; _] _ _ => negb (String.eqb command "issue-alarm")
  | Request [command] _ _ => negb (String.eqb command "sync-alarms")
  | Request _ _ _ => true
  | Deliver NETSNMP_CALLBACK_OP_TIMED_OUT _ _ => false
  | Deliver _ _ _ => true
  end.

Lemma request_silent msg now times st :
  action_event (Request msg now times) st = None -> silent (Request msg now times) = true.
Proof.
  destruct msg as [|c [|? [|? [|]]]]; cbn; try done;
    [destruct (String.eqb c "sync-alarms")|destruct (String.eqb c "issue-alarm")]; done.
Qed.

(** What a step does to the scheduler, while it exists: nothing, which only silent
    actions and the end of the heap thread do; the setting of [_terminated], by [main]; or
    an event. *)
Lemma step_cases a p p' st' :
  agent_step a p = Step p' -> scheduler p' = Some st' ->
  exists st, scheduler p = Some st /\
    ((st' = st /\ (silent a = true \/ begins_pass a = true /\ _terminated st = true)) \/
     (a = MainRuns /\ st' = AlarmScheduler_terminate st) \/
     exists e, action_event a st = Some e /\ event_ok st e /\ run_event e st = Some st' /\
               (is_heap_pass e = true -> _terminated st = false)).
Proof.
  intros Hst Hs'. unfold agent_step in Hst.
  assert (match a with
          | Terminate => Step (agent_terminate_handler p)
          | MainRuns => main_step p
          | HeapRuns now envs => heap_step now envs p
          | HeapWakes why => heap_wake why p
          | Request msg now times => request_step msg now times p
          | ListenerStops => listener_stops p
          | Deliver op n now => deliver_step op n now p
          | SnmpRuns => snmp_step p
          end = Step p') as Ha by (by destruct (main p)). clear Hst.
  destruct a as [| |now envs|why|msg now times| |op k now|].
  - injection Ha as <-. exists st'. split; [done|]. left. auto.
  - unfold main_step in Ha. repeat (case_match; simplify_eq/=); eauto 6.
  - unfold heap_step in Ha. destruct (heap_thread p); try done. destruct (scheduler p) as [st|]; [|done].
    exists st. split; [done|]. destruct (_terminated st) eqn:Ht; [left; simplify_eq/=; auto|].
    destruct (heap_sender_iteration _ now envs st) as [[st1 w]|] eqn:Hp; [|done]. simplify_eq/=.
    right; right. eexists. split_and!; [done|by simpl| |done]. cbn. by rewrite Hp.
  - unfold heap_wake in Ha. repeat (case_match; simplify_eq/=); eauto 6.
  - unfold request_step in Ha. destruct (listener_running p), msg as [|c args]; try done.
    destruct (listener_object p); [|done]. destruct (scheduler p) as [st|]; [|done]. exists st. split; [done|].
    rewrite serve_action_event in Ha by done.
    destruct (action_event (Request (c :: args) now times) st) as [e|] eqn:He;
      [|left; apply request_silent in He; simplify_eq/=; auto].
    destruct (run_event e st) as [st1|] eqn:Hr; [|done]. simplify_eq/=. right; right. exists e. split_and!; try done.
    + destruct args as [|? [|? [|]]]; cbn in He; repeat case_match; by simplify_eq.
    + destruct args as [|? [|? [|]]]; cbn in He; repeat case_match; by simplify_eq.
  - unfold listener_stops in Ha. repeat (case_match; simplify_eq/=); eauto 6.
  - unfold deliver_step in Ha. destruct (agent_lock p); [|done]. destruct op; try (by simplify_eq/=; eauto 6).
    destruct (scheduler p) as [st|]; [|done]. exists st. split; [done|].
    destruct (sent_traps st !! k) as [t|] eqn:Ht; [|done].
    destruct (alarm_trap_send_callback _ _ now st) as [st1|] eqn:Hr; [|done]. simplify_eq/=.
    right; right. eexists. rewrite Ht. split_and!; [done| |done|done].
    exists t. by split; [eapply list_elem_of_lookup_2|].
  - unfold snmp_step in Ha. destruct (agent_lock p); [|done]. simplify_eq/=; eauto 6.
Qed.

Lemma step_event a p p' st' :
  agent_step a p = Step p' -> scheduler p' = Some st' ->
  exists st, scheduler p = Some st /\
    (st' = st \/ st' = AlarmScheduler_terminate st \/
     exists e, action_event a st = Some e /\ event_ok st e /\ run_event e st = Some st').
Proof.
  intros Hst Hs'. destruct (step_cases _ _ _ _ Hst Hs') as (st & ? & [[-> _]|[[_ ->]|(e & ? & ? & ? & _)]]); eauto 10.
Qed.

(** Actions that leave alarm [i] alone until [pop]: no trigger for it, no resync, and no
    pass of the heap thread at or after that time. *)
Definition quiet (i pop : Z) (a : action) : Prop :=
  match a with
  | Request [command; _; identifier] _ _ =>
    command = "issue-alarm" ->
    match sscanf_u_dot_u identifier with Some (index, _) => index <> i | None => True end
  | Request [command] _ _ => command <> "sync-alarms"
  | HeapRuns now _ => now < pop
  | _ => True
  end.

Lemma quiet_event i pop a st e defs c s :
  quiet i pop a -> action_event a st = Some e ->
  event_spec defs e i (mkView c (Scheduled s pop)) = mkView c (Scheduled s pop).
Proof.
  destruct a as [| |now envs|why|msg now times| |op k now|]; try done.
  - cbn. intros Hq [= <-]. cbn. unfold pop_spec, is_due. cbn. by rewrite (proj2 (Z.leb_gt _ _) Hq).
  - destruct msg as [|cmd [|issuer [|identifier [|]]]]; try done; cbn.
    + destruct (String.eqb_spec cmd "sync-alarms"); done.
    + destruct (String.eqb_spec cmd "issue-alarm") as [->|]; [|done]. intros Hq [= <-]. specialize (Hq eq_refl).
      cbn. destruct (sscanf_u_dot_u identifier) as [[index sev]|]; [|done].
      by rewrite (proj2 (Z.eqb_neq _ _) Hq).
  - destruct op; try done. cbn. intros _ (t & _ & ->)%fmap_Some. cbn. by destruct (alarm_index _ =? i).
Qed.

(** A step keeps an alarm its event does not concern. *)
Lemma step_undisturbed st0 n a p p' st' i v :
  process_ok st0 n p ->
  (begins_pass a = true -> (n + 1) * Z.of_nat (length (_all_alarms_state st0)) < UINT_MAX) ->
  agent_step a p = Step p' -> scheduler p' = Some st' ->
  exists st, scheduler p = Some st /\
    _alarm_table_defs st' = _alarm_table_defs st /\ _trap_sender st' = _trap_sender st /\
    (view st i = Some v ->
     (forall e, action_event a st = Some e -> event_spec (_alarm_table_defs st) e i v = v) -> view st' i = Some v).
Proof.
  intros (_ & _ & _ & Hs) Hn Hst Hs'. destruct (step_event _ _ _ _ Hst Hs') as (st & Hsp & Hcase).
  exists st. split; [done|]. rewrite Hsp in Hs. destruct Hs as (_ & _ & (Hwf & Hsw & Hl & Hc) & _).
  destruct Hcase as [->|[->|(e & He & Hok & Hrun)]]; [done|done|].
  destruct (run_event_result e st Hwf Hsw Hok) as (st1 & Hrun' & Hres).
  { intros Hp. specialize (Hn (heap_event_begins _ _ _ He Hp)). rewrite Hl. lia. }
  assert (st1 = st') as -> by congruence. destruct Hres as (_ & _ & _ & Hd & Hsd & _ & _ & _ & Hv).
  split_and!; [done..|]. intros Hvi Hsame. rewrite Hv, Hvi. cbn. by rewrite Hsame.
Qed.

Lemma run_scheduler acts p p' st' :
  agent_run acts p = Step p' -> scheduler p' = Some st' -> is_Some (scheduler p).
Proof.
  revert p. induction acts as [|a acts IH]; intros p Hrun Hs'; cbn in Hrun; [simplify_eq; by eexists|].
  destruct (agent_step a p) as [p1| |] eqn:Hs; try done. destruct (IH p1 Hrun Hs') as [st1 Hst1].
  destruct (step_event _ _ _ _ Hs Hst1) as (st & Hst & _). by eexists.
Qed.

Lemma run_undisturbed st0 acts n p p' st st' i c s pop :
  process_ok st0 n p -> (n + passes acts) * Z.of_nat (length (_all_alarms_state st0)) < UINT_MAX ->
  Forall (quiet i pop) acts -> agent_run acts p = Step p' ->
  scheduler p = Some st -> scheduler p' = Some st' -> view st i = Some (mkView c (Scheduled s pop)) ->
  view st' i = Some (mkView c (Scheduled s pop)) /\
  _alarm_table_defs st' = _alarm_table_defs st /\ _trap_sender st' = _trap_sender st.
Proof.
  intros Hp Hn Hq. revert n p st Hp Hn. induction Hq as [|a acts Hqa Hq IH]; intros n p st Hp Hn Hrun Hst Hst' Hv.
  { cbn in Hrun. by simplify_eq. }
  cbn in Hrun. destruct (agent_step a p) as [p1| |] eqn:Hs1; try done. rewrite passes_cons in Hn.
  assert (0 <= passes acts) as Hpa by (unfold passes; lia).
  assert (begins_pass a = true -> (n + 1) * Z.of_nat (length (_all_alarms_state st0)) < UINT_MAX) as Hn1
    by (intros Hb; rewrite Hb in Hn; nia).
  pose proof (agent_step_ok st0 n a p Hp Hn1) as Hok. unfold step_ok in Hok. rewrite Hs1 in Hok.
  destruct Hok as [Hp1 _].
  destruct (scheduler p1) as [st1|] eqn:Hst1.
  - destruct (step_undisturbed _ _ _ _ _ _ i (mkView c (Scheduled s pop)) Hp Hn1 Hs1 Hst1) as (st2 & Hst2 & Hd & Hsd & Hv1).
    assert (st2 = st) as -> by congruence.
    destruct (IH _ p1 st1 Hp1) as (? & -> & ->); [destruct (begins_pass a); lia|done..| |done].
    apply Hv1; [done|]. intros e He. by eapply quiet_event.
  - destruct (run_scheduler _ _ _ _ Hrun Hst') as [st1 ?]. congruence.
Qed.

(** ** The Alarm Active Table over the interleavings *)

(** Every row a pass creates can be created. *)
Definition action_env_ok (a : action) : Prop :=
  match a with HeapRuns _ envs => forall n, row_env_ok (envs n) | _ => True end.

Lemma action_event_env a st e : action_env_ok a -> action_event a st = Some e -> event_env_ok e.
Proof.
  destruct a as [| | | |[|? [|? [|? [|]]]]| |[]|]; cbn; intros Ha He; repeat case_match; simplify_eq/=; try done.
  by apply fmap_Some in He as (t & _ & ->).
Qed.

Lemma agent_shows st0 n p :
  agent_reachable action_env_ok st0 n p -> process_ok st0 0 (process_start st0) ->
  my_handler (at_table (_active_table st0)) = true -> shows_last_sent st0 ->
  n * Z.of_nat (length (_all_alarms_state st0)) < UINT_MAX ->
  forall st, scheduler p = Some st ->
    my_handler (at_table (_active_table st)) = true /\ shows_last_sent st /\
    _alarm_table_defs st = _alarm_table_defs st0 /\ _trap_sender st = _trap_sender st0.
Proof.
  intros Hr Hok0 Hreg Hsh. induction Hr as [|n p a p' Hr IH Henv Hst]; intros Hn st' Hs'; [by simplify_eq/=|].
  assert (n * Z.of_nat (length (_all_alarms_state st0)) < UINT_MAX) as Hn0 by (destruct (begins_pass a); nia).
  assert (process_ok st0 n p) as Hp by (by eapply agent_reachable_ok).
  destruct (step_event _ _ _ _ Hst Hs') as (st & Hsp & Hcase). destruct (IH Hn0 st Hsp) as (Hreg1 & Hsh1 & Hd1 & Hsd1).
  destruct Hcase as [->|[->|(e & He & Hok & Hrun)]]; [done|done|].
  destruct Hp as (_ & _ & _ & Hs). rewrite Hsp in Hs. destruct Hs as (_ & _ & (Hwf & Hsw & Hl & Hc) & _).
  assert (counter_room e st) as Hroom.
  { intros Hp. assert (begins_pass a = true) as Hb by by eapply heap_event_begins. rewrite Hb in Hn. rewrite Hl. lia. }
  destruct (run_event_result e st Hwf Hsw Hok Hroom) as (st1 & Hrun' & Hres).
  assert (st1 = st') as -> by congruence. destruct Hres as (_ & _ & _ & Hd & Hsd & _ & Hreg' & _).
  split_and!; [congruence| |congruence..]. eapply run_event_shows; try done. by eapply action_event_env.
Qed.
End delivery.

(** ** Theorems *)

Section theorems.
Context `{AlarmDefLib} `{NetSnmpIndexSpec} `{NetSnmpContainerSpec} `{TimerHeapSpec}.
Implicit Types (st : AlarmScheduler) (p : process).

(** A trigger for an alarm without a timer schedules it, whatever thread comes next. *)
Lemma trigger_step st0 n p st issuer index sev now times c :
  process_ok st0 n p -> main p = M_SemWait -> listener_running p = true -> scheduler p = Some st ->
  in_u32 index -> in_u32 sev -> is_valid (get_definition (_alarm_table_defs st) index sev) = true ->
  view st index = Some (mkView c Idle) -> sev <> c -> 0 <= now -> now + ALARM_REDUCED_DELAY <= UINT64_MAX ->
  exists p1 st1,
    agent_step (Request ["issue-alarm"; issuer; dec index +:+ "." +:+ dec sev] now times) p = Step p1 /\
    scheduler p1 = Some st1 /\
    view st1 index = Some (mkView c (Scheduled sev (now + if c <? sev then 0 else 30000))).
Proof.
  intros (Ho & _ & _ & Hs) Hm Hl Hst Hi Hsev Hval Hv Hne Hnow Hmax. rewrite Hst in Hs.
  destruct Hs as (_ & _ & (Hwf & _) & _).
  destruct (issue_valid issuer (dec index +:+ "." +:+ dec sev) index sev now st Hwf) as (st1 & He & _ & _ & Hview);
    [by apply sscanf_print|done|].
  exists (with_scheduler st1 p), st1. unfold agent_step, request_step. rewrite Hm, Hl, Ho, Hm, Hst. cbn [negb past_delete].
  rewrite serve_action_event by done. cbn [action_event]. rewrite String.eqb_refl. cbn [run_event]. rewrite He.
  split_and!; [done..|]. rewrite Hview, Hv, Z.eqb_refl. cbn. unfold issue_spec, change_delay. cbn.
  rewrite (proj2 (Z.eqb_neq _ _) Hne). do 3 f_equal. unfold ALARM_INCREASED_DELAY, ALARM_REDUCED_DELAY in *.
  destruct (c <? sev); by rewrite u64_id by lia.
Qed.

(** A waiting heap thread can be woken once an alarm scheduled is due. *)
Lemma due_wakes st0 n p st i c s pop t :
  process_ok st0 n p -> main p = M_SemWait -> scheduler p = Some st ->
  view st i = Some (mkView c (Scheduled s pop)) -> pop <= t ->
  heap_thread p = H_Test \/
  exists why p', (why = Signalled \/ why = TimedOut t) /\ agent_step (HeapWakes why) p = Step p' /\
    heap_thread p' = H_Test.
Proof.
  intros (_ & _ & _ & Hs) Hm Hst Hv Ht. rewrite Hst, Hm in Hs. destruct Hs as (_ & Hter & (Hwf & _) & Hh).
  cbn in Hter. destruct (heap_thread p) as [|w signals|] eqn:Hheap; [by left| |cbn in Hh; congruence]. right.
  destruct (view_scheduled _ _ _ _ _ Hv) as (Hin & Hpop & _). destruct Hh as [Hle Heq].
  unfold agent_step, heap_wake. rewrite Hm, Hheap, Hst.
  destruct (Z.eq_dec signals (cond_signals st)) as [He|].
  - destruct (Heq He) as [-> _]. pose proof (next_wait_spec st (sw_shape _ Hwf)) as Hnext.
    exists (TimedOut t). destruct (next_wait st) as [sec ns|]; [|by rewrite Hnext in Hin].
    destruct Hnext as (_ & j & _ & Hj & Hmin). specialize (Hmin i Hin). change (10 ^ 6) with 1000000 in Hj.
    cbn [wakes]. rewrite (proj2 (Z.leb_le _ _)) by lia. eexists. split; [by right|done].
  - exists Signalled. cbn [wakes]. rewrite (proj2 (Z.ltb_lt _ _)) by lia. eexists. split; [by left|done].
Qed.

(** A pass when an alarm is due sends it and shows it. *)
Lemma due_pass st0 n p st i c s pop t envs :
  process_ok st0 n p -> (n + 1) * Z.of_nat (length (_all_alarms_state st0)) < UINT_MAX ->
  main p = M_SemWait -> scheduler p = Some st -> heap_thread p = H_Test ->
  view st i = Some (mkView c (Scheduled s pop)) -> pop <= t -> (forall k, row_env_ok (envs k)) ->
  my_handler (at_table (_active_table st)) = true -> shows_last_sent st ->
  let def := get_definition (_alarm_table_defs st) i s in
  exists p' st' before traps after, agent_step (HeapRuns t envs) p = Step p' /\ scheduler p' = Some st' /\
    send_trap (_trap_sender st) def = Some traps /\
    sent_traps st' = sent_traps st ++ before ++ traps ++ after /\
    active_view (_active_table st') i = if s =? CLEARED then None else Some def.
Proof.
  intros (_ & _ & _ & Hs) Hn Hm Hst Hheap Hv Hpop Henv Hreg Hsh def. rewrite Hst, Hm in Hs.
  destruct Hs as (_ & Hter & (Hwf & _ & Hl & Hc) & _). cbn in Hter.
  destruct (heap_pass (length (_all_alarms_state st)) t envs st Hwf (Nat.le_refl _)) as (st' & l & Hp & Hd);
    [rewrite Hl; lia|].
  assert (i ∈ l) as Hi.
  { apply (drains_order _ _ _ _ _ Hd Hwf). rewrite (due_view _ _ _ _ Hv). by apply Z.leb_le. }
  destruct (drains_sent_one _ _ _ _ _ _ Hd Hwf Hi) as (before & after & Hsent).
  destruct (view_scheduled _ _ _ _ _ Hv) as (_ & _ & Hdef).
  pose proof (sw_views _ Hwf _ _ Hv) as [_ Hval]. cbn in Hval.
  pose proof (proj2 (sw_defs _ Hwf) _ _ Hval) as [Hkn Hund].
  pose proof (proj2 (defs_wf_get _ _ _ (proj1 (sw_defs _ Hwf)) Hval)) as Hsev.
  destruct (send_trap_known (_trap_sender st) def) as [traps Htr]; [unfold def; by rewrite Hsev|].
  eexists _, st', before, traps, after. unfold agent_step, heap_step. rewrite Hm, Hheap, Hst, Hter, Hp.
  split_and!; [done..| |].
  - rewrite Hsent. unfold alarm_traps. rewrite Hdef. fold def. by rewrite Htr.
  - rewrite (drains_shows _ _ _ _ _ Hd Hwf Hreg Henv Hsh). rewrite (drains_views _ _ _ _ _ Hd), Hv. cbn.
    unfold pop_spec, is_due. cbn. rewrite (proj2 (Z.leb_le _ _) Hpop). unfold shown_spec. cbn.
    destruct (drains_rest _ _ _ _ _ Hd Hwf) as (_ & _ & -> & _).
    rewrite (proj2 (Z.eqb_neq _ _) Hund). done.
Qed.

End theorems.

(** ** Witness *)

Module DeliverySample.
Import Sample Reference ReferenceHeap ScheduleSample ThreadsSample.

Lemma env_ok : row_env_ok env.
Proof. split; [reflexivity|]. intros c. eexists. reflexivity. Qed.

(** The clearing of the alarm raised in [raise_actions], asked for at 1 second. *)
Definition clear_request : action := Request ["issue-alarm"; "monit"; dec 1000 +:+ "." +:+ dec 1] 1000 (fun _ => 0).
Definition clearing_actions : list action := [HeapWakes Signalled; HeapRuns 1001 (fun _ => env); HeapWakes (TimedOut 31000)].
Definition asked : process := run_from [clear_request] waiting.
Definition woken : process := run_from clearing_actions asked.

Lemma waiting_env_reachable : agent_reachable action_env_ok start 2 waiting.
Proof.
  apply (run_reachable _ start raise_actions 0 (process_start start)); [constructor| |vm_compute; reflexivity].
  repeat constructor; apply env_ok.
Qed.
End DeliverySample.
Import Sample Reference ReferenceHeap ScheduleSample ThreadsSample DeliverySample.

