(* ===== verification/AgentSpec.v ===== *)
(** What the agent promises, without its threads, its heap and its tables: for each
    alarm the severity last sent and the state of its timer, and the notifications
    sent so far. Each action of the outside world has one effect on it.

    The theorem is a forward simulation: every interleaving of the threads of
    AgentThreads.v is a run of this specification, as long as the scheduler exists. *)

From S2P Require Export AlarmDelivery.

(** ** The specification *)

Record agent_spec := mkAgentSpec {
  spec_views : Z -> option alarm_view;
  spec_sent : list v2trap;
  spec_ending : bool;
}.

Section spec.
Context `{AlarmDefLib}.

(** An alarm is due. *)
Definition spec_due (now : Z) (s : agent_spec) (i : Z) : Prop :=
  exists v, spec_views s i = Some v /\ is_due now v = true.

(** When the timer of an alarm pops. *)
Definition spec_pop (s : agent_spec) (i : Z) : Z :=
  match timer <$> spec_views s i with Some (Scheduled _ pop) => pop | _ => 0 end.

(** The notifications of the change an alarm is scheduled for. *)
Definition spec_traps (defs : AlarmTableDefs) (sender : AlarmTrapSender) (s : agent_spec) (i : Z) : list v2trap :=
  match timer <$> spec_views s i with
  | Some (Scheduled sev _) => default [] (send_trap sender (get_definition defs i sev))
  | _ => []
  end.

(** A request changes the alarms as [event_spec] says, and sends nothing. *)
Definition spec_request (defs : AlarmTableDefs) (e : event) (s s' : agent_spec) : Prop :=
  (forall i, spec_views s' i = event_spec defs e i <$> spec_views s i) /\
  spec_sent s' = spec_sent s /\ spec_ending s' = spec_ending s.

(** A pass at [now] sends the alarms that are due, each once, earliest first, in some
    order where pop times are equal; their severities become those sent. *)
Definition spec_pass (defs : AlarmTableDefs) (sender : AlarmTrapSender) (now : Z) (s s' : agent_spec) : Prop :=
  (forall i, spec_views s' i = pop_spec now <$> spec_views s i) /\
  spec_ending s = false /\ spec_ending s' = false /\
  exists order, (forall i, i ∈ order <-> spec_due now s i) /\ NoDup order /\
    StronglySorted (fun i j => spec_pop s i <= spec_pop s j) order /\
    spec_sent s' = spec_sent s ++ (order ≫= spec_traps defs sender s).

(** The effect of an action: a valid trigger, a resync, a notification that timed out
    and a pass of the heap thread; the end, after which passes do nothing. All else
    is silent. *)
Inductive spec_step (defs : AlarmTableDefs) (sender : AlarmTrapSender) : action -> agent_spec -> agent_spec -> Prop :=
| spec_trigger issuer identifier now times s s' :
    spec_request defs (Issue issuer identifier now) s s' ->
    spec_step defs sender (Request ["issue-alarm"; issuer; identifier] now times) s s'
| spec_resync now times s s' :
    spec_request defs (Sync times) s s' -> spec_step defs sender (Request ["sync-alarms"] now times) s s'
| spec_timed_out k t now s s' :
    spec_sent s !! k = Some t ->
    spec_request defs (Callback NETSNMP_CALLBACK_OP_TIMED_OUT (trap_correlator t) now) s s' ->
    spec_step defs sender (Deliver NETSNMP_CALLBACK_OP_TIMED_OUT k now) s s'
| spec_heap_pass now envs s s' :
    spec_pass defs sender now s s' -> spec_step defs sender (HeapRuns now envs) s s'
| spec_end s : spec_step defs sender MainRuns s (mkAgentSpec (spec_views s) (spec_sent s) true)
| spec_heap_exit now envs s : spec_ending s = true -> spec_step defs sender (HeapRuns now envs) s s
| spec_silent a s : silent a = true -> spec_step defs sender a s s.

Inductive spec_run (defs : AlarmTableDefs) (sender : AlarmTrapSender) : list action -> agent_spec -> agent_spec -> Prop :=
| spec_run_nil s : spec_run defs sender [] s s
| spec_run_cons a acts s s1 s2 :
    spec_step defs sender a s s1 -> spec_run defs sender acts s1 s2 -> spec_run defs sender (a :: acts) s s2.

(** At start-up every alarm of the definitions is unknown, and nothing has been sent. *)
Definition spec_start (defs : AlarmTableDefs) : agent_spec :=
  mkAgentSpec
    (fun i => if bool_decide (i ∈ alarm_index <$> (_key_to_def defs).*2) then Some (mkView UNDEFINED_SEVERITY Idle)
              else None)
    [] false.

(** What a manager sees of the alarms in the Alarm Active Table. *)
Definition spec_shown (defs : AlarmTableDefs) (s : agent_spec) (i : Z) : option AlarmTableDef :=
  v ← spec_views s i; shown_spec defs i v.
End spec.

(** ** Simulation *)

Section simulation.
Context `{AlarmDefLib} `{NetSnmpIndexSpec} `{NetSnmpContainerSpec} `{TimerHeapSpec}.
Implicit Types (st : AlarmScheduler) (p : process) (s : agent_spec).

Definition abstracts st s : Prop :=
  (forall i, spec_views s i = view st i) /\ spec_sent s = sent_traps st /\ spec_ending s = _terminated st.

Definition abstraction st : agent_spec := mkAgentSpec (view st) (sent_traps st) (_terminated st).

Lemma abstraction_abstracts st : abstracts st (abstraction st).
Proof. done. Qed.

Lemma start_abstracts defs notifications hostname active :
  abstracts (AlarmScheduler_make defs notifications hostname active) (spec_start defs).
Proof.
  split_and!; [|done..]. intros i. cbn [spec_views spec_start].
  destruct (view _ i) as [v|] eqn:Hv.
  - pose proof Hv as (m & Hm & _)%view_Some. apply make_view in Hv as ->.
    change (find_key i (populate_state defs) = Some m) in Hm.
    rewrite (proj2 (populate_state_spec defs i)) in Hm. by case_bool_decide.
  - unfold view in Hv. change (manager i _) with (find_key i (populate_state defs)) in Hv.
    rewrite (proj2 (populate_state_spec defs i)) in Hv. by case_bool_decide.
Qed.

(** A request keeps everything but the alarms it changes. *)
Lemma request_event e st st' :
  sched_wf st -> sent_wf st -> event_ok st e -> is_heap_pass e = false -> run_event e st = Some st' ->
  requests (event_spec (_alarm_table_defs st) e) st st'.
Proof.
  intros Hwf Hs Hok Hp. destruct e as [issuer identifier now|times|op def now|]; cbn; [| | |done].
  - destruct (issue_requests issuer identifier now st Hwf) as (st1 & -> & Hr). by intros [= <-].
  - destruct (sync_requests times st Hwf) as (st1 & -> & Hr). by intros [= <-].
  - destruct Hok as (t & Ht & <-). destruct (failed_requests _ now st Hwf (Hs t Ht)) as (st1 & Hf & Hr).
    destruct op; cbn; try (intros [= <-]; by apply requests_none). rewrite Hf. by intros [= <-].
Qed.

Lemma request_simulated e st st' s :
  requests (event_spec (_alarm_table_defs st) e) st st' -> abstracts st s ->
  spec_request (_alarm_table_defs st) e s (abstraction st').
Proof.
  intros (_ & (Ht & _ & _ & _ & Hsent & _) & Hv) (Hvs & Hss & Hts). split_and!; cbn; [|congruence..].
  intros i. by rewrite Hv, Hvs.
Qed.

Lemma due_view_Some now st i :
  sched_wf st -> due now st i = true -> exists v, view st i = Some v /\ is_due now v = true.
Proof.
  intros Hwf Hd. pose proof Hd as Hin. unfold due in Hin. split_bools.
  destruct (sh_heap _ (sw_shape _ Hwf) i) as [m Hm]; [by apply in_heap_spec|].
  assert (view st i = Some (mkView (manager_severity m) (timer_of i m st))) as Hv by (unfold view; by rewrite Hm).
  eexists. split; [done|]. by rewrite <- (due_view _ _ _ _ Hv).
Qed.

(** The specification has the due alarms of the scheduler, their pop times and traps. *)
Lemma due_simulated now st s i :
  sched_wf st -> abstracts st s -> due now st i = true ->
  spec_pop s i = pop_times st i /\
  spec_traps (_alarm_table_defs st) (_trap_sender st) s i = alarm_traps st i.
Proof.
  intros Hwf (Hvs & _ & _) Hd. destruct (due_view_Some _ _ _ Hwf Hd) as ([c t] & Hv & Hdue).
  unfold spec_pop, spec_traps. rewrite Hvs, Hv. destruct t as [|sev pop|]; try done.
  destruct (view_scheduled _ _ _ _ _ Hv) as (_ & -> & Hdef). unfold alarm_traps. by rewrite Hdef.
Qed.

Lemma pass_simulated now envs st st' l s :
  drains now envs st l st' -> sched_wf st -> _terminated st = false -> abstracts st s ->
  spec_pass (_alarm_table_defs st) (_trap_sender st) now s (abstraction st').
Proof.
  intros Hd Hwf Ht Hs. pose proof Hs as (Hvs & Hss & Hts).
  destruct (drains_order _ _ _ _ _ Hd Hwf) as (Hmem & Hnd & Hso).
  destruct (drains_rest _ _ _ _ _ Hd Hwf) as (_ & Ht' & _).
  split_and!; cbn; [|congruence..|].
  - intros i. by rewrite (drains_views _ _ _ _ _ Hd), Hvs.
  - exists l. split_and!; [|done| |].
    + intros i. rewrite Hmem. unfold spec_due. rewrite Hvs. split; [by apply due_view_Some|].
      intros (v & Hv & Hdue). by rewrite (due_view _ _ _ _ Hv).
    + eapply StronglySorted_impl_in; [|exact Hso]. intros i j Hi Hj Hle.
      destruct (due_simulated now st s i) as [-> _]; [done..|by apply Hmem|].
      by destruct (due_simulated now st s j) as [-> _]; [done..|apply Hmem|].
    + rewrite (drains_sent _ _ _ _ _ Hd Hwf), Hss. f_equal. apply bind_ext_in. intros i Hi.
      symmetry. by apply (due_simulated now); [..|apply Hmem].
Qed.

(** The event of an action is its step in the specification. *)
Lemma event_simulated a e st st' s :
  sched_wf st -> sent_wf st -> counter_room e st -> abstracts st s ->
  action_event a st = Some e -> event_ok st e -> run_event e st = Some st' ->
  (is_heap_pass e = true -> _terminated st = false) ->
  spec_step (_alarm_table_defs st) (_trap_sender st) a s (abstraction st').
Proof.
  intros Hwf Hsw Hroom Hs He Hok Hrun Hter.
  assert (is_heap_pass e = false -> spec_request (_alarm_table_defs st) e s (abstraction st')) as Hreq
    by (intros Hp; by eapply request_simulated; [eapply request_event|]).
  destruct a as [| |now envs| |msg now times| |op k now|]; try done.
  - injection He as <-. destruct (heap_pass (length (_all_alarms_state st)) now envs st Hwf (Nat.le_refl _) (Hroom eq_refl))
      as (st1 & l & Hp & Hd).
    cbn in Hrun. rewrite Hp in Hrun. injection Hrun as <-. apply spec_heap_pass.
    by eapply pass_simulated; [| |apply Hter|].
  - destruct msg as [|c [|issuer [|identifier [|]]]]; try done; cbn in He.
    + destruct (String.eqb_spec c "sync-alarms") as [->|]; [|done]. injection He as <-. by apply spec_resync, Hreq.
    + destruct (String.eqb_spec c "issue-alarm") as [->|]; [|done]. injection He as <-. by apply spec_trigger, Hreq.
  - destruct op; try done. cbn in He. apply fmap_Some in He as (t & Ht & ->).
    apply (spec_timed_out _ _ k t); [|by apply Hreq]. destruct Hs as (_ & -> & _). done.
Qed.

(** One step of a thread is one of the specification. *)
Lemma step_simulated st0 n a p p' st' s st :
  process_ok st0 n p ->
  (begins_pass a = true -> (n + 1) * Z.of_nat (length (_all_alarms_state st0)) < UINT_MAX) ->
  agent_step a p = Step p' -> scheduler p' = Some st' -> scheduler p = Some st -> abstracts st s ->
  _alarm_table_defs st' = _alarm_table_defs st /\ _trap_sender st' = _trap_sender st /\
  exists s', spec_step (_alarm_table_defs st) (_trap_sender st) a s s' /\ abstracts st' s'.
Proof.
  intros (_ & _ & _ & Hp) Hn Hst Hs' Hsp Hs. rewrite Hsp in Hp. destruct Hp as (_ & _ & (Hwf & Hsw & Hl & Hc) & _).
  destruct (step_cases _ _ _ _ Hst Hs') as (st1 & Hst1 & Hcase). assert (st1 = st) as -> by congruence.
  destruct Hcase as [[-> Hq]|[[-> ->]|(e & He & Hok & Hrun & Hter)]].
  - split_and!; [done..|]. exists s. split; [|done]. destruct Hq as [?|[Hb Ht]]; [by apply spec_silent|].
    destruct a; try done. apply spec_heap_exit. destruct Hs as (_ & _ & ->). done.
  - split_and!; [done..|]. eexists. split; [apply spec_end|]. by destruct Hs as (? & ? & ?).
  - assert (counter_room e st) as Hroom
      by (intros Hb; rewrite Hl; specialize (Hn (heap_event_begins _ _ _ He Hb)); lia).
    destruct (run_event_result e st Hwf Hsw Hok Hroom) as (st1 & Hrun' & Hres).
    assert (st1 = st') as -> by congruence. destruct Hres as (_ & _ & _ & Hd & Hsd & _).
    split_and!; [done..|]. exists (abstraction st'). split; [|apply abstraction_abstracts]. by eapply event_simulated.
Qed.

Lemma run_simulated st0 acts n p p' st' s st :
  process_ok st0 n p -> (n + passes acts) * Z.of_nat (length (_all_alarms_state st0)) < UINT_MAX ->
  agent_run acts p = Step p' -> scheduler p' = Some st' -> scheduler p = Some st -> abstracts st s ->
  _alarm_table_defs st' = _alarm_table_defs st /\
  exists s', spec_run (_alarm_table_defs st) (_trap_sender st) acts s s' /\ abstracts st' s'.
Proof.
  revert n p s st. induction acts as [|a acts IH]; intros n p s st Hp Hn Hrun Hst' Hst Hs; cbn in Hrun.
  { simplify_eq. split; [done|]. exists s. split; [constructor|done]. }
  destruct (agent_step a p) as [p1| |] eqn:Hs1; try done. rewrite passes_cons in Hn.
  assert (0 <= passes acts) as Hpa by (unfold passes; lia).
  assert (begins_pass a = true -> (n + 1) * Z.of_nat (length (_all_alarms_state st0)) < UINT_MAX) as Hn1
    by (intros Hb; rewrite Hb in Hn; nia).
  pose proof (agent_step_ok st0 n a p Hp Hn1) as Hok. unfold step_ok in Hok. rewrite Hs1 in Hok.
  destruct Hok as [Hp1 _]. destruct (run_scheduler _ _ _ _ Hrun Hst') as [st1 Hst1].
  destruct (step_simulated _ _ _ _ _ _ _ _ Hp Hn1 Hs1 Hst1 Hst Hs) as (Hd & Hsd & s1 & Hss & Hs1').
  destruct (IH _ p1 s1 st1 Hp1) as (Hd' & s' & Hr & Hs''); [destruct (begins_pass a); lia|done..|].
  split; [congruence|]. exists s'. split; [|done]. rewrite Hd, Hsd in Hr. by eapply spec_run_cons.
Qed.
End simulation.

(** ** The severities a manager is told of *)

(** The severities of the notifications of alarm [i]. *)
Definition severities (i : Z) (traps : list v2trap) : list Z :=
  (fun t => severity (trap_correlator t)) <$> List.filter (fun t => alarm_index (trap_correlator t) =? i) traps.

(** No two neighbours are equal. *)
Fixpoint no_repeat (l : list Z) : Prop :=
  match l with
  | x :: ((y :: _) as l') => x <> y /\ no_repeat l'
  | _ => True
  end.

Lemma no_repeat_snoc l x : no_repeat l -> last l <> Some x -> no_repeat (l ++ [x]).
Proof.
  induction l as [|y [|z l] IH]; [done| |].
  - cbn. intros _ Hy. split; [congruence|done].
  - cbn [no_repeat app]. intros [Hyz Hl] Hx. split; [done|]. apply IH; [done|]. by rewrite last_cons_cons in Hx.
Qed.

Lemma severities_app i l1 l2 : severities i (l1 ++ l2) = severities i l1 ++ severities i l2.
Proof. unfold severities. by rewrite List.filter_app, fmap_app. Qed.

(** Actions that ask for nothing to be sent again. *)
Definition no_resend (a : action) : Prop :=
  match a with
  | Request [command] _ _ => command <> "sync-alarms"
  | Deliver NETSNMP_CALLBACK_OP_TIMED_OUT _ _ => False
  | _ => True
  end.

Section history.
Context `{AlarmDefLib}.
Implicit Types (s : agent_spec) (defs : AlarmTableDefs).

(** A severity is scheduled or cancelled only if it is not the one last sent, which is that
    of the last notification. *)
Definition view_fresh defs i (v : alarm_view) : Prop :=
  match timer v with
  | Idle => True
  | Scheduled s _ => s <> last_sent v /\ is_valid (get_definition defs i s) = true
  | Cancelled s _ => s <> last_sent v
  end.

Definition last_told s i (v : alarm_view) : Prop :=
  last (severities i (spec_sent s)) = if last_sent v =? UNDEFINED_SEVERITY then None else Some (last_sent v).

Definition history_ok defs s : Prop :=
  (forall i v, spec_views s i = Some v -> view_fresh defs i v /\ last_told s i v) /\
  forall i, no_repeat (severities i (spec_sent s)).

Lemma start_history defs : history_ok defs (spec_start defs).
Proof. split; [|done]. intros i v. cbn. case_bool_decide; [|done]. intros [= <-]. split; [done|]. unfold last_told. cbn. by rewrite Z.eqb_refl. Qed.

Lemma issue_fresh defs i sev now v :
  is_valid (get_definition defs i sev) = true -> view_fresh defs i v -> view_fresh defs i (issue_spec sev now v).
Proof.
  intros Hval Hv. unfold issue_spec, view_fresh in *. cbn. destruct (Z.eqb_spec sev (last_sent v)) as [->|Hne].
  - destruct (timer v) as [|s p|s p]; cbn; [done| |done]. destruct Hv as [Hs _].
    by rewrite (proj2 (Z.eqb_neq _ _) Hs).
  - destruct (timer v) as [|s p|s p]; cbn; [done|..]; destruct (Z.eqb_spec sev s); subst; done.
Qed.

(** A trigger tells nobody anything and keeps the invariant. *)
Lemma trigger_history defs issuer identifier now s s' :
  spec_request defs (Issue issuer identifier now) s s' -> history_ok defs s -> history_ok defs s'.
Proof.
  intros (Hv & Hs & _) [Hviews Hrep]. split; [|by rewrite Hs]. intros i v. rewrite Hv. unfold last_told. rewrite Hs.
  destruct (spec_views s i) as [v0|] eqn:Hv0; cbn [fmap option_fmap option_map]; [|done].
  intros Hev. assert (v = event_spec defs (Issue issuer identifier now) i v0) as -> by congruence. clear Hev.
  destruct (Hviews i v0 Hv0) as [Hf Hl].
  assert (last_sent (event_spec defs (Issue issuer identifier now) i v0) = last_sent v0) as ->
    by (by apply event_spec_last_sent).
  split; [|done]. cbn. destruct (sscanf_u_dot_u identifier) as [[index sev]|]; [|done].
  destruct (Z.eqb_spec index i) as [->|]; [|done]. cbn.
  destruct (is_valid (get_definition defs i sev)) eqn:Hval; [|done]. by apply issue_fresh.
Qed.

(** One notification type: what an alarm that is due is told of. *)
Lemma due_severities defs nt hostname now s i j :
  defs_ok defs -> history_ok defs s -> spec_due now s i ->
  severities j (spec_traps defs (mkAlarmTrapSender [(nt, tt)] hostname) s i) =
    if i =? j then from_option (fun v => [last_sent (sent_spec v)]) [] (spec_views s i) else [].
Proof.
  intros [Hdw Hdk] [Hviews _] (v & Hv & Hdue). unfold spec_traps. rewrite Hv.
  cbn [fmap option_fmap option_map from_option]. destruct (Hviews i v Hv) as [Hf _]. unfold is_due in Hdue. unfold view_fresh in Hf. unfold sent_spec.
  destruct (timer v) as [|sev pop|]; try done. destruct Hf as [_ Hval]. cbn [last_sent].
  destruct (defs_wf_get _ _ _ Hdw Hval) as [Hi Hs]. destruct (Hdk i sev Hval) as [Hk _].
  destruct (send_trap_known (mkAlarmTrapSender [(nt, tt)] hostname) (get_definition defs i sev)) as [traps Ht];
    [by rewrite Hs|]. rewrite Ht. cbn [default].
  pose proof Ht as Hlen. unfold send_trap in Hlen. cbn in Hlen. apply bind_Some in Hlen as (t & _ & [= <-]).
  assert (trap_correlator t = get_definition defs i sev) as Hc by (eapply send_trap_correlator; [done|by left]).
  unfold severities. cbn. rewrite Hc, Hi. destruct (i =? j); [|done]. cbn. by rewrite Hc, Hs.
Qed.

Lemma order_severities defs nt hostname now s order j :
  defs_ok defs -> history_ok defs s -> (forall i, i ∈ order -> spec_due now s i) -> NoDup order ->
  severities j (order ≫= spec_traps defs (mkAlarmTrapSender [(nt, tt)] hostname) s) =
    if bool_decide (j ∈ order) then from_option (fun v => [last_sent (sent_spec v)]) [] (spec_views s j) else [].
Proof.
  intros Hd Hh. induction order as [|i order IH]; intros Hdue Hnd.
  { by rewrite bool_decide_eq_false_2 by set_solver. }
  apply NoDup_cons in Hnd as [Hi Hnd]. rewrite bind_cons, severities_app, IH; [|by intros; apply Hdue; right|done].
  rewrite (due_severities defs nt hostname now s i j); [|done..|by apply Hdue; left].
  destruct (Z.eqb_spec i j) as [->|Hne].
  - rewrite bool_decide_eq_false_2 by done. rewrite bool_decide_eq_true_2 by by left. by rewrite app_nil_r.
  - cbn. apply (f_equal (fun b : bool => if b then _ else _)), bool_decide_ext. set_solver.
Qed.

Lemma pass_history defs nt hostname now s s' :
  defs_ok defs -> spec_pass defs (mkAlarmTrapSender [(nt, tt)] hostname) now s s' ->
  history_ok defs s -> history_ok defs s'.
Proof.
  intros Hd (Hv & _ & _ & order & Hmem & Hnd & _ & Hsent) Hh. pose proof Hh as [Hviews Hrep].
  assert (forall j, severities j (spec_sent s') = severities j (spec_sent s) ++
            if bool_decide (j ∈ order) then from_option (fun v => [last_sent (sent_spec v)]) [] (spec_views s j) else [])
    as Hsev.
  { intros j. rewrite Hsent, severities_app. f_equal.
    eapply (order_severities defs nt hostname now); [done..| |done]. intros i. apply Hmem. }
  assert (forall j v, spec_views s j = Some v -> is_due now v = true -> last_sent (sent_spec v) <> last_sent v /\
            last_sent (sent_spec v) <> UNDEFINED_SEVERITY) as Hnew.
  { intros j v Hj Hdue. destruct (Hviews j v Hj) as [Hf _]. unfold is_due in Hdue. unfold view_fresh in Hf.
    unfold sent_spec. destruct (timer v); try done. destruct Hf as [? Hval]. by destruct (proj2 Hd _ _ Hval). }
  split.
  - intros j v'. rewrite Hv. destruct (spec_views s j) as [v|] eqn:Hj; [|done]. intros [= <-].
    destruct (Hviews j v Hj) as [Hf Hl]. unfold last_told. rewrite Hsev, Hj. unfold pop_spec.
    destruct (is_due now v) eqn:Hdue.
    + rewrite bool_decide_eq_true_2 by (apply Hmem; by exists v). cbn [from_option].
      rewrite last_snoc, (proj2 (Z.eqb_neq _ _)) by by eapply Hnew.
      split; [|done]. unfold view_fresh, sent_spec. unfold is_due in Hdue. by destruct (timer v).
    + rewrite bool_decide_eq_false_2; [by rewrite app_nil_r|]. intros (v1 & ? & ?)%Hmem. congruence.
  - intros j. rewrite Hsev. case_bool_decide as Hj; [|by rewrite app_nil_r].
    apply Hmem in Hj as (v & Hj & Hdue). rewrite Hj. cbn. apply no_repeat_snoc; [done|].
    destruct (Hviews j v Hj) as [_ ->]. destruct (Hnew j v Hj Hdue). destruct (_ =? _); congruence.
Qed.

Lemma run_history defs nt hostname acts s s' :
  defs_ok defs -> Forall no_resend acts -> spec_run defs (mkAlarmTrapSender [(nt, tt)] hostname) acts s s' ->
  history_ok defs s -> history_ok defs s'.
Proof.
  intros Hd Ha Hr. induction Hr as [|a acts s s1 s2 Hst Hr IH]; [done|].
  apply Forall_cons in Ha as [Ha Has]. intros Hh. apply IH; [done|].
  destruct Hst as [issuer identifier now times s s1 Hreq| | |now envs s s1 Hp| | |]; try done.
  - by eapply trigger_history.
  - by eapply pass_history.
Qed.
End history.

(** ** Theorem *)

Section theorems.
Context `{AlarmDefLib} `{NetSnmpIndexSpec} `{NetSnmpContainerSpec} `{TimerHeapSpec}.

(** C1: the agent implements its specification. Every interleaving of its threads from
    start-up, whatever the requests, callbacks, wake-ups and times, is a run of the
    specification on the same actions: while the scheduler exists, the severity last sent and
    the timer of every alarm, and all notifications handed to Net-SNMP in their order,
    are those of the specification; and the Alarm Active Table shows exactly the alarms whose
    severity last sent there is a raised one. *)
Theorem agent_refines_spec defs notifications hostname ip actions p st :
  let st0 := agent_start defs notifications hostname ip true true in
  defs_ok defs -> Forall action_env_ok actions ->
  passes actions * Z.of_nat (length (_all_alarms_state st0)) < UINT_MAX ->
  agent_run actions (process_start st0) = Step p -> scheduler p = Some st ->
  exists s, spec_run defs (mkAlarmTrapSender notifications hostname) actions (spec_start defs) s /\
    (forall i, view st i = spec_views s i) /\ sent_traps st = spec_sent s /\
    forall i, active_view (_active_table st) i = spec_shown defs s i.
Proof.
  intros st0 Hd Henv Hn Hrun Hst. pose proof (started_ok defs notifications hostname ip true true Hd) as Hok0.
  destruct (init_active ip true true) as (_ & _ & Hnone & _ & Hreg0).
  pose proof (make_shows defs notifications hostname _ Hnone) as Hsh0.
  destruct (run_simulated st0 actions 0 (process_start st0) p st (spec_start defs) st0) as (Hdst & s & Hr & Hv & Hsent & _);
    try done; [apply start_abstracts|].
  assert (agent_reachable action_env_ok st0 (0 + passes actions) p) as Hreach
    by (eapply run_reachable; [constructor|done..]).
  destruct (agent_shows st0 _ p Hreach Hok0 Hreg0 Hsh0 Hn st Hst) as (_ & Hsh & _).
  exists s. split_and!; [done|done|done|]. intros i. rewrite (Hsh i), Hdst. unfold spec_shown. by rewrite Hv.
Qed.

(** C6: a manager is never told the same thing twice in a row. With one type of
    notification, in every interleaving without a resync and without a notification that timed
    out, however many triggers come and whenever the threads run, two successive
    notifications of an alarm differ in severity. *)
Theorem notifications_never_repeat defs nt hostname ip ok1 ok2 actions p st i :
  let st0 := agent_start defs [(nt, tt)] hostname ip ok1 ok2 in
  defs_ok defs -> Forall no_resend actions ->
  passes actions * Z.of_nat (length (_all_alarms_state st0)) < UINT_MAX ->
  agent_run actions (process_start st0) = Step p -> scheduler p = Some st ->
  no_repeat (severities i (sent_traps st)).
Proof.
  intros st0 Hd Ha Hn Hrun Hst. pose proof (started_ok defs [(nt, tt)] hostname ip ok1 ok2 Hd) as Hok0.
  destruct (run_simulated st0 actions 0 (process_start st0) p st (spec_start defs) st0) as (_ & s & Hr & _ & <- & _);
    try done; [apply start_abstracts|].
  by apply (run_history defs nt hostname actions (spec_start defs) s Hd Ha Hr (start_history defs)).
Qed.
End theorems.

(** ** Witness *)

Import Sample Reference ReferenceHeap ScheduleSample ThreadsSample DeliverySample.

Lemma agent_refines_spec_witness :
  exists st s, scheduler waiting = Some st /\
    spec_run Sample.defs (mkAlarmTrapSender [(RFC3877, tt); (ENTERPRISE, tt)] "host") raise_actions (spec_start Sample.defs) s /\
    spec_views s 1000 = Some (mkView 3 Idle) /\ length (spec_sent s) = 2%nat /\
    spec_shown Sample.defs s 1000 = Some (get_definition Sample.defs 1000 3).
Proof.
  assert ((fun st => (view st 1000, length (sent_traps st), active_view (_active_table st) 1000)) <$> scheduler waiting =
          Some (Some (mkView 3 Idle), 2%nat, Some (get_definition Sample.defs 1000 3))) as Hc by (vm_compute; reflexivity).
  destruct (scheduler waiting) as [st|] eqn:Hst; [|discriminate Hc].
  injection Hc as Hv Hl Ha.
  destruct (agent_refines_spec Sample.defs [(RFC3877, tt); (ENTERPRISE, tt)] "host" "10.0.0.1" raise_actions waiting st)
    as (s & Hr & Hview & Hsent & Hshown);
    [exact defs_ok_sample|repeat constructor; apply env_ok|vm_compute; reflexivity|vm_compute; reflexivity|exact Hst|].
  exists st, s. rewrite <- Hview, <- Hsent, <- Hshown. split_and!; (reflexivity || assumption).
Defined.

(** A raise, a repeat of it that sends nothing, a clearing that is taken back and one that
    is sent. *)
Definition flicker_actions : list action :=
  let trigger identifier now := Request ["issue-alarm"; "monit"; identifier] now (fun _ => now) in
  [HeapRuns 0 (fun _ => env); trigger "1000.3" 5; HeapWakes Signalled; HeapRuns 5 (fun _ => env);
   trigger "1000.3" 6; HeapWakes Signalled; HeapRuns 6 (fun _ => env);
   trigger "1000.1" 7; trigger "1000.3" 8; trigger "1000.1" 9; HeapWakes Signalled; HeapRuns 40000 (fun _ => env)].

Lemma notifications_never_repeat_witness :
  exists p st,
    agent_run flicker_actions (process_start (agent_start Sample.defs [(RFC3877, tt)] "host" "10.0.0.1" true true)) = Step p /\
    scheduler p = Some st /\ severities 1000 (sent_traps st) = [3; 1] /\ no_repeat (severities 1000 (sent_traps st)).
Proof.
  assert (match agent_run flicker_actions (process_start (agent_start Sample.defs [(RFC3877, tt)] "host" "10.0.0.1" true true)) with
          | Step p => (fun st => severities 1000 (sent_traps st)) <$> scheduler p
          | _ => None
          end = Some [3; 1]) as Hc by (vm_compute; reflexivity).
  destruct (agent_run flicker_actions _) as [p| |] eqn:Hr; [|discriminate Hc..].
  destruct (scheduler p) as [st|] eqn:Hst; [|discriminate Hc]. injection Hc as Hs.
  exists p, st. split; [reflexivity|]. split; [exact Hst|]. split; [exact Hs|].
  apply (notifications_never_repeat Sample.defs RFC3877 "host" "10.0.0.1" true true flicker_actions p st 1000);
    [exact defs_ok_sample|repeat constructor|vm_compute; reflexivity|exact Hr|exact Hst].
Defined.
