(* ===== verification/UnitTests.v ===== *)
(** The fixtures and the table tests of the repository, run on the model:
    [src/ut/alarm_tables_testing.hpp] and [.cpp], [src/ut/fakenetsnmp.cpp] and its
    header, and [src/ut/mock_alarm_scheduler.h].

    The definitions of the fixture are those of the source; a test is its calls, and its
    assertions hold of the state they lead to by computation, in the reference
    implementations of Net-SNMP's containers and encodings. [snmpwalk] and [snmpget] are
    read as the cells of a table: the values its [.._get_value] function answers. *)

From S2P Require Export TableProps Scheduler Oid.

Import Sample Reference.

(** ** The fixture [CustomDefs] *)

(** The enumerators of [AlarmDef] the tests use, with the values of X.733 and RFC 3877. *)
Definition CRITICAL : Z := 3.
Definition MAJOR : Z := 4.
Definition SOFTWARE_ERROR : Z := 163.

(** The eight members of a [SeverityDetails] of the fixture, whose texts differ in their
    beginning only. *)
Definition test_details (sev : Z) (text : string) : SeverityDetails :=
  mkSeverityDetails sev (text +:+ " description") (text +:+ " details") (text +:+ " cause") (text +:+ " effect")
    (text +:+ " action") (text +:+ " extended details") (text +:+ " extended description").

Definition cleared : SeverityDetails := test_details CLEARED "Test alarm cleared".
Definition raised : SeverityDetails := test_details CRITICAL "Test alarm raised".
Definition example : AlarmDefinition := mkAlarmDefinition "test alarm" 6666 SOFTWARE_ERROR [cleared; raised].
Definition def_cleared : AlarmTableDef := AlarmTableDef_make example cleared.
Definition def_raised : AlarmTableDef := AlarmTableDef_make example raised.

Definition cleared1 : SeverityDetails := test_details CLEARED "First alarm cleared".
Definition raised1 : SeverityDetails := test_details CRITICAL "First alarm raised".
Definition example1 : AlarmDefinition := mkAlarmDefinition "test alarm1" 6666 SOFTWARE_ERROR [cleared1; raised1].
Definition def1_cleared : AlarmTableDef := AlarmTableDef_make example1 cleared1.
Definition def1_raised : AlarmTableDef := AlarmTableDef_make example1 raised1.

Definition cleared2 : SeverityDetails := test_details CLEARED "Second alarm cleared".
Definition raised2 : SeverityDetails := test_details CRITICAL "Second alarm raised".
Definition example2 : AlarmDefinition := mkAlarmDefinition "test alarm2" 6667 SOFTWARE_ERROR [cleared2; raised2].
Definition def2_cleared : AlarmTableDef := AlarmTableDef_make example2 cleared2.
Definition def2_raised : AlarmTableDef := AlarmTableDef_make example2 raised2.

Definition cleared3 : SeverityDetails := test_details CLEARED "Third alarm cleared".
Definition raised3 : SeverityDetails := test_details CRITICAL "Third alarm raised".
Definition example3 : AlarmDefinition := mkAlarmDefinition "test alarm3" 6668 SOFTWARE_ERROR [cleared3; raised3].
Definition def3_cleared : AlarmTableDef := AlarmTableDef_make example3 cleared3.
Definition def3_raised : AlarmTableDef := AlarmTableDef_make example3 raised3.

Definition cleared4 : SeverityDetails := test_details CLEARED "Fourth alarm cleared".
Definition raised4 : SeverityDetails := test_details CRITICAL "Fourth alarm raised".
Definition example4 : AlarmDefinition := mkAlarmDefinition "test alarm4" 6669 SOFTWARE_ERROR [cleared4; raised4].
Definition def4_cleared : AlarmTableDef := AlarmTableDef_make example4 cleared4.
Definition def4_raised : AlarmTableDef := AlarmTableDef_make example4 raised4.

Definition cleared5 : SeverityDetails := test_details CLEARED "Fifth alarm cleared".
Definition raised5 : SeverityDetails := test_details CRITICAL "Fifth alarm raised".
Definition example5 : AlarmDefinition := mkAlarmDefinition "test alarm5" 6670 SOFTWARE_ERROR [cleared5; raised5].
Definition def5_cleared : AlarmTableDef := AlarmTableDef_make example5 cleared5.
Definition def5_raised : AlarmTableDef := AlarmTableDef_make example5 raised5.

Definition cleared6 : SeverityDetails := test_details CLEARED "Test alarm cleared".
Definition raised_critical : SeverityDetails := test_details CRITICAL "Test alarm critical raised".
Definition raised_major : SeverityDetails := test_details MAJOR "Test alarm major raised".
Definition example6 : AlarmDefinition :=
  mkAlarmDefinition "test alarm6" 6666 SOFTWARE_ERROR [cleared; raised_critical; raised_major].
Definition def6_cleared : AlarmTableDef := AlarmTableDef_make example6 cleared6.
Definition def_raised_critical : AlarmTableDef := AlarmTableDef_make example raised_critical.
Definition def_raised_major : AlarmTableDef := AlarmTableDef_make example raised_major.

(** [SetUpTestCase]: the three tables, none of whose allocations fails. *)
Definition SetUpTestCase : table * table * active_table :=
  ((initialize_table_alarmModelTable true true table_zero).2,
   (initialize_table_ituAlarmTable true true table_zero).2,
   (init_alarmActiveTable "10.154.153.133" true true active_zero).2).

(** The traps [TearDown] handles. *)
Definition TearDown : list AlarmTableDef :=
  [def_cleared; def1_cleared; def2_cleared; def3_cleared; def4_cleared; def5_cleared; def6_cleared].

(** ** What the tests read *)

#[local] Instance oids_order : Comparator oids := oid_lex_lt.

(** The rows of a table in the order of their indexes. *)
Definition rows_in_order (t : table) : list (oids * AlarmTableDef) :=
  fold_right (fun r m => emplace r.1 r.2 m) [] (map_to_list (table_view t)).

(** The cells of a table: for each column, the value of each row, in the order of the
    identifiers, as [snmpwalk] visits them. *)
Definition walk_cells (table_oid : oids) (columns : list Z) (get : AlarmTableDef -> Z -> option get_result)
    (t : table) : list (oids * asn_value) :=
  c ← columns;
  r ← rows_in_order t;
  match get r.2 c with
  | Some (SNMP_ERR_NOERROR, Some v) => [(cell_oid table_oid c r.1, v)]
  | _ => []
  end.

(** [snmp_walk(alarmActiveTable_table)] *)
Definition walk_active (st : active_table) : list (oids * asn_value) :=
  walk_cells alarmActiveTable_oid
    (seqZ alarmActiveTable_COL_MIN (alarmActiveTable_COL_MAX - alarmActiveTable_COL_MIN + 1))
    (fun def c => Some (alarmActiveTable_get_value st def c)) (at_table st).

(** [snmp_get_raw] and [snmp_get] of a cell. *)
Definition get_cell (get : AlarmTableDef -> Z -> option get_result) (t : table) (column : Z) (row : oids)
    : option asn_value :=
  def ← table_view t !! row;
  match get def column with
  | Some (SNMP_ERR_NOERROR, v) => v
  | _ => None
  end.

(** [get_index_from_row]; [split_string] is that of cpp-common's [Utils]: the non-empty
    pieces between delimiters. [None] is a read out of range. *)
Definition get_index_from_row (split_string : ascii -> string -> list string) (snmpwalk_row : string)
    : option string :=
  index_field ← split_string "."%char snmpwalk_row !! 25%nat;
  split_string " "%char index_field !! 0%nat.

(** The row of its comment. *)
Definition tokens (delimiter : ascii) (s : string) : list string :=
  List.filter (fun t => negb (String.eqb t "")) (split_on delimiter s).

Example get_index_from_row_comment :
  get_index_from_row tokens ".1.3.6.1.2.1.118.1.2.2.1.8.0.11.7.224.1.11.11.22.19.0.45.0.0.14 = 0" = Some "14".
Proof. reflexivity. Qed.

(** The beginning of a row that [snmpwalk] prints for a cell. *)
Definition walk_row (cell : oids * asn_value) : string := OID_to_string (mkOID cell.1) +:+ " = ".

(** The traps of a test, one second apart from a winter noon. *)
Definition noon (sec : Z) : row_env := mkRowEnv true (mkTm 124 0 15 12 0 sec) 0.

Fixpoint handle_traps (sec : Z) (defs : list AlarmTableDef) (st : active_table) : option active_table :=
  match defs with
  | [] => Some st
  | def :: defs' =>
    st' ← alarmActiveTable_trap_handler def (noon sec) st;
    handle_traps (sec + 1) defs' st'
  end.

(** ** The tests *)

(** [alarm_table_defs] of the tests, and [severity_to_state] of the test file. *)
Definition test_defs : list AlarmTableDef :=
  (fold_left (fun m def => insert_def def m) [def_cleared; def_raised] []).*2.
Definition str_cleared : Z := CLEARED.
Definition str_state_raised : Z := nth (Z.to_nat CRITICAL) [2; 1; 2; 6; 5; 4; 3] 0.
Definition str_severity_raised : Z := CRITICAL.

(** [TEST_F(CustomDefs, ModelTable)] *)
Definition ModelTable_test : option (list (option asn_value)) :=
  t ← alarmModelTable_insert_defs (fun _ => true) test_defs SetUpTestCase.1.1;
  let get := get_cell alarmModelTable_get_value t in
  Some [get COLUMN_ALARMMODELDESCRIPTION [0; 6666; str_cleared];
        get COLUMN_ALARMMODELDESCRIPTION [0; 6666; str_state_raised];
        get COLUMN_ALARMMODELNOTIFICATIONID [0; 6666; str_cleared];
        get COLUMN_ALARMMODELNOTIFICATIONID [0; 6666; str_state_raised]].

Example ModelTable_passes :
  ModelTable_test = Some [Some (ASN_OCTET_STR (octets "Test alarm cleared description"));
                          Some (ASN_OCTET_STR (octets "Test alarm raised description"));
                          Some (ASN_OBJECT_ID [1;3;6;1;2;1;118;0;3]);
                          Some (ASN_OBJECT_ID [1;3;6;1;2;1;118;0;2])].
Proof. vm_compute. reflexivity. Qed.

(** [TEST_F(CustomDefs, ituAlarmTable)] *)
Definition ituAlarmTable_test : list (option asn_value) :=
  let t := ituAlarmTable_insert_defs (fun _ => true) test_defs SetUpTestCase.1.2 in
  let get := get_cell ituAlarmTable_get_value t in
  [get COLUMN_ITUALARMADDITIONALTEXT [0; 6666; str_cleared];
   get COLUMN_ITUALARMADDITIONALTEXT [0; 6666; str_severity_raised];
   get COLUMN_ITUALARMPROBABLECAUSE [0; 6666; str_cleared];
   get COLUMN_ITUALARMPROBABLECAUSE [0; 6666; str_severity_raised]].

Example ituAlarmTable_passes :
  ituAlarmTable_test = [Some (ASN_OCTET_STR (octets "Test alarm cleared details"));
                        Some (ASN_OCTET_STR (octets "Test alarm raised details"));
                        Some (ASN_INTEGER 163); Some (ASN_INTEGER 163)].
Proof. vm_compute. reflexivity. Qed.

(** [TEST_F(CustomDefs, ActiveTableMultipleAlarms)]: the entries of its two walks. *)
Definition ActiveTableMultipleAlarms_test : option (nat * nat) :=
  st ← handle_traps 0 [def1_raised; def2_raised; def3_raised; def2_cleared; def4_raised; def5_raised;
                       def5_cleared; def1_cleared] SetUpTestCase.2;
  st' ← handle_traps 10 [def3_cleared; def4_cleared] st;
  Some (length (walk_active st), length (walk_active st')).

Example ActiveTableMultipleAlarms_passes : ActiveTableMultipleAlarms_test = Some (22%nat, 0%nat).
Proof. vm_compute. reflexivity. Qed.

(** [TEST_F(CustomDefs, ActiveTableRepeatAlarm)] *)
Definition ActiveTableRepeatAlarm_test : option (nat * nat) :=
  st ← handle_traps 0 [def_raised; def_raised] SetUpTestCase.2;
  st' ← handle_traps 10 [def_cleared] st;
  Some (length (walk_active st), length (walk_active st')).

Example ActiveTableRepeatAlarm_passes : ActiveTableRepeatAlarm_test = Some (11%nat, 0%nat).
Proof. vm_compute. reflexivity. Qed.

(** [TEST_F(CustomDefs, ActiveTableClearingUnraisedAlarm)] *)
Definition ActiveTableClearingUnraisedAlarm_test : option nat :=
  st ← handle_traps 0 [def_cleared] SetUpTestCase.2;
  Some (length (walk_active st)).

Example ActiveTableClearingUnraisedAlarm_passes : ActiveTableClearingUnraisedAlarm_test = Some 0%nat.
Proof. vm_compute. reflexivity. Qed.

(** [TEST_F(CustomDefs, ActiveTableSameAlarmDifferentSeverities)]: the walks, and the
    cell of the description column. *)
Definition ActiveTableSameAlarmDifferentSeverities_test : option (nat * option asn_value * nat) :=
  st ← handle_traps 0 [def_raised_critical; def_raised_major] SetUpTestCase.2;
  let entries := walk_active st in
  let colnum_description := COLUMN_ALARMACTIVEDESCRIPTION - alarmActiveTable_COL_MIN in
  st' ← handle_traps 10 [def_cleared] st;
  Some (length entries, snd <$> entries !! Z.to_nat colnum_description, length (walk_active st')).

Example ActiveTableSameAlarmDifferentSeverities_passes :
  ActiveTableSameAlarmDifferentSeverities_test =
    Some (11%nat, Some (ASN_OCTET_STR (octets "Test alarm major raised description")), 0%nat).
Proof. vm_compute. reflexivity. Qed.

(** [TEST_F(CustomDefs, ActiveTableIndexTimeStamp)]: the day and the month of the first
    entry's index. *)
Definition ActiveTableIndexTimeStamp_test : option (option Z * option Z) :=
  st ← handle_traps 0 [def1_raised; def2_raised; def3_raised] SetUpTestCase.2;
  entry ← walk_active st !! 0%nat;
  Some (entry.1 !! 17%nat, entry.1 !! 16%nat).

Example ActiveTableIndexTimeStamp_passes : ActiveTableIndexTimeStamp_test = Some (Some 15, Some 1).
Proof. vm_compute. reflexivity. Qed.

(** [TEST_F(CustomDefs, AlarmTableIndexSize)] *)
Definition AlarmTableIndexSize_test : option nat :=
  st ← handle_traps 0 [def1_raised] SetUpTestCase.2;
  entry ← walk_active st !! 0%nat;
  Some (length entry.1).

Example AlarmTableIndexSize_passes : AlarmTableIndexSize_test = Some 26%nat.
Proof. vm_compute. reflexivity. Qed.

(** [TEST_F(CustomDefs, AlarmTableAlarmsIndex)]: the counters of three rows. *)
Definition AlarmTableAlarmsIndex_test : option (list (option Z)) :=
  st ← handle_traps 0 [def1_raised; def2_raised; def3_raised] SetUpTestCase.2;
  let entries := walk_row <$> walk_active st in
  let counter k := row ← entries !! k; index ← get_index_from_row tokens row; Some (atoi (c_str index)) in
  Some [counter 0%nat; counter 13%nat; counter 26%nat].

Example AlarmTableAlarmsIndex_passes : AlarmTableAlarmsIndex_test = Some [Some 1; Some 2; Some 3].
Proof. vm_compute. reflexivity. Qed.

(** After any test, [TearDown] leaves no alarm of the fixture raised, so that the tests,
    which share the table, do not affect each other. *)
Lemma tear_down_clears l envs index :
  Forall (fun p => row_env_ok p.2) l -> Forall row_env_ok envs -> length envs = 7%nat ->
  Z.of_nat (length l) + 7 < UINT_MAX -> index ∈ alarm_index <$> TearDown ->
  exists st, run_traps (l ++ zip TearDown envs) (active_init "10.154.153.133" true) = Some st /\
    active_view st index = None.
Proof.
  intros Hl He Hn Hroom Hi. destruct (active_init_wf "10.154.153.133" true) as (Hwf & Hc & H0' & Hreg & Hnone).
  destruct (run_traps_spec (l ++ zip TearDown envs) _ Hwf Hc) as (st & Hrun & _ & _ & _ & Hv).
  { rewrite length_app, length_zip, Hn. cbn. lia. }
  exists st. split; [done|]. rewrite Hv, (shown_by_ext _ _ (fun _ => None)) by
    (done || (apply Forall_app; split; [done|]; clear -He; revert envs He; generalize TearDown;
      induction l as [|d l IH]; intros [|e envs] He; try constructor; inversion He; subst; [done|by apply IH])).
  pose proof (shown_by_last (l ++ zip TearDown envs) index) as Hs. unfold shown_after in Hs.
  destruct envs as [|e1 [|e2 [|e3 [|e4 [|e5 [|e6 [|e7 [|]]]]]]]]; try discriminate Hn.
  assert (last_trap (l ++ zip TearDown [e1; e2; e3; e4; e5; e6; e7]) index =
          last (List.filter (fun def => alarm_index def =? index) TearDown)) as Hlast.
  { unfold last_trap. rewrite fmap_app, List.filter_app.
    change ((zip TearDown [e1; e2; e3; e4; e5; e6; e7]).*1) with TearDown. rewrite last_app.
    repeat (apply elem_of_cons in Hi as [->|Hi]; [reflexivity|]). by apply not_elem_of_nil in Hi. }
  rewrite Hlast in Hs.
  repeat (apply elem_of_cons in Hi as [->|Hi]; [exact Hs|]). by apply not_elem_of_nil in Hi.
Qed.

(** ** The fake of Net-SNMP *)

(** [NetSnmpInterface] with the calls its mock received; [netsnmp_intf_p] is the one
    that intercepts, if any. *)
Record NetSnmpInterface := mkNetSnmpInterface {
  _trap_count : Z;
  _logged : string;
  mock_traps : list v2trap;
}.

Definition NetSnmpInterface_make : NetSnmpInterface := mkNetSnmpInterface 0 "" [].

Definition cwtest_intercept_netsnmp (intf : NetSnmpInterface) : option NetSnmpInterface := Some intf.
Definition cwtest_restore_netsnmp : option NetSnmpInterface := None.

Definition trap_signal (i : NetSnmpInterface) : NetSnmpInterface :=
  mkNetSnmpInterface (_trap_count i + 1) (_logged i) (mock_traps i).

Definition log_insert (data : string) (i : NetSnmpInterface) : NetSnmpInterface :=
  mkNetSnmpInterface (_trap_count i) (_logged i +:+ data +:+ newline) (mock_traps i).

Definition log_contains (fragment : string) (i : NetSnmpInterface) : bool :=
  match String.index 0 fragment (_logged i) with Some _ => true | None => false end.

(** [trap_complete]: each wait on the condition variable lets some [trap_signal]s happen
    and returns 0 or an error; [None] while it waits. The count starts again. *)
Fixpoint trap_complete (count : Z) (waits : list (nat * Z)) (i : NetSnmpInterface)
    : option (bool * NetSnmpInterface) :=
  let reset i := mkNetSnmpInterface 0 (_logged i) (mock_traps i) in
  if _trap_count i =? count then Some (true, reset i)
  else
    match waits with
    | [] => None
    | (signals, rc) :: waits' =>
      let i' := Nat.iter signals trap_signal i in
      if rc =? 0 then trap_complete count waits' i' else Some (false, reset i')
    end.

(** The functions of Net-SNMP it replaces; [buf] is what [vsnprintf] would print. *)
Definition fake_netsnmp_table_array_helper_handler : Z := 0.
Definition fake_netsnmp_create_handler_registration : bool := true.
Definition fake_netsnmp_table_container_register : Z := 0.

Definition fake_send_v2trap (t : v2trap) (p : option NetSnmpInterface) : option NetSnmpInterface :=
  match p with
  | Some i => Some (trap_signal (mkNetSnmpInterface (_trap_count i) (_logged i) (mock_traps i ++ [t])))
  | None => None
  end.

Definition fake_snmp_log (buf : string) (p : option NetSnmpInterface) : Z * option NetSnmpInterface :=
  match p with
  | Some i => (0, Some (log_insert (String.substring 0 1023 buf) i))
  | None => (0, None)
  end.

(** [MockAlarmScheduler]: the scheduler of a fixed host whose requests are mocked. *)
Definition MockAlarmScheduler_make (defs : AlarmTableDefs) (snmp_notifications : notification_set)
    (active : active_table) `{TimerHeap} : AlarmScheduler :=
  AlarmScheduler_make defs snmp_notifications "hostname1" active.

Lemma iter_trap_signal n i : _trap_count (Nat.iter n trap_signal i) = _trap_count i + Z.of_nat n.
Proof. induction n as [|n IH]; [cbn; lia|]. rewrite Nat.iter_succ. cbn [trap_signal _trap_count]. lia. Qed.

(** A test that waits for traps goes on with success exactly when their number is reached
    at the end of a wait, and leaves none counted. *)
Lemma trap_complete_counts count waits i i' :
  trap_complete count waits i = Some (true, i') ->
  _trap_count i' = 0 /\
  exists k, count = _trap_count i + Z.of_nat (sum_list (take k waits.*1)) /\ Forall (fun w => w.2 = 0) (take k waits).
Proof.
  revert i. induction waits as [|[n rc] waits IH]; intros i; cbn [trap_complete].
  - destruct (Z.eqb_spec (_trap_count i) count); [|done]. intros [= <-]. split; [done|]. exists 0%nat. cbn. split; [lia|constructor].
  - destruct (Z.eqb_spec (_trap_count i) count).
    + intros [= <-]. split; [done|]. exists 0%nat. cbn. split; [lia|constructor].
    + destruct (Z.eqb_spec rc 0) as [->|]; [|done]. intros (Hz & k & Hk & Hf)%IH. split; [done|].
      exists (S k). rewrite iter_trap_signal in Hk. cbn. split; [lia|by constructor].
Qed.

(** Waiting for fewer traps than have come fails: the count must be met exactly. *)
Example trap_complete_overshoot :
  trap_complete 1 [(2%nat, 0); (0%nat, 110)] NetSnmpInterface_make = Some (false, NetSnmpInterface_make).
Proof. reflexivity. Qed.
