(* ===== verification/SchedulerTests.v ===== *)
(** The scheduler, definition and listener tests of the repository, run on the model:
    [src/ut/alarm_scheduler_test.cpp], [src/ut/alarm_table_defs_test.cpp] and
    [src/ut/alarm_req_listener_test.cpp], with the alarm files they load
    ([src/ut/valid_alarms], [src/ut/multi_definition], [src/ut/invalid_json]).

    The two matchers are functions on the traps of TrapSender.v, a test is its
    steps, and it passes when its expectations are met by computation. The heap
    thread runs when the tests wait for traps, or after every step. *)

From S2P Require Export UnitTests ReqListener.

Import Sample Reference ReferenceHeap ZmqSample.

(** ** The definitions *)

Definition MINOR : Z := 5.

(** A level of the files, which give no extended texts: the parser then takes the
    ordinary ones. *)
Definition file_level (sev : Z) (details description : string) : SeverityDetails :=
  mkSeverityDetails sev description details "Cause" "Effect" "Action" details description.

Definition process_level (sev : Z) : SeverityDetails :=
  if sev =? CLEARED then file_level sev "The process has been restored to normal operation." "Process failure cleared"
  else file_level sev "Monit has detected that the process has failed." "Process failure".

Definition process_alarm (index : Z) (sevs : list Z) : AlarmDefinition :=
  mkAlarmDefinition "PROCESS_FAIL" index SOFTWARE_ERROR (process_level <$> sevs).

Definition valid_alarms : list AlarmDefinition :=
  [process_alarm 1000 [CLEARED; CRITICAL]; process_alarm 1001 [CLEARED; CRITICAL];
   process_alarm 1002 [CLEARED; CRITICAL]; process_alarm 2000 [CLEARED; MINOR; MAJOR]].

Definition INDETERMINATE : Z := 2.

Definition multi_definition : list AlarmDefinition :=
  [mkAlarmDefinition "NAME" 1000 SOFTWARE_ERROR
     [file_level CLEARED "Details" "Description"; file_level INDETERMINATE "Details" "Description"];
   mkAlarmDefinition "NAME" 1000 SOFTWARE_ERROR
     [file_level CLEARED "Details" "Description"; file_level CRITICAL "Details" "Description"]].

(** What the parser makes of the files. *)
Definition ut_json : JsonAlarms := fun path =>
  if bool_decide (path = "/valid_alarms/valid_alarms.json") then inr valid_alarms
  else if bool_decide (path = "/multi_definition/multi_definition.json") then inr multi_definition
  else inl "Invalid JSON file".

Definition ut_dir (name : string) : option (list dir_entry) :=
  Some [mkDirEntry true ".json" ("/" +:+ name +:+ "/" +:+ name +:+ ".json")].

Definition load (dir : option (list dir_entry)) : bool * AlarmTableDefs :=
  @initialize ut_json dir no_defs.

(** *** [AlarmTableDefsTest] *)

Example InitializationNoFiles : (load None).1 = false.
Proof. reflexivity. Qed.

Example InitializationMultiDef : (load (ut_dir "multi_definition")).1 = false.
Proof. vm_compute. reflexivity. Qed.

Example InitializationInvalidJson : (load (ut_dir "invalid_json")).1 = false.
Proof. vm_compute. reflexivity. Qed.

Definition ut_defs : AlarmTableDefs := (load (ut_dir "valid_alarms")).2.

Example ValidTableDefLookup :
  let _def := get_definition ut_defs 1000 CRITICAL in
  (load (ut_dir "valid_alarms")).1 = true /\ is_valid _def = true /\ state _def = Some 6 /\
  alarm_cause _def = SOFTWARE_ERROR /\ name _def = "PROCESS_FAIL" /\ description _def = "Process failure" /\
  String.prefix "Monit has detected that the process has failed" (details _def) = true /\
  cause _def = "Cause" /\ effect _def = "Effect" /\ AlarmDefs.action _def = "Action" /\
  String.prefix "Monit has detected that the process has failed" (extended_details _def) = true /\
  extended_description _def = "Process failure".
Proof. vm_compute. split_and!; reflexivity. Qed.

Example InvalidTableDefLookup : is_valid (get_definition ut_defs 0 0) = false.
Proof. vm_compute. reflexivity. Qed.

(** ** The matchers *)

(** What [MatchAndExplain] answers; [None] is the use of a missing or indeterminate value. *)
Definition trap_matcher : Type := v2trap -> option bool.

(** [vl->val.objid[k]] and the string of the [n]th variable. *)
Definition objid_at (n k : nat) (t : v2trap) : option Z :=
  vb ← trap_vars t !! n;
  match vb_value vb with
  | ASN_OBJECT_ID o => o !! k
  | _ => None
  end.

Definition string_at (n : nat) (t : v2trap) : option (list Z) :=
  vb ← trap_vars t !! n;
  match vb_value vb with
  | ASN_OCTET_STR s => Some s
  | _ => None
  end.

Inductive TrapType := UNDEFINED | CLEAR | ACTIVE.

#[export] Instance TrapType_eq_dec : EqDecision TrapType.
Proof. solve_decision. Defined.

Definition LAST_TRAP_OID_OCTET : nat := 8.
Definition ALARM_IDX_ROW_OID_OCTET : nat := 13.

(** [RFCTrapVarsMatcher] *)
Definition RFCTrapVars (trap_type : TrapType) (alarm_index : Z) : trap_matcher := fun t =>
  last_octet ← objid_at 0 LAST_TRAP_OID_OCTET t;
  let type := if last_octet =? 3 then CLEAR else if last_octet =? 2 then ACTIVE else UNDEFINED in
  index ← objid_at 1 ALARM_IDX_ROW_OID_OCTET t;
  Some (bool_decide (trap_type = type) && (alarm_index =? u32 index)).

(** [EnterpriseTrapVarsMatcher]: of the identifiers it looks at the first arc only,
    and it does not compare the severity it reads. *)
Definition EnterpriseTrapVars (trap_type : Z) (MIB_version name : string) (alarm_oid resource_id : Z)
    (severity description details cause effect action : string) : trap_matcher := fun t =>
  trap_type' ← objid_at 0 0 t;
  MIB_version' ← string_at 1 t;
  name' ← string_at 2 t;
  alarm_oid' ← objid_at 3 0 t;
  resource_id' ← objid_at 4 0 t;
  severity' ← string_at 5 t;
  description' ← string_at 6 t;
  details' ← string_at 7 t;
  cause' ← string_at 8 t;
  effect' ← string_at 9 t;
  action' ← string_at 10 t;
  Some (bool_decide (octets description = description') && bool_decide (octets details = details') &&
        bool_decide (octets cause = cause') && bool_decide (octets effect = effect') &&
        bool_decide (octets action = action') && (resource_id =? resource_id') && (alarm_oid =? alarm_oid') &&
        bool_decide (octets name = name') && bool_decide (octets MIB_version = MIB_version') &&
        (trap_type =? trap_type')).

(** ** The tests of the scheduler *)

(** A test between two steps: the scheduler, the time, which only the test advances, the
    expectations, newest first, with the calls they have left, and the traps seen. *)
Record test_state := mkTestState {
  scheduler : AlarmScheduler;
  time_ms : Z;
  expectations : list (trap_matcher * nat);
  traps_seen : nat;
}.

(** The steps of a test. *)
Inductive test_step :=
| CollectCall (m : trap_matcher)
| IssueAlarm (identifier : string)
| SyncAlarms
| TrapComplete (count : nat)
| AdvanceTime (ms : Z)
| LastTrapTimedOut.

(** A call of the mock: the newest expectation that matches takes it, and must not have
    had all its calls. *)
Fixpoint mock_call (t : v2trap) (es : list (trap_matcher * nat)) : option (list (trap_matcher * nat)) :=
  match es with
  | [] => None
  | (m, n) :: es' =>
    matched ← m t;
    if matched : bool then match n with O => None | S n' => Some ((m, n') :: es') end
    else es'' ← mock_call t es'; Some ((m, n) :: es'')
  end.

Fixpoint mock_calls (ts : list v2trap) (es : list (trap_matcher * nat)) : option (list (trap_matcher * nat)) :=
  match ts with
  | [] => Some es
  | t :: ts' => es' ← mock_call t es; mock_calls ts' es'
  end.

(** A pass of the heap thread, whose traps the mock gets. *)
Definition heap_runs (s : test_state) : option test_state :=
  '(st, _) ← heap_sender_iteration 4 (time_ms s) (fun n => noon (Z.of_nat n)) (scheduler s);
  es ← mock_calls (drop (length (sent_traps (scheduler s))) (sent_traps st)) (expectations s);
  Some (mkTestState st (time_ms s) es (traps_seen s)).

Definition with_scheduler (st : AlarmScheduler) (s : test_state) : test_state :=
  mkTestState st (time_ms s) (expectations s) (traps_seen s).

(** One step; [None] when the test fails or crashes. [TrapComplete] takes the number of
    traps since the last one. *)
Definition test_step_run (step : test_step) (s : test_state) : option test_state :=
  match step with
  | CollectCall m => Some (mkTestState (scheduler s) (time_ms s) ((m, 1%nat) :: expectations s) (traps_seen s))
  | IssueAlarm identifier =>
    st ← issue_alarm "test" identifier (time_ms s) (scheduler s);
    Some (with_scheduler st s)
  | SyncAlarms => st ← sync_alarms (fun _ => time_ms s) (scheduler s); Some (with_scheduler st s)
  | TrapComplete count =>
    s' ← heap_runs s;
    if Nat.eqb (length (sent_traps (scheduler s'))) (traps_seen s' + count) then
      Some (mkTestState (scheduler s') (time_ms s') (expectations s') (length (sent_traps (scheduler s'))))
    else None
  | AdvanceTime ms => Some (mkTestState (scheduler s) (time_ms s + ms) (expectations s) (traps_seen s))
  | LastTrapTimedOut =>
    t ← last (sent_traps (scheduler s));
    st ← alarm_trap_send_callback NETSNMP_CALLBACK_OP_TIMED_OUT (trap_correlator t) (time_ms s) (scheduler s);
    Some (with_scheduler st s)
  end.

(** A test, with the heap thread run after every step when [eager]: but not by the
    advance of time alone, after which the tests signal its condition variable. *)
Definition wakes_heap (step : test_step) : bool :=
  match step with AdvanceTime _ => false | _ => true end.

Fixpoint test_run (eager : bool) (steps : list test_step) (s : test_state) : option test_state :=
  match steps with
  | [] => Some s
  | step :: steps' =>
    s' ← test_step_run step s;
    s'' ← (if eager && wakes_heap step then heap_runs s' else Some s');
    test_run eager steps' s''
  end.

(** [AlarmSchedulerTest]: the scheduler of the alarms above, over an empty active table. *)
Definition fixture (notifications : notification_set) : test_state :=
  mkTestState (AlarmScheduler_make ut_defs notifications "hostname1" SetUpTestCase.2) 1000000 [] 0.

(** Every expectation has been met, whenever the heap thread ran. *)
Definition met (notifications : notification_set) (steps : list test_step) (eager : bool) : bool :=
  match test_run eager steps (fixture notifications) with
  | Some s => forallb (fun e => Nat.eqb e.2 0) (expectations s)
  | None => false
  end.

Definition passes (notifications : notification_set) (steps : list test_step) : bool :=
  met notifications steps false && met notifications steps true.

Definition rfc : notification_set := [(RFC3877, tt)].
Definition enterprise : notification_set := [(ENTERPRISE, tt)].
Definition both : notification_set := [(RFC3877, tt); (ENTERPRISE, tt)].

Definition enterprise_1000 : trap_matcher :=
  EnterpriseTrapVars 1 "201608081100" "PROCESS_FAIL" 1 0 "6" "Process failure"
    "Monit has detected that the process has failed." "Cause" "Effect" "Action".

(** [TEST_F(AlarmSchedulerTest, SetRFCAlarm)] *)
Example SetRFCAlarm :
  passes rfc [CollectCall (RFCTrapVars ACTIVE 1000); IssueAlarm "1000.3"; TrapComplete 1] = true.
Proof. vm_compute. reflexivity. Qed.

(** [TEST_F(AlarmSchedulerTest, SetEnterpriseAlarm)] *)
Example SetEnterpriseAlarm :
  passes enterprise [CollectCall enterprise_1000; IssueAlarm "1000.3"; TrapComplete 1] = true.
Proof. vm_compute. reflexivity. Qed.

(** [TEST_F(AlarmSchedulerTest, SetBothAlarms)]: each of the two traps sent is the one an
    expectation asks for. But the mock offers the second to the newer expectation,
    for the RFC 3877 trap, first, whose matcher then reads arc 13 of the 12 octets
    of the MIB version: it is only by what lies there that the test can pass. *)
Example SetBothAlarms :
  let steps := [CollectCall enterprise_1000; CollectCall (RFCTrapVars ACTIVE 1000); IssueAlarm "1000.3"; TrapComplete 2] in
  passes both steps = false /\
  match send_trap (mkAlarmTrapSender both "hostname1") (get_definition ut_defs 1000 CRITICAL) with
  | Some [rfc_trap; enterprise_trap] =>
    RFCTrapVars ACTIVE 1000 rfc_trap = Some true /\ RFCTrapVars ACTIVE 1000 enterprise_trap = None /\
    enterprise_1000 enterprise_trap = Some true
  | _ => False
  end.
Proof. split; [vm_compute; reflexivity|]. vm_compute. by split_and!. Qed.

(** [TEST_F(AlarmSchedulerTest, ClearAlarm)] *)
Example ClearAlarm :
  passes rfc [CollectCall (RFCTrapVars CLEAR 1000); IssueAlarm "1000.1"; TrapComplete 1] = true.
Proof. vm_compute. reflexivity. Qed.

(** [TEST_F(AlarmSchedulerTest, SetAndClearAlarm)] *)
Example SetAndClearAlarm :
  passes rfc [CollectCall (RFCTrapVars ACTIVE 1000); IssueAlarm "1000.3"; TrapComplete 1;
              IssueAlarm "1000.1"; AdvanceTime ALARM_REDUCED_DELAY;
              CollectCall (RFCTrapVars CLEAR 1000); TrapComplete 1] = true.
Proof. vm_compute. reflexivity. Qed.

(** [TEST_F(AlarmSchedulerTest, SetAlarmRepeatedState)] *)
Example SetAlarmRepeatedState :
  passes rfc [CollectCall (RFCTrapVars ACTIVE 1000); IssueAlarm "1000.3"; IssueAlarm "1000.3"; TrapComplete 1] = true.
Proof. vm_compute. reflexivity. Qed.

(** [TEST_F(AlarmSchedulerTest, SyncAlarms)] *)
Example SyncAlarms_passes :
  let expected := [CollectCall (RFCTrapVars ACTIVE 1000); CollectCall (RFCTrapVars CLEAR 1001);
                   CollectCall (RFCTrapVars CLEAR 1002)] in
  passes rfc (expected ++ [IssueAlarm "1000.3"; IssueAlarm "1001.1"; IssueAlarm "1002.1"; TrapComplete 3] ++
              expected ++ [SyncAlarms; TrapComplete 3]) = true.
Proof. vm_compute. reflexivity. Qed.

(** [TEST_F(AlarmSchedulerTest, AlarmFlicker)] *)
Example AlarmFlicker :
  passes rfc ([CollectCall (RFCTrapVars ACTIVE 1000); IssueAlarm "1000.3"; TrapComplete 1;
               CollectCall (RFCTrapVars CLEAR 1000)] ++
              mjoin (replicate 10 [IssueAlarm "1000.3"; IssueAlarm "1000.1"]) ++
              [AdvanceTime ALARM_REDUCED_DELAY; TrapComplete 1]) = true.
Proof. vm_compute. reflexivity. Qed.

Definition any_trap : trap_matcher := fun _ => Some true.

(** [TEST_F(AlarmSchedulerTest, AlarmFailedToSend)] *)
Example AlarmFailedToSend :
  passes rfc [CollectCall any_trap; IssueAlarm "1000.3"; TrapComplete 1; LastTrapTimedOut;
              CollectCall (RFCTrapVars ACTIVE 1000); AdvanceTime ALARM_RETRY_DELAY; TrapComplete 1] = true.
Proof. vm_compute. reflexivity. Qed.

(** [TEST_F(AlarmSchedulerTest, AlarmFailedToSendClearedInInterval)] *)
Example AlarmFailedToSendClearedInInterval :
  passes rfc [CollectCall any_trap; IssueAlarm "1000.3"; TrapComplete 1; IssueAlarm "1000.1"; LastTrapTimedOut;
              CollectCall (RFCTrapVars CLEAR 1000); AdvanceTime ALARM_REDUCED_DELAY; TrapComplete 1] = true.
Proof. vm_compute. reflexivity. Qed.

(** [TEST_F(AlarmSchedulerTest, InvalidAlarmIdentifier)] and [UnknownAlarmIdentifier]: no
    call of the mock is expected, and the triggers are rejected. *)
Example InvalidAlarmIdentifier :
  passes rfc [IssueAlarm "not_digits.3"] = true /\
  validate_alarm_trigger "not_digits.3" (scheduler (fixture rfc)) = None.
Proof. vm_compute. by split. Qed.

Example UnknownAlarmIdentifier :
  passes rfc [IssueAlarm "6000.3"] = true /\ validate_alarm_trigger "6000.3" (scheduler (fixture rfc)) = None.
Proof. vm_compute. by split. Qed.

(** ** What the tests do not show *)

(** [TEST_F(AlarmSchedulerTest, SetMultiAlarmIncreasingState)]: its steps up to the last
    trap, which it expects at once. *)
Definition SetMultiAlarmIncreasingState : list test_step :=
  [CollectCall (RFCTrapVars CLEAR 2000); IssueAlarm "2000.1"; TrapComplete 1;
   CollectCall (RFCTrapVars ACTIVE 2000); IssueAlarm "2000.5"; TrapComplete 1;
   CollectCall (RFCTrapVars ACTIVE 2000); IssueAlarm "2000.4"].

(** From MINOR (5) to MAJOR (4) the scheduler sees a reduction: the last trap is not
    sent while the time of the test stands still, but 30 seconds later. *)
Example increase_to_major_waits :
  passes rfc (SetMultiAlarmIncreasingState ++ [TrapComplete 1]) = false /\
  passes rfc (SetMultiAlarmIncreasingState ++ [TrapComplete 0]) = false /\
  passes rfc (SetMultiAlarmIncreasingState ++ [TrapComplete 0; AdvanceTime ALARM_REDUCED_DELAY; TrapComplete 1]) = true.
Proof. vm_compute. by split_and!. Qed.

(** The enterprise trap of the test has neither the type nor the severity the test
    names: the matcher compares the first arc of the type and no severity. *)
Example enterprise_trap_differs :
  match send_enterprise_trap "hostname1" (get_definition ut_defs 1000 CRITICAL) with
  | Some t =>
    enterprise_1000 t = Some true /\
    trap_vars t !! 0%nat = Some (mkVarbind snmp_trap_oid (ASN_OBJECT_ID [1;3;6;1;4;1;19444;12;2;0;1])) /\
    string_at 5 t = Some (octets "CRITICAL")
  | None => False
  end.
Proof. vm_compute. by split_and!. Qed.

(** ** The tests of the request listener *)

(** [TEST_F(AlarmReqListenerTest, ..)]: the requests an [Alarm] makes when it is set or
    cleared, a resync and a request that is neither, as the scheduler gets them. *)
Example IssueAlarms st now times :
  serve ["issue-alarm"; "sprout"; "1000.3"] now times st = issue_alarm "sprout" "1000.3" now st /\
  serve ["issue-alarm"; "homestead"; "1001.1"] now times st = issue_alarm "homestead" "1001.1" now st.
Proof. by split. Qed.

Example SyncAlarms_request st now times : serve ["sync-alarms"] now times st = sync_alarms times st.
Proof. reflexivity. Qed.

Example InvalidZmqRequest st now times : serve ["invalid-request"] now times st = Some st.
Proof. reflexivity. Qed.

(** [AlarmReqListenerZmqErrorTest]: the results of the mocked calls, and of those of the
    system that are not mocked. *)
Definition returns (rc : Z) : zmq_result := mkZmqResult rc 0 "" 0.

Definition start_with (s : script) : option bool :=
  (fun r => r.1.1) <$> start_listener s AlarmReqListener_make.

(** The results up to the bind: the context, the socket, its option, [remove], [zmq_bind]
    and [chmod]; then of [pthread_create]. *)
Definition bound : script := [returns 1; returns 2; returns 0; returns 0; returns 0; returns 0].
Definition started : script := bound ++ [returns 0].

Example CreateContext : start_with [returns 0] = Some false.
Proof. reflexivity. Qed.

Example CreateSocket : start_with [returns 1; returns 0] = Some false.
Proof. reflexivity. Qed.

Example BindSocket : start_with [returns 1; returns 2; returns 0; returns 0; returns (-1)] = Some false.
Proof. reflexivity. Qed.

(** The thread of the tests that follow, each of whose scripts ends in a failure. *)
Definition ends (s : script) : Prop :=
  start_with started = Some true /\ listener_thread s = [CloseSocket; PostTermSem].

Example MsgReceive : ends [returns 0; returns (-1)].
Proof. by split. Qed.

Example GetSockOpt : ends [returns 0; returns 0; returns (-1)].
Proof. by split. Qed.

Example MsgClose : ends [returns 0; returns 0; returns 0; returns (-1)].
Proof. by split. Qed.

(** The reply is not checked, so the thread goes on to the next [zmq_msg_init]. *)
Example Send :
  listener_thread [returns 0; returns 0; returns 0; returns 0; returns (-1); returns (-1)] =
    [Serve [""]; Reply "ok" (Some (-1)); CloseSocket; PostTermSem].
Proof. reflexivity. Qed.

(** Of [CloseSocket] and [DestroyContext]: the failure of [zmq_close] or of
    [zmq_ctx_destroy] is only logged, and [stop] still forgets the context. *)
Example CloseSocket_and_DestroyContext :
  ends [returns (-1)] /\
  (let stopped := start_listener started AlarmReqListener_make ≫= fun r => stop_listener [returns (-1)] r.1.2 in
   fst <$> stopped = Some (mkListenerSockets false true)).
Proof. by repeat split. Qed.
